(* ===== verification/_CoqProject ===== *)
-Q . S2P
Prelude.v
GoLib.v
Float.v
Metrics.v
Effects.v
Track.v
Json.v
AwsApi.v
IPPermissions.v
Tags.v
Config.v
Cloud.v
SecurityGroups.v
SecurityGroupFacts.v
Subnets.v
NetIP.v
Regex.v
Sha.v
TargetGroups.v
TargetGroupFacts.v
NlbRules.v
Nlb.v
NlbFacts.v
NlbIsolation.v
NlbListeners.v
Instances.v
InstanceFacts.v
Lookup.v
Elb.v
ElbFacts.v
ElbState.v
LoadBalancer.v
LoadBalancerFacts.v
EnsureState.v
UpdateState.v
Routes.v
Batcher.v
Batches.v
TagBatches.v
Topology.v
NodeAddresses.v
InstancesV2.v
Md5.v
Workqueue.v
TaggingController.v
TaggingFacts.v
Ecr.v
EcrFacts.v
Backoff.v
Middleware.v
Sdk.v
Startup.v
StartupFacts.v
Manager.v
Transport.v
Fakes.v
