(* ===== verification/Prelude.v ===== *)
(** * The AWS cloud provider of Kubernetes: a verified model

    This library models the Go program under [src/pkg/providers/v1] (the cloud provider),
    [src/pkg/controllers/tagging] (the tagging controller),
    [src/cmd/aws-cloud-controller-manager] (the command that runs both) and
    [src/cmd/ecr-credential-provider] (a plugin of the kubelet), and proves what makes them
    correct.  Definitions carry the names of the functions they translate; a definition whose
    name is not a function of the source is a named part of one (a loop body, a branch).

    ** The program

    Kubernetes asks the provider to keep load balancers, routes and instance metadata in step
    with its objects; the provider answers with calls to the services of AWS.  Its parts:

    - the _load-balancer interface_ ([EnsureLoadBalancer], [UpdateLoadBalancer],
      [EnsureLoadBalancerDeleted], [GetLoadBalancer]) checks a Service and hands it to the code
      for _classic_ or _network load balancers_, which use _subnets_, _security groups_, _target
      groups_ and the _instances_ behind them;
    - the _instances interface_ answers the node controllers, with _node addresses_, compute
      _variants_ (Fargate) and the network _topology_ of instances;
    - the _routes_ interface keeps the route table of the cluster;
    - _request batching_ groups concurrent requests, _retry delays_ slow down all requests of a
      region when AWS refuses some, and the _EC2 client_ joins pages of listings;
    - everything that belongs to a cluster is recognised by its _cluster tags_;
    - _start-up_ reads the configuration and builds the provider;
    - the _tagging controller_ tags the instances of nodes from a work queue;
    - the _manager_ starts the provider and the controllers;
    - the _credential provider_ turns the image of a pod into a user and a password for ECR.

    ** How programs, errors and Go are modelled

    - A function that calls a service is a tree of calls, [Effects.prog]; [wp] runs it against
      every possible answer to every call, [run] against one handler.  Theorems that use [wp]
      therefore hold whatever the services answer, errors and interference included.  A panic
      is an outcome of its own.
    - What a service keeps is an abstract state where a contract is about it ([Track]): a
      relation says which answers fit a state and how calls change it; a reference service
      that answers from such a state shows that the contract is not empty.
    - Errors are the values of [GoLib.Errors.error]: a chain with API error codes, so that
      [errors.As], the texts and the loss of a chain by [%v] or [%q] are those of the code.
    - The order of [for range] over a map is an argument ([Prelude.GoRange]), and so is the sort
      of the standard library ([GoLib.GoSort], with insertion sort for up to twelve elements as
      Go has it) and the interleaving of goroutines ([Batches.GoSched], the step relations of
      [Batcher] and [TaggingController]): theorems hold for all of them.
    - Machine integers are [Z] with their wrap-around written out ([GoLib.Strconv.to_int32],
      [Ecr.to_int64]); float32 and float64 are integers that count units of the format, rounded
      as IEEE 754 asks ([Float]).
    - Pointers that may be nil are options, and their dereference may panic; slices that
      distinguish nil are [GoLib.slice].
    - Parts of the standard library the program relies on are written out: string functions,
      [strconv], [encoding/json] of the SDK's structures ([Json]), [net/netip] ([NetIP]),
      [regexp] ([Regex], with a proof that the matcher decides the language), SHA-1 and SHA-256
      ([Sha]), MD5 ([Md5]), base64, [net/url] as far as it is used ([Ecr], [Instances]).
    - State that operations share is passed explicitly: the caches of zones and instances, the
      store of the topology manager, the delayers of the regions.

    ** Files

    Foundations:
    - [Prelude]: this text, iteration order, shared lemmas and the hint database [cloud];
    - [GoLib], [Float], [Effects], [Track], [Json], [NetIP], [Regex], [Sha], [Md5], [Workqueue] (the rate
      limiting work queue of client-go): see above;
    - [AwsApi]: the data of the SDK and the calls of [iface.EC2] (iface/types.go), [ELB] and
      [ELBV2] (aws.go).

    Cloud provider, with the file of src/pkg/providers/v1 it models:
    - [IPPermissions]: sets_ippermissions.go and the comparison of rules in aws.go;
    - [Tags]: tags.go;
    - [Config]: config/config.go;
    - [Cloud]: annotations, their parsers and aws_validations.go;
    - [SecurityGroups], [SecurityGroupFacts]: security groups of aws.go and aws_loadbalancer.go;
    - [Subnets]: zones.go and the subnet functions of aws.go;
    - [TargetGroups], [TargetGroupFacts]: target groups of aws_loadbalancer.go;
    - [NlbRules], [Nlb], [NlbFacts], [NlbIsolation], [NlbListeners]: network load balancers
      ([ensureLoadBalancerv2]), their rules on the instances and their listeners;
    - [Instances], [InstanceFacts], [Lookup]: instances.go and the lookups of aws.go, and which
      instance EC2 gives for an id and for the name of a node;
    - [Elb], [ElbFacts], [ElbState]: classic load balancers ([ensureLoadBalancer]);
    - [LoadBalancer], [LoadBalancerFacts], [EnsureState], [UpdateState]: the four operations of
      the interface in aws.go;
    - [Routes]: aws_routes.go;
    - [Batcher], [Batches], [TagBatches]: batcher/batcher.go, the executors of
      create_tags_batch.go, delete_tags_batch.go and describe_instance_batch.go, and the
      batcher running them;
    - [Topology]: topology.go;  [NodeAddresses]: the addresses of aws.go, and variant/;
    - [InstancesV2]: instances_v2.go, aws_instance.go and the zone and existence functions of
      aws.go;
    - [Metrics]: aws_metrics.go;  [Sdk]: aws_ec2.go;
    - [Backoff], [Middleware]: retry_handler.go and the middleware that aws_sdk.go gives a
      client, with that of log_handler.go and aws_metrics.go;
    - [Startup], [StartupFacts]: the constructors of aws.go and aws_sdk.go, aws_utils.go and
      services/aws_sts.go;
    - [Transport]: the headers of the client of STS (services/aws_sts.go) and the logging
      middleware outside of the Finalize step (log_handler.go, aws_sdk.go);
    - [Fakes]: aws_fakes.go, the services of the tests.

    Other programs:
    - [TaggingController], [TaggingFacts]: controllers/tagging/tagging_controller.go, with the
      metrics of metrics.go, and controllers/options;
    - [Manager]: cmd/aws-cloud-controller-manager/main.go, the controller wrapper of
      controllers/tagging, and what they use of k8s.io/cloud-provider;
    - [Ecr], [EcrFacts]: cmd/ecr-credential-provider.

    A file whose name ends in [Facts] holds the proofs about the one before it; the others hold
    their own.

    ** What the theorems show

    - _Nothing of others is touched._  A resource tagged for a cluster is recognised by it and
      by no other ([Tags.cluster_isolation]); deleting a load balancer deletes only what is
      described under its name or tagged for the cluster, in the right order
      ([LoadBalancerFacts.EnsureLoadBalancerDeleted_safe]); the rules of instances that serve
      other load balancers stay, where EC2 reports their sources apart
      ([NlbIsolation.updateInstanceSecurityGroupsForNLB_isolated]); a
      route is added only to a table of the cluster ([Routes.CreateRoute_safe]); starting the
      provider only reads ([StartupFacts.newProvider_ready]), and the manager runs only with a
      provider that knows its cluster ([Manager.cloudInitializer_admits]); a node is reported as gone only
      on evidence ([InstancesV2.InstanceExists_evidence]).
    - _Reconciliation reaches its goal._  Against an abstract state of the service, a run that
      ends without an error leaves a network load balancer with exactly the wanted listeners
      ([NlbListeners.ensureLoadBalancerv2_exact]) and a classic one with exactly the wanted
      subnets, security groups and listeners ([ElbState.ensureLoadBalancer_exact]); a run that
      fails half-way loses none that is wanted; for the operation of the interface, the
      wanted listeners are those of the ports of the Service
      ([EnsureState.EnsureLoadBalancer_exact]), an update of a classic load balancer changes
      its instances only ([UpdateState.UpdateLoadBalancer_exact]), and a deletion that ends
      without an error leaves none ([UpdateState.EnsureLoadBalancerDeleted_exact]).  Targets, rules, instances, labels and routes
      are exactly the wanted ones when the calls succeed ([TargetGroupFacts.ensureTargetGroupTargets_exact],
      [SecurityGroupFacts.setSecurityGroupIngress_exact],
      [ElbFacts.ensureLoadBalancerInstances_exact],
      [InstancesV2.getAdditionalLabels_exact], [Routes.ListRoutes_exact]), and a second run
      changes nothing ([TaggingFacts.tagging_converges] and the convergence lemmas), the attributes of classic
      load balancers apart ([ElbState.syncAttributes_modifies]).  A node whose instance EC2
      knows late is tagged in the end ([Fakes.tagged_when_found]).
    - _Concurrency._  The batcher answers every request once, with its own result, and does not
      get stuck ([Batcher.batcher_exactly_once], [Batcher.batcher_live]); with the executors of
      the provider, its answers tell what EC2 answered for the instance and the tags of the
      call ([TagBatches.batched_createTags]); the work queue never
      gives an item to two workers and comes to rest ([TaggingFacts.tagging_exclusive],
      [TaggingFacts.tagging_comes_to_rest]).
    - _Refinement._  Rule sets implement finite sets ([IPPermissions.IPPermissionSet_refines]);
      the EC2 client over pages implements the interface over whole listings
      ([Sdk.awsSdkEC2_refines]); around the loop of attempts of the SDK the middleware of a
      client delays, answers and counts once per call ([Middleware.invokeOperation_accounts]).
    - _Bounds, round trips, errors._  Delays and cache durations stay in their limits
      ([Middleware.backoff_bounded], [EcrFacts.getCacheDuration_bounds]); names and health checks
      satisfy the limits of the API; what is written is read back ([Tags.initFromTags_roundtrip],
      [InstanceFacts.MapToAWSInstanceID_roundtrip], [EcrFacts.credentialsOf_roundtrip]); what
      cannot be served is refused before any call ([LoadBalancerFacts.EnsureLoadBalancer_admits]).

    Where the code does not do what it means to, an [Example] computes the case, for instance
    [Batches.execCreateTagsBatch_retries_all], [InstancesV2.fargate_shutdown],
    [NlbIsolation.isolated_needs_separate_rules], [Backoff.concurrent_delay], [TaggingFacts.checksum_shared].

    ** Fuel and bounds

    - Repetition in [Regex] uses the length of the text, since every round consumes a byte;
      [namesLoop] of [Instances] uses the number of names, of which every round takes at least
      one; [chunkLoop] of [TargetGroups] the number of targets.
    - [ExponentialBackoff] runs at most its number of steps, as in the code;
      [PollUntilContextTimeout] runs as often as the clock allows, which is an argument.
    - [ensureSecurityGroupLoop] counts the thirty attempts of the code.
    - [Sdk.pages] has a number of pages as fuel: [awsSdkEC2_refines] shows that as many as the
      service has are enough.
    - The step relations have no fuel: that they come to rest is proved with a measure.

    ** Not modelled

    - Events, most log lines, and the durations in the histograms of aws_metrics.go and
      tagging/metrics.go (that of the controller is an event of its programs): they do not
      influence the program.
    - Code outside the repository is a parameter, with its documented behaviour as a hypothesis
      where one is needed: the services, the parser of the configuration file (gcfg), regular
      expressions of the configuration, [math.Pow], the hash functions of the batchers, the
      serializers of the API machinery, the parts of [net/url] for user names and IP literals.
    - Construction of SDK clients beyond region, role, signing options and delayer; informer
      wiring, leader election, the parsing of flags and the loops of k8s.io/cloud-provider that
      run the controllers; tests, charts and documentation.
    - In [Fakes], slices that a caller keeps while a test changes them are not shared. *)

From stdpp Require Export base gmap strings pretty list fin_maps sorting sets.
From Stdlib Require Export ZArith Lia.

(** ** Iteration order of Go maps and sets

    [for k, v := range m] visits every entry of a map once, in an order the
    language leaves open.  The order is an argument of every definition that
    ranges over a map: [range_map] is any function that lists the entries of a
    map, [range_set] any function that lists the members of a set.  A theorem
    about such a definition holds for every instance, so for every order. *)
Class GoRange := {
  range_map : ∀ {K : Type} `{Countable K} {A : Type}, gmap K A → list (K * A);
  range_map_perm : ∀ {K : Type} `{Countable K} {A : Type} (m : gmap K A),
    range_map m ≡ₚ map_to_list m;
  range_set : ∀ {K : Type} `{Countable K}, gset K → list K;
  range_set_perm : ∀ {K : Type} `{Countable K} (s : gset K),
    range_set s ≡ₚ elements s
}.

(** The order of the underlying tries: the order the witnesses evaluate with. *)
Definition trie_order : GoRange := {|
  range_map K _ _ A m := map_to_list m;
  range_map_perm K _ _ A m := reflexivity _;
  range_set K _ _ s := elements s;
  range_set_perm K _ _ s := reflexivity _
|}.

(** The reverse order, a second instance. *)
Program Definition reverse_order : GoRange := {|
  range_map K _ _ A m := reverse (map_to_list m);
  range_set K _ _ s := reverse (elements s)
|}.
Next Obligation. intros. apply reverse_Permutation. Qed.
Next Obligation. intros. apply reverse_Permutation. Qed.

Section range.
Context {GR : GoRange}.

Lemma elem_of_range_map `{Countable K} {A} (m : gmap K A) k x :
  (k, x) ∈ range_map m ↔ m !! k = Some x.
Proof. rewrite range_map_perm. apply elem_of_map_to_list. Qed.

Lemma NoDup_fst_range_map `{Countable K} {A} (m : gmap K A) :
  NoDup (range_map m).*1.
Proof. rewrite range_map_perm. apply NoDup_fst_map_to_list. Qed.

Lemma length_range_map `{Countable K} {A} (m : gmap K A) :
  length (range_map m) = size m.
Proof. by rewrite range_map_perm, length_map_to_list. Qed.

Lemma range_map_empty `{Countable K} {A} : range_map (∅ : gmap K A) = [].
Proof.
  apply Permutation_nil_r. by rewrite range_map_perm, map_to_list_empty.
Qed.

Lemma elem_of_range_set `{Countable K} (s : gset K) x :
  x ∈ range_set s ↔ x ∈ s.
Proof. rewrite range_set_perm. apply elem_of_elements. Qed.

Lemma NoDup_range_set `{Countable K} (s : gset K) : NoDup (range_set s).
Proof. rewrite range_set_perm. apply NoDup_elements. Qed.

Lemma list_to_map_range_map `{Countable K} {A} (m : gmap K A) :
  list_to_map (range_map m) = m.
Proof.
  rewrite <-(list_to_map_to_list m) at 2.
  apply list_to_map_proper; [apply NoDup_fst_range_map|apply range_map_perm].
Qed.
End range.

(** ** Development-wide automation *)
Create HintDb cloud.
Create Rewrite HintDb cloud.
#[export] Hint Rewrite @elem_of_range_map @elem_of_range_set : cloud.

(** Split every conditional and match of the goal. *)
Ltac split_ifs := repeat (case_match || case_decide); simplify_eq/=.

(** ** Boolean predicates on lists *)
Lemma existsb_elem_of {A} (f : A → bool) (l : list A) :
  existsb f l = true ↔ ∃ x, x ∈ l ∧ f x = true.
Proof.
  rewrite existsb_exists. by setoid_rewrite list_elem_of_In.
Qed.

Lemma forallb_elem_of {A} (f : A → bool) (l : list A) :
  forallb f l = true ↔ ∀ x, x ∈ l → f x = true.
Proof.
  rewrite forallb_forall. by setoid_rewrite list_elem_of_In.
Qed.

Lemma existsb_false {A} (f : A → bool) (l : list A) :
  existsb f l = false ↔ ∀ x, x ∈ l → f x = false.
Proof.
  rewrite <-not_true_iff_false, existsb_elem_of. split.
  - intros Hn x Hx. destruct (f x) eqn:E; [|done]. exfalso. naive_solver.
  - intros Hf (x & Hx & E). rewrite Hf in E; done.
Qed.

Lemma filter_all {A} (P : A → Prop) `{∀ x, Decision (P x)} (l : list A) : Forall P l → filter P l = l.
Proof. induction 1 as [|x l Hx _ IH]; [done|]. by rewrite filter_cons_True, IH. Qed.

Lemma list_filter_fmap {A B} (f : A → B) (P : B → Prop) `{∀ y, Decision (P y)} (l : list A) :
  filter P (f <$> l) = f <$> filter (λ x, P (f x)) l.
Proof.
  induction l as [|x l IH]; [done|]. rewrite fmap_cons, !filter_cons, IH.
  by case_decide.
Qed.

(** A permutation of a list of at most one element is that list. *)
Lemma short_perm_eq {A} (l l' : list A) : l ≡ₚ l' → length l ≤ 1 → l = l'.
Proof.
  intros Hp Hl. destruct l as [|x [|y l]]; simpl in Hl; [| |lia].
  - by apply Permutation_nil_l.
  - by apply Permutation_singleton_l.
Qed.
