(* ===== verification/GoLib.v ===== *)
(** * The parts of the Go language and standard library the program uses

    Byte strings ([strings], [strconv]), error values ([errors], [fmt]) and the
    fallible results of functions that return [(T, error)].  A Go string is a
    sequence of bytes, here a [string] of 8-bit characters.  Case mapping
    ([ToLower], [ToUpper], [EqualFold]) is the ASCII part of Go's Unicode
    tables; bytes from 128 up are left alone. *)

From S2P Require Import Prelude.
From Stdlib Require Import Ascii.

(** ** Byte strings *)
Module Strings.

Definition len (s : string) : nat := String.length s.

(** [s[n:]] *)
Fixpoint drop (n : nat) (s : string) : string :=
  match n, s with
  | 0, _ => s
  | S n, String _ s => drop n s
  | S _, EmptyString => ""
  end.

(** [s[:n]], or the whole string where it is shorter; also [%.ns] of [fmt]. *)
Fixpoint take (n : nat) (s : string) : string :=
  match n, s with
  | 0, _ => ""
  | S n, String c s => String c (take n s)
  | S _, EmptyString => ""
  end.

Definition HasPrefix (s prefix : string) : bool := String.prefix prefix s.

Definition HasSuffix (s suffix : string) : bool :=
  (len suffix <=? len s) &&
  String.eqb (drop (len s - len suffix) s) suffix.

Definition TrimPrefix (s prefix : string) : string :=
  if HasPrefix s prefix then drop (len prefix) s else s.

Fixpoint Contains (s sub : string) : bool :=
  HasPrefix s sub ||
  match s with EmptyString => false | String _ s => Contains s sub end.

(** The number of non-overlapping instances of a one-byte separator. *)
Fixpoint CountByte (s : string) (c : ascii) : nat :=
  match s with
  | EmptyString => 0
  | String d s => (if Ascii.eqb d c then 1 else 0) + CountByte s c
  end.

Fixpoint IndexByte (s : string) (c : ascii) : option nat :=
  match s with
  | EmptyString => None
  | String d s => if Ascii.eqb d c then Some 0 else S <$> IndexByte s c
  end.

(** [strings.Split] with a one-byte separator. *)
Fixpoint Split (s : string) (sep : ascii) : list string :=
  match s with
  | EmptyString => [""]
  | String c s =>
     if Ascii.eqb c sep then "" :: Split s sep
     else match Split s sep with
          | [] => [String c ""]
          | h :: t => String c h :: t
          end
  end.

(** [strings.SplitN] with a one-byte separator and [n] at least 1. *)
Fixpoint SplitN (s : string) (sep : ascii) (n : nat) : list string :=
  match n with
  | 0 => []
  | 1 => [s]
  | S n =>
     match IndexByte s sep with
     | None => [s]
     | Some i => take i s :: SplitN (drop (S i) s) sep n
     end
  end.

Fixpoint Join (l : list string) (sep : string) : string :=
  match l with
  | [] => ""
  | [s] => s
  | s :: l => s +:+ sep +:+ Join l sep
  end.

Definition is_upper (c : ascii) : bool :=
  (65 <=? nat_of_ascii c) && (nat_of_ascii c <=? 90).
Definition is_lower (c : ascii) : bool :=
  (97 <=? nat_of_ascii c) && (nat_of_ascii c <=? 122).
Definition is_digit (c : ascii) : bool :=
  (48 <=? nat_of_ascii c) && (nat_of_ascii c <=? 57).
Definition is_alnum (c : ascii) : bool := is_upper c || is_lower c || is_digit c.

Fixpoint map_bytes (f : ascii → ascii) (s : string) : string :=
  match s with
  | EmptyString => ""
  | String c s => String (f c) (map_bytes f s)
  end.

Definition lower_byte (c : ascii) : ascii :=
  if is_upper c then ascii_of_nat (nat_of_ascii c + 32) else c.
Definition upper_byte (c : ascii) : ascii :=
  if is_lower c then ascii_of_nat (nat_of_ascii c - 32) else c.
Definition ToLower : string → string := map_bytes lower_byte.
Definition ToUpper : string → string := map_bytes upper_byte.
Definition EqualFold (s t : string) : bool := String.eqb (ToLower s) (ToLower t).

(** [strings.ReplaceAll s old new] for one-byte [old] and [new]. *)
Definition ReplaceByte (s : string) (old new : ascii) : string :=
  map_bytes (λ c, if Ascii.eqb c old then new else c) s.

(** Deletes the bytes outside a class: [regexp.ReplaceAllString(s, "")] with a
    negated one-character class, and [strings.Replace(s, "-", "", -1)]. *)
Fixpoint keep_bytes (f : ascii → bool) (s : string) : string :=
  match s with
  | EmptyString => ""
  | String c s => if f c then String c (keep_bytes f s) else keep_bytes f s
  end.

(** [strings.Trim(s, cutset)] with a one-byte cutset. *)
Fixpoint TrimLeftByte (s : string) (c : ascii) : string :=
  match s with
  | EmptyString => ""
  | String d s' => if Ascii.eqb d c then TrimLeftByte s' c else s
  end.
Definition TrimByte (s : string) (c : ascii) : string :=
  String.rev (TrimLeftByte (String.rev (TrimLeftByte s c)) c).

(** [strings.TrimSpace] removes the white space of Unicode from both ends: the
    ASCII blanks and the UTF-8 encodings of U+0085, U+00A0, U+1680,
    U+2000..U+200A, U+2028, U+2029, U+202F, U+205F and U+3000. *)
Definition space3 (a b c : nat) : bool :=
  (a =? 225) && (b =? 154) && (c =? 128) ||
  (a =? 226) && (b =? 128) && ((128 <=? c) && (c <=? 138) || (c =? 168) || (c =? 169) || (c =? 175)) ||
  (a =? 226) && (b =? 129) && (c =? 159) ||
  (a =? 227) && (b =? 128) && (c =? 128).
Definition space2 (a b : nat) : bool := (a =? 194) && ((b =? 133) || (b =? 160)).

(** Bytes of the white-space character at the front, 0 when there is none;
    [rev] reads the bytes of a character from last to first. *)
Definition space_len (rev : bool) (s : string) : nat :=
  match s with
  | EmptyString => 0
  | String c s =>
     if Ascii.is_space c then 1 else
     match s with
     | EmptyString => 0
     | String d s =>
        let '(a, b) := (nat_of_ascii c, nat_of_ascii d) in
        if (if rev then space2 b a else space2 a b) then 2 else
        match s with
        | EmptyString => 0
        | String e _ =>
           let z := nat_of_ascii e in
           if (if rev then space3 z b a else space3 a b z) then 3 else 0
        end
     end
  end.

Fixpoint trim_left (fuel : nat) (rev : bool) (s : string) : string :=
  match fuel with
  | 0 => s
  | S fuel =>
     match space_len rev s with
     | 0 => s
     | n => trim_left fuel rev (drop n s)
     end
  end.
Definition TrimSpace (s : string) : string :=
  let l := trim_left (len s) false s in
  String.rev (trim_left (len l) true (String.rev l)).

(** ** Lengths and classes of bytes *)
Fixpoint all_bytes (f : ascii → bool) (s : string) : bool :=
  match s with
  | EmptyString => true
  | String c s => f c && all_bytes f s
  end.

Lemma len_app s t : len (s +:+ t) = len s + len t.
Proof. induction s as [|c s IH]; [done|]. change (S (len (s +:+ t)) = S (len s) + len t). by rewrite IH. Qed.

Lemma len_take n s : len (take n s) = n `min` len s.
Proof. revert s. induction n as [|n IH]; intros [|c s]; simpl; [done..|]. by rewrite IH. Qed.

Lemma all_bytes_app f s t : all_bytes f (s +:+ t) = all_bytes f s && all_bytes f t.
Proof.
  induction s as [|c s IH]; [done|]. change (f c && all_bytes f (s +:+ t) = f c && all_bytes f s && all_bytes f t).
  by rewrite IH, andb_assoc.
Qed.

Lemma all_bytes_take f n s : all_bytes f s = true → all_bytes f (take n s) = true.
Proof.
  revert s. induction n as [|n IH]; intros [|c s]; simpl; [done..|].
  intros [-> H]%andb_true_iff. simpl. auto.
Qed.

Lemma all_bytes_keep f s : all_bytes f (keep_bytes f s) = true.
Proof. induction s as [|c s IH]; simpl; [done|]. by destruct (f c) eqn:E; simpl; rewrite ?E. Qed.

Lemma all_bytes_mono (f g : ascii → bool) s :
  (∀ c, f c = true → g c = true) → all_bytes f s = true → all_bytes g s = true.
Proof.
  intros Hfg. induction s as [|c s IH]; simpl; [done|].
  intros [Hc H]%andb_true_iff. by rewrite (Hfg _ Hc), IH.
Qed.

(** [sort.Strings]: byte order. *)
Definition SortStrings (l : list string) : list string := merge_sort String.le l.

End Strings.

(** ** Numbers and booleans as text ([strconv]) *)
Module Strconv.
Import Strings.

Definition int32_min : Z := - 2 ^ 31.
Definition int32_max : Z := 2 ^ 31 - 1.

(** The conversion [int32(x)] keeps the low 32 bits. *)
Definition to_int32 (x : Z) : Z := (x + 2 ^ 31) `mod` 2 ^ 32 - 2 ^ 31.

(** [strconv.Itoa] and [FormatInt(x, 10)]. *)
Definition Itoa (x : Z) : string := pretty x.

Fixpoint digits (acc : Z) (s : string) : option Z :=
  match s with
  | EmptyString => Some acc
  | String c s =>
     match Ascii.is_nat c with
     | Some d => digits (acc * 10 + Z.of_nat d) s
     | None => None
     end
  end.

(** [strconv.ParseInt(s, 10, bits)]: an optional sign, at least one digit, and
    a value of that many bits; [None] is a syntax or range error. *)
Definition ParseInt (s : string) (bits : Z) : option Z :=
  let '(neg, body) :=
    match s with
    | String "+" t => (false, t)
    | String "-" t => (true, t)
    | _ => (false, s)
    end%char in
  if String.eqb body "" then None else
  x ← digits 0 body;
  let x := if (neg : bool) then Z.opp x else x in
  if (- 2 ^ (bits - 1) <=? x)%Z && (x <? 2 ^ (bits - 1))%Z then Some x else None.

(** The size 0 of [ParseInt] and [Atoi] is the size of [int], 64 bits. *)
Definition int_bits : Z := 64.
Definition Atoi (s : string) : option Z := ParseInt s int_bits.

Definition ParseBool (s : string) : option bool :=
  if bool_decide (s ∈ ["1"; "t"; "T"; "TRUE"; "true"; "True"]) then Some true
  else if bool_decide (s ∈ ["0"; "f"; "F"; "FALSE"; "false"; "False"]) then Some false
  else None.

Lemma to_int32_range x : (int32_min ≤ to_int32 x ≤ int32_max)%Z.
Proof.
  unfold to_int32, int32_min, int32_max.
  pose proof (Z.mod_pos_bound (x + 2 ^ 31) (2 ^ 32)). lia.
Qed.

Lemma to_int32_id x : (int32_min ≤ x ≤ int32_max)%Z → to_int32 x = x.
Proof.
  unfold to_int32, int32_min, int32_max. intros. rewrite Z.mod_small; lia.
Qed.

End Strconv.

(** ** Error values ([errors], [fmt]) *)
Module Errors.
Import Strings.

(** - [Sentinel]: a package-level [errors.New] compared by identity, here by text;
    - [APIError]: an error of the AWS SDK that implements [smithy.APIError], with
      its [ErrorCode] and its [Error] text;
    - [Errorf]: [fmt.Errorf] or [errors.New] with no wrapped error;
    - [Wrapf]: [fmt.Errorf] with the verb [%w], which keeps the inner error;
    - [Joined]: [errors.Join]. *)
Inductive error :=
  | Sentinel (text : string)
  | APIError (code text : string)
  | Errorf (format : string) (args : list string)
  | Wrapf (format : string) (args : list string) (inner : error)
  | Joined (errs : list error).

Definition hex_digit (n : nat) : ascii :=
  if n <? 10 then ascii_of_nat (48 + n) else ascii_of_nat (87 + n).

(** One byte of [strconv.Quote]; bytes from 128 up are taken as printable. *)
Definition quote_byte (c : ascii) : string :=
  let n := nat_of_ascii c in
  let bs (d : ascii) := String "092" (String d "") in
  if n =? 34 then bs "034"%char else if n =? 92 then bs "092"%char
  else if n =? 7 then bs "a"%char else if n =? 8 then bs "b"%char
  else if n =? 9 then bs "t"%char else if n =? 10 then bs "n"%char
  else if n =? 11 then bs "v"%char else if n =? 12 then bs "f"%char
  else if n =? 13 then bs "r"%char
  else if (n <? 32) || (n =? 127) then
    String "092"%char (String "x"%char (String (hex_digit (n / 16)) (String (hex_digit (n mod 16)) "")))
  else String c "".

Fixpoint quote_body (s : string) : string :=
  match s with
  | EmptyString => ""
  | String c s => quote_byte c +:+ quote_body s
  end.
Definition Quote (s : string) : string :=
  String "034" (quote_body s) +:+ String "034" "".

(** [fmt.Sprintf] with the verbs of the program: [%q] quotes its argument, any
    other verb prints it. *)
Fixpoint Sprintf (format : string) (args : list string) : string :=
  match format with
  | EmptyString => ""
  | String "%" (String v f) =>
     match args with
     | [] => String "%" (String v (Sprintf f []))
     | a :: args => (if Ascii.eqb v "q" then Quote a else a) +:+ Sprintf f args
     end
  | String c f => String c (Sprintf f args)
  end.

(** [err.Error()] *)
Fixpoint Error (e : error) : string :=
  match e with
  | Sentinel t => t
  | APIError _ t => t
  | Errorf f args => Sprintf f args
  | Wrapf f args _ => Sprintf f args
  | Joined errs => Join (Error <$> errs) (String "010" "")
  end.

(** [errors.As(err, &apiErr)]: the code of the first API error of the chain. *)
Fixpoint AsAPIError (e : error) : option string :=
  match e with
  | APIError c _ => Some c
  | Wrapf _ _ e => AsAPIError e
  | Joined errs =>
     (fix go (l : list error) : option string :=
        match l with
        | [] => None
        | e :: l => match AsAPIError e with Some c => Some c | None => go l end
        end) errs
  | _ => None
  end.

(** [errors.Is(err, target)] for a sentinel [target]. *)
Fixpoint IsSentinel (t : string) (e : error) : bool :=
  match e with
  | Sentinel u => String.eqb t u
  | Wrapf _ _ e => IsSentinel t e
  | Joined errs => existsb (IsSentinel t) errs
  | _ => false
  end.

(** [cloudprovider.InstanceNotFound], [ImplementedElsewhere] and
    [NotImplemented] (k8s.io/cloud-provider/cloud.go). *)
Definition InstanceNotFound : error := Sentinel "instance not found".
Definition ImplementedElsewhere : error :=
  Sentinel "implemented by alternate to cloud provider".
Definition NotImplemented : error := Sentinel "unimplemented".

(** [fmt.Errorf] with one [%w], which is the last argument. *)
Definition wrap (format : string) (args : list string) (e : error) : error :=
  Wrapf format (args ++ [Error e]) e.

End Errors.

(** ** Results [(T, error)] *)
Inductive result (A : Type) :=
  | Ok (a : A)
  | Err (e : Errors.error).
Arguments Ok {A} a.
Arguments Err {A} e.

Definition rbind {A B} (m : result A) (k : A → result B) : result B :=
  match m with Ok a => k a | Err e => Err e end.
Definition is_ok {A} (r : result A) : bool :=
  match r with Ok _ => true | Err _ => false end.

Declare Scope go_scope.
Delimit Scope go_scope with go.
Notation "x ←? m ; k" := (rbind m (λ x, k))
  (at level 100, m at level 90, k at level 200, right associativity,
   format "x  ←?  m ;  '/' k") : go_scope.

(** ** Pointers

    A pointer the program only reads through is an [option]; [aws.ToString] and
    its kin give the zero value for nil. *)
Definition ToString (p : option string) : string := default "" p.
Definition ToInt32 (p : option Z) : Z := default 0%Z p.
Definition ToBool (p : option bool) : bool := default false p.

(** A slice keeps nil apart from the empty slice where [encoding/json] does. *)
Abbreviation slice A := (option (list A)).
Definition elems {A} (s : slice A) : list A := default [] s.

(** [m[k]] on a [map[string]string] *)
Definition mapget (m : gmap string string) (k : string) : string := default "" (m !! k).

(** ** [sort.Slice] *)

(** Up to twelve elements are sorted by insertion (sort.insertionSort_func); for longer
    slices the sort is a parameter: it permutes the slice, and sorts it when the comparison
    is a strict weak order on its elements. *)
Class GoSort := {
  pdqsort : ∀ {A : Type}, (A → A → bool) → list A → list A;
  pdqsort_perm : ∀ {A : Type} (less : A → A → bool) (l : list A), pdqsort less l ≡ₚ l;
  pdqsort_sorted : ∀ {A : Type} (less : A → A → bool) (l : list A),
    (∀ x y, x ∈ l → y ∈ l → less x y = true → less y x = false) →
    (∀ x y z, x ∈ l → y ∈ l → z ∈ l → less x y = false → less y z = false → less x z = false) →
    StronglySorted (λ a b, less b a = false) (pdqsort less l)
}.

(** The element moves left past the elements it is less than; the sorted prefix is
    kept in reverse. *)
Fixpoint insertLeft {A} (less : A → A → bool) (x : A) (rev_prefix : list A) : list A :=
  match rev_prefix with
  | [] => [x]
  | y :: r => if less x y then y :: insertLeft less x r else x :: y :: r
  end.
Definition insertionSort {A} (less : A → A → bool) (l : list A) : list A :=
  reverse (foldl (λ acc x, insertLeft less x acc) [] l).

Definition sortSlice `{GoSort} {A} (less : A → A → bool) (l : list A) : list A :=
  if length l <=? 12 then insertionSort less l else pdqsort less l.

Lemma insertLeft_perm {A} (less : A → A → bool) x l : insertLeft less x l ≡ₚ x :: l.
Proof.
  induction l as [|y l IH]; simpl; [done|]. destruct (less x y); [|done].
  rewrite IH. apply Permutation_swap.
Qed.

Lemma insertionSort_perm {A} (less : A → A → bool) l : insertionSort less l ≡ₚ l.
Proof.
  unfold insertionSort. rewrite reverse_Permutation.
  assert (∀ acc, foldl (λ acc x, insertLeft less x acc) acc l ≡ₚ l ++ acc) as H.
  { induction l as [|x l IH]; intros acc; simpl; [done|].
    rewrite IH, insertLeft_perm. by rewrite Permutation_middle. }
  by rewrite H, app_nil_r.
Qed.

Lemma StronglySorted_snoc_ {A} (R : A → A → Prop) l x :
  StronglySorted R l → Forall (λ y, R y x) l → StronglySorted R (l ++ [x]).
Proof.
  induction l as [|y l IH]; simpl; intros Hs Hf; [by repeat constructor|].
  apply StronglySorted_cons in Hs as [Hy Hs]. apply Forall_cons in Hf as [Hyx Hf].
  constructor; [auto|]. apply Forall_app. auto.
Qed.

Lemma StronglySorted_weaken {A} (R R' : A → A → Prop) l :
  (∀ x y, R x y → R' x y) → StronglySorted R l → StronglySorted R' l.
Proof. intros HR. induction 1; constructor; [done|]. eapply Forall_impl; [done|]. simpl. auto. Qed.

Lemma StronglySorted_reverse {A} (R : A → A → Prop) l :
  StronglySorted (λ x y, R y x) l → StronglySorted R (reverse l).
Proof.
  induction l as [|x l IH]; intros Hs; [constructor|]. rewrite reverse_cons.
  apply StronglySorted_cons in Hs as [Hx Hs]. apply StronglySorted_snoc_; [auto|].
  by rewrite reverse_Permutation.
Qed.

(** Insertion keeps a reversed prefix sorted. *)
Lemma insertLeft_sorted {A} (less : A → A → bool) x l :
  (∀ y, y ∈ l → less x y = true → less y x = false) →
  (∀ y z, y ∈ l → z ∈ l → less x y = false → less y z = false → less x z = false) →
  StronglySorted (λ a b, less a b = false) l →
  StronglySorted (λ a b, less a b = false) (insertLeft less x l).
Proof.
  induction l as [|y l IH]; intros Ha Ht Hs; simpl; [by constructor|].
  apply StronglySorted_cons in Hs as [Hall Hs]. destruct (less x y) eqn:E.
  - constructor.
    + apply IH; [|intros u v Hu Hv; apply Ht|done]; set_solver.
    + rewrite insertLeft_perm. constructor; [apply Ha; [set_solver|done]|done].
  - constructor; [by constructor|]. constructor; [done|]. rewrite Forall_forall in Hall |- *.
    intros z Hz. apply (Ht y z); [set_solver..|done|by apply Hall].
Qed.

Lemma insertionSort_sorted {A} (less : A → A → bool) l :
  (∀ x y, x ∈ l → y ∈ l → less x y = true → less y x = false) →
  (∀ x y z, x ∈ l → y ∈ l → z ∈ l → less x y = false → less y z = false → less x z = false) →
  StronglySorted (λ a b, less b a = false) (insertionSort less l).
Proof.
  intros Ha Ht. apply StronglySorted_reverse.
  assert (∀ l' acc, (∀ x, x ∈ l' ++ acc → x ∈ l) →
    StronglySorted (λ a b, less a b = false) acc →
    StronglySorted (λ a b, less a b = false) (foldl (λ acc x, insertLeft less x acc) acc l')) as H.
  { induction l' as [|x l' IH]; intros acc Hin Hs; simpl; [done|]. apply IH.
    - intros y. rewrite elem_of_app, insertLeft_perm, elem_of_cons. intros Hy. apply Hin. set_solver.
    - apply insertLeft_sorted; [| |done].
      + intros y Hy. apply Ha; apply Hin; set_solver.
      + intros y z Hy Hz. apply Ht; apply Hin; set_solver. }
  apply H; [|by constructor]. intros x. by rewrite app_nil_r.
Qed.

Lemma sortSlice_perm `{GoSort} {A} (less : A → A → bool) l : sortSlice less l ≡ₚ l.
Proof. unfold sortSlice. destruct (_ <=? _); [apply insertionSort_perm|apply pdqsort_perm]. Qed.

Lemma sortSlice_sorted `{GoSort} {A} (less : A → A → bool) l :
  (∀ x y, x ∈ l → y ∈ l → less x y = true → less y x = false) →
  (∀ x y z, x ∈ l → y ∈ l → z ∈ l → less x y = false → less y z = false → less x z = false) →
  StronglySorted (λ a b, less b a = false) (sortSlice less l).
Proof.
  intros. unfold sortSlice. destruct (_ <=? _); [by apply insertionSort_sorted|by apply pdqsort_sorted].
Qed.

(** The instance the runs use. *)
Definition insertion_sort : GoSort := {|
  pdqsort A := insertionSort;
  pdqsort_perm A := insertionSort_perm;
  pdqsort_sorted A := insertionSort_sorted
|}.
