(* ===== verification/Float.v ===== *)
(** * Binary floating point (IEEE 754)

    The nonnegative numbers of a format of [p] bits: a number is a multiple of the smallest
    positive one, its unit, and is represented by the factor, an integer.  The results of
    operations are rounded to the nearest number, ties to even.  Infinities are left out:
    the numbers of the program stay far below them, as its theorems show. *)

From S2P Require Import Prelude GoLib.

#[local] Open Scope Z_scope.

(** The integer nearest to [n / d]. *)
Definition rne (n d : Z) : Z :=
  let q := n / d in
  let r := n mod d in
  if 2 * r <? d then q else if d <? 2 * r then q + 1 else if Z.even q then q else q + 1.

(** The number of [p] bits nearest to [n / d] units. *)
Definition round (p n d : Z) : Z :=
  let e := Z.max 0 (Z.log2 (n / d) - p + 1) in
  2 ^ e * rne n (d * 2 ^ e).

(** A number of the format. *)
Definition representable (p x : Z) : Prop := round p x 1 = x.

(** ** float32 and float64: one in units, and the operations *)
Definition one32 : Z := 2 ^ 149.
Definition one64 : Z := 2 ^ 1074.

Definition float32_of_int (n : Z) : Z := round 24 (n * one32) 1.
Definition add32 (x y : Z) : Z := round 24 (x + y) 1.
Definition mul32 (x y : Z) : Z := round 24 (x * y) one32.
Definition div32 (x y : Z) : Z := round 24 (x * one32) y.
Definition int_of_float32 (x : Z) : Z := x / one32.

Definition float64_of_int (n : Z) : Z := round 53 (n * one64) 1.
Definition add64 (x y : Z) : Z := round 53 (x + y) 1.
Definition mul64 (x y : Z) : Z := round 53 (x * y) one64.
Definition div64 (x y : Z) : Z := round 53 (x * one64) y.
Definition int_of_float64 (x : Z) : Z := x / one64.

(** [float32(x)] of a float64 *)
Definition float32_of_float64 (x : Z) : Z := round 24 (x * one32) one64.

(** ** Rounding is monotone and keeps the numbers of the format *)
Lemma rne_floor n d : n / d ≤ rne n d ≤ n / d + 1.
Proof. unfold rne. repeat case_match; lia. Qed.

Lemma rne_exact k d : 0 < d → rne (k * d) d = k.
Proof.
  intros Hd. unfold rne. rewrite Z.div_mul, Z.mod_mul by lia.
  destruct (Z.ltb_spec (2 * 0) d); [done|lia].
Qed.

Lemma rne_mono n d n' d' : 0 < d → 0 < d' → n * d' ≤ n' * d → rne n d ≤ rne n' d'.
Proof.
  intros Hd Hd' Hle.
  pose proof (Z.div_mod n d). pose proof (Z.div_mod n' d').
  pose proof (Z.mod_pos_bound n d Hd). pose proof (Z.mod_pos_bound n' d' Hd').
  assert (n / d ≤ n' / d') as Hq.
  { apply Z.lt_succ_r. assert (n / d * d * d' < (n' / d' + 1) * d' * d) as Hlt by nia.
    apply (Z.mul_lt_mono_pos_r (d * d')); nia. }
  unfold rne. set (q := n / d) in *. set (q' := n' / d') in *.
  set (r := n mod d) in *. set (r' := n' mod d') in *.
  destruct (Z.eq_dec q q') as [<-|Hne]; [|repeat case_match; lia].
  assert (r * d' ≤ r' * d) as Hr by nia.
  repeat case_match; try lia;
    repeat match goal with
           | H : (_ <? _) = true |- _ => apply Z.ltb_lt in H
           | H : (_ <? _) = false |- _ => apply Z.ltb_ge in H
           end; try nia; congruence.
Qed.

Section format.
Context (p : Z) (Hp : 0 < p).

(** The exponent of the last bit. *)
Definition scale (q : Z) : Z := Z.max 0 (Z.log2 q - p + 1).

Lemma scale_nonneg q : 0 ≤ scale q.
Proof. unfold scale. lia. Qed.

Lemma scale_mono q q' : q ≤ q' → scale q ≤ scale q'.
Proof. intros H%Z.log2_le_mono. unfold scale. lia. Qed.

Lemma scale_upper q : q < 2 ^ (scale q + p).
Proof.
  destruct (Z_le_gt_dec q 0) as [H|H].
  - pose proof (Z.pow_pos_nonneg 2 (scale q + p)). pose proof (scale_nonneg q). lia.
  - apply Z.log2_lt_pow2; [lia|]. unfold scale. lia.
Qed.

Lemma scale_lower q : 0 < scale q → 2 ^ (scale q + p - 1) ≤ q.
Proof.
  intros H. assert (0 < q) as Hq.
  { destruct (Z_le_gt_dec q 0) as [H'|]; [|lia]. unfold scale in H.
    rewrite Z.log2_nonpos in H by done. lia. }
  apply Z.log2_le_pow2; [done|]. unfold scale in *. lia.
Qed.

Lemma round_eq n d : round p n d = 2 ^ scale (n / d) * rne n (d * 2 ^ scale (n / d)).
Proof. done. Qed.

Lemma pow_pos (e : Z) : 0 ≤ e → 0 < 2 ^ e.
Proof. intros. apply Z.pow_pos_nonneg; lia. Qed.

Lemma round_upper n d : 0 < d → round p n d ≤ 2 ^ (scale (n / d) + p).
Proof.
  intros Hd. rewrite round_eq. set (e := scale (n / d)).
  pose proof (scale_nonneg (n / d)) as He. pose proof (pow_pos e He) as Hpow.
  rewrite Z.pow_add_r by lia. apply Z.mul_le_mono_nonneg_l; [lia|].
  pose proof (rne_floor n (d * 2 ^ e)) as [_ H]. pose proof (scale_upper (n / d)) as Hu. fold e in Hu.
  rewrite <-Z.div_div in H by lia. rewrite Z.pow_add_r in Hu by lia.
  assert (n / d / 2 ^ e < 2 ^ p); [|lia]. apply Z.div_lt_upper_bound; lia.
Qed.

Lemma round_lower n d : 0 < d → 0 < scale (n / d) → 2 ^ (scale (n / d) + p - 1) ≤ round p n d.
Proof.
  intros Hd Hs. rewrite round_eq. pose proof (scale_lower _ Hs) as Hl.
  set (e := scale (n / d)) in *. pose proof (pow_pos e ltac:(lia)) as Hpow.
  replace (e + p - 1) with (e + (p - 1)) in * by lia. rewrite Z.pow_add_r in * by lia.
  apply Z.mul_le_mono_nonneg_l; [lia|]. etrans; [|apply rne_floor].
  rewrite <-Z.div_div by lia. apply Z.div_le_lower_bound; lia.
Qed.

Lemma round_mono n d n' d' : 0 < d → 0 < d' → n * d' ≤ n' * d → round p n d ≤ round p n' d'.
Proof.
  intros Hd Hd' Hle.
  assert (n / d ≤ n' / d') as Hq.
  { apply Z.div_le_lower_bound; [done|]. pose proof (Z.mul_div_le n d Hd).
    apply (Z.mul_le_mono_pos_r _ _ d Hd). nia. }
  apply scale_mono in Hq. destruct (Z.eq_dec (scale (n / d)) (scale (n' / d'))) as [E|Hne].
  - rewrite !round_eq, <-E. pose proof (pow_pos _ (scale_nonneg (n / d))) as Hpow.
    apply Z.mul_le_mono_nonneg_l; [lia|]. apply rne_mono; nia.
  - etrans; [by apply round_upper|]. pose proof (scale_nonneg (n / d)).
    etrans; [|apply round_lower; lia]. apply Z.pow_le_mono_r; lia.
Qed.

(** Multiples of a power of two within the precision are numbers of the format. *)
Lemma representable_pow (m e : Z) : 0 ≤ e → 0 ≤ m ≤ 2 ^ p → representable p (m * 2 ^ e).
Proof.
  intros He Hm. unfold representable. rewrite round_eq, Z.div_1_r. pose proof (pow_pos e He) as Hpow.
  set (x := m * 2 ^ e).
  assert (∃ k, x = k * 2 ^ scale x) as [k Hk].
  { assert (scale x ≤ e ∨ x = 2 ^ (e + p)) as [Hs|E].
    { destruct (Z.eq_dec m (2 ^ p)) as [->|]; [right; unfold x; rewrite Z.pow_add_r by lia; lia|left].
      destruct (Z.eq_dec m 0) as [->|]; [unfold scale, x; rewrite Z.mul_0_l; simpl; lia|].
      unfold scale. assert (Z.log2 x < e + p); [|lia]. apply Z.log2_lt_pow2; [unfold x; nia|].
      unfold x. rewrite Z.pow_add_r by lia. nia. }
    - exists (m * 2 ^ (e - scale x)). rewrite <-Z.mul_assoc, <-Z.pow_add_r by (pose proof (scale_nonneg x); lia).
      unfold x at 1. f_equal. f_equal. lia.
    - assert (scale x = e + 1) as Es.
      { unfold scale. rewrite E, Z.log2_pow2 by lia. lia. }
      exists (2 ^ (p - 1)). rewrite Es, <-Z.pow_add_r, E by lia. f_equal. lia. }
  rewrite Z.mul_1_l. rewrite Hk at 2. rewrite rne_exact by (apply pow_pos, scale_nonneg). lia.
Qed.

Lemma rne_nonneg n d : 0 ≤ n → 0 < d → 0 ≤ rne n d.
Proof. intros. etrans; [|apply rne_floor]. by apply Z.div_pos. Qed.

Lemma round_nonneg n d : 0 ≤ n → 0 < d → 0 ≤ round p n d.
Proof.
  intros. rewrite round_eq. pose proof (pow_pos _ (scale_nonneg (n / d))).
  apply Z.mul_nonneg_nonneg; [lia|]. apply rne_nonneg; nia.
Qed.

Lemma round_representable n d : 0 ≤ n → 0 < d → representable p (round p n d).
Proof.
  intros Hn Hd. pose proof (round_upper n d Hd) as Hu. rewrite round_eq in *.
  set (e := scale (n / d)) in *. pose proof (scale_nonneg (n / d)) as He. pose proof (pow_pos e He).
  rewrite Z.mul_comm. apply representable_pow; [done|].
  rewrite Z.pow_add_r in Hu by lia. split; [apply rne_nonneg; nia|nia].
Qed.

(** A number of the format below an exact value is below its rounding, and above. *)
Lemma representable_below x n d : representable p x → 0 < d → x * d ≤ n → x ≤ round p n d.
Proof. intros Hx Hd H. rewrite <-Hx. apply round_mono; lia. Qed.

Lemma representable_above x n d : representable p x → 0 < d → n ≤ x * d → round p n d ≤ x.
Proof. intros Hx Hd H. rewrite <-Hx. apply round_mono; lia. Qed.
End format.

Lemma one32_pos : 0 < one32.
Proof. done. Qed.
Lemma one64_pos : 0 < one64.
Proof. done. Qed.

(** Integers within the precision are exact. *)
Lemma float32_int n : 0 ≤ n ≤ 2 ^ 24 → representable 24 (n * one32).
Proof. intros. by apply representable_pow. Qed.

Lemma float64_int n : 0 ≤ n ≤ 2 ^ 53 → representable 53 (n * one64).
Proof. intros. by apply representable_pow. Qed.

Lemma float32_of_int_exact n : 0 ≤ n ≤ 2 ^ 24 → float32_of_int n = n * one32.
Proof. apply float32_int. Qed.

Lemma float64_of_int_exact n : 0 ≤ n ≤ 2 ^ 53 → float64_of_int n = n * one64.
Proof. apply float64_int. Qed.

(** Adding one to 2^24 has no effect. *)
Lemma add32_saturates : add32 (2 ^ 24 * one32) one32 = 2 ^ 24 * one32.
Proof. vm_compute. reflexivity. Qed.

#[global] Opaque one32 one64 round representable.

(** ** The operations on float32 and float64 numbers *)
Lemma one_nonneg : 0 ≤ float32_of_int 1.
Proof. pose proof one32_pos. rewrite float32_of_int_exact; lia. Qed.

Lemma add32_up x y : representable 24 x → 0 ≤ y → x ≤ add32 x y.
Proof. intros. apply representable_below; [done|done|lia|lia]. Qed.

Lemma add32_one x : 0 ≤ x → one32 ≤ add32 x one32.
Proof.
  pose proof one32_pos. intros. rewrite <-(Z.mul_1_l one32) at 1.
  apply (representable_below 24); [done|by apply float32_int|done|lia].
Qed.

Lemma add32_mono x x' y : x ≤ x' → add32 x y ≤ add32 x' y.
Proof. intros. apply round_mono; lia. Qed.

Lemma mul32_down x y : representable 24 x → 0 ≤ x → 0 ≤ y ≤ one32 → mul32 x y ≤ x.
Proof. pose proof one32_pos. intros. apply representable_above; [done|done|done|nia]. Qed.

Lemma mul32_mono x x' y y' : 0 ≤ x ≤ x' → 0 ≤ y ≤ y' → mul32 x y ≤ mul32 x' y'.
Proof.
  pose proof one32_pos. intros. apply round_mono; [done..|]. apply Z.mul_le_mono_nonneg_r; nia.
Qed.

Lemma div32_unit x y : 0 ≤ x ≤ y → 0 < y → div32 x y ≤ one32.
Proof.
  pose proof one32_pos. intros. rewrite <-(Z.mul_1_l one32) at 1. apply representable_above; [done| |done|nia].
  by apply float32_int.
Qed.

Lemma float32_of_float64_unit x : 0 ≤ x ≤ one64 → 0 ≤ float32_of_float64 x ≤ one32.
Proof.
  pose proof one32_pos. pose proof one64_pos. intros. split; [apply round_nonneg; nia|].
  rewrite <-(Z.mul_1_l one32). apply representable_above; [done|by apply float32_int|done|nia].
Qed.

Lemma div64_unit x y : 0 ≤ x ≤ y → 0 < y → 0 ≤ div64 x y ≤ one64.
Proof.
  pose proof one64_pos. intros. split; [apply round_nonneg; nia|].
  rewrite <-(Z.mul_1_l one64). apply representable_above; [done|by apply float64_int|done|nia].
Qed.

Lemma mul64_unit x y : 0 ≤ x ≤ one64 → 0 ≤ y ≤ one64 → 0 ≤ mul64 x y ≤ one64.
Proof.
  pose proof one64_pos. intros. split; [apply round_nonneg; nia|].
  rewrite <-(Z.mul_1_l one64). apply representable_above; [done|by apply float64_int|done|nia].
Qed.
