(* ===== verification/Metrics.v ===== *)
(** * Metrics (aws_metrics.go)

    The counters of the process, by their labels; of the histogram of request durations only
    the number of observations is kept. *)

From S2P Require Import Prelude GoLib.
Import Errors.

Record registry := mkRegistry {
  awsAPIMetric : gmap string nat;
  awsAPIErrorMetric : gmap string nat;
  awsAPIThrottlesMetric : gmap string nat;
  awsAPIResponseStatusTotal : gmap (string * string * string) nat
}.

Definition no_metrics : registry := mkRegistry ∅ ∅ ∅ ∅.

(** The value of a counter; a counter with unknown labels starts at zero. *)
Definition value `{Countable K} (counter : gmap K nat) (labels : K) : nat := default 0 (counter !! labels).
Definition Inc `{Countable K} (counter : gmap K nat) (labels : K) : gmap K nat :=
  <[labels := S (value counter labels)]> counter.

Definition recordAWSMetric (m : registry) (actionName : string) (err : option error) : registry :=
  match err with
  | Some _ =>
     mkRegistry (awsAPIMetric m) (Inc (awsAPIErrorMetric m) actionName)
       (awsAPIThrottlesMetric m) (awsAPIResponseStatusTotal m)
  | None =>
     mkRegistry (Inc (awsAPIMetric m) actionName) (awsAPIErrorMetric m)
       (awsAPIThrottlesMetric m) (awsAPIResponseStatusTotal m)
  end.

Definition recordAWSThrottlesMetric (m : registry) (operation : string) : registry :=
  mkRegistry (awsAPIMetric m) (awsAPIErrorMetric m)
    (Inc (awsAPIThrottlesMetric m) operation) (awsAPIResponseStatusTotal m).

(** What [awsAPIMetricsMiddleware] records. *)
Definition recordResponseStatus (m : registry) (service operation status_code : string) : registry :=
  mkRegistry (awsAPIMetric m) (awsAPIErrorMetric m) (awsAPIThrottlesMetric m)
    (Inc (awsAPIResponseStatusTotal m) (service, operation, status_code)).

(** ** Registration

    [MustRegister] panics when a metric of the name is registered; [registerOnce] lets only
    the first call through. *)
Definition MustRegister (name : string) (registered : gset string) : option (gset string) :=
  if decide (name ∈ registered) then None else Some ({[name]} ∪ registered).

Definition metric_names : list string :=
  ["cloudprovider_aws_api_request_duration_seconds"; "cloudprovider_aws_api_request_errors";
   "cloudprovider_aws_api_throttled_requests_total"; "cloudprovider_aws_api_response_status_total"].

Definition registerMetrics (registerOnce : bool) (registered : gset string) : option (bool * gset string) :=
  if registerOnce then Some (registerOnce, registered)
  else
    registered ← foldl (λ o name, o ≫= MustRegister name) (Some registered) metric_names;
    Some (true, registered).

(** ** Counting *)
Lemma value_Inc `{Countable K} (counter : gmap K nat) k k' :
  value (Inc counter k) k' = value counter k' + (if decide (k = k') then 1 else 0).
Proof.
  unfold value, Inc. case_decide as E; [subst k'|].
  - rewrite lookup_insert_eq. cbn. unfold value. lia.
  - rewrite lookup_insert_ne by done. lia.
Qed.

(** The process registers its metrics at most once, so it does not panic on a second call. *)
Lemma registerMetrics_again once names once' names' :
  registerMetrics once names = Some (once', names') → registerMetrics once' names' = Some (once', names').
Proof.
  unfold registerMetrics. destruct once; [by intros [= <- <-]|]. intros H.
  apply bind_Some in H as (registered & _ & [= <- <-]). done.
Qed.

Example registers_once :
  is_Some ('(once, names) ← registerMetrics false ∅; registerMetrics once names) ∧
  foldl (λ o name, o ≫= MustRegister name) (Some (list_to_set metric_names)) metric_names = None.
Proof. split; [by eexists|reflexivity]. Qed.
