(* ===== verification/Effects.v ===== *)
(** * Programs that call services

    A Go function that calls the AWS API is a tree of calls: [prog E A] makes
    calls of the signature [E] (a call [c : E R] is answered by a [result R]) and
    ends in a value of type [A] or in a panic.  Two readings of such a tree:

    - [wp p Q t] runs [p] after the calls [t] against every possible answer to
      every call, and asks for [Q] at each end: what holds whatever the services
      answer, errors and races with other clients included;
    - [run h p s t] runs it against one handler [h] over a state [s], a model of
      the services, and computes.

    [wp_run] links them. *)

From S2P Require Import Prelude GoLib.

Inductive prog (E : Type → Type) (A : Type) : Type :=
  | Ret (a : A)
  | Panic (why : string)
  | Vis {R : Type} (c : E R) (k : result R → prog E A).
Arguments Ret {E A} a.
Arguments Panic {E A} why.
Arguments Vis {E A R} c k.

(** How a program ends. *)
Inductive outcome (A : Type) :=
  | Done (a : A)
  | Panicked (why : string).
Arguments Done {A} a.
Arguments Panicked {A} why.

(** A call with its answer. *)
Record event (E : Type → Type) := Ev {
  ev_type : Type;
  ev_call : E ev_type;
  ev_answer : result ev_type
}.
Arguments Ev {E ev_type} ev_call ev_answer.
Arguments ev_type {E} _.
Arguments ev_call {E} _.
Arguments ev_answer {E} _.

Fixpoint bind {E A B} (p : prog E A) (f : A → prog E B) : prog E B :=
  match p with
  | Ret a => f a
  | Panic w => Panic w
  | Vis c k => Vis c (λ r, bind (k r) f)
  end.

(** Make one call and return its answer. *)
Definition call {E R} (c : E R) : prog E (result R) := Vis c Ret.

(** [if err != nil { return ..., err }] *)
Definition try {E A B} (p : prog E (result A)) (f : A → prog E (result B)) :
    prog E (result B) :=
  bind p (λ r, match r with Ok a => f a | Err e => Ret (Err e) end).

(** [if err != nil { return ..., wrap(err) }] *)
Definition try_with {E A B} (w : Errors.error → Errors.error)
    (p : prog E (result A)) (f : A → prog E (result B)) : prog E (result B) :=
  bind p (λ r, match r with Ok a => f a | Err e => Ret (Err (w e)) end).

(** A pure computation that may panic. *)
Definition no_panic {E A} (o : option A) : prog E A :=
  match o with Some a => Ret a | None => Panic "nil pointer dereference" end.

Declare Scope prog_scope.
Delimit Scope prog_scope with prog.
Notation "'let!' x ':=' p 'in' k" := (bind p (λ x, k))
  (at level 10, x pattern, p at level 200, k at level 200,
   format "'[v' 'let!'  x  ':='  p  'in'  '/' k ']'") : prog_scope.
Notation "'let?' x ':=' p 'in' k" := (try p (λ x, k))
  (at level 10, x pattern, p at level 200, k at level 200,
   format "'[v' 'let?'  x  ':='  p  'in'  '/' k ']'") : prog_scope.
Notation "'let?' x ':=' p 'else' w 'in' k" := (try_with w p (λ x, k))
  (at level 10, x pattern, p at level 200, w at level 200, k at level 200,
   format "'[v' 'let?'  x  ':='  p  'else'  w  'in'  '/' k ']'") : prog_scope.
#[global] Open Scope prog_scope.

(** Loops: [for _, x := range l] with a state and an early return on error. *)
Fixpoint loop {E S X} (f : S → X → prog E (result S)) (l : list X) (s : S) :
    prog E (result S) :=
  match l with
  | [] => Ret (Ok s)
  | x :: l => let? s := f s x in loop f l s
  end.

Definition each {E X} (f : X → prog E (result unit)) (l : list X) :
    prog E (result unit) :=
  loop (λ _ x, f x) l tt.

(** A loop whose body does not return early. *)
Fixpoint loop_all {E S X} (f : S → X → prog E S) (l : list X) (s : S) : prog E S :=
  match l with
  | [] => Ret s
  | x :: l => let! s := f s x in loop_all f l s
  end.

Section wp.
Context {E : Type → Type}.
Implicit Types t : list (event E).

Fixpoint wp {A} (p : prog E A) (Q : list (event E) → outcome A → Prop) t : Prop :=
  match p with
  | Ret a => Q t (Done a)
  | Panic w => Q t (Panicked w)
  | Vis c k => ∀ r, wp (k r) Q (t ++ [Ev c r])
  end.

(** What follows a bind. *)
Definition andThen {A B} (f : A → prog E B)
    (Q : list (event E) → outcome B → Prop) t (o : outcome A) : Prop :=
  match o with
  | Done a => wp (f a) Q t
  | Panicked w => Q t (Panicked w)
  end.

Lemma wp_bind {A B} (p : prog E A) (f : A → prog E B) Q t :
  wp (bind p f) Q t ↔ wp p (andThen f Q) t.
Proof.
  revert t. induction p as [a|w|R c k IH]; intros t; simpl; [done..|].
  by setoid_rewrite IH.
Qed.

Lemma wp_mono {A} (p : prog E A) (Q Q' : list (event E) → outcome A → Prop) t :
  wp p Q t → (∀ t' o, Q t' o → Q' t' o) → wp p Q' t.
Proof.
  revert t. induction p as [a|w|R c k IH]; simpl; intros t Hp HQ; [by auto..|].
  intros r. eapply IH; eauto.
Qed.

Lemma wp_always {A} (p : prog E A) (Q : list (event E) → outcome A → Prop) t :
  (∀ t o, Q t o) → wp p Q t.
Proof. intros H. revert t. induction p as [a|w|R c k IH]; intros t; simpl; auto. Qed.

(** The trace only grows. *)
Lemma wp_extends {A} (p : prog E A) (Q : list (event E) → outcome A → Prop) t :
  wp p Q t → wp p (λ t' o, (∃ u, t' = t ++ u) ∧ Q t' o) t.
Proof.
  assert (∀ t0, (∃ u, t = t0 ++ u) → wp p Q t →
    wp p (λ t' o, (∃ u, t' = t0 ++ u) ∧ Q t' o) t) as H.
  { revert t. induction p as [a|w|R c k IH]; simpl; intros t t0 Ht Hp; [by auto..|].
    intros r. apply IH; [|done]. destruct Ht as [u ->].
    exists (u ++ [Ev c r]). by rewrite (assoc_L (++)). }
  apply H. exists []. by rewrite app_nil_r.
Qed.

Lemma wp_try {A B} (p : prog E (result A)) (f : A → prog E (result B)) Q t :
  wp (try p f) Q t ↔
  wp p (λ t' o, match o with
                | Done (Ok a) => wp (f a) Q t'
                | Done (Err e) => Q t' (Done (Err e))
                | Panicked w => Q t' (Panicked w)
                end) t.
Proof.
  unfold try. rewrite wp_bind.
  split; intros H; eapply wp_mono; [exact H| |exact H|]; by intros t' [[|]|].
Qed.

Lemma wp_try_with {A B} w (p : prog E (result A)) (f : A → prog E (result B)) Q t :
  wp (try_with w p f) Q t ↔
  wp p (λ t' o, match o with
                | Done (Ok a) => wp (f a) Q t'
                | Done (Err e) => Q t' (Done (Err (w e)))
                | Panicked w => Q t' (Panicked w)
                end) t.
Proof.
  unfold try_with. rewrite wp_bind.
  split; intros H; eapply wp_mono; [exact H| |exact H|]; by intros t' [[|]|].
Qed.

(** Loop rule: an invariant of the state and the trace. *)
Lemma wp_loop {S X} (f : S → X → prog E (result S)) (l : list X) s
    (I : S → list (event E) → Prop) Q t :
  I s t →
  (∀ x s t, x ∈ l → I s t →
     wp (f s x) (λ t' o, match o with
                         | Done (Ok s') => I s' t'
                         | Done (Err e) => Q t' (Done (Err e))
                         | Panicked w => Q t' (Panicked w)
                         end) t) →
  (∀ s t, I s t → Q t (Done (Ok s))) →
  wp (loop f l s) Q t.
Proof.
  revert s t. induction l as [|x l IH]; intros s t HI Hbody HQ; simpl; [by auto|].
  rewrite wp_try. eapply wp_mono; [apply (Hbody x s t); [set_solver|done]|].
  intros t' [[s'|e]|w]; [|done..]. intros. apply IH; [done| |done].
  intros; apply Hbody; set_solver.
Qed.

Lemma wp_each {X} (f : X → prog E (result unit)) (l : list X)
    (I : list (event E) → Prop) Q t :
  I t →
  (∀ x t, x ∈ l → I t →
     wp (f x) (λ t' o, match o with
                       | Done (Ok _) => I t'
                       | Done (Err e) => Q t' (Done (Err e))
                       | Panicked w => Q t' (Panicked w)
                       end) t) →
  (∀ t, I t → Q t (Done (Ok tt))) →
  wp (each f l) Q t.
Proof.
  intros HI Hb HQ. apply (wp_loop _ _ _ (λ _, I)); [done|auto|].
  by intros [] t'; auto.
Qed.

(** The same with an invariant that knows which elements are done. *)
Lemma wp_loop_done {S X} (f : S → X → prog E (result S)) (l : list X) s
    (I : list X → S → list (event E) → Prop) Q t :
  I [] s t →
  (∀ past x rest s t, l = past ++ x :: rest → I past s t →
     wp (f s x) (λ t' o, match o with
                         | Done (Ok s') => I (past ++ [x]) s' t'
                         | Done (Err e) => Q t' (Done (Err e))
                         | Panicked w => Q t' (Panicked w)
                         end) t) →
  (∀ s t, I l s t → Q t (Done (Ok s))) →
  wp (loop f l s) Q t.
Proof.
  intros HI Hb HQ.
  enough (∀ past rest s t, l = past ++ rest → I past s t → wp (loop f rest s) Q t) as H
    by (by apply (H [] l)).
  clear t s HI. intros past rest. revert past.
  induction rest as [|x rest IH]; intros past s t Hl HI; simpl.
  - apply HQ. by rewrite Hl, app_nil_r.
  - rewrite wp_try. eapply wp_mono; [by eapply Hb|]. intros t' [[s'|e]|w] Ho; [|done..].
    apply (IH (past ++ [x])); [|done]. by rewrite <-(assoc_L (++)).
Qed.

Lemma wp_each_done {X} (f : X → prog E (result unit)) (l : list X)
    (I : list X → list (event E) → Prop) Q t :
  I [] t →
  (∀ past x rest t, l = past ++ x :: rest → I past t →
     wp (f x) (λ t' o, match o with
                       | Done (Ok _) => I (past ++ [x]) t'
                       | Done (Err e) => Q t' (Done (Err e))
                       | Panicked w => Q t' (Panicked w)
                       end) t) →
  (∀ t, I l t → Q t (Done (Ok tt))) →
  wp (each f l) Q t.
Proof.
  intros HI Hb HQ. apply (wp_loop_done _ _ _ (λ past _, I past)); [done|eauto|].
  by intros [] t'; auto.
Qed.

Lemma wp_loop_all_done {S X} (f : S → X → prog E S) (l : list X) s
    (I : list X → S → list (event E) → Prop) Q t :
  I [] s t →
  (∀ past x rest s t, l = past ++ x :: rest → I past s t →
     wp (f s x) (λ t' o, match o with
                         | Done s' => I (past ++ [x]) s' t'
                         | Panicked w => Q t' (Panicked w)
                         end) t) →
  (∀ s t, I l s t → Q t (Done s)) →
  wp (loop_all f l s) Q t.
Proof.
  intros HI Hb HQ.
  enough (∀ past rest s t, l = past ++ rest → I past s t → wp (loop_all f rest s) Q t) as H
    by (by apply (H [] l)).
  clear t s HI. intros past rest. revert past.
  induction rest as [|x rest IH]; intros past s t Hl HI; simpl.
  - apply HQ. by rewrite Hl, app_nil_r.
  - rewrite wp_bind. eapply wp_mono; [by eapply Hb|]. intros t' [s'|w] Ho; [|done].
    apply (IH (past ++ [x])); [|done]. by rewrite <-(assoc_L (++)).
Qed.

Lemma wp_loop_all {S X} (f : S → X → prog E S) (l : list X) s
    (I : S → list (event E) → Prop) Q t :
  I s t →
  (∀ x s t, x ∈ l → I s t →
     wp (f s x) (λ t' o, match o with
                         | Done s' => I s' t'
                         | Panicked w => Q t' (Panicked w)
                         end) t) →
  (∀ s t, I s t → Q t (Done s)) →
  wp (loop_all f l s) Q t.
Proof.
  revert s t. induction l as [|x l IH]; intros s t HI Hbody HQ; simpl; [by auto|].
  rewrite wp_bind. eapply wp_mono; [apply (Hbody x s t); [set_solver|done]|].
  intros t' [s'|w]; [|done]. intros. apply IH; [done| |done].
  intros; apply Hbody; set_solver.
Qed.
End wp.

(** ** Runs against a model of the services *)
Section run.
Context {E : Type → Type} {S : Type}.

Definition handler := ∀ R, E R → S → result R * S.

Fixpoint run {A} (h : handler) (p : prog E A) (s : S) (t : list (event E)) :
    outcome A * S * list (event E) :=
  match p with
  | Ret a => (Done a, s, t)
  | Panic w => (Panicked w, s, t)
  | Vis c k => let '(r, s') := h _ c s in run h (k r) s' (t ++ [Ev c r])
  end.

Lemma wp_run {A} (h : handler) (p : prog E A) Q s t :
  wp p Q t → let '(o, _, t') := run h p s t in Q t' o.
Proof.
  revert s t. induction p as [a|w|R c k IH]; intros s t Hp; simpl in *; [done..|].
  destruct (h R c s) as [r s'] eqn:Hh. by apply IH.
Qed.

Lemma run_bind {A B} (h : handler) (p : prog E A) (f : A → prog E B) s t :
  run h (bind p f) s t =
  let '(o, s', t') := run h p s t in
  match o with
  | Done a => run h (f a) s' t'
  | Panicked w => (Panicked w, s', t')
  end.
Proof.
  revert s t. induction p as [a|w|R c k IH]; intros s t; simpl; [done..|].
  destruct (h R c s) as [r s']. apply IH.
Qed.
End run.
Arguments handler : clear implicits.

(** ** Waiting (k8s.io/apimachinery/pkg/util/wait) *)

(** [wait.ErrWaitTimeout] and the error of an expired context. *)
Definition ErrWaitTimeout : Errors.error :=
  Errors.Sentinel "timed out waiting for the condition".
Definition DeadlineExceeded : Errors.error := Errors.Sentinel "context deadline exceeded".

(** [wait.ExponentialBackoff] without a cap: the condition runs at most [steps]
    times; it shares variables of type [S] with its caller. *)
Fixpoint ExponentialBackoff {E S} (steps : nat) (condition : S → prog E (result bool * S)) (s : S) :
    prog E (result unit * S) :=
  match steps with
  | 0 => Ret (Err ErrWaitTimeout, s)
  | Datatypes.S n =>
     let! (r, s) := condition s in
     match r with
     | Err e => Ret (Err e, s)
     | Ok true => Ret (Ok tt, s)
     | Ok false => ExponentialBackoff n condition s
     end
  end.

(** [wait.PollUntilContextTimeout] with an immediate first poll.  How often the
    condition runs before the deadline depends on the clock: [more] is the number
    of polls after the first one. *)
Fixpoint PollUntilContextTimeout {E S} (more : nat) (condition : S → prog E (result bool * S))
    (s : S) : prog E (result unit * S) :=
  let! (r, s) := condition s in
  match r with
  | Err e => Ret (Err e, s)
  | Ok true => Ret (Ok tt, s)
  | Ok false =>
     match more with
     | 0 => Ret (Err DeadlineExceeded, s)
     | Datatypes.S more => PollUntilContextTimeout more condition s
     end
  end.

(** ** Calls a program may make *)
Section calls.
Context {E : Type → Type}.
Implicit Types P : event E → Prop.

(** Every call of [p], with every answer it may get, satisfies [P]. *)
Fixpoint all_calls {A} P (p : prog E A) : Prop :=
  match p with
  | Ret _ | Panic _ => True
  | Vis c k => ∀ r, P (Ev c r) ∧ all_calls P (k r)
  end.

Lemma all_calls_bind {A B} P (p : prog E A) (f : A → prog E B) :
  all_calls P p → (∀ a, all_calls P (f a)) → all_calls P (bind p f).
Proof.
  induction p as [a|w|R c k IH]; simpl; intros Hp Hf; [done..|].
  intros r. destruct (Hp r). auto.
Qed.

Lemma all_calls_try {A B} P (p : prog E (result A)) (f : A → prog E (result B)) :
  all_calls P p → (∀ a, all_calls P (f a)) → all_calls P (try p f).
Proof. intros. apply all_calls_bind; [done|]. by intros [|]; simpl; auto. Qed.

Lemma all_calls_try_with {A B} P w (p : prog E (result A)) (f : A → prog E (result B)) :
  all_calls P p → (∀ a, all_calls P (f a)) → all_calls P (try_with w p f).
Proof. intros. apply all_calls_bind; [done|]. by intros [|]; simpl; auto. Qed.

Lemma all_calls_loop {S X} P (f : S → X → prog E (result S)) l s :
  (∀ s x, x ∈ l → all_calls P (f s x)) → all_calls P (loop f l s).
Proof.
  revert s. induction l as [|x l IH]; intros s H; simpl; [done|].
  apply all_calls_try; [apply H; set_solver|]. intros. apply IH. set_solver.
Qed.

Lemma all_calls_each {X} P (f : X → prog E (result unit)) l :
  (∀ x, x ∈ l → all_calls P (f x)) → all_calls P (each f l).
Proof. intros. apply all_calls_loop. auto. Qed.

Lemma all_calls_loop_all {S X} P (f : S → X → prog E S) l s :
  (∀ s x, x ∈ l → all_calls P (f s x)) → all_calls P (loop_all f l s).
Proof.
  revert s. induction l as [|x l IH]; intros s H; simpl; [done|].
  apply all_calls_bind; [apply H; set_solver|]. intros. apply IH. set_solver.
Qed.

Lemma all_calls_no_panic {A} P (o : option A) : all_calls P (no_panic o).
Proof. by destruct o. Qed.

Lemma all_calls_mono {A} (P Q : event E → Prop) (p : prog E A) :
  all_calls P p → (∀ ev, P ev → Q ev) → all_calls Q p.
Proof.
  induction p as [a|w|R c k IH]; simpl; intros Hp H; [done..|].
  intros r. destruct (Hp r). eauto.
Qed.

Lemma all_calls_backoff {S} P n (f : S → prog E (result bool * S)) s :
  (∀ s, all_calls P (f s)) → all_calls P (ExponentialBackoff n f s).
Proof.
  intros Hf. revert s. induction n as [|n IH]; intros s; simpl; [done|].
  apply all_calls_bind; [done|]. intros [[[]|] s']; simpl; auto.
Qed.

Lemma all_calls_poll {S} P n (f : S → prog E (result bool * S)) s :
  (∀ s, all_calls P (f s)) → all_calls P (PollUntilContextTimeout n f s).
Proof.
  intros Hf. revert s. induction n as [|n IH]; intros s; simpl;
    (apply all_calls_bind; [done|]); intros [[[]|] s']; simpl; auto.
Qed.

(** Both readings of a program see only such calls. *)
Lemma all_calls_wp {A} P (p : prog E A) t :
  all_calls P p → wp p (λ t' _, ∃ u, t' = t ++ u ∧ Forall P u) t.
Proof.
  intros Hp. assert (∀ t0 u, t = t0 ++ u → Forall P u →
    wp p (λ t' _, ∃ u, t' = t0 ++ u ∧ Forall P u) t) as H.
  { revert t. induction p as [a|w|R c k IH]; simpl in *; intros t t0 u -> Hu; [by eauto..|].
    intros r. destruct (Hp r) as [Hr Hk]. apply (IH r Hk _ t0 (u ++ [Ev c r])).
    - by rewrite (assoc_L (++)).
    - apply Forall_app. auto. }
  apply (H t []); [by rewrite app_nil_r|done].
Qed.
End calls.

(** Descends through the structure of a program, one call or branch at a time. *)
Ltac calls_step :=
  match goal with
  | |- all_calls _ (bind _ _) => apply all_calls_bind
  | |- all_calls _ (try _ _) => apply all_calls_try
  | |- all_calls _ (try_with _ _ _) => apply all_calls_try_with
  | |- all_calls _ (each _ _) => apply all_calls_each
  | |- all_calls _ (loop _ _ _) => apply all_calls_loop
  | |- all_calls _ (loop_all _ _ _) => apply all_calls_loop_all
  | |- all_calls _ (ExponentialBackoff _ _ _) => apply all_calls_backoff
  | |- all_calls _ (PollUntilContextTimeout _ _ _) => apply all_calls_poll
  | |- all_calls _ (no_panic _) => apply all_calls_no_panic
  | |- all_calls _ (Ret _) => exact I
  | |- all_calls _ (Panic _) => exact I
  | |- all_calls _ (match ?x with _ => _ end) => destruct x eqn:?
  | |- ∀ _, _ => intro
  end.

(** The calls made before a program do not matter to it. *)
Lemma wp_frame {E A} (p : prog E A) (Q : list (event E) → outcome A → Prop) t u :
  wp p (λ t' o, Q (t ++ t') o) u → wp p Q (t ++ u).
Proof.
  revert u. induction p as [a|w|R c k IH]; simpl; intros u Hp; [done..|].
  intros r. rewrite <-(assoc_L (++)). by apply IH.
Qed.

Lemma wp_start {E A} (p : prog E A) (Q : list (event E) → outcome A → Prop) t :
  wp p (λ u o, Q (t ++ u) o) [] → wp p Q t.
Proof. intros H. rewrite <-(app_nil_r t). by apply wp_frame. Qed.

Lemma wp_and {E A} (p : prog E A) (Q Q' : list (event E) → outcome A → Prop) t :
  wp p Q t → wp p Q' t → wp p (λ t' o, Q t' o ∧ Q' t' o) t.
Proof. revert t. induction p as [a|w|R c k IH]; simpl; intros t H H'; auto. Qed.

(** ** Traces in which every call is justified by those before it *)
Definition justified {E} (J : list (event E) → event E → Prop) (tr : list (event E)) : Prop :=
  ∀ pre ev post, tr = pre ++ ev :: post → J pre ev.

Section justified.
Context {E : Type → Type} (J : list (event E) → event E → Prop).
Context (J_mono : ∀ t u ev, J t ev → J (t ++ u) ev).

Lemma justified_nil : justified J [].
Proof. intros [|] ev post; discriminate. Qed.

Lemma justified_snoc t ev : justified J t → J t ev → justified J (t ++ [ev]).
Proof.
  intros Ht Hev pre x post. destruct post as [|y post _] using rev_ind.
  - intros [-> E1]%app_inj_2; [|done]. by injection E1 as ->.
  - rewrite app_comm_cons, (assoc_L (++)). intros [-> _]%app_inj_2; [|done]. by apply (Ht _ _ post).
Qed.

Lemma justified_app t u : justified J t → Forall (J t) u → justified J (t ++ u).
Proof.
  intros Ht Hu. induction u as [|ev u IH] using rev_ind; [by rewrite app_nil_r|].
  apply Forall_app in Hu as [Hu Hev]. apply Forall_cons in Hev as [Hev _].
  rewrite (assoc_L (++)). apply justified_snoc; auto.
Qed.

Lemma wp_justified {A} (p : prog E A) t :
  all_calls (J t) p → justified J t → wp p (λ t' _, (∃ u, t' = t ++ u) ∧ justified J t') t.
Proof.
  intros Hp Ht. eapply wp_mono; [by apply all_calls_wp|].
  intros t' _ (u & -> & Hu). split; [by eexists|]. by apply justified_app.
Qed.
End justified.

Lemma snoc_elem {A} (t : list A) x : x ∈ t ++ [x].
Proof. set_solver. Qed.
