(* ===== verification/Track.v ===== *)
(** * The state of a service behind its answers

    What a service keeps, as an abstract state: a relation says which answers to a call fit
    a state, and what the state is afterwards.  A property of the state is followed through
    a program, whatever answers that fit the state it gets. *)

From S2P Require Import Prelude GoLib Effects.

Section track.
Context {E : Type → Type} {W : Type} (serves : W → event E → W → Prop).
Implicit Types (w : W) (t : list (event E)).

Fixpoint evolves w t w' : Prop :=
  match t with
  | [] => w' = w
  | ev :: t => ∃ w1, serves w ev w1 ∧ evolves w1 t w'
  end.

Lemma evolves_snoc w t ev w' : evolves w (t ++ [ev]) w' ↔ ∃ w1, evolves w t w1 ∧ serves w1 ev w'.
Proof.
  revert w. induction t as [|ev' t IH]; intros w; cbn [app evolves].
  - naive_solver.
  - setoid_rewrite IH. naive_solver.
Qed.

(** From the state [w0] the calls [t] lead to states that satisfy [P] only. *)
Definition tracked w0 (P : W → Prop) t : Prop := ∀ w, evolves w0 t w → P w.

(** The call leads from [P] to [P']. *)
Definition stable (P P' : W → Prop) (ev : event E) : Prop := ∀ w w', P w → serves w ev w' → P' w'.

Context (w0 : W).
Implicit Types P : W → Prop.

Lemma tracked_start P : P w0 → tracked w0 P [].
Proof. by intros H w ->. Qed.

Lemma tracked_mono P P' t : tracked w0 P t → (∀ w, P w → P' w) → tracked w0 P' t.
Proof. unfold tracked. auto. Qed.

Lemma tracked_and P P' t : tracked w0 P t → tracked w0 P' t → tracked w0 (λ w, P w ∧ P' w) t.
Proof. unfold tracked. auto. Qed.

Lemma tracked_snoc P P' t ev : tracked w0 P t → stable P P' ev → tracked w0 P' (t ++ [ev]).
Proof. intros Ht Hev w (w1 & H & Hs)%evolves_snoc. by eapply Hev; [apply Ht|]. Qed.

Lemma wp_tracked {A} (p : prog E A) P t :
  all_calls (stable P P) p → tracked w0 P t → wp p (λ t' _, tracked w0 P t') t.
Proof.
  intros Hp Ht. eapply wp_mono; [by apply all_calls_wp|]. intros t' _ (u & -> & Hu).
  induction u as [|ev u IH] using rev_ind; [by rewrite app_nil_r|].
  apply Forall_app in Hu as [Hu Hev]. apply Forall_cons in Hev as [Hev _].
  rewrite (assoc_L (++)). eapply tracked_snoc; eauto.
Qed.

(** What a handler over the states answers. *)
Lemma run_evolves {A} (h : handler E W) (p : prog E A) w t :
  (∀ R (c : E R) w, serves w (Ev c (h R c w).1) (h R c w).2) →
  evolves w0 t w → let '(_, w', t') := run h p w t in evolves w0 t' w'.
Proof.
  intros Hh. revert w t. induction p as [a|s|R c k IH]; intros w t Hw; cbn; [done..|].
  pose proof (Hh R c w) as Hs. destruct (h R c w) as [r w']. apply IH, evolves_snoc. by exists w.
Qed.
End track.

(** A postcondition for every value of a parameter. *)
Lemma wp_forall {E A X} (p : prog E A) (Q : X → list (event E) → outcome A → Prop) t :
  (∀ x, wp p (Q x) t) → wp p (λ t' o, ∀ x, Q x t' o) t.
Proof. revert t. induction p as [a|s|R e k IH]; intros t H; cbn; [done..|]. intros r. apply IH. intros x. apply H. Qed.

(** A contract for every state the service can be in. *)
Lemma wp_contract {E W A} (serves : W → event E → W → Prop) (I : W → Prop) (p : prog E A)
    (Q : W → outcome A → W → Prop) :
  (∀ w0, I w0 → wp p (λ tr o, tracked serves w0 (Q w0 o) tr) []) →
  wp p (λ tr o, ∀ w0 w, I w0 → evolves serves w0 tr w → Q w0 o w) [].
Proof.
  intros H. apply (wp_mono _ (λ tr o, ∀ w0 (Hw0 : I w0), tracked serves w0 (Q w0 o) tr)).
  - apply wp_forall. intros w0. apply wp_forall. intros Hw0. by apply H.
  - intros tr o Ht w0 w Hw0 Hev. by apply (Ht w0 Hw0).
Qed.
