(* ===== verification/Json.v ===== *)
(** * [encoding/json.Marshal] of the values the provider uses as map keys

    Strings, numbers, pointers and slices, with Go's escaping (HTML escaping on,
    invalid UTF-8 replaced by U+FFFD).  [JsonCode] is what a client of an encoder
    relies on: the encoding can be read back, so that two values with one encoding
    are equal.  It holds of strings of ASCII bytes, the only ones EC2 accepts in
    these fields; a string that is not UTF-8 is not recoverable. *)

From S2P Require Import Prelude GoLib.
From Stdlib Require Import Ascii.
Import Errors Strings.

(** ** Strings *)
Definition dquote : string := String "034" "".
Definition esc (c : ascii) : string := String "092" (String c "").
Definition esc_u00 (n : nat) : string :=
  esc "u" +:+ "00" +:+ String (hex_digit (n / 16)) (String (hex_digit (n mod 16)) "").

(** One byte below 128. *)
Definition json_byte (c : ascii) : string :=
  let n := nat_of_ascii c in
  if (n =? 34) || (n =? 92) then esc c
  else if n =? 8 then esc "b" else if n =? 12 then esc "f"
  else if n =? 10 then esc "n" else if n =? 13 then esc "r"
  else if n =? 9 then esc "t"
  else if (n <? 32) || (n =? 60) || (n =? 62) || (n =? 38) then esc_u00 n
  else String c "".

Definition cont (lo hi : nat) (s : string) (k : string → option nat) : option nat :=
  match s with
  | String c s => let n := nat_of_ascii c in
     if (lo <=? n) && (n <=? hi) then k s else None
  | EmptyString => None
  end.

(** [utf8.DecodeRuneInString]: the length of the valid encoding at the front of a
    string that starts with a byte from 128 up. *)
Definition utf8_len (s : string) : option nat :=
  match s with
  | EmptyString => None
  | String c s =>
     let n := nat_of_ascii c in
     let k2 := cont 128 191 in
     let fin r := λ _ : string, Some r in
     if (194 <=? n) && (n <=? 223) then k2 s (fin 2)
     else if n =? 224 then cont 160 191 s (λ s, k2 s (fin 3))
     else if n =? 237 then cont 128 159 s (λ s, k2 s (fin 3))
     else if (225 <=? n) && (n <=? 239) then k2 s (λ s, k2 s (fin 3))
     else if n =? 240 then cont 144 191 s (λ s, k2 s (λ s, k2 s (fin 4)))
     else if n =? 244 then cont 128 143 s (λ s, k2 s (λ s, k2 s (fin 4)))
     else if (241 <=? n) && (n <=? 243) then k2 s (λ s, k2 s (λ s, k2 s (fin 4)))
     else None
  end.

(** U+2028 and U+2029 are escaped. *)
Definition line_sep (s : string) : option string :=
  if HasPrefix s (String "226" (String "128" (String "168" ""))) then Some (esc "u" +:+ "2028")
  else if HasPrefix s (String "226" (String "128" (String "169" ""))) then Some (esc "u" +:+ "2029")
  else None.

(** The body of a string: [pend] bytes of the current character remain, copied
    when [keep] holds and dropped otherwise. *)
Fixpoint json_body (keep : bool) (pend : nat) (s : string) : string :=
  match s with
  | EmptyString => ""
  | String c s' =>
     match pend with
     | S pend => (if keep then String c "" else "") +:+ json_body keep pend s'
     | 0 =>
        if nat_of_ascii c <? 128 then json_byte c +:+ json_body true 0 s'
        else match line_sep s with
             | Some e => e +:+ json_body false 2 s'
             | None =>
                match utf8_len s with
                | Some n => String c "" +:+ json_body true (n - 1) s'
                | None => esc "u" +:+ "fffd" +:+ json_body true 0 s'
                end
             end
     end
  end.

Definition json_string (s : string) : string := dquote +:+ json_body true 0 s +:+ dquote.
Definition json_int (x : Z) : string := pretty x.
Definition json_ptr {A} (enc : A → string) (p : option A) : string :=
  match p with Some a => enc a | None => "null" end.

Fixpoint json_items {A} (enc : A → string) (l : list A) : string :=
  match l with
  | [] => "]"
  | a :: l => match l with
              | [] => enc a +:+ "]"
              | _ => enc a +:+ "," +:+ json_items enc l
              end
  end.
Definition json_list {A} (enc : A → string) (l : list A) : string := "[" +:+ json_items enc l.
Definition json_slice {A} (enc : A → string) (s : slice A) : string := json_ptr (json_list enc) s.
Definition json_key (name : string) : string := json_string name +:+ ":".

(** ** Reading an encoding back *)

(** What follows a value in an object or an array. *)
Definition tail_ok (u : string) : Prop :=
  match u with
  | String c _ => c = ","%char ∨ c = "}"%char ∨ c = "]"%char
  | EmptyString => True
  end.

(** The encoder [enc] is read back from the front of a text, on the values [P]. *)
Class JsonCode {A} (P : A → Prop) (enc : A → string) :=
  json_code : ∀ a b u v, P a → P b → tail_ok u → tail_ok v →
    enc a +:+ u = enc b +:+ v → a = b ∧ u = v.

(** An encoding that starts neither like [null] nor like the end of an array. *)
Class JsonHead {A} (enc : A → string) :=
  json_head : ∀ a, ∃ c s, enc a = String c s ∧ c ≠ "n"%char ∧ c ≠ "]"%char.

Lemma app_string_assoc (s t u : string) : (s +:+ t) +:+ u = s +:+ (t +:+ u).
Proof. induction s as [|c s IH]; [done|]. unfold String.app in *. simpl. by rewrite IH. Qed.

Definition is_ascii (s : string) : Prop :=
  Forall (λ c, nat_of_ascii c < 128) (String.list_ascii_of_string s).

(** A reader of one escaped byte. *)
Definition unhex (c : ascii) : nat :=
  let n := nat_of_ascii c in if n <? 58 then n - 48 else n - 87.
Definition read_byte (s : string) : option (ascii * string) :=
  match s with
  | String "092" (String "u" (String _ (String _ (String a (String b s))))) =>
     Some (ascii_of_nat (unhex a * 16 + unhex b), s)
  | String "092" (String e s) =>
     Some (if Ascii.eqb e "b" then "008" else if Ascii.eqb e "f" then "012"
           else if Ascii.eqb e "n" then "010" else if Ascii.eqb e "r" then "013"
           else if Ascii.eqb e "t" then "009" else e, s)%char
  | String c s => Some (c, s)
  | EmptyString => None
  end.

Lemma read_json_byte c u :
  nat_of_ascii c < 128 → read_byte (json_byte c +:+ u) = Some (c, u).
Proof.
  destruct c as [[] [] [] [] [] [] [] []]; simpl; intros H;
    solve [reflexivity | exfalso; revert H; vm_compute; lia].
Qed.

Lemma json_byte_head c :
  nat_of_ascii c < 128 → ∃ d s, json_byte c = String d s ∧ d ≠ "034"%char.
Proof.
  destruct c as [[] [] [] [] [] [] [] []]; intros H;
    solve [eexists _, _; split; [reflexivity|discriminate]
          | exfalso; revert H; vm_compute; lia].
Qed.

Lemma json_body_ascii c s :
  nat_of_ascii c < 128 → json_body true 0 (String c s) = json_byte c +:+ json_body true 0 s.
Proof. intros H. simpl. by rewrite (proj2 (Nat.ltb_lt _ _) H). Qed.

Lemma json_body_code s t u v :
  is_ascii s → is_ascii t →
  json_body true 0 s +:+ dquote +:+ u = json_body true 0 t +:+ dquote +:+ v →
  s = t ∧ u = v.
Proof.
  unfold is_ascii. revert t. induction s as [|c s IH]; intros t Hs Ht.
  - destruct t as [|d t].
    { intros H. by apply (inj (String.app dquote)) in H as ->. }
    apply Forall_cons in Ht as [Hd _]. rewrite json_body_ascii by done.
    destruct (json_byte_head d Hd) as (e & r & -> & He). intros [= ??]. congruence.
  - apply Forall_cons in Hs as [Hc Hs]. rewrite json_body_ascii by done.
    destruct t as [|d t].
    { destruct (json_byte_head c Hc) as (e & r & -> & He). intros [= ??]. congruence. }
    apply Forall_cons in Ht as [Hd Ht]. rewrite json_body_ascii by done.
    rewrite !app_string_assoc. intros H.
    pose proof (read_json_byte c (json_body true 0 s +:+ dquote +:+ u) Hc) as E.
    rewrite H, read_json_byte in E by done.
    injection E as -> E. by destruct (IH t Hs Ht (eq_sym E)) as [-> ->].
Qed.

#[export] Instance json_string_code : JsonCode is_ascii json_string.
Proof.
  intros s t u v Hs Ht _ _. unfold json_string. rewrite !app_string_assoc.
  intros H. apply (inj (String.app dquote)) in H. by apply json_body_code in H.
Qed.
#[export] Instance json_string_head : JsonHead json_string.
Proof. intros s. eexists _, _. split; [reflexivity|done]. Qed.

(** Numbers: digits and a minus sign, ended by a delimiter. *)
Definition num_char (c : ascii) : Prop := Ascii.is_nat c ≠ None ∨ c = "-"%char.

Lemma pretty_N_go_chars x s :
  Forall num_char (String.list_ascii_of_string s) →
  Forall num_char (String.list_ascii_of_string (pretty_N_go x s)).
Proof.
  revert s. induction (N.lt_wf_0 x) as [x _ IH]; intros s Hs.
  destruct (decide (x = 0)%N) as [->|]; [by rewrite pretty_N_go_0|].
  rewrite pretty_N_go_step by lia. apply IH; [by apply N.div_lt; lia|].
  simpl. apply Forall_cons. split; [|done].
  left. unfold pretty_N_char. by repeat case_match.
Qed.

Lemma pretty_Z_chars (x : Z) :
  Forall num_char (String.list_ascii_of_string (pretty x)).
Proof.
  assert (∀ n : N, Forall num_char (String.list_ascii_of_string (pretty n))) as HN.
  { intros n. unfold pretty, pretty_N. case_decide.
    - apply Forall_singleton. by left.
    - apply pretty_N_go_chars. constructor. }
  destruct x as [|p|p]; [apply (HN 0%N)|apply (HN (Npos p))|].
  change (Forall num_char ("-"%char :: String.list_ascii_of_string (pretty (Npos p)))).
  apply Forall_cons. split; [by right|apply HN].
Qed.

Lemma num_chars_split s t u v :
  Forall num_char (String.list_ascii_of_string s) →
  Forall num_char (String.list_ascii_of_string t) →
  tail_ok u → tail_ok v → s +:+ u = t +:+ v → s = t ∧ u = v.
Proof.
  assert (∀ c, num_char c → ¬ (c = "," ∨ c = "}" ∨ c = "]")%char) as Hnt.
  { intros c [Hc| ->]; [|naive_solver]. intros [->|[->| ->]]; by apply Hc. }
  revert t. induction s as [|c s IH]; intros [|d t]; simpl; intros Hs Ht Hu Hv H.
  - done.
  - apply Forall_cons in Ht as [Hd _]. unfold String.app in H; simpl in H.
    subst u. simpl in Hu. by destruct (Hnt d Hd).
  - apply Forall_cons in Hs as [Hc _]. unfold String.app in H; simpl in H.
    subst v. simpl in Hv. by destruct (Hnt c Hc).
  - apply Forall_cons in Hs as [_ Hs]. apply Forall_cons in Ht as [_ Ht].
    injection H as -> H. by destruct (IH t Hs Ht Hu Hv H) as [-> ->].
Qed.

#[export] Instance json_int_code : JsonCode (λ _, True) json_int.
Proof.
  intros x y u v _ _ Hu Hv H. unfold json_int in H.
  apply num_chars_split in H as [Hxy ->]; [|auto using pretty_Z_chars..].
  by apply (inj pretty) in Hxy as ->.
Qed.
#[export] Instance json_int_head : JsonHead json_int.
Proof.
  intros x. unfold json_int. pose proof (pretty_Z_chars x) as H.
  destruct (pretty x) as [|c s] eqn:E.
  - exfalso. destruct x as [|p|p]; [done| |done].
    assert (pretty (Z.pos p) = pretty (N.pos p)) as E' by done.
    rewrite E in E'. revert E'. unfold pretty, pretty_N. simpl.
    rewrite pretty_N_go_step by lia.
    assert (∀ n d s, pretty_N_go n (String d s) ≠ "") as Hne; [|intros; by eapply Hne].
    clear. intros n. induction (N.lt_wf_0 n) as [n _ IH]; intros d s.
    destruct (decide (n = 0)%N) as [->|]; [by rewrite pretty_N_go_0|].
    rewrite pretty_N_go_step by lia. apply IH, N.div_lt; lia.
  - exists c, s. split; [done|]. apply Forall_cons in H as [[Hc| ->] _]; [|done].
    split; intros ->; by apply Hc.
Qed.

(** Pointers: [null] or the value. *)
#[export] Instance json_ptr_code {A} (P : A → Prop) enc :
  JsonCode P enc → JsonHead enc →
  JsonCode (λ p, ∀ a, p = Some a → P a) (json_ptr enc).
Proof.
  intros Hc Hh [a|] [b|] u v Ha Hb Hu Hv; simpl.
  - intros H. apply Hc in H as [-> ->]; auto.
  - destruct (Hh a) as (c & s & -> & Hn & _). intros [= ??]. congruence.
  - destruct (Hh b) as (c & s & -> & Hn & _). intros [= ??]. congruence.
  - intros H. by apply (inj (String.app "null")) in H.
Qed.

(** Arrays. *)
Lemma json_items_code {A} (P : A → Prop) enc `{JsonCode A P enc, JsonHead A enc} l1 l2 u v :
  Forall P l1 → Forall P l2 →
  json_items enc l1 +:+ u = json_items enc l2 +:+ v → l1 = l2 ∧ u = v.
Proof.
  revert l2. induction l1 as [|a l1 IH]; intros [|b l2] H1 H2 E; simpl in E.
  - by apply (inj (String.app "]")) in E as ->.
  - exfalso. destruct (json_head b) as (c & s & Hb & _ & Hc).
    destruct l2; rewrite Hb in E; injection E; congruence.
  - exfalso. destruct (json_head a) as (c & s & Ha & _ & Hc).
    destruct l1; rewrite Ha in E; injection E; congruence.
  - apply Forall_cons in H1 as [Ha H1]. apply Forall_cons in H2 as [Hb H2].
    destruct l1 as [|a' l1], l2 as [|b' l2]; rewrite !app_string_assoc in E;
      apply json_code in E as [-> E]; try done; simpl; auto.
    + by apply (inj (String.app "]")) in E as ->.
    + apply (inj (String.app ",")) in E.
      by destruct (IH (b' :: l2) H1 H2 E) as [-> ->].
Qed.

#[export] Instance json_list_code {A} (P : A → Prop) enc :
  JsonCode P enc → JsonHead enc → JsonCode (Forall P) (json_list enc).
Proof.
  intros ?? l1 l2 u v H1 H2 _ _ E. unfold json_list in E. rewrite !app_string_assoc in E.
  apply (inj (String.app "[")) in E. by eapply json_items_code.
Qed.
#[export] Instance json_list_head {A} (enc : A → string) : JsonHead (json_list enc).
Proof. intros l. eexists _, _. split; [reflexivity|done]. Qed.

#[export] Instance json_slice_code {A} (P : A → Prop) enc :
  JsonCode P enc → JsonHead enc →
  JsonCode (λ s, ∀ l, s = Some l → Forall P l) (json_slice enc).
Proof. intros ??. unfold json_slice. apply json_ptr_code; apply _. Qed.

(** Reads equal encodings of two records back, field by field. *)
Ltac peel_record H :=
  rewrite ?app_string_assoc in H;
  repeat first
    [ apply (inj (String.app _)) in H
    | apply json_code in H as [? H]; [|solve [auto | simpl; auto]..] ].
