(* ===== verification/AwsApi.v ===== *)
(** * The AWS services the provider calls

    The data of the SDK with the fields the program reads or writes (enumerations
    of the SDK are strings, pointers are options), and the signatures of the calls:
    [ec2E] for the interface [iface.EC2], [elbE] and [elbv2E] for the interfaces
    [ELB] and [ELBV2] of aws.go.  What the services answer is not defined here:
    a program is a tree over these calls (see [Effects.prog]). *)

From S2P Require Import Prelude GoLib Effects.

(** ** EC2 data (ec2/types) *)
Record Tag := mkTag { tag_Key : option string; tag_Value : option string }.
#[export] Instance Tag_eq_dec : EqDecision Tag.
Proof. solve_decision. Defined.

Record Filter := mkFilter { f_Name : string; f_Values : list string }.
#[export] Instance Filter_eq_dec : EqDecision Filter.
Proof. solve_decision. Defined.

Record IpRange := mkIpRange { CidrIp : option string; ipr_Description : option string }.
#[export] Instance IpRange_eq_dec : EqDecision IpRange.
Proof. solve_decision. Defined.

Record Ipv6Range := mkIpv6Range { CidrIpv6 : option string; ip6_Description : option string }.
#[export] Instance Ipv6Range_eq_dec : EqDecision Ipv6Range.
Proof. solve_decision. Defined.

Record PrefixListId := mkPrefixListId {
  pl_Description : option string;
  pl_PrefixListId : option string
}.
#[export] Instance PrefixListId_eq_dec : EqDecision PrefixListId.
Proof. solve_decision. Defined.

Record UserIdGroupPair := mkUserIdGroupPair {
  ug_Description : option string;
  ug_GroupId : option string;
  ug_GroupName : option string;
  ug_PeeringStatus : option string;
  ug_UserId : option string;
  ug_VpcId : option string;
  ug_VpcPeeringConnectionId : option string
}.
#[export] Instance UserIdGroupPair_eq_dec : EqDecision UserIdGroupPair.
Proof. solve_decision. Defined.

Record IpPermission := mkIpPermission {
  FromPort : option Z;
  IpProtocol : option string;
  IpRanges : slice IpRange;
  Ipv6Ranges : slice Ipv6Range;
  PrefixListIds : slice PrefixListId;
  ToPort : option Z;
  UserIdGroupPairs : slice UserIdGroupPair
}.
#[export] Instance IpPermission_eq_dec : EqDecision IpPermission.
Proof. solve_decision. Defined.

Record SecurityGroup := mkSecurityGroup {
  sg_GroupId : option string;
  sg_IpPermissions : list IpPermission;
  sg_Tags : list Tag
}.
#[export] Instance SecurityGroup_eq_dec : EqDecision SecurityGroup.
Proof. solve_decision. Defined.

Record GroupIdentifier := mkGroupIdentifier {
  gi_GroupId : option string;
  gi_GroupName : option string
}.
#[export] Instance GroupIdentifier_eq_dec : EqDecision GroupIdentifier.
Proof. solve_decision. Defined.

Record Ipv6CidrAssociation := mkIpv6CidrAssociation {
  assoc_Ipv6CidrBlock : option string;
  assoc_State : option string
}.
#[export] Instance Ipv6CidrAssociation_eq_dec : EqDecision Ipv6CidrAssociation.
Proof. solve_decision. Defined.

Record Subnet := mkSubnet {
  sn_SubnetId : option string;
  sn_AvailabilityZone : option string;
  sn_CidrBlock : option string;
  sn_Ipv6CidrBlockAssociationSet : list Ipv6CidrAssociation;
  sn_Tags : list Tag
}.
#[export] Instance Subnet_eq_dec : EqDecision Subnet.
Proof. solve_decision. Defined.

Record RouteTableAssociation := mkRouteTableAssociation {
  rta_Main : option bool;
  rta_SubnetId : option string
}.
#[export] Instance RouteTableAssociation_eq_dec : EqDecision RouteTableAssociation.
Proof. solve_decision. Defined.

Record Route := mkRoute {
  rt_DestinationCidrBlock : option string;
  rt_GatewayId : option string;
  rt_InstanceId : option string;
  rt_State : string
}.
#[export] Instance Route_eq_dec : EqDecision Route.
Proof. solve_decision. Defined.

Record RouteTable := mkRouteTable {
  rtb_RouteTableId : option string;
  rtb_Associations : list RouteTableAssociation;
  rtb_Routes : list Route;
  rtb_Tags : list Tag
}.
#[export] Instance RouteTable_eq_dec : EqDecision RouteTable.
Proof. solve_decision. Defined.

Record InstanceNetworkInterface := mkInstanceNetworkInterface {
  eni_DeviceIndex : option (option Z);  (** [Attachment], then its [DeviceIndex] *)
  eni_Status : string;
  eni_PrivateIpAddresses : list (option string);
  eni_Ipv6Addresses : list (option string)
}.
#[export] Instance InstanceNetworkInterface_eq_dec : EqDecision InstanceNetworkInterface.
Proof. solve_decision. Defined.

Record Instance_ := mkInstance {
  i_InstanceId : option string;
  i_InstanceType : string;
  i_AvailabilityZone : option (option string);  (** [Placement], then its zone *)
  i_PrivateDnsName : option string;
  i_PublicDnsName : option string;
  i_PublicIpAddress : option string;
  i_NetworkInterfaces : list InstanceNetworkInterface;
  i_SecurityGroups : list GroupIdentifier;
  i_State : option string;  (** the name of [State] *)
  i_SubnetId : option string;
  i_VpcId : option string;
  i_Tags : list Tag
}.
#[export] Instance Instance_eq_dec : EqDecision Instance_.
Proof. solve_decision. Defined.

Record AvailabilityZone := mkAvailabilityZone {
  az_ZoneName : option string;
  az_ZoneId : option string;
  az_ZoneType : option string
}.

Record NetworkInterface := mkNetworkInterface {
  ni_AvailabilityZone : option string;
  ni_PrivateDnsName : option string;
  ni_PrivateIpAddress : option string;
  ni_Ipv6Addresses : list (option string)
}.

Record InstanceTopology := mkInstanceTopology { it_NetworkNodes : list string }.

(** [newEc2Filter] (aws.go and fargate.go) *)
Definition newEc2Filter (name : string) (values : list string) : Filter :=
  mkFilter name values.

(** ** [iface.EC2] *)
Inductive ec2E : Type → Type :=
  | DescribeInstances (ids : list string) (filters : list Filter) : ec2E (list Instance_)
  | DescribeInstanceTopology (ids : list string) : ec2E (list InstanceTopology)
  | DescribeSecurityGroups (ids : list string) (filters : list Filter) : ec2E (list SecurityGroup)
  | CreateSecurityGroup (name description vpc : string) (tags : list Tag) : ec2E (option string)
  | DeleteSecurityGroup (id : string) : ec2E unit
  | AuthorizeSecurityGroupIngress (id : option string) (perms : list IpPermission) : ec2E unit
  | RevokeSecurityGroupIngress (id : option string) (perms : list IpPermission) : ec2E unit
  | DescribeSubnets (ids : list string) (filters : list Filter) : ec2E (list Subnet)
  | DescribeAvailabilityZones : ec2E (list AvailabilityZone)
  | CreateTags (resources : list string) (tags : list Tag) : ec2E unit
  | DeleteTags (resources : list string) (tags : list Tag) : ec2E unit
  | DescribeRouteTables (filters : list Filter) : ec2E (list RouteTable)
  | CreateRoute (table : option string) (cidr : string) (instance : option string) : ec2E unit
  | DeleteRoute (table : option string) (cidr : option string) : ec2E unit
  | ModifyInstanceAttribute (instance : string) (sourceDestCheck : bool) : ec2E unit
  | DescribeNetworkInterfaces (filters : list Filter) : ec2E (list NetworkInterface).

(** ** Classic load balancers (elasticloadbalancing/types) *)
Record ElbListener := mkElbListener {
  l_InstancePort : option Z;
  l_LoadBalancerPort : Z;
  l_Protocol : option string;
  l_InstanceProtocol : option string;
  l_SSLCertificateId : option string
}.
#[export] Instance ElbListener_eq_dec : EqDecision ElbListener.
Proof. solve_decision. Defined.

Record BackendServerDescription := mkBackend {
  be_InstancePort : option Z;
  be_PolicyNames : list string
}.

Record HealthCheck := mkHealthCheck {
  hck_HealthyThreshold : option Z;
  hck_Interval : option Z;
  hck_Target : option string;
  hck_Timeout : option Z;
  hck_UnhealthyThreshold : option Z
}.

Record LoadBalancerDescription := mkLoadBalancerDescription {
  lb_LoadBalancerName : option string;
  lb_DNSName : option string;
  lb_Subnets : list string;
  lb_SecurityGroups : list string;
  lb_ListenerDescriptions : list (option ElbListener);  (** the [Listener] of each *)
  lb_BackendServerDescriptions : list BackendServerDescription;
  lb_HealthCheck : option HealthCheck;
  lb_Instances : list (option string)  (** the [InstanceId] of each *)
}.

Record AccessLog := mkAccessLog {
  al_Enabled : bool;
  al_EmitInterval : option Z;
  al_S3BucketName : option string;
  al_S3BucketPrefix : option string
}.
#[export] Instance AccessLog_eq_dec : EqDecision AccessLog.
Proof. solve_decision. Defined.

Record ConnectionDraining := mkConnectionDraining { cd_Enabled : bool; cd_Timeout : option Z }.
#[export] Instance ConnectionDraining_eq_dec : EqDecision ConnectionDraining.
Proof. solve_decision. Defined.

Record LoadBalancerAttributes := mkLoadBalancerAttributes {
  la_AccessLog : option AccessLog;
  la_AdditionalAttributes : slice (option string * option string);
  la_ConnectionDraining : option ConnectionDraining;
  la_IdleTimeout : option (option Z);  (** [ConnectionSettings], then its timeout *)
  la_CrossZone : option bool  (** [CrossZoneLoadBalancing], then [Enabled] *)
}.
#[export] Instance LoadBalancerAttributes_eq_dec : EqDecision LoadBalancerAttributes.
Proof. solve_decision. Defined.

(** ** The interface [ELB] *)
Inductive elbE : Type → Type :=
  | ElbDescribeLoadBalancers (names : list string) : elbE (list LoadBalancerDescription)
  | ElbCreateLoadBalancer (name : string) (listeners : list ElbListener) (scheme : option string)
      (subnets securityGroups : list string) (tags : list Tag) : elbE unit
  | ElbDeleteLoadBalancer (name : option string) : elbE unit
  | ElbAddTags (names : list string) (tags : list Tag) : elbE unit
  | DetachLoadBalancerFromSubnets (name : string) (subnets : list string) : elbE unit
  | AttachLoadBalancerToSubnets (name : string) (subnets : list string) : elbE unit
  | ApplySecurityGroupsToLoadBalancer (name : string) (groups : list string) : elbE unit
  | DeleteLoadBalancerListeners (name : string) (ports : list Z) : elbE unit
  | CreateLoadBalancerListeners (name : string) (listeners : list ElbListener) : elbE unit
  | CreateLoadBalancerPolicy (name : option string) (policy type : string)
      (attributes : list (string * string)) : elbE unit
  | DescribeLoadBalancerPolicies (name : option string) (policies : list string) :
      elbE (list string)
  | SetLoadBalancerPoliciesForBackendServer (name : string) (port : option Z)
      (policies : list string) : elbE unit
  | SetLoadBalancerPoliciesOfListener (name : string) (port : Z) (policies : list string) :
      elbE unit
  | ElbDescribeLoadBalancerAttributes (name : string) : elbE LoadBalancerAttributes
  | ElbModifyLoadBalancerAttributes (name : string) (attributes : LoadBalancerAttributes) :
      elbE unit
  | ConfigureHealthCheck (name : option string) (check : HealthCheck) : elbE unit
  | RegisterInstancesWithLoadBalancer (name : string) (instances : list string) : elbE unit
  | DeregisterInstancesFromLoadBalancer (name : string) (instances : list string) : elbE unit.

(** ** Network load balancers (elasticloadbalancingv2/types) *)
Record LoadBalancerV2 := mkLoadBalancerV2 {
  nlb_LoadBalancerArn : option string;
  nlb_DNSName : option string;
  nlb_Type : string;
  nlb_VpcId : option string;
  nlb_SecurityGroups : slice string;
  nlb_IpAddressType : string;
  nlb_AvailabilityZones : list (option string);  (** the [SubnetId] of each *)
  nlb_State : option string  (** the code of [State] *)
}.

Record Listener := mkListener {
  ls_ListenerArn : option string;
  ls_Port : option Z;
  ls_Protocol : string;
  ls_SslPolicy : option string;
  ls_Certificates : list (option string);  (** the [CertificateArn] of each *)
  ls_AlpnPolicy : list string;
  ls_DefaultActions : list (option string)  (** the [TargetGroupArn] of each *)
}.

Record TargetGroup := mkTargetGroup {
  tg_TargetGroupArn : option string;
  tg_Port : option Z;
  tg_Protocol : string;
  tg_IpAddressType : string;
  tg_HealthCheckPort : option string;
  tg_HealthCheckProtocol : string;
  tg_HealthCheckIntervalSeconds : option Z;
  tg_HealthyThresholdCount : option Z
}.

Record TargetDescription := mkTargetDescription { td_Id : option string; td_Port : option Z }.
#[export] Instance TargetDescription_eq_dec : EqDecision TargetDescription.
Proof. solve_decision. Defined.

(** [Target] and the reason of [TargetHealth], both pointers. *)
Record TargetHealthDescription := mkTargetHealthDescription {
  th_Target : option TargetDescription;
  th_Reason : option string
}.

Record SubnetMapping := mkSubnetMapping {
  sm_SubnetId : string;
  sm_AllocationId : option string;
  sm_PrivateIPv4Address : option string
}.

(** The input of [CreateLoadBalancer]. *)
Record CreateNlbInput := mkCreateNlbInput {
  cn_Name : string;
  cn_IpAddressType : string;
  cn_Scheme : string;
  cn_SubnetMappings : list SubnetMapping;
  cn_SecurityGroups : list string;
  cn_Tags : list Tag
}.

(** The inputs of [CreateTargetGroup], [ModifyTargetGroup], [CreateListener] and
    [ModifyListener]. *)
Record CreateTargetGroupInput := mkCreateTargetGroupInput {
  ct_VpcId : string;
  ct_Name : string;
  ct_Port : Z;
  ct_Protocol : string;
  ct_TargetType : string;
  ct_IpAddressType : string;
  ct_HealthCheckIntervalSeconds : Z;
  ct_HealthCheckPort : string;
  ct_HealthCheckProtocol : string;
  ct_HealthyThresholdCount : Z;
  ct_UnhealthyThresholdCount : Z;
  ct_HealthCheckPath : option string;
  ct_Tags : list Tag
}.

Record ModifyTargetGroupInput := mkModifyTargetGroupInput {
  mt_TargetGroupArn : option string;
  mt_HealthCheckPort : option string;
  mt_HealthyThresholdCount : option Z;
  mt_UnhealthyThresholdCount : option Z;
  mt_HealthCheckPath : option string
}.

Record CreateListenerInput := mkCreateListenerInput {
  cl_LoadBalancerArn : option string;
  cl_Port : Z;
  cl_Protocol : string;
  cl_TargetGroupArn : option string;  (** of the one action, of type forward *)
  cl_SslPolicy : option string;
  cl_AlpnPolicy : list string;
  cl_Certificates : list string;
  cl_Tags : list Tag
}.

Record ModifyListenerInput := mkModifyListenerInput {
  ml_ListenerArn : option string;
  ml_Port : Z;
  ml_Protocol : string;
  ml_TargetGroupArn : option string;
  ml_SslPolicy : option string;
  ml_AlpnPolicy : list string;
  ml_Certificates : list string
}.

(** An attribute of a load balancer or of a target group. *)
Record Attribute := mkAttribute { at_Key : option string; at_Value : option string }.
#[export] Instance Attribute_eq_dec : EqDecision Attribute.
Proof. solve_decision. Defined.

(** ** The interface [ELBV2] *)
Inductive elbv2E : Type → Type :=
  | DescribeLoadBalancers (names arns : list string) : elbv2E (list LoadBalancerV2)
  | CreateLoadBalancer (input : CreateNlbInput) : elbv2E (list LoadBalancerV2)
  | DeleteLoadBalancer (arn : option string) : elbv2E unit
  | SetSecurityGroups (arn : option string) (groups : list string) : elbv2E unit
  | SetIpAddressType (arn : option string) (type : string) : elbv2E unit
  | DescribeListeners (arn : option string) : elbv2E (list Listener)
  | CreateListener (input : CreateListenerInput) : elbv2E (list Listener)
  | ModifyListener (input : ModifyListenerInput) : elbv2E unit
  | DeleteListener (arn : option string) : elbv2E unit
  | DescribeTargetGroups (lbArn : option string) (tgArns : list string) :
      elbv2E (list TargetGroup)
  | CreateTargetGroup (input : CreateTargetGroupInput) : elbv2E (list TargetGroup)
  | ModifyTargetGroup (input : ModifyTargetGroupInput) : elbv2E unit
  | DeleteTargetGroup (arn : option string) : elbv2E unit
  | DescribeTargetHealth (arn : string) : elbv2E (list TargetHealthDescription)
  | RegisterTargets (arn : string) (targets : list TargetDescription) : elbv2E unit
  | DeregisterTargets (arn : string) (targets : list TargetDescription) : elbv2E unit
  | DescribeLoadBalancerAttributes (arn : string) : elbv2E (list Attribute)
  | ModifyLoadBalancerAttributes (arn : string) (attributes : list Attribute) : elbv2E unit
  | DescribeTargetGroupAttributes (arn : option string) : elbv2E (slice Attribute)
  | ModifyTargetGroupAttributes (arn : option string) (attributes : list Attribute) : elbv2E unit.

(** ** All calls of the provider *)
Inductive awsE : Type → Type :=
  | EC2 {R} (c : ec2E R) : awsE R
  | ELB {R} (c : elbE R) : awsE R
  | ELBV2 {R} (c : elbv2E R) : awsE R.

Definition ec2 {R} (c : ec2E R) : prog awsE (result R) := call (EC2 c).
Definition elb {R} (c : elbE R) : prog awsE (result R) := call (ELB c).
Definition elbv2 {R} (c : elbv2E R) : prog awsE (result R) := call (ELBV2 c).

(** ** Kinds of calls *)


(** The call only reads. *)
Definition readonly_ec2 {R} (c : ec2E R) : bool :=
  match c with
  | CreateSecurityGroup _ _ _ _ | DeleteSecurityGroup _ | AuthorizeSecurityGroupIngress _ _
  | RevokeSecurityGroupIngress _ _ | CreateTags _ _ | DeleteTags _ _ | CreateRoute _ _ _
  | DeleteRoute _ _ | ModifyInstanceAttribute _ _ => false
  | _ => true
  end.
Definition readonly_elb {R} (c : elbE R) : bool :=
  match c with
  | ElbDescribeLoadBalancers _ | DescribeLoadBalancerPolicies _ _
  | ElbDescribeLoadBalancerAttributes _ => true
  | _ => false
  end.
Definition readonly_elbv2 {R} (c : elbv2E R) : bool :=
  match c with
  | DescribeLoadBalancers _ _ | DescribeListeners _ | DescribeTargetGroups _ _
  | DescribeTargetHealth _ | DescribeLoadBalancerAttributes _
  | DescribeTargetGroupAttributes _ => true
  | _ => false
  end.
Definition readonly {R} (c : awsE R) : bool :=
  match c with
  | EC2 c => readonly_ec2 c
  | ELB c => readonly_elb c
  | ELBV2 c => readonly_elbv2 c
  end.

(** ** Which calls a program makes *)
Lemma calls_ec2 P {R} (c : ec2E R) : (∀ r, P (Ev (EC2 c) r)) → all_calls P (ec2 c).
Proof. simpl. auto. Qed.
Lemma calls_elb P {R} (c : elbE R) : (∀ r, P (Ev (ELB c) r)) → all_calls P (elb c).
Proof. simpl. auto. Qed.
Lemma calls_elbv2 P {R} (c : elbv2E R) : (∀ r, P (Ev (ELBV2 c) r)) → all_calls P (elbv2 c).
Proof. simpl. auto. Qed.

(** Leaves the goals about single calls and about the functions called. *)
Ltac calls :=
  repeat first
    [ calls_step
    | match goal with
      | |- all_calls _ (ec2 _) => apply calls_ec2
      | |- all_calls _ (elb _) => apply calls_elb
      | |- all_calls _ (elbv2 _) => apply calls_elbv2
      end ].
