(* ===== verification/IPPermissions.v ===== *)
(** * Sets of security-group permissions (sets_ippermissions.go)

    [IPPermissionSet] is a map from the JSON text of a permission to the
    permission.  The comparison of two permissions ([ipPermissionExists] of aws.go)
    is here too: it decides what [Difference] reports.  A comparison of group pairs
    dereferences both group ids for a log line, so the comparison may panic:
    [None] is that panic. *)

From S2P Require Import Prelude GoLib Json AwsApi.
Import Strings.

(** ** Keys *)
Definition json_IpRange (r : IpRange) : string :=
  "{" +:+ json_key "CidrIp" +:+ json_ptr json_string (CidrIp r) +:+
  "," +:+ json_key "Description" +:+ json_ptr json_string (ipr_Description r) +:+ "}".

Definition json_Ipv6Range (r : Ipv6Range) : string :=
  "{" +:+ json_key "CidrIpv6" +:+ json_ptr json_string (CidrIpv6 r) +:+
  "," +:+ json_key "Description" +:+ json_ptr json_string (ip6_Description r) +:+ "}".

Definition json_PrefixListId (r : PrefixListId) : string :=
  "{" +:+ json_key "Description" +:+ json_ptr json_string (pl_Description r) +:+
  "," +:+ json_key "PrefixListId" +:+ json_ptr json_string (pl_PrefixListId r) +:+ "}".

Definition json_UserIdGroupPair (r : UserIdGroupPair) : string :=
  "{" +:+ json_key "Description" +:+ json_ptr json_string (ug_Description r) +:+
  "," +:+ json_key "GroupId" +:+ json_ptr json_string (ug_GroupId r) +:+
  "," +:+ json_key "GroupName" +:+ json_ptr json_string (ug_GroupName r) +:+
  "," +:+ json_key "PeeringStatus" +:+ json_ptr json_string (ug_PeeringStatus r) +:+
  "," +:+ json_key "UserId" +:+ json_ptr json_string (ug_UserId r) +:+
  "," +:+ json_key "VpcId" +:+ json_ptr json_string (ug_VpcId r) +:+
  "," +:+ json_key "VpcPeeringConnectionId" +:+
  json_ptr json_string (ug_VpcPeeringConnectionId r) +:+ "}".

(** [json.Marshal] cannot fail on this type, so the panic of the source is dead. *)
Definition keyForIPPermission (p : IpPermission) : string :=
  "{" +:+ json_key "FromPort" +:+ json_ptr json_int (FromPort p) +:+
  "," +:+ json_key "IpProtocol" +:+ json_ptr json_string (IpProtocol p) +:+
  "," +:+ json_key "IpRanges" +:+ json_slice json_IpRange (IpRanges p) +:+
  "," +:+ json_key "Ipv6Ranges" +:+ json_slice json_Ipv6Range (Ipv6Ranges p) +:+
  "," +:+ json_key "PrefixListIds" +:+ json_slice json_PrefixListId (PrefixListIds p) +:+
  "," +:+ json_key "ToPort" +:+ json_ptr json_int (ToPort p) +:+
  "," +:+ json_key "UserIdGroupPairs" +:+
  json_slice json_UserIdGroupPair (UserIdGroupPairs p) +:+ "}".

(** ** Comparison of permissions (aws.go) *)
Definition isEqualIntPointer (l r : option Z) : bool :=
  match l, r with
  | None, None => true
  | Some x, Some y => Z.eqb x y
  | _, _ => false
  end.

Definition isEqualStringPointer (l r : option string) : bool :=
  match l, r with
  | None, None => true
  | Some x, Some y => String.eqb x y
  | _, _ => false
  end.

(** [break] at the first hit; a panic stops the loop. *)
Fixpoint exists_o {A} (f : A → option bool) (l : list A) : option bool :=
  match l with
  | [] => Some false
  | x :: l => b ← f x; if (b : bool) then Some true else exists_o f l
  end.

(** [if !found return false] *)
Fixpoint forall_o {A} (f : A → option bool) (l : list A) : option bool :=
  match l with
  | [] => Some true
  | x :: l => b ← f x; if (b : bool) then forall_o f l else Some false
  end.

(** The log line of the source reads both group ids before the comparison. *)
Definition isEqualUserGroupPair (l r : UserIdGroupPair) (compareGroupUserIDs : bool) :
    option bool :=
  _ ← ug_GroupId l; _ ← ug_GroupId r;
  Some (if isEqualStringPointer (ug_GroupId l) (ug_GroupId r)
        then if compareGroupUserIDs then isEqualStringPointer (ug_UserId l) (ug_UserId r) else true
        else false).

Definition ipPermissionExists (newPermission existing : IpPermission)
    (compareGroupUserIDs : bool) : option bool :=
  if negb (isEqualIntPointer (FromPort newPermission) (FromPort existing)) then Some false else
  if negb (isEqualIntPointer (ToPort newPermission) (ToPort existing)) then Some false else
  if negb (isEqualStringPointer (IpProtocol newPermission) (IpProtocol existing)) then Some false else
  if length (elems (IpRanges existing)) <? length (elems (IpRanges newPermission)) then Some false else
  if negb (forallb (λ r, existsb (λ e, isEqualStringPointer (CidrIp r) (CidrIp e))
                                 (elems (IpRanges existing)))
                   (elems (IpRanges newPermission))) then Some false else
  forall_o (λ l, exists_o (λ r, isEqualUserGroupPair l r compareGroupUserIDs)
                          (elems (UserIdGroupPairs existing)))
           (elems (UserIdGroupPairs newPermission)).

(** ** Predicates *)
Inductive IPPermissionPredicate :=
  | IPPermissionMatchDesc (Description : string)
  | IPPermissionNotMatch (Predicate : IPPermissionPredicate).

Fixpoint Test (p : IPPermissionPredicate) (perm : IpPermission) : bool :=
  match p with
  | IPPermissionMatchDesc d =>
     existsb (λ r, String.eqb (ToString (ipr_Description r)) d) (elems (IpRanges perm)) ||
     existsb (λ r, String.eqb (ToString (ip6_Description r)) d) (elems (Ipv6Ranges perm)) ||
     existsb (λ r, String.eqb (ToString (pl_Description r)) d) (elems (PrefixListIds perm)) ||
     existsb (λ r, String.eqb (ToString (ug_Description r)) d) (elems (UserIdGroupPairs perm))
  | IPPermissionNotMatch p => negb (Test p perm)
  end.

(** ** The set *)
Abbreviation IPPermissionSet := (gmap string IpPermission).

Definition Insert (s : IPPermissionSet) (items : list IpPermission) : IPPermissionSet :=
  foldl (λ s p, <[keyForIPPermission p := p]> s) s items.

Definition Delete (s : IPPermissionSet) (items : list IpPermission) : IPPermissionSet :=
  foldl (λ s p, delete (keyForIPPermission p) s) s items.

Definition NewIPPermissionSet (items : list IpPermission) : IPPermissionSet := Insert ∅ items.

Definition Len (s : IPPermissionSet) : nat := size s.

Section set.
Context {GR : GoRange}.

Definition List (s : IPPermissionSet) : list IpPermission := (range_map s).*2.

Definition DeleteIf (s : IPPermissionSet) (predicate : IPPermissionPredicate) : IPPermissionSet :=
  foldl (λ s '(k, p), if Test predicate p then delete k s else s) s (range_map s).

Definition IsSuperset (s s2 : IPPermissionSet) : bool :=
  forallb (λ k, bool_decide (is_Some (s !! k))) (range_map s2).*1.

Definition Equal (s s2 : IPPermissionSet) : bool := (size s =? size s2) && IsSuperset s s2.

(** The inner loop of [Difference]. *)
Definition differenceFound (s2 : IPPermissionSet) (desired : IpPermission) : option bool :=
  exists_o (λ existing, ipPermissionExists desired existing false) (List s2).

Fixpoint differenceLoop (s2 : IPPermissionSet) (l : list IpPermission) (acc : IPPermissionSet) :
    option IPPermissionSet :=
  match l with
  | [] => Some acc
  | desired :: l =>
     found ← differenceFound s2 desired;
     differenceLoop s2 l (if (found : bool) then acc else Insert acc [desired])
  end.
Definition Difference (s s2 : IPPermissionSet) : option IPPermissionSet :=
  differenceLoop s2 (List s) (NewIPPermissionSet []).

(** One pass of [Ungroup]: a permission with more than one member in a field is
    replaced by a copy per member. *)
Definition ungroupBy {A} (get : IpPermission → list A) (set : IpPermission → A → IpPermission)
    (l : list IpPermission) : list IpPermission :=
  l ≫= λ p, if length (get p) <=? 1 then [p] else set p <$> get p.

Definition withIpRange (p : IpPermission) (r : IpRange) : IpPermission :=
  mkIpPermission (FromPort p) (IpProtocol p) (Some [r]) (Ipv6Ranges p) (PrefixListIds p)
    (ToPort p) (UserIdGroupPairs p).
Definition withUserIdGroupPair (p : IpPermission) (u : UserIdGroupPair) : IpPermission :=
  mkIpPermission (FromPort p) (IpProtocol p) (IpRanges p) (Ipv6Ranges p) (PrefixListIds p)
    (ToPort p) (Some [u]).
Definition withPrefixListId (p : IpPermission) (v : PrefixListId) : IpPermission :=
  mkIpPermission (FromPort p) (IpProtocol p) (IpRanges p) (Ipv6Ranges p) (Some [v])
    (ToPort p) (UserIdGroupPairs p).

Definition ungroupList (l : list IpPermission) : list IpPermission :=
  let l := ungroupBy (λ p, elems (IpRanges p)) withIpRange l in
  let l2 := ungroupBy (λ p, elems (UserIdGroupPairs p)) withUserIdGroupPair l in
  ungroupBy (λ p, elems (PrefixListIds p)) withPrefixListId l2.

Definition Ungroup (s : IPPermissionSet) : IPPermissionSet :=
  NewIPPermissionSet (ungroupList (List s)).

End set.

(** ** A key determines its permission *)
Definition ascii_ptr (p : option string) : Prop := ∀ s, p = Some s → is_ascii s.
Definition ascii_IpRange (r : IpRange) : Prop :=
  ascii_ptr (CidrIp r) ∧ ascii_ptr (ipr_Description r).
Definition ascii_Ipv6Range (r : Ipv6Range) : Prop :=
  ascii_ptr (CidrIpv6 r) ∧ ascii_ptr (ip6_Description r).
Definition ascii_PrefixListId (r : PrefixListId) : Prop :=
  ascii_ptr (pl_Description r) ∧ ascii_ptr (pl_PrefixListId r).
Definition ascii_UserIdGroupPair (r : UserIdGroupPair) : Prop :=
  Forall ascii_ptr [ug_Description r; ug_GroupId r; ug_GroupName r; ug_PeeringStatus r;
    ug_UserId r; ug_VpcId r; ug_VpcPeeringConnectionId r].

(** Every text of the permission is ASCII. *)
Record ascii_perm (p : IpPermission) : Prop := {
  ascii_proto : ascii_ptr (IpProtocol p);
  ascii_v4 : ∀ l, IpRanges p = Some l → Forall ascii_IpRange l;
  ascii_v6 : ∀ l, Ipv6Ranges p = Some l → Forall ascii_Ipv6Range l;
  ascii_pl : ∀ l, PrefixListIds p = Some l → Forall ascii_PrefixListId l;
  ascii_ug : ∀ l, UserIdGroupPairs p = Some l → Forall ascii_UserIdGroupPair l
}.

#[export] Instance json_IpRange_code : JsonCode ascii_IpRange json_IpRange.
Proof.
  intros [a1 a2] [b1 b2] u v [??] [??] _ _ E. unfold json_IpRange in E. simpl in *.
  peel_record E. by simplify_eq.
Qed.
#[export] Instance json_IpRange_head : JsonHead json_IpRange.
Proof. intros r. eexists _, _. split; [reflexivity|done]. Qed.

#[export] Instance json_Ipv6Range_code : JsonCode ascii_Ipv6Range json_Ipv6Range.
Proof.
  intros [a1 a2] [b1 b2] u v [??] [??] _ _ E. unfold json_Ipv6Range in E. simpl in *.
  peel_record E. by simplify_eq.
Qed.
#[export] Instance json_Ipv6Range_head : JsonHead json_Ipv6Range.
Proof. intros r. eexists _, _. split; [reflexivity|done]. Qed.

#[export] Instance json_PrefixListId_code : JsonCode ascii_PrefixListId json_PrefixListId.
Proof.
  intros [a1 a2] [b1 b2] u v [??] [??] _ _ E. unfold json_PrefixListId in E. simpl in *.
  peel_record E. by simplify_eq.
Qed.
#[export] Instance json_PrefixListId_head : JsonHead json_PrefixListId.
Proof. intros r. eexists _, _. split; [reflexivity|done]. Qed.

#[export] Instance json_UserIdGroupPair_code :
  JsonCode ascii_UserIdGroupPair json_UserIdGroupPair.
Proof.
  intros [] [] u v Ha Hb _ _ E. unfold json_UserIdGroupPair in E. simpl in *.
  unfold ascii_UserIdGroupPair in *. decompose_Forall_hyps.
  peel_record E. by simplify_eq.
Qed.
#[export] Instance json_UserIdGroupPair_head : JsonHead json_UserIdGroupPair.
Proof. intros r. eexists _, _. split; [reflexivity|done]. Qed.

Lemma keyForIPPermission_code p q u v :
  ascii_perm p → ascii_perm q →
  keyForIPPermission p +:+ u = keyForIPPermission q +:+ v → p = q ∧ u = v.
Proof.
  intros [????] [????] E. destruct p, q. unfold keyForIPPermission in E. simpl in *.
  peel_record E. by simplify_eq.
Qed.

Lemma keyForIPPermission_inj p q :
  ascii_perm p → ascii_perm q → keyForIPPermission p = keyForIPPermission q → p = q.
Proof.
  intros Hp Hq E. apply (keyForIPPermission_code p q "" "" Hp Hq). by rewrite E.
Qed.

(** ** What the comparison decides *)
Lemma exists_o_pure {A} (f : A → option bool) (g : A → bool) l :
  (∀ x, x ∈ l → f x = Some (g x)) → exists_o f l = Some (existsb g l).
Proof.
  induction l as [|x l IH]; intros H; simpl; [done|].
  rewrite H by set_solver. simpl. destruct (g x); simpl; [done|].
  apply IH. set_solver.
Qed.

Lemma forall_o_pure {A} (f : A → option bool) (g : A → bool) l :
  (∀ x, x ∈ l → f x = Some (g x)) → forall_o f l = Some (forallb g l).
Proof.
  induction l as [|x l IH]; intros H; simpl; [done|].
  rewrite H by set_solver. simpl. destruct (g x); simpl; [|done].
  apply IH. set_solver.
Qed.

Lemma isEqualIntPointer_spec l r : isEqualIntPointer l r = true ↔ l = r.
Proof. destruct l, r; simpl; rewrite ?Z.eqb_eq; naive_solver. Qed.
Lemma isEqualStringPointer_spec l r : isEqualStringPointer l r = true ↔ l = r.
Proof. destruct l, r; simpl; rewrite ?String.eqb_eq; naive_solver. Qed.

(** Every group pair of the permission names its group by id. *)
Definition group_ids (p : IpPermission) : Prop :=
  ∀ u, u ∈ elems (UserIdGroupPairs p) → is_Some (ug_GroupId u).

(** The permission [p] is subsumed by [e] for the code: ports, protocol, IPv4
    ranges and group pairs are compared, IPv6 ranges and prefix lists are not. *)
Record covered (users : bool) (p e : IpPermission) : Prop := {
  cov_from : FromPort p = FromPort e;
  cov_to : ToPort p = ToPort e;
  cov_proto : IpProtocol p = IpProtocol e;
  cov_len : length (elems (IpRanges p)) ≤ length (elems (IpRanges e));
  cov_v4 : ∀ r, r ∈ elems (IpRanges p) → ∃ x, x ∈ elems (IpRanges e) ∧ CidrIp r = CidrIp x;
  cov_ug : ∀ l, l ∈ elems (UserIdGroupPairs p) → ∃ r, r ∈ elems (UserIdGroupPairs e) ∧
    ug_GroupId l = ug_GroupId r ∧ (users = true → ug_UserId l = ug_UserId r)
}.

Definition pairB (users : bool) (l r : UserIdGroupPair) : bool :=
  isEqualStringPointer (ug_GroupId l) (ug_GroupId r) &&
  (if users then isEqualStringPointer (ug_UserId l) (ug_UserId r) else true).

Lemma pairB_spec users l r :
  pairB users l r = true ↔
  ug_GroupId l = ug_GroupId r ∧ (users = true → ug_UserId l = ug_UserId r).
Proof.
  unfold pairB. rewrite andb_true_iff, isEqualStringPointer_spec.
  destruct users; rewrite ?isEqualStringPointer_spec; naive_solver.
Qed.

Lemma pairs_loop users p e :
  group_ids p → group_ids e →
  forall_o (λ l, exists_o (λ r, isEqualUserGroupPair l r users) (elems (UserIdGroupPairs e)))
    (elems (UserIdGroupPairs p)) =
  Some (forallb (λ l, existsb (pairB users l) (elems (UserIdGroupPairs e)))
    (elems (UserIdGroupPairs p))).
Proof.
  intros Hp He. apply forall_o_pure. intros l Hl. apply exists_o_pure. intros r Hr.
  unfold isEqualUserGroupPair, pairB.
  destruct (Hp l Hl) as [x ->], (He r Hr) as [y ->]. simpl.
  by destruct (String.eqb x y), users.
Qed.

(** The comparison without its panic. *)
Definition coveredB (users : bool) (p e : IpPermission) : bool :=
  isEqualIntPointer (FromPort p) (FromPort e) &&
  (isEqualIntPointer (ToPort p) (ToPort e) &&
  (isEqualStringPointer (IpProtocol p) (IpProtocol e) &&
  (negb (length (elems (IpRanges e)) <? length (elems (IpRanges p))) &&
  (forallb (λ r, existsb (λ x, isEqualStringPointer (CidrIp r) (CidrIp x))
    (elems (IpRanges e))) (elems (IpRanges p)) &&
   forallb (λ l, existsb (pairB users l) (elems (UserIdGroupPairs e)))
    (elems (UserIdGroupPairs p)))))).

Lemma ipPermissionExists_pure users p e :
  group_ids p → group_ids e → ipPermissionExists p e users = Some (coveredB users p e).
Proof.
  intros Hp He. unfold ipPermissionExists, coveredB. rewrite pairs_loop by done.
  destruct (isEqualIntPointer (FromPort p) (FromPort e)); simpl; [|done].
  destruct (isEqualIntPointer (ToPort p) (ToPort e)); simpl; [|done].
  destruct (isEqualStringPointer (IpProtocol p) (IpProtocol e)); simpl; [|done].
  destruct (_ <? _); simpl; [done|].
  by destruct (forallb _ (elems (IpRanges p))).
Qed.

Lemma coveredB_spec users p e : coveredB users p e = true ↔ covered users p e.
Proof.
  unfold coveredB. rewrite !andb_true_iff, !isEqualIntPointer_spec,
    isEqualStringPointer_spec, negb_true_iff, Nat.ltb_ge, !forallb_elem_of.
  setoid_rewrite existsb_elem_of. setoid_rewrite isEqualStringPointer_spec.
  setoid_rewrite pairB_spec. split.
  - intros (?&?&?&?&?&?). by split.
  - by intros [].
Qed.

(** ** The set as a set of permissions *)

(** The permission [p] is a member of [s]. *)
Definition mem (p : IpPermission) (s : IPPermissionSet) : Prop :=
  s !! keyForIPPermission p = Some p.

(** Every entry is filed under the key of its permission. *)
Definition keyed (s : IPPermissionSet) : Prop :=
  ∀ k p, s !! k = Some p → k = keyForIPPermission p.

(** ... and every text of every member is ASCII. *)
Definition ascii_set (s : IPPermissionSet) : Prop :=
  ∀ k p, s !! k = Some p → ascii_perm p.

Lemma mem_insert s x p :
  ascii_perm p → ascii_perm x →
  mem p (<[keyForIPPermission x := x]> s) ↔ p = x ∨ mem p s.
Proof.
  intros Hp Hx. unfold mem. destruct (decide (p = x)) as [->|Hne].
  - rewrite lookup_insert_eq. naive_solver.
  - rewrite lookup_insert_ne; [naive_solver|]. intros E. apply Hne. symmetry.
    by apply keyForIPPermission_inj.
Qed.

Lemma mem_Insert s items p :
  ascii_perm p → Forall ascii_perm items → mem p (Insert s items) ↔ p ∈ items ∨ mem p s.
Proof.
  intros Hp. unfold Insert. revert s. induction items as [|x items IH]; intros s Hi; simpl.
  - set_solver.
  - inversion Hi; subst. rewrite IH, mem_insert, elem_of_cons by done. tauto.
Qed.

Lemma mem_Delete s items p :
  ascii_perm p → Forall ascii_perm items → mem p (Delete s items) ↔ p ∉ items ∧ mem p s.
Proof.
  intros Hp. unfold Delete. revert s. induction items as [|x items IH]; intros s Hi; simpl.
  - set_solver.
  - inversion Hi; subst. rewrite IH, elem_of_cons by done. unfold mem.
    destruct (decide (p = x)) as [->|Hne].
    + rewrite lookup_delete_eq. naive_solver.
    + rewrite lookup_delete_ne; [naive_solver|]. intros E. apply Hne.
      by apply keyForIPPermission_inj.
Qed.

Lemma keyed_empty : keyed ∅.
Proof. intros k p. by rewrite lookup_empty. Qed.
Lemma ascii_set_empty : ascii_set ∅.
Proof. intros k p. by rewrite lookup_empty. Qed.
#[export] Hint Resolve keyed_empty ascii_set_empty : cloud.

Lemma Insert_inv s items :
  keyed s → ascii_set s → Forall ascii_perm items →
  keyed (Insert s items) ∧ ascii_set (Insert s items).
Proof.
  unfold Insert. revert s. induction items as [|x items IH]; intros s Hk Ha Hi; [done|].
  inversion Hi; subst. apply IH; [| |done]; intros k p; rewrite lookup_insert_Some; naive_solver.
Qed.

Lemma Delete_inv s items :
  keyed s → ascii_set s → keyed (Delete s items) ∧ ascii_set (Delete s items).
Proof.
  unfold Delete. revert s. induction items as [|x items IH]; intros s Hk Ha; [done|].
  apply IH; intros k p; rewrite lookup_delete_Some; naive_solver.
Qed.

Section set_facts.
Context {GR : GoRange}.
Implicit Types s : IPPermissionSet.

Lemma elem_of_List s p : keyed s → p ∈ List s ↔ mem p s.
Proof.
  intros Hk. unfold List, mem. rewrite list_elem_of_fmap. split.
  - intros ([k q] & -> & Hin). simpl. apply elem_of_range_map in Hin.
    by rewrite <-(Hk _ _ Hin).
  - intros Hp. exists (keyForIPPermission p, p). by rewrite elem_of_range_map.
Qed.

(** Removing while ranging removes exactly the entries that satisfy the test. *)
Lemma DeleteIf_lookup s pr k p :
  DeleteIf s pr !! k = Some p ↔ s !! k = Some p ∧ Test pr p = false.
Proof.
  unfold DeleteIf.
  assert (∀ l s',
    foldl (λ s '(k, p), if Test pr p then delete k s else s) s' l !! k = Some p ↔
    s' !! k = Some p ∧ ∀ q, (k, q) ∈ l → Test pr q = false) as ->.
  { induction l as [|[k' q] l IH]; intros s'; cbn [foldl]; [set_solver|].
    rewrite IH. setoid_rewrite elem_of_cons.
    destruct (Test pr q) eqn:E; [rewrite lookup_delete_Some|]; split.
    - intros [[Hne Hs] Hl]. split; [done|]. intros q' [?|?]; [congruence|auto].
    - intros [Hs Hl]. split; [split; [|done]|auto]. intros ->.
      rewrite (Hl q) in E by auto. done.
    - intros [Hs Hl]. split; [done|]. intros q' [?|?]; [congruence|auto].
    - intros [Hs Hl]. auto. }
  setoid_rewrite elem_of_range_map. split; intros [Hs H]; split; auto. congruence.
Qed.

Lemma IsSuperset_spec s s2 :
  keyed s → keyed s2 → ascii_set s → ascii_set s2 →
  IsSuperset s s2 = true ↔ ∀ p, mem p s2 → mem p s.
Proof.
  intros Hk Hk2 Ha Ha2. unfold IsSuperset, mem. rewrite forallb_elem_of. split.
  - intros H p Hp. specialize (H (keyForIPPermission p)).
    rewrite bool_decide_eq_true in H. destruct H as [q Hq].
    + apply list_elem_of_fmap. exists (keyForIPPermission p, p). by rewrite elem_of_range_map.
    + rewrite Hq. f_equal. symmetry. apply keyForIPPermission_inj; eauto.
  - intros H k Hk'. apply bool_decide_eq_true. apply list_elem_of_fmap in Hk' as ([k' p] & -> & Hin).
    apply elem_of_range_map in Hin as Hin'. simpl. rewrite (Hk2 _ _ Hin') in Hin' |- *.
    exists p. by apply H.
Qed.

(** [Equal] compares sizes and one inclusion; that is extensional equality. *)
Lemma Equal_spec s s2 :
  keyed s → keyed s2 → ascii_set s → ascii_set s2 → Equal s s2 = true ↔ s = s2.
Proof.
  intros Hk Hk2 Ha Ha2. unfold Equal. rewrite andb_true_iff, Nat.eqb_eq, IsSuperset_spec by done.
  split; [|by intros ->]. intros [Hsz Hsub].
  assert (s2 ⊆ s) as Hincl.
  { apply map_subseteq_spec. intros k p Hp. pose proof (Hk2 _ _ Hp) as ->. by apply Hsub. }
  symmetry. apply map_subseteq_size_eq; [done|lia].
Qed.

Lemma differenceLoop_spec s2 l acc :
  (∀ p, mem p s2 → group_ids p) → (∀ p, p ∈ l → group_ids p) → keyed s2 →
  differenceLoop s2 l acc =
  Some (Insert acc (filter (λ p, existsb (coveredB false p) (List s2) = false) l)).
Proof.
  intros H2 Hl Hk. revert acc. induction l as [|p l IH]; intros acc; simpl; [done|].
  unfold differenceFound.
  rewrite (exists_o_pure _ (coveredB false p)).
  2:{ intros e He. apply ipPermissionExists_pure; [set_solver|]. apply H2. by apply elem_of_List. }
  simpl. rewrite filter_cons, IH by set_solver.
  by destruct (existsb _ _).
Qed.

End set_facts.

(** ** What a list of permissions lets through *)
Inductive source :=
  | FromIpRange (r : IpRange)
  | FromIpv6Range (r : Ipv6Range)
  | FromPrefixList (v : PrefixListId)
  | FromGroup (u : UserIdGroupPair).

Definition sources (p : IpPermission) : list source :=
  (FromIpRange <$> elems (IpRanges p)) ++ (FromIpv6Range <$> elems (Ipv6Ranges p)) ++
  (FromPrefixList <$> elems (PrefixListIds p)) ++ (FromGroup <$> elems (UserIdGroupPairs p)).

(** Traffic of one source on one protocol and port range is admitted by [l]. *)
Definition grants (l : list IpPermission) (proto : option string) (from to : option Z)
    (x : source) : Prop :=
  ∃ p, p ∈ l ∧ IpProtocol p = proto ∧ FromPort p = from ∧ ToPort p = to ∧ x ∈ sources p.

(** A pass of [Ungroup] with the effect of its setter on the sources. *)
Lemma grants_ungroupBy {A} (get : IpPermission → list A) set l proto from to x :
  (∀ p a, IpProtocol (set p a) = IpProtocol p ∧ FromPort (set p a) = FromPort p ∧
     ToPort (set p a) = ToPort p) →
  (∀ p, 1 < length (get p) → x ∈ sources p ↔ ∃ a, a ∈ get p ∧ x ∈ sources (set p a)) →
  grants (ungroupBy get set l) proto from to x ↔ grants l proto from to x.
Proof.
  intros Hset Hsrc. unfold grants, ungroupBy. setoid_rewrite list_elem_of_bind.
  split.
  - intros (q & (p & Hq & Hp) & Hf). destruct (Nat.leb_spec (length (get p)) 1).
    + apply list_elem_of_singleton in Hq as ->. eauto.
    + apply list_elem_of_fmap in Hq as (a & -> & Ha).
      destruct (Hset p a) as (E1 & E2 & E3). rewrite E1, E2, E3 in Hf.
      exists p. rewrite (Hsrc p) by lia. naive_solver.
  - intros (p & Hp & Hf). destruct (Nat.leb_spec (length (get p)) 1) as [Hle|Hlt].
    + exists p. split; [|done]. exists p. rewrite (proj2 (Nat.leb_le _ _)) by done. set_solver.
    + destruct Hf as (?&?&?&Hx). apply (Hsrc p) in Hx as (a & Ha & Hx); [|lia].
      destruct (Hset p a) as (E1 & E2 & E3). exists (set p a). rewrite E1, E2, E3.
      split; [|done]. exists p. rewrite (proj2 (Nat.leb_gt _ _)) by done. set_solver.
Qed.

Lemma two_members {A} (l : list A) : 1 < length l → ∃ a, a ∈ l.
Proof. destruct l as [|a l]; simpl; [lia|]. exists a. set_solver. Qed.

Lemma elem_of_sources p x :
  x ∈ sources p ↔
  match x with
  | FromIpRange r => r ∈ elems (IpRanges p)
  | FromIpv6Range r => r ∈ elems (Ipv6Ranges p)
  | FromPrefixList v => v ∈ elems (PrefixListIds p)
  | FromGroup u => u ∈ elems (UserIdGroupPairs p)
  end.
Proof.
  unfold sources. rewrite !elem_of_app, !list_elem_of_fmap. destruct x; naive_solver.
Qed.

(** One pass keeps the sources: case analysis on where a source comes from. *)
Ltac ungroup_pass x :=
  intros H1; destruct (two_members _ H1) as [a0 Ha0]; setoid_rewrite elem_of_sources;
  destruct x; simpl; try setoid_rewrite list_elem_of_singleton;
  (split; [eauto|intros (?&?&?); subst; auto]).

Lemma grants_ungroupList l proto from to x :
  grants (ungroupList l) proto from to x ↔ grants l proto from to x.
Proof.
  unfold ungroupList. rewrite !grants_ungroupBy; try done; intros p; ungroup_pass x.
Qed.

(** A pass leaves at most one member in its own field and does not add to another. *)
Lemma ungroupBy_atomic {A B} (get : IpPermission → list A) (set : IpPermission → A → IpPermission)
    (other : IpPermission → list B) l :
  (∀ p a, get (set p a) = [a]) → (∀ p a, other (set p a) = other p) →
  Forall (λ p, length (other p) ≤ 1) l →
  Forall (λ p, length (get p) ≤ 1) (ungroupBy get set l) ∧
  Forall (λ p, length (other p) ≤ 1) (ungroupBy get set l).
Proof.
  intros Hg Ho Hl. unfold ungroupBy. rewrite !Forall_forall in *.
  setoid_rewrite list_elem_of_bind. split.
  - intros q (p & Hq & Hp). destruct (Nat.leb_spec (length (get p)) 1).
    + by apply list_elem_of_singleton in Hq as ->.
    + apply list_elem_of_fmap in Hq as (a & -> & _). by rewrite Hg.
  - intros q (p & Hq & Hp). destruct (Nat.leb_spec (length (get p)) 1).
    + apply list_elem_of_singleton in Hq as ->. auto.
    + apply list_elem_of_fmap in Hq as (a & -> & _). rewrite Ho. auto.
Qed.

(** At most one IPv4 range, one group pair and one prefix list. *)
Record atomic (p : IpPermission) : Prop := {
  atomic_v4 : length (elems (IpRanges p)) ≤ 1;
  atomic_ug : length (elems (UserIdGroupPairs p)) ≤ 1;
  atomic_pl : length (elems (PrefixListIds p)) ≤ 1
}.

Lemma ungroupList_atomic l : Forall atomic (ungroupList l).
Proof.
  unfold ungroupList. set (l1 := ungroupBy _ withIpRange l).
  assert (Forall (λ p, length (elems (IpRanges p)) ≤ 1) l1) as H1.
  { by apply (ungroupBy_atomic _ _ (λ _, @nil unit)); try done; apply Forall_forall; simpl; lia. }
  set (l2 := ungroupBy _ withUserIdGroupPair l1).
  assert (Forall (λ p, length (elems (UserIdGroupPairs p)) ≤ 1) l2 ∧
          Forall (λ p, length (elems (IpRanges p)) ≤ 1) l2) as [H2 H2'].
  { by apply ungroupBy_atomic. }
  destruct (ungroupBy_atomic (λ p, elems (PrefixListIds p)) withPrefixListId
    (λ p, elems (IpRanges p)) l2) as [H3 H3']; [done..|].
  destruct (ungroupBy_atomic (λ p, elems (PrefixListIds p)) withPrefixListId
    (λ p, elems (UserIdGroupPairs p)) l2) as [_ H3'']; [done..|].
  rewrite Forall_forall in *. intros p Hp. split; auto.
Qed.

(** ** The invariant and the promises of the set *)
Definition wf (s : IPPermissionSet) : Prop := keyed s ∧ ascii_set s.

Lemma ungroupBy_ascii {A} (get : IpPermission → list A) set (P : A → Prop) l :
  (∀ p a, ascii_perm p → a ∈ get p → ascii_perm (set p a)) →
  Forall ascii_perm l → Forall ascii_perm (ungroupBy get set l).
Proof.
  intros Hset Hl. unfold ungroupBy. rewrite Forall_forall in *.
  intros q (p & Hq & Hp)%list_elem_of_bind. destruct (_ <=? _).
  - apply list_elem_of_singleton in Hq as ->. auto.
  - apply list_elem_of_fmap in Hq as (a & -> & Ha). auto.
Qed.

(** The member chosen from an ASCII field is ASCII. *)
Lemma ascii_elems {A} (P : A → Prop) (f : slice A) a :
  (∀ l, f = Some l → Forall P l) → a ∈ elems f → P a.
Proof.
  destruct f as [l|]; simpl; [|set_solver]. intros H Ha.
  specialize (H l eq_refl). rewrite Forall_forall in H. auto.
Qed.

Lemma ungroupList_ascii l : Forall ascii_perm l → Forall ascii_perm (ungroupList l).
Proof.
  intros Hl. unfold ungroupList.
  apply (ungroupBy_ascii _ _ ascii_PrefixListId); [|apply (ungroupBy_ascii _ _ ascii_UserIdGroupPair);
    [|apply (ungroupBy_ascii _ _ ascii_IpRange); [|done]]];
  intros p a [??? Hpl Hug] Ha; split; simpl; auto; intros ? [= <-];
  apply Forall_singleton; eapply ascii_elems; eauto.
Qed.

Lemma covered_refl users p : covered users p p.
Proof. split; eauto. Qed.

Lemma Insert_origin s items k p :
  Insert s items !! k = Some p → p ∈ items ∨ s !! k = Some p.
Proof.
  unfold Insert. revert s. induction items as [|x items IH]; intros s; simpl; [by right|].
  intros [?|H]%IH; [set_solver|]. rewrite lookup_insert_Some in H. set_solver.
Qed.

Lemma New_origin items p : mem p (NewIPPermissionSet items) → p ∈ items.
Proof. intros [?|H]%Insert_origin; [done|]. by rewrite lookup_empty in H. Qed.

Section set_props.
Context {GR : GoRange}.
Implicit Types s : IPPermissionSet.

Lemma wf_List s : wf s → Forall ascii_perm (List s).
Proof.
  intros [Hk Ha]. apply Forall_forall. intros p Hp%elem_of_List; [|done]. by eapply Ha.
Qed.

Lemma wf_New items : Forall ascii_perm items → wf (NewIPPermissionSet items).
Proof. intros. apply Insert_inv; auto with cloud. Qed.

Lemma NoDup_List s : wf s → NoDup (List s).
Proof.
  intros [Hk _]. unfold List. pose proof (NoDup_fst_range_map s) as Hnd.
  rewrite <-(list_fmap_id (range_map s).*2).
  assert ((range_map s).*1 = keyForIPPermission <$> (range_map s).*2) as E.
  { rewrite <-list_fmap_compose. apply list_fmap_ext. intros i [k p] Hi. simpl.
    apply Hk. apply elem_of_range_map. by eapply list_elem_of_lookup_2. }
  rewrite E in Hnd. rewrite list_fmap_id. by eapply NoDup_fmap_1.
Qed.

(** C31: every operation of [IPPermissionSet] keeps its invariant: each permission
    is filed under its own JSON key. *)
Theorem IPPermissionSet_wf s items pr :
  wf s → Forall ascii_perm items →
  wf (NewIPPermissionSet items) ∧ wf (Insert s items) ∧ wf (Delete s items) ∧
  wf (DeleteIf s pr) ∧ wf (Ungroup s).
Proof.
  intros [Hk Ha] Hi. split_and!.
  - by apply wf_New.
  - by apply Insert_inv.
  - by apply Delete_inv.
  - split; intros k p [? _]%DeleteIf_lookup; [by apply Hk|by eapply Ha].
  - apply wf_New, ungroupList_ascii, wf_List. by split.
Qed.

(** C29: [IPPermissionSet] implements finite sets of permissions: membership after
    [Insert], [Delete] and [DeleteIf] is union, difference and filtering, [List]
    enumerates each member once in some order, [IsSuperset] and [Equal] decide
    inclusion and extensional equality. *)
Theorem IPPermissionSet_refines s s2 items pr p :
  wf s → wf s2 → Forall ascii_perm items → ascii_perm p →
  (mem p (NewIPPermissionSet items) ↔ p ∈ items) ∧
  (mem p (Insert s items) ↔ p ∈ items ∨ mem p s) ∧
  (mem p (Delete s items) ↔ p ∉ items ∧ mem p s) ∧
  (mem p (DeleteIf s pr) ↔ mem p s ∧ Test pr p = false) ∧
  ((p ∈ List s ↔ mem p s) ∧ NoDup (List s) ∧ length (List s) = Len s) ∧
  (IsSuperset s s2 = true ↔ ∀ q, mem q s2 → mem q s) ∧
  (Equal s s2 = true ↔ ∀ q, mem q s ↔ mem q s2).
Proof.
  intros Hs Hs2 Hi Hp. pose proof Hs as [Hk Ha]. pose proof Hs2 as [Hk2 Ha2].
  rewrite !mem_Insert, mem_Delete, elem_of_List, Equal_spec by done. split_and!; try done.
  - unfold NewIPPermissionSet. rewrite mem_Insert by done. unfold mem. rewrite lookup_empty.
    naive_solver.
  - unfold mem. by rewrite DeleteIf_lookup.
  - by apply NoDup_List.
  - unfold List, Len. by rewrite length_fmap, length_range_map.
  - by apply IsSuperset_spec.
  - split; [by intros ->|]. intros H. apply map_eq. intros k. apply option_eq. intros q.
    split; intros E; [pose proof (Hk _ _ E) as ->|pose proof (Hk2 _ _ E) as ->]; by apply H.
Qed.

Lemma Difference_spec s s2 :
  wf s → wf s2 → (∀ p, mem p s ∨ mem p s2 → group_ids p) →
  ∃ d, Difference s s2 = Some d ∧ wf d ∧
    ∀ p, ascii_perm p → mem p d ↔ mem p s ∧ ¬ ∃ e, mem e s2 ∧ covered false p e.
Proof.
  intros Hs Hs2 Hg. pose proof Hs as [Hk Ha]. pose proof Hs2 as [Hk2 Ha2].
  eexists. split.
  { unfold Difference. apply differenceLoop_spec; [auto| |done].
    intros p Hp%elem_of_List; auto. }
  assert (Forall ascii_perm (filter (λ p, existsb (coveredB false p) (List s2) = false) (List s))) as Hf.
  { apply Forall_forall. intros q [_ Hq]%list_elem_of_filter.
    by apply (proj1 (Forall_forall _ _) (wf_List s Hs)). }
  split; [by apply Insert_inv; auto using wf_New; apply wf_New|].
  intros p Hp. rewrite mem_Insert, list_elem_of_filter, elem_of_List, existsb_false by done.
  unfold NewIPPermissionSet. rewrite mem_Insert by done.
  assert (¬ mem p ∅) by (unfold mem; by rewrite lookup_empty).
  setoid_rewrite elem_of_List; [|done].
  assert ((∀ x, mem x s2 → coveredB false p x = false) ↔ ¬ ∃ e, mem e s2 ∧ covered false p e) as ->.
  { setoid_rewrite <-coveredB_spec. setoid_rewrite <-not_true_iff_false. naive_solver. }
  set_solver.
Qed.

Lemma Ungroup_elem s p : wf s → p ∈ List (Ungroup s) ↔ p ∈ ungroupList (List s).
Proof.
  intros Hs. pose proof (ungroupList_ascii _ (wf_List s Hs)) as Ha.
  destruct (wf_New _ Ha) as [Hk Ha']. rewrite elem_of_List by done. split.
  - intros Hp. unfold Ungroup in Hp. by apply New_origin.
  - intros Hp. apply mem_Insert; [|done|by left]. by apply (proj1 (Forall_forall _ _) Ha).
Qed.

Lemma Ungroup_grants s proto from to x :
  wf s → grants (List (Ungroup s)) proto from to x ↔ grants (List s) proto from to x.
Proof.
  intros Hs. rewrite <-(grants_ungroupList (List s)). unfold grants.
  by setoid_rewrite (Ungroup_elem s _ Hs).
Qed.

Lemma Ungroup_atomic s : wf s → Forall atomic (List (Ungroup s)).
Proof.
  intros Hs. apply Forall_forall. intros p Hp%Ungroup_elem; [|done].
  by apply (proj1 (Forall_forall _ _) (ungroupList_atomic (List s))).
Qed.

Lemma wf_Ungroup s : wf s → wf (Ungroup s).
Proof. intros. by apply wf_New, ungroupList_ascii, wf_List. Qed.

(** C30: [Difference] never panics on permissions whose group pairs carry a group
    id, and returns exactly the members of [s] that no member of [s2] covers; the
    difference with a superset is empty. *)
Theorem Difference_correct s s2 :
  wf s → wf s2 → (∀ p, mem p s ∨ mem p s2 → group_ids p) →
  ∃ d, Difference s s2 = Some d ∧ wf d ∧
    (∀ p, ascii_perm p → mem p d ↔ mem p s ∧ ¬ ∃ e, mem e s2 ∧ covered false p e) ∧
    (IsSuperset s2 s = true → Len d = 0).
Proof.
  intros Hs Hs2 Hg. destruct (Difference_spec s s2 Hs Hs2 Hg) as (d & Hd & Hwd & Hmem).
  exists d. split_and!; [done..|]. destruct Hs as [Hk Ha], Hs2 as [Hk2 Ha2], Hwd as [Hkd Had].
  rewrite IsSuperset_spec by done. intros Hsub. apply map_size_empty_iff, map_empty.
  intros k. apply eq_None_ne_Some. intros p Hp. pose proof (Hkd _ _ Hp) as ->.
  apply Hmem in Hp as [Hp Hn]; [|by eapply Had]. apply Hn. exists p. split; [by apply Hsub|].
  apply covered_refl.
Qed.

(** [Ungroup] leaves permissions with at most one IPv4 range, one group pair
    and one prefix list each, and grants exactly the same traffic. *)
Theorem Ungroup_correct s proto from to x :
  wf s →
  (grants (List (Ungroup s)) proto from to x ↔ grants (List s) proto from to x) ∧
  Forall atomic (List (Ungroup s)).
Proof. auto using Ungroup_grants, Ungroup_atomic. Qed.

End set_props.

(** ** Concrete permissions *)
#[export] Instance is_ascii_dec s : Decision (is_ascii s).
Proof. unfold is_ascii. apply _. Defined.

(** Discharges [ascii_perm] of a closed permission. *)
Ltac solve_ascii :=
  repeat first
    [ progress intros; progress simplify_eq/=
    | match goal with
      | |- is_ascii _ => apply (bool_decide_unpack _); vm_compute; exact I
      | |- ascii_perm _ => split
      | |- ascii_ptr _ => unfold ascii_ptr
      | |- ascii_IpRange _ => unfold ascii_IpRange
      | |- ascii_UserIdGroupPair _ => unfold ascii_UserIdGroupPair
      | |- _ ∧ _ => split
      | |- Forall _ _ => constructor
      end ].

Definition tcp_rule (port : Z) (cidrs groups : list string) : IpPermission :=
  mkIpPermission (Some port) (Some "tcp")
    (Some ((λ c, mkIpRange (Some c) None) <$> cidrs)) None None (Some port)
    (Some ((λ g, mkUserIdGroupPair None (Some g) None None None None None) <$> groups)).

Definition http := tcp_rule 80 ["10.0.0.0/8"; "192.168.0.0/16"] ["sg-1"].
Definition ssh := tcp_rule 22 ["10.0.0.0/8"] ["sg-1"; "sg-2"].

Lemma http_ascii : ascii_perm http.
Proof. solve_ascii. Qed.
Lemma ssh_ascii : ascii_perm ssh.
Proof. solve_ascii. Qed.

Definition sample : IPPermissionSet := NewIPPermissionSet [http; ssh].
Lemma sample_ascii : Forall ascii_perm [http; ssh].
Proof. repeat constructor; apply http_ascii || apply ssh_ascii. Qed.
Lemma sample_wf : wf sample.
Proof. by apply wf_New, sample_ascii. Qed.

Lemma IPPermissionSet_wf_witness :
  wf (DeleteIf (GR := trie_order) sample (IPPermissionMatchDesc "x")).
Proof.
  apply (IPPermissionSet_wf (GR := trie_order) sample [http] (IPPermissionMatchDesc "x")).
  - exact sample_wf.
  - repeat constructor; apply http_ascii.
Defined.

Lemma IPPermissionSet_refines_witness :
  mem ssh (Insert ∅ [ssh]) ∧ mem ssh sample ∧ ¬ mem http (Insert ∅ [ssh]) ∧
  NoDup (List (GR := trie_order) sample).
Proof.
  pose proof (IPPermissionSet_refines (GR := trie_order) sample ∅ [ssh]
    (IPPermissionMatchDesc "") ssh sample_wf (wf_New [] (Forall_nil_2 _))
    (proj2 (Forall_singleton _ _) ssh_ascii) ssh_ascii) as H.
  split_and!; [by vm_compute|by vm_compute|by vm_compute|apply H].
Defined.

Lemma sample_group_ids p : p ∈ [http; ssh] → group_ids p.
Proof.
  intros H u. revert H. rewrite !elem_of_cons, elem_of_nil. intros [->|[->|[]]]; simpl;
    rewrite ?elem_of_cons, ?elem_of_nil; naive_solver.
Qed.

Lemma Difference_correct_witness :
  ∃ d, Difference (GR := trie_order) sample (NewIPPermissionSet [ssh]) = Some d ∧
    mem http d ∧ ¬ mem ssh d.
Proof.
  destruct (Difference_correct (GR := trie_order) sample (NewIPPermissionSet [ssh]))
    as (d & Hd & _ & Hmem & _).
  - exact sample_wf.
  - apply wf_New. apply Forall_singleton, ssh_ascii.
  - intros p [Hp%New_origin|Hp%New_origin]; apply sample_group_ids; set_solver.
  - exists d. split; [done|]. rewrite (Hmem http http_ascii), (Hmem ssh ssh_ascii). split.
    + split; [by vm_compute|]. intros (e & He%New_origin & Hc%coveredB_spec).
      apply list_elem_of_singleton in He as ->. by vm_compute in Hc.
    + intros [_ []]. exists ssh. rewrite <-coveredB_spec. split; by vm_compute.
Defined.

Lemma Ungroup_correct_witness :
  Len (Ungroup (GR := trie_order) sample) = 4 ∧
  grants (List (GR := trie_order) (Ungroup (GR := trie_order) sample)) (Some "tcp") (Some 22%Z)
    (Some 22%Z) (FromGroup (mkUserIdGroupPair None (Some "sg-2") None None None None None)).
Proof.
  split; [by vm_compute|].
  apply (Ungroup_correct (GR := trie_order) sample (Some "tcp") (Some 22%Z) (Some 22%Z)).
  - exact sample_wf.
  - exists ssh. split; 
      [|split_and!; [done..|]; apply elem_of_sources; simpl; set_solver].
    apply (elem_of_List (GR := trie_order)); [apply sample_wf|by vm_compute].
Defined.
