(* ===== verification/Tags.v ===== *)
(** * Cluster tags (tags.go)

    The tags that tie an AWS resource to a cluster: discovery of the cluster id,
    the predicates that recognise a resource of the cluster, the tags put on a new
    resource, and the repair of a resource found without them. *)

From S2P Require Import Prelude GoLib Effects AwsApi.
Import Strings Errors.

Definition TagNameKubernetesClusterPrefix := "kubernetes.io/cluster/".
Definition TagNameKubernetesClusterLegacy := "KubernetesCluster".

(** [ResourceLifecycle] is a string type with two constants. *)
Inductive ResourceLifecycle := ResourceLifecycleOwned | ResourceLifecycleShared.
Definition lifecycle_string (l : ResourceLifecycle) : string :=
  match l with ResourceLifecycleOwned => "owned" | ResourceLifecycleShared => "shared" end.

(** [createTagSteps] of aws.go. *)
Definition createTagSteps : nat := 9.

Record awsTagging := mkTagging { ClusterID : string; usesLegacyTags : bool }.

(** ** Discovery *)

(** The error leaves the receiver as it was changed up to there. *)
Definition init (t : awsTagging) (legacyClusterID clusterID : string) :
    awsTagging * result unit :=
  let legacy := negb (String.eqb legacyClusterID "") in
  if legacy && negb (String.eqb clusterID "") && negb (String.eqb legacyClusterID clusterID)
  then (t, Err (Errorf "clusterID tags did not match: %q vs %q" [clusterID; legacyClusterID]))
  else
    let t := mkTagging (ClusterID t) (legacy || usesLegacyTags t) in
    let clusterID := if legacy then legacyClusterID else clusterID in
    let t := mkTagging clusterID (usesLegacyTags t) in
    if negb (String.eqb clusterID "") then (t, Ok tt)
    else (t, Err (Errorf "AWS cloud failed to find ClusterID" [])).

Fixpoint findClusterIDsLoop (tags : list Tag) (legacyClusterID newClusterID : string) :
    result (string * string) :=
  match tags with
  | [] => Ok (legacyClusterID, newClusterID)
  | tag :: tags =>
     let tagKey := ToString (tag_Key tag) in
     let step (newClusterID : string) :=
       if String.eqb tagKey TagNameKubernetesClusterLegacy then
         let id := ToString (tag_Value tag) in
         if negb (String.eqb legacyClusterID "") then
           Err (Errorf "Found multiple %s tags (%q and %q)"
             [TagNameKubernetesClusterLegacy; legacyClusterID; id])
         else findClusterIDsLoop tags id newClusterID
       else findClusterIDsLoop tags legacyClusterID newClusterID in
     if HasPrefix tagKey TagNameKubernetesClusterPrefix then
       let id := TrimPrefix tagKey TagNameKubernetesClusterPrefix in
       if negb (String.eqb newClusterID "") then
         Err (Errorf "Found multiple cluster tags with prefix %s (%q and %q)"
           [TagNameKubernetesClusterPrefix; newClusterID; id])
       else step id
     else step newClusterID
  end.
Definition findClusterIDs (tags : list Tag) : result (string * string) :=
  findClusterIDsLoop tags "" "".

Definition initFromTags (t : awsTagging) (tags : list Tag) : awsTagging * result unit :=
  match findClusterIDs tags with
  | Err e => (t, Err e)
  | Ok (legacyClusterID, newClusterID) => init t legacyClusterID newClusterID
  end.

(** ** Recognition *)
Definition clusterTagKey (t : awsTagging) : string :=
  TagNameKubernetesClusterPrefix +:+ ClusterID t.

Definition clusterID (t : awsTagging) : string := ClusterID t.

Definition hasClusterTag (t : awsTagging) (tags : list Tag) : bool :=
  if len (ClusterID t) =? 0 then true else
  existsb (λ tag,
    let tagKey := ToString (tag_Key tag) in
    (String.eqb tagKey TagNameKubernetesClusterLegacy &&
     String.eqb (ToString (tag_Value tag)) (ClusterID t)) ||
    String.eqb tagKey (clusterTagKey t)) tags.

Definition hasClusterTagOwned (t : awsTagging) (tags : list Tag) : result bool :=
  if len (ClusterID t) =? 0
  then Err (Errorf "cannot check cluster tag owned: clusterID is empty" [])
  else Ok (existsb (λ tag,
    let tagKey := ToString (tag_Key tag) in
    let tagValue := ToString (tag_Value tag) in
    (String.eqb tagKey TagNameKubernetesClusterLegacy && String.eqb tagValue (ClusterID t)) ||
    (String.eqb tagKey (clusterTagKey t) &&
     String.eqb tagValue (lifecycle_string ResourceLifecycleOwned))) tags).

Definition hasNoClusterPrefixTag (tags : list Tag) : bool :=
  forallb (λ tag, negb (HasPrefix (ToString (tag_Key tag)) TagNameKubernetesClusterPrefix)) tags.

(** ** Filters *)
Definition addFilters (t : awsTagging) (filters : list Filter) : list Filter :=
  if len (ClusterID t) =? 0 then filters
  else filters ++ [newEc2Filter "tag-key" [clusterTagKey t]].

Definition addLegacyFilters (t : awsTagging) (filters : list Filter) : list Filter :=
  if len (ClusterID t) =? 0 then filters
  else filters ++
    [newEc2Filter (Sprintf "tag:%s" [TagNameKubernetesClusterLegacy]) [ClusterID t]].

(** [IsAWSErrorInstanceNotFound] and [IsAWSErrorInvalidInstanceID] of aws.go. *)
Definition IsAWSErrorInstanceNotFound (err : error) : bool :=
  match AsAPIError err with
  | Some code => String.eqb code "InvalidInstanceID.NotFound"
  | None => Contains (Error err) "InvalidInstanceID.NotFound"
  end.
Definition IsAWSErrorInvalidInstanceID (err : error) : bool :=
  match AsAPIError err with
  | Some code => String.eqb code "InvalidID"
  | None => Contains (Error err) "InvalidID"
  end.

Section tagging.
Context {GR : GoRange}.

(** ** Tags of a new resource *)
Definition buildTags (t : awsTagging) (lifecycle : ResourceLifecycle)
    (additionalTags : gmap string string) : gmap string string :=
  let tags := foldl (λ m '(k, v), <[k := v]> m) ∅ (range_map additionalTags) in
  if len (ClusterID t) =? 0 then tags else
  let tags := if usesLegacyTags t
    then <[TagNameKubernetesClusterLegacy := ClusterID t]> tags else tags in
  <[clusterTagKey t := lifecycle_string lifecycle]> tags.

Definition buildAwsTags (tags : gmap string string) : list Tag :=
  (λ '(k, v), mkTag (Some k) (Some v)) <$> range_map tags.

(** ** Tagging with retries *)
Definition createTags (t : awsTagging) (resourceID : string) (lifecycle : ResourceLifecycle)
    (additionalTags : gmap string string) : prog awsE (result unit) :=
  let tags := buildTags t lifecycle additionalTags in
  if size tags =? 0 then Ret (Ok tt) else
  let awsTags := buildAwsTags tags in
  let! (r, lastErr) := ExponentialBackoff createTagSteps (λ lastErr : option error,
    let! r := ec2 (CreateTags [resourceID] awsTags) in
    match r with
    | Ok _ => Ret (Ok true, lastErr)
    | Err e => Ret (Ok false, Some e)
    end) None in
  match r with
  | Ok _ => Ret (Ok tt)
  | Err e =>
     if IsSentinel (Error ErrWaitTimeout) e
     then Ret (match lastErr with Some e => Err e | None => Ok tt end)
     else Ret (Err e)
  end.

(** The loop of [readRepairClusterTags] over the expected tags. *)
Fixpoint missingTags (resourceID : string) (actualTagMap : gmap string string)
    (l : list (string * string)) (addTags : gmap string string) : result (gmap string string) :=
  match l with
  | [] => Ok addTags
  | (k, expected) :: l =>
     let actual := mapget actualTagMap k in
     if String.eqb actual expected then missingTags resourceID actualTagMap l addTags
     else if String.eqb actual "" then
       missingTags resourceID actualTagMap l (<[k := expected]> addTags)
     else Err (Errorf "resource %q has tag belonging to another cluster: %q=%q (expected %q)"
            [resourceID; k; actual; expected])
  end.

(** The tags as a map; a later duplicate wins. *)
Definition tagMap (tags : list Tag) : gmap string string :=
  foldl (λ m tag, <[ToString (tag_Key tag) := ToString (tag_Value tag)]> m) ∅ tags.

Definition readRepairClusterTags (t : awsTagging) (resourceID : string)
    (lifecycle : ResourceLifecycle) (additionalTags : gmap string string)
    (observedTags : list Tag) : prog awsE (result unit) :=
  match missingTags resourceID (tagMap observedTags)
          (range_map (buildTags t lifecycle additionalTags)) ∅ with
  | Err e => Ret (Err e)
  | Ok addTags =>
     if size addTags =? 0 then Ret (Ok tt) else
     let! r := createTags t resourceID lifecycle addTags in
     match r with
     | Err e => Ret (Err (Errorf "error adding missing tags to resource %q: %q"
                            [resourceID; Error e]))
     | Ok _ => Ret (Ok tt)
     end
  end.

(** ** Tagging of nodes *)
Definition TagResource (resourceID : string) (tags : gmap string string) :
    prog awsE (result unit) :=
  let? _ := ec2 (CreateTags [resourceID] (buildAwsTags tags)) in Ret (Ok tt).

Definition UntagResource (resourceID : string) (tags : gmap string string) :
    prog awsE (result unit) :=
  let! r := ec2 (DeleteTags [resourceID] (buildAwsTags tags)) in
  match r with
  | Ok _ => Ret (Ok tt)
  | Err e => Ret (if IsAWSErrorInstanceNotFound e then Ok tt else Err e)
  end.

(** The batched variants hand the request to a batcher, which answers with a
    pointer to the output or an error. *)
Definition TagResourceBatch (createTagsBatcher : list string → list Tag → prog awsE (result (option unit)))
    (resourceID : string) (tags : gmap string string) : prog awsE (result unit) :=
  let? output := createTagsBatcher [resourceID] (buildAwsTags tags) in
  let! _ := no_panic output in Ret (Ok tt).

Definition UntagResourceBatch (deleteTagsBatcher : list string → list Tag → prog awsE (result (option unit)))
    (resourceID : string) (tags : gmap string string) : prog awsE (result unit) :=
  let! r := deleteTagsBatcher [resourceID] (buildAwsTags tags) in
  match r with
  | Ok _ => Ret (Ok tt)
  | Err e => Ret (if IsAWSErrorInstanceNotFound e then Ok tt else Err e)
  end.

End tagging.

#[global] Arguments clusterTagKey : simpl never.

(** ** Tags of a new resource, as a map *)
Lemma len_zero s : (len s =? 0) = bool_decide (s = "").
Proof. by destruct s. Qed.

Lemma prefix_app (p s : string) : String.prefix p (p +:+ s) = true.
Proof.
  induction p as [|c p IH]; [by destruct s|]. unfold String.app in *. simpl.
  by case_match.
Qed.

Lemma drop_app (p s : string) : drop (len p) (p +:+ s) = s.
Proof. induction p as [|c p IH]; [done|]. unfold String.app in *. simpl. done. Qed.

Lemma clusterTagKey_prefix t : HasPrefix (clusterTagKey t) TagNameKubernetesClusterPrefix = true.
Proof. apply prefix_app. Qed.

Lemma clusterTagKey_trim t :
  TrimPrefix (clusterTagKey t) TagNameKubernetesClusterPrefix = ClusterID t.
Proof. unfold TrimPrefix. rewrite clusterTagKey_prefix. apply drop_app. Qed.

Lemma clusterTagKey_inj t t' : clusterTagKey t = clusterTagKey t' ↔ ClusterID t = ClusterID t'.
Proof.
  split; [|unfold clusterTagKey; congruence]. intros E.
  by rewrite <-(clusterTagKey_trim t), E, clusterTagKey_trim.
Qed.

Lemma legacy_prefix : HasPrefix TagNameKubernetesClusterLegacy TagNameKubernetesClusterPrefix = false.
Proof. reflexivity. Qed.

Lemma clusterTagKey_legacy t : clusterTagKey t ≠ TagNameKubernetesClusterLegacy.
Proof. intros E. pose proof (clusterTagKey_prefix t) as H. by rewrite E in H. Qed.

Section facts.
Context {GR : GoRange}.

Lemma foldl_insert_range (m : gmap string string) :
  foldl (λ m '(k, v), <[k := v]> m) ∅ (range_map m) = m.
Proof.
  assert (∀ l (acc : gmap string string), foldl (λ m '(k, v), <[k := v]> m) acc l =
    list_to_map (reverse l) ∪ acc) as ->.
  { induction l as [|[k v] l IH]; intros acc; simpl; [by rewrite (left_id_L ∅ (∪))|].
    rewrite IH, reverse_cons, list_to_map_app. simpl.
    rewrite <-(assoc_L (∪)). f_equal. by rewrite <-insert_union_l, (left_id_L ∅ (∪)). }
  rewrite (right_id_L ∅ (∪)). rewrite <-(list_to_map_range_map m) at 2.
  apply list_to_map_proper; [|apply reverse_Permutation].
  rewrite reverse_Permutation. apply NoDup_fst_range_map.
Qed.

Lemma buildTags_eq t lc add :
  buildTags t lc add =
  if bool_decide (ClusterID t = "") then add else
  <[clusterTagKey t := lifecycle_string lc]>
    (if usesLegacyTags t then <[TagNameKubernetesClusterLegacy := ClusterID t]> add else add).
Proof. unfold buildTags. by rewrite foldl_insert_range, len_zero. Qed.

(** The additional tags of a user name no cluster. *)
Definition cluster_free (m : gmap string string) : Prop :=
  m !! TagNameKubernetesClusterLegacy = None ∧
  ∀ k, HasPrefix k TagNameKubernetesClusterPrefix = true → m !! k = None.

Lemma elem_of_buildAwsTags m tag :
  tag ∈ buildAwsTags m ↔ ∃ k v, tag = mkTag (Some k) (Some v) ∧ m !! k = Some v.
Proof.
  unfold buildAwsTags. rewrite list_elem_of_fmap. split.
  - intros ([k v] & -> & Hin%elem_of_range_map). eauto.
  - intros (k & v & -> & Hk). exists (k, v). by rewrite elem_of_range_map.
Qed.

Lemma existsb_buildAwsTags (f : string → string → bool) m :
  existsb (λ tag, f (ToString (tag_Key tag)) (ToString (tag_Value tag))) (buildAwsTags m) = true ↔
  ∃ k v, m !! k = Some v ∧ f k v = true.
Proof.
  rewrite existsb_elem_of. setoid_rewrite elem_of_buildAwsTags. split.
  - intros (tag & (k & v & -> & Hk) & Hf). eauto.
  - intros (k & v & Hk & Hf). exists (mkTag (Some k) (Some v)). naive_solver.
Qed.

(** The cluster keys of the tags of a new resource. *)
Lemma buildTags_cluster_key t lc add k v :
  ClusterID t ≠ "" → cluster_free add → buildTags t lc add !! k = Some v →
  (HasPrefix k TagNameKubernetesClusterPrefix = true → k = clusterTagKey t ∧ v = lifecycle_string lc) ∧
  (k = TagNameKubernetesClusterLegacy → usesLegacyTags t = true ∧ v = ClusterID t).
Proof.
  intros Hid [Hl Hp]. rewrite buildTags_eq, bool_decide_eq_false_2 by done.
  rewrite lookup_insert_Some. intros [[<- <-]|[Hne Hk]].
  { split; [done|]. intros E. by destruct (clusterTagKey_legacy t). }
  destruct (usesLegacyTags t); [apply lookup_insert_Some in Hk as [[<- <-]|[Hne' Hk]]|];
    split; try done; intros H; first [rewrite (Hp _ H) in Hk | subst; rewrite Hl in Hk]; done.
Qed.

(** C12: a resource tagged for one cluster is recognised by that cluster and by no
    other: [hasClusterTag] on the tags [buildTags] produces, in any order, decides
    equality of the cluster ids. *)
Theorem cluster_isolation t t' lc add :
  ClusterID t ≠ "" → ClusterID t' ≠ "" → cluster_free add →
  hasClusterTag t' (buildAwsTags (buildTags t lc add)) = bool_decide (ClusterID t = ClusterID t').
Proof.
  intros Hid Hid' Hf. unfold hasClusterTag. rewrite len_zero, bool_decide_eq_false_2 by done.
  apply eq_true_iff_eq. rewrite bool_decide_eq_true.
  rewrite (existsb_buildAwsTags (λ k v, String.eqb k TagNameKubernetesClusterLegacy &&
    String.eqb v (ClusterID t') || String.eqb k (clusterTagKey t'))). split.
  - intros (k & v & Hk & H). apply buildTags_cluster_key in Hk as [Hp Hl]; [|done..].
    apply orb_true_iff in H as [[E1%String.eqb_eq E2%String.eqb_eq]%andb_true_iff|E%String.eqb_eq].
    + destruct Hl; congruence.
    + subst. destruct Hp as [E _]; [apply clusterTagKey_prefix|]. by apply clusterTagKey_inj in E.
  - intros E. exists (clusterTagKey t), (lifecycle_string lc).
    rewrite buildTags_eq, bool_decide_eq_false_2, lookup_insert_eq by done. split; [done|].
    apply orb_true_iff. right. apply String.eqb_eq. by apply clusterTagKey_inj.
Qed.

(** ** Discovery on the tags of a resource *)
Lemma findClusterIDsLoop_clean tags legacy new :
  (∀ tag, tag ∈ tags → HasPrefix (ToString (tag_Key tag)) TagNameKubernetesClusterPrefix = false ∧
     ToString (tag_Key tag) ≠ TagNameKubernetesClusterLegacy) →
  findClusterIDsLoop tags legacy new = Ok (legacy, new).
Proof.
  induction tags as [|tag tags IH]; intros H; simpl; [done|].
  destruct (H tag) as [-> Hl]; [set_solver|]. rewrite (proj2 (String.eqb_neq _ _)) by done.
  apply IH. set_solver.
Qed.

(** With at most one cluster tag and one legacy tag the loop collects both. *)
Lemma findClusterIDsLoop_pair t (legacyID : string) tags legacy new :
  NoDup (tag_Key <$> tags) →
  (∀ tag, tag ∈ tags → HasPrefix (ToString (tag_Key tag)) TagNameKubernetesClusterPrefix = true →
     ToString (tag_Key tag) = clusterTagKey t ∧ new = "") →
  (∀ tag, tag ∈ tags → ToString (tag_Key tag) = TagNameKubernetesClusterLegacy →
     ToString (tag_Value tag) = legacyID ∧ legacy = "") →
  (∀ tag, tag ∈ tags → is_Some (tag_Key tag)) →
  findClusterIDsLoop tags legacy new =
  Ok (if existsb (λ tag, String.eqb (ToString (tag_Key tag)) TagNameKubernetesClusterLegacy) tags
      then legacyID else legacy,
      if existsb (λ tag, HasPrefix (ToString (tag_Key tag)) TagNameKubernetesClusterPrefix) tags
      then ClusterID t else new).
Proof.
  revert legacy new. induction tags as [|tag tags IH]; intros legacy new Hnd Hp Hl Hs; simpl; [done|].
  rewrite fmap_cons in Hnd. apply NoDup_cons in Hnd as [Hnin Hnd].
  destruct (Hs tag) as [key Hkey]; [set_solver|].
  assert (∀ tag', tag' ∈ tags → ToString (tag_Key tag') ≠ key) as Hne.
  { intros tag' Hin E. apply Hnin. destruct (Hs tag') as [key' Hkey']; [set_solver|].
    rewrite Hkey' in E. simpl in E. subst. apply list_elem_of_fmap. exists tag'. split; [congruence|done]. }
  pose proof (Hp tag ltac:(set_solver)) as Hp0. pose proof (Hl tag ltac:(set_solver)) as Hl0.
  rewrite Hkey in *. cbn [ToString default from_option id] in *.
  destruct (HasPrefix key _) eqn:EP.
  - destruct (Hp0 eq_refl) as [-> ->]. cbn [String.eqb negb orb existsb].
    rewrite clusterTagKey_trim.
    rewrite (proj2 (String.eqb_neq (clusterTagKey t) _)) by apply clusterTagKey_legacy.
    cbn [orb].
    rewrite IH; [|done| |set_solver|set_solver].
    + by destruct (existsb (λ tag, HasPrefix _ _) tags).
    + intros tag' Hin HP. exfalso. destruct (Hp tag') as [E _]; [set_solver|done|].
      by apply (Hne tag' Hin).
  - destruct (String.eqb_spec key TagNameKubernetesClusterLegacy) as [->|Hnl]; simpl.
    + destruct (Hl0 eq_refl) as [-> ->]. simpl.
      rewrite IH; [|done|set_solver| |set_solver].
      * by destruct (existsb (λ tag, String.eqb _ _) tags).
      * intros tag' Hin E. by destruct (Hne tag' Hin).
    + apply IH; set_solver.
Qed.

Lemma NoDup_buildAwsTags m : NoDup (tag_Key <$> buildAwsTags m).
Proof.
  unfold buildAwsTags. rewrite <-list_fmap_compose.
  assert (tag_Key ∘ (λ '(k, v), mkTag (Some k) (Some v)) <$> range_map m =
    Some <$> (range_map m).*1) as ->.
  { rewrite <-list_fmap_compose. apply list_fmap_ext. by intros i [k v]. }
  apply NoDup_fmap_2; [apply _|apply NoDup_fst_range_map].
Qed.

Lemma buildTags_has_prefix t lc add :
  ClusterID t ≠ "" →
  existsb (λ tag, HasPrefix (ToString (tag_Key tag)) TagNameKubernetesClusterPrefix)
    (buildAwsTags (buildTags t lc add)) = true.
Proof.
  intros Hid. apply (existsb_buildAwsTags (λ k _, HasPrefix k TagNameKubernetesClusterPrefix)).
  exists (clusterTagKey t), (lifecycle_string lc).
  by rewrite buildTags_eq, bool_decide_eq_false_2, lookup_insert_eq, clusterTagKey_prefix.
Qed.

Lemma buildTags_has_legacy t lc add :
  ClusterID t ≠ "" → cluster_free add →
  existsb (λ tag, String.eqb (ToString (tag_Key tag)) TagNameKubernetesClusterLegacy)
    (buildAwsTags (buildTags t lc add)) = usesLegacyTags t.
Proof.
  intros Hid Hf. apply eq_true_iff_eq.
  rewrite (existsb_buildAwsTags (λ k _, String.eqb k TagNameKubernetesClusterLegacy)). split.
  - intros (k & v & Hk & ->%String.eqb_eq).
    by apply buildTags_cluster_key in Hk as [_ []].
  - intros Hl. exists TagNameKubernetesClusterLegacy, (ClusterID t).
    rewrite buildTags_eq, bool_decide_eq_false_2, Hl, lookup_insert_ne, lookup_insert_eq;
      [done|apply clusterTagKey_legacy|done].
Qed.

(** C33: discovery inverts tagging: from the tags of a resource created for a
    cluster, in any order, [initFromTags] recovers the cluster id and whether the
    cluster uses legacy tags. *)
Theorem initFromTags_roundtrip t lc add :
  ClusterID t ≠ "" → cluster_free add →
  initFromTags (mkTagging "" false) (buildAwsTags (buildTags t lc add)) = (t, Ok tt).
Proof.
  intros Hid Hf. unfold initFromTags, findClusterIDs.
  rewrite (findClusterIDsLoop_pair t (ClusterID t)).
  - rewrite (buildTags_has_prefix t lc add Hid), (buildTags_has_legacy t lc add Hid Hf).
    destruct t as [id legacy]. simpl in *. unfold init. simpl.
    assert (String.eqb id "" = false) as E by (by apply String.eqb_neq).
    destruct legacy; simpl; rewrite ?E, ?String.eqb_refl; simpl; by rewrite ?E.
  - apply NoDup_buildAwsTags.
  - intros tag (k & v & -> & Hk)%elem_of_buildAwsTags HP.
    by destruct (buildTags_cluster_key _ _ _ _ _ Hid Hf Hk) as [[-> _] _].
  - intros tag (k & v & -> & Hk)%elem_of_buildAwsTags HL.
    by destruct (buildTags_cluster_key _ _ _ _ _ Hid Hf Hk) as [_ [_ ->]].
  - intros tag (k & v & -> & Hk)%elem_of_buildAwsTags. eauto.
Qed.

(** ** Repair *)

(** A tag the cluster needs has another non-empty value. *)
Definition conflict (expected actual : gmap string string) : Prop :=
  ∃ k v, expected !! k = Some v ∧ mapget actual k ≠ v ∧ mapget actual k ≠ "".

Lemma missingTags_spec rid actual l acc :
  NoDup l.*1 → (∀ k, k ∈ l.*1 → acc !! k = None) →
  match missingTags rid actual l acc with
  | Ok m => (∀ k v, (k, v) ∈ l → mapget actual k = v ∨ mapget actual k = "") ∧
      ∀ k v, m !! k = Some v ↔ acc !! k = Some v ∨ ((k, v) ∈ l ∧ mapget actual k = "" ∧ v ≠ "")
  | Err _ => ∃ k v, (k, v) ∈ l ∧ mapget actual k ≠ v ∧ mapget actual k ≠ ""
  end.
Proof.
  revert acc. induction l as [|[k e] l IH]; intros acc Hnd Hacc; cbn [missingTags].
  { set_solver. }
  cbn [fmap list_fmap fst] in Hnd. apply NoDup_cons in Hnd as [Hnin Hnd].
  assert (∀ v, (k, v) ∉ l) as Hkl.
  { intros v Hin. apply Hnin. apply list_elem_of_fmap. by exists (k, v). }
  destruct (String.eqb_spec (mapget actual k) e) as [Ee|Ee].
  - specialize (IH acc Hnd ltac:(set_solver)). destruct (missingTags _ _ _ _) as [m|].
    + destruct IH as [IH1 IH2]. split; [set_solver|]. intros k' v'. rewrite IH2, elem_of_cons.
      split; [naive_solver|]. intros [?|[[[= -> ->]|?] [? ?]]]; [by left|congruence|by right].
    + destruct IH as (k' & v' & ? & ? & ?). exists k', v'. set_solver.
  - destruct (String.eqb_spec (mapget actual k) "") as [E0|E0].
    + specialize (IH (<[k := e]> acc) Hnd). destruct (missingTags _ _ _ _) as [m|].
      * destruct IH as [IH1 IH2].
        { intros k' Hk'. rewrite lookup_insert_ne by set_solver. set_solver. }
        split; [set_solver|]. intros k' v'. rewrite IH2, elem_of_cons, lookup_insert_Some.
        split; [intros [[[<- <-]|[? ?]]|?]; [right|left|right]; naive_solver congruence|].
        intros [Ha|[[[= -> ->]|?] [? ?]]]; [|naive_solver..].
        left. right. split; [|done]. intros ->. rewrite Hacc in Ha; [done|set_solver].
      * destruct IH as (k' & v' & ? & ? & ?); [|exists k', v'; set_solver].
        intros k' Hk'. rewrite lookup_insert_ne by set_solver. set_solver.
    + exists k, e. set_solver.
Qed.

(** The calls of [createTags]: the same request again and again, at most nine
    times, until one succeeds. *)
Definition create_request (rid : string) (tags : gmap string string) (r : result unit) : event awsE :=
  Ev (EC2 (CreateTags [rid] (buildAwsTags tags))) r.

Lemma wp_createTags_loop rid tags n lst t0 Q :
  (∀ errs l, length errs < n →
     Q (t0 ++ (create_request rid tags ∘ Err <$> errs) ++ [create_request rid tags (Ok tt)])
       (Done (Ok tt, l))) →
  (∀ errs, length errs = n →
     Q (t0 ++ (create_request rid tags ∘ Err <$> errs))
       (Done (Err ErrWaitTimeout, match last errs with Some e => Some e | None => lst end))) →
  wp (ExponentialBackoff n (λ lastErr : option error,
    let! r := ec2 (CreateTags [rid] (buildAwsTags tags)) in
    match r with
    | Ok _ => Ret (Ok true, lastErr)
    | Err e => Ret (Ok false, Some e)
    end) lst) Q t0.
Proof.
  revert lst t0. induction n as [|n IH]; intros lst t0 Hok Herr; simpl.
  { specialize (Herr [] eq_refl). by rewrite app_nil_r in Herr. }
  intros [[]|e]; simpl; [apply (Hok []); simpl; lia|].
  apply IH; intros errs ?; [intros H|]; rewrite <-(assoc_L (++)).
  - apply (Hok (e :: errs)); simpl; lia.
  - specialize (Herr (e :: errs)). rewrite last_cons in Herr.
    destruct (last errs); apply Herr; simpl; lia.
Qed.

Lemma wp_createTags t rid lc add t0 Q :
  size (buildTags t lc add) ≠ 0 →
  (∀ errs, length errs < createTagSteps →
     Q (t0 ++ (create_request rid (buildTags t lc add) ∘ Err <$> errs) ++
          [create_request rid (buildTags t lc add) (Ok tt)]) (Done (Ok tt))) →
  (∀ errs e, length errs + 1 = createTagSteps →
     Q (t0 ++ (create_request rid (buildTags t lc add) ∘ Err <$> errs ++ [e])) (Done (Err e))) →
  wp (createTags t rid lc add) Q t0.
Proof.
  intros Hsz Hok Herr. unfold createTags. rewrite (proj2 (Nat.eqb_neq _ _)) by done.
  rewrite wp_bind. apply wp_createTags_loop.
  - intros errs l Hl. by apply Hok.
  - intros errs Hl. destruct errs as [|e errs _] using rev_ind; [done|].
    rewrite last_snoc. simpl. apply Herr. rewrite length_app in Hl. simpl in Hl. lia.
Qed.

(** What a repair may do: [req] is the map of tags it writes. *)
Definition repair_calls (rid : string) (tags : gmap string string) (u : list (event awsE))
    (r : result unit) : Prop :=
  (∃ errs, length errs < createTagSteps ∧ r = Ok tt ∧
     u = (create_request rid tags ∘ Err <$> errs) ++ [create_request rid tags (Ok tt)]) ∨
  (∃ errs, length errs = createTagSteps ∧ is_ok r = false ∧
     u = create_request rid tags ∘ Err <$> errs).

(** The tags written are those the cluster expects, where they are missing or
    already in place. *)
Lemma repaired_tags t rid lc add obs m :
  missingTags rid (tagMap obs) (range_map (buildTags t lc add)) ∅ = Ok m →
  ¬ conflict (buildTags t lc add) (tagMap obs) ∧
  ∀ k v, buildTags t lc m !! k = Some v →
    buildTags t lc add !! k = Some v ∧ (mapget (tagMap obs) k = v ∨ mapget (tagMap obs) k = "").
Proof.
  intros E. pose proof (missingTags_spec rid (tagMap obs) (range_map (buildTags t lc add)) ∅
    (NoDup_fst_range_map _) ltac:(intros; apply lookup_empty)) as H.
  rewrite E in H. destruct H as [Hall Hm]. setoid_rewrite elem_of_range_map in Hall.
  setoid_rewrite elem_of_range_map in Hm. setoid_rewrite lookup_empty in Hm.
  split; [intros (k & v & Hk & ? & ?); by destruct (Hall k v Hk)|].
  intros k v Hk. assert (buildTags t lc add !! k = Some v) as Hadd; [|eauto].
  rewrite (buildTags_eq t lc m) in Hk. rewrite buildTags_eq in Hm |- *.
  destruct (bool_decide (ClusterID t = "")); [naive_solver|].
  rewrite lookup_insert_Some in Hk |- *. destruct Hk as [?|[Hne Hk]]; [by left|].
  right. split; [done|].
  assert (m !! k = Some v → ((if usesLegacyTags t
    then <[TagNameKubernetesClusterLegacy:=ClusterID t]> add else add) : gmap _ _) !! k = Some v) as Hm'.
  { intros [?|[Hk' _]]%Hm; [done|]. by rewrite lookup_insert_ne in Hk'. }
  destruct (usesLegacyTags t); [|auto]. rewrite lookup_insert_Some in Hk |- *.
  destruct Hk as [?|[Hne' Hk]]; [by left|]. right. split; [done|]. specialize (Hm' Hk).
  by rewrite lookup_insert_ne in Hm'.
Qed.


End facts.

(** ** Concrete clusters *)
Definition prod := mkTagging "prod" true.
Definition dev := mkTagging "dev" false.

Lemma cluster_free_empty : cluster_free ∅.
Proof. split; intros; apply lookup_empty. Qed.

Lemma cluster_isolation_witness :
  hasClusterTag dev (buildAwsTags (GR := trie_order)
    (buildTags (GR := trie_order) prod ResourceLifecycleOwned ∅)) = false.
Proof.
  by rewrite (cluster_isolation (GR := trie_order) prod dev ResourceLifecycleOwned ∅
    ltac:(done) ltac:(done) cluster_free_empty).
Defined.

Lemma initFromTags_roundtrip_witness :
  initFromTags (mkTagging "" false) (buildAwsTags (GR := reverse_order)
    (buildTags (GR := reverse_order) prod ResourceLifecycleShared ∅)) = (prod, Ok tt).
Proof.
  exact (initFromTags_roundtrip (GR := reverse_order) prod ResourceLifecycleShared ∅
    ltac:(done) cluster_free_empty).
Defined.
