(* ===== verification/Config.v ===== *)
(** * Cloud configuration (config/config.go)

    The settings file of the provider, the validation of its endpoint overrides and
    the choice of an endpoint for an SDK client. *)

From S2P Require Import Prelude GoLib Effects AwsApi.
Import Strings Errors.

Definition ClusterServiceLoadBalancerHealthProbeModeShared := "Shared".
Definition ClusterServiceLoadBalancerHealthProbeModeServiceNodePort := "ServiceNodePort".
Definition NLBSecurityGroupModeManaged := "Managed".

Record Override := mkOverride {
  ov_Service : string;
  ov_Region : string;
  ov_URL : string;
  ov_SigningRegion : string;
  ov_SigningMethod : string;
  ov_SigningName : string
}.

(** The fields of [Global] and the map of overrides. *)
Record CloudConfig := mkCloudConfig {
  cfg_Zone : string;
  cfg_Region : string;
  cfg_VPC : string;
  cfg_SubnetID : string;
  cfg_RouteTableID : string;
  cfg_RoleARN : string;
  cfg_SourceARN : string;
  cfg_KubernetesClusterTag : string;
  cfg_KubernetesClusterID : string;
  cfg_DisableSecurityGroupIngress : bool;
  cfg_ElbSecurityGroup : string;
  cfg_NodeIPFamilies : list string;
  cfg_HealthProbeMode : string;   (** [ClusterServiceLoadBalancerHealthProbeMode] *)
  cfg_HealthProbePort : Z;        (** [ClusterServiceSharedLoadBalancerHealthProbePort] *)
  cfg_HealthProbePath : string;   (** [ClusterServiceSharedLoadBalancerHealthProbePath] *)
  cfg_SupportedTopologyInstanceTypePattern : string;
  cfg_NLBSecurityGroupMode : string;
  cfg_ServiceOverride : gmap string Override
}.

Definition empty_config : CloudConfig :=
  mkCloudConfig "" "" "" "" "" "" "" "" "" false "" [] "" 0 "" "" "" ∅.

(** The region of the configuration, or the one the metadata service answers, which
    is then kept in the configuration. *)
Definition GetRegion (cfg : CloudConfig) (metadataRegion : result string) :
    CloudConfig * result string :=
  if negb (String.eqb (cfg_Region cfg) "") then (cfg, Ok (cfg_Region cfg)) else
  match metadataRegion with
  | Err e => (cfg, Err e)
  | Ok region =>
     (mkCloudConfig (cfg_Zone cfg) region (cfg_VPC cfg) (cfg_SubnetID cfg) (cfg_RouteTableID cfg)
        (cfg_RoleARN cfg) (cfg_SourceARN cfg) (cfg_KubernetesClusterTag cfg)
        (cfg_KubernetesClusterID cfg) (cfg_DisableSecurityGroupIngress cfg)
        (cfg_ElbSecurityGroup cfg) (cfg_NodeIPFamilies cfg) (cfg_HealthProbeMode cfg)
        (cfg_HealthProbePort cfg) (cfg_HealthProbePath cfg)
        (cfg_SupportedTopologyInstanceTypePattern cfg) (cfg_NLBSecurityGroupMode cfg)
        (cfg_ServiceOverride cfg), Ok region)
  end.

Definition IsNLBSecurityGroupModeManaged (cfg : CloudConfig) : result bool :=
  if len (cfg_NLBSecurityGroupMode cfg) =? 0 then Ok false
  else if String.eqb (cfg_NLBSecurityGroupMode cfg) NLBSecurityGroupModeManaged then Ok true
  else Err (Errorf "invalid NLB security group mode: %q. Expected: %q"
         [cfg_NLBSecurityGroupMode cfg; NLBSecurityGroupModeManaged]).

(** The override with a new service name and region ([ovrd] is a pointer). *)
Definition with_service (o : Override) (name region : string) : Override :=
  mkOverride name region (ov_URL o) (ov_SigningRegion o) (ov_SigningMethod o) (ov_SigningName o).

Definition signature (name region : string) : string := name +:+ "_" +:+ region.

(** One pass of the loop of [ValidateOverrides]: the overrides seen so far with
    trimmed fields, and the signatures seen. *)
Fixpoint validateLoop (l : list (string * Override)) (m : gmap string Override)
    (seen : gset string) : gmap string Override * result unit :=
  match l with
  | [] => (m, Ok tt)
  | (onum, ovrd) :: l =>
     let name := TrimSpace (ov_Service ovrd) in
     if String.eqb name "" then
       (m, Err (Errorf "service name is missing [Service is %q] in override %s" [""; onum]))
     else
     let ovrd := with_service ovrd name (ov_Region ovrd) in
     let m := <[onum := ovrd]> m in
     let region := TrimSpace (ov_Region ovrd) in
     if String.eqb region "" then
       (m, Err (Errorf "service region is missing [Region is %q] in override %s" [""; onum]))
     else
     let m := <[onum := with_service ovrd name region]> m in
     if String.eqb (TrimSpace (ov_URL ovrd)) "" then
       (m, Err (Errorf "url is missing [URL is %q] in override %s" [""; onum]))
     else if String.eqb (TrimSpace (ov_SigningRegion ovrd)) "" then
       (m, Err (Errorf "signingRegion is missing [SigningRegion is %q] in override %s" [""; onum]))
     else if bool_decide (signature name region ∈ seen) then
       (m, Err (Errorf "duplicate entry found for service override [%s] (%s in %s)"
                  [onum; name; region]))
     else validateLoop l m (seen ∪ {[signature name region]})
  end.

Section overrides.
Context {GR : GoRange}.

Definition ValidateOverrides (m : gmap string Override) : gmap string Override * result unit :=
  if size m =? 0 then (m, Ok tt) else validateLoop (range_map m) m ∅.

(** [GetEC2EndpointOpts] and its twins: the signing names and regions set on a
    client of the service [serviceID], in order; the last one set counts. *)
Definition EndpointOpts (serviceID : string) (m : gmap string Override) (region : string) :
    list (string * string) :=
  (λ o, (ov_SigningName o, ov_SigningRegion o)) <$>
  filter (λ o, ov_Service o = serviceID ∧ ov_Region o = region) (range_map m).*2.

(** [ResolveEndpoint] of the resolvers: the first override of the service and region,
    else the default resolver.  [parse] is [url.Parse]. *)
Definition ResolveEndpoint {URL} (parse : string → result URL) (serviceID : string)
    (default : option string → result URL) (m : gmap string Override) (region : option string) :
    result URL :=
  match list_find (λ o, ov_Service o = serviceID ∧ ov_Region o = ToString region)
          (range_map m).*2 with
  | Some (_, o) =>
     match parse (ov_URL o) with
     | Err e => Err (wrap "could not parse override URL, %w" [] e)
     | Ok u => Ok u
     end
  | None => default region
  end.

(** The four services, by the [ServiceID] of their clients. *)
Definition GetEC2EndpointOpts := EndpointOpts "EC2".
Definition GetELBEndpointOpts := EndpointOpts "Elastic Load Balancing".
Definition GetELBV2EndpointOpts := EndpointOpts "Elastic Load Balancing v2".
Definition GetKMSEndpointOpts := EndpointOpts "KMS".

Definition EC2Resolver {URL} (parse : string → result URL) := ResolveEndpoint parse "EC2".
Definition ELBResolver {URL} (parse : string → result URL) := ResolveEndpoint parse "Elastic Load Balancing".
Definition ELBV2Resolver {URL} (parse : string → result URL) := ResolveEndpoint parse "Elastic Load Balancing v2".
Definition KMSResolver {URL} (parse : string → result URL) := ResolveEndpoint parse "KMS".

(** [GetIMDSEndpointOpts]: the endpoints set on the metadata client, in order. *)
Definition GetIMDSEndpointOpts (m : gmap string Override) : list string :=
  ov_URL <$> filter (λ o, ov_Service o = "ec2imds") (range_map m).*2.

End overrides.

(** ** Overrides that passed validation *)

(** At most one override per service and region. *)
Definition unambiguous (m : gmap string Override) : Prop :=
  ∀ k k' o o', m !! k = Some o → m !! k' = Some o' →
    ov_Service o = ov_Service o' → ov_Region o = ov_Region o' → k = k'.

(** The loop: entries already processed are filed trimmed and with distinct signatures. *)
Lemma validateLoop_ok l m seen m' :
  NoDup l.*1 →
  (∀ k o, (k, o) ∈ l → m !! k = Some o) →
  (∀ k o, m !! k = Some o → k ∉ l.*1 → signature (ov_Service o) (ov_Region o) ∈ seen) →
  (∀ k k' o o', m !! k = Some o → m !! k' = Some o' → k ∉ l.*1 → k' ∉ l.*1 →
     signature (ov_Service o) (ov_Region o) = signature (ov_Service o') (ov_Region o') → k = k') →
  validateLoop l m seen = (m', Ok tt) → unambiguous m'.
Proof.
  revert m seen. induction l as [|[k o] l IH]; intros m seen Hnd Hl Hseen Hinj; simpl.
  { intros [= <-] a b oa ob Ha Hb Es Er. eapply (Hinj a b oa ob); [done..|set_solver|set_solver|].
    by rewrite Es, Er. }
  cbn [fmap list_fmap fst] in *. apply NoDup_cons in Hnd as [Hnin Hnd].
  repeat (case_match; [done|]). rewrite insert_insert_eq. intros Hv.
  assert (signature (TrimSpace (ov_Service o)) (TrimSpace (ov_Region o)) ∉ seen) as Hnew.
  { by eapply bool_decide_eq_false. }
  eapply IH in Hv; [done|done| | |].
  - intros k' o' Hin. rewrite lookup_insert_ne; [apply Hl; set_solver|].
    intros ->. apply Hnin. apply list_elem_of_fmap. by exists (k', o').
  - intros k' o'. rewrite lookup_insert_Some. intros [[<- <-]|[Hne Hk]] Hk'; [set_solver|].
    apply elem_of_union_l. eapply Hseen; [done|]. set_solver.
  - intros a b oa ob Ha Hb Hna Hnb E. rewrite lookup_insert_Some in Ha, Hb.
    destruct Ha as [[<- <-]|[Ha' Ha]], Hb as [[<- <-]|[Hb' Hb]]; [done| | |].
    + exfalso. apply Hnew. simpl in E. rewrite E. eapply Hseen; [done|set_solver].
    + exfalso. apply Hnew. simpl in E. rewrite <-E. eapply Hseen; [done|set_solver].
    + eapply Hinj; [done..|set_solver|set_solver|done].
Qed.

Lemma ValidateOverrides_unambiguous `{GR : GoRange} m m' :
  ValidateOverrides m = (m', Ok tt) → unambiguous m'.
Proof.
  unfold ValidateOverrides. destruct (Nat.eqb_spec (size m) 0) as [E|_].
  { intros [= <-]. apply map_size_empty_iff in E as ->. intros k k' o o'. by rewrite lookup_empty. }
  apply validateLoop_ok.
  - apply NoDup_fst_range_map.
  - intros k o. by rewrite elem_of_range_map.
  - intros k o Hk []. apply list_elem_of_fmap. exists (k, o). by rewrite elem_of_range_map.
  - intros k k' o o' Hk _ []. apply list_elem_of_fmap. exists (k, o). by rewrite elem_of_range_map.
Qed.

(** A selection of an unambiguous map holds at most one override. *)
Lemma filter_unambiguous `{GR : GoRange} m s r :
  unambiguous m →
  length (filter (λ o, ov_Service o = s ∧ ov_Region o = r) (range_map m).*2) ≤ 1.
Proof.
  intros Hu. rewrite list_filter_fmap, length_fmap.
  set (l := filter _ _). assert (NoDup l) as Hnd.
  { apply NoDup_filter. eapply NoDup_fmap_1, NoDup_fst_range_map. }
  assert (∀ x y, x ∈ l → y ∈ l → x = y) as Heq.
  { intros [k o] [k' o'] [[E1 E2] Hin]%list_elem_of_filter [[E1' E2'] Hin']%list_elem_of_filter.
    simpl in *. apply elem_of_range_map in Hin, Hin'.
    assert (k = k') as -> by (eapply Hu; eauto; congruence). congruence. }
  destruct l as [|x [|y l]]; simpl; [lia|lia|]. exfalso. apply NoDup_cons in Hnd as [Hnin _].
  apply Hnin. rewrite (Heq x y); set_solver.
Qed.

Lemma list_find_filter {A} (P : A → Prop) `{∀ x, Decision (P x)} (l : list A) :
  snd <$> list_find P l = head (filter P l).
Proof.
  induction l as [|x l IH]; simpl; [done|]. rewrite filter_cons. case_decide; [done|].
  rewrite <-IH. by destruct (list_find P l) as [[]|].
Qed.

(** Once [ValidateOverrides] accepts the overrides, the endpoint and the signing
    options of a client no longer depend on the iteration order of the override map:
    each service and region has at most one override. *)
Theorem ValidateOverrides_deterministic (G G1 G2 : GoRange) m m' {URL} (parse : string → result URL)
    service default region :
  ValidateOverrides (GR := G) m = (m', Ok tt) →
  EndpointOpts (GR := G1) service m' region = EndpointOpts (GR := G2) service m' region ∧
  length (EndpointOpts (GR := G1) service m' region) ≤ 1 ∧
  ResolveEndpoint (GR := G1) parse service default m' (Some region) =
  ResolveEndpoint (GR := G2) parse service default m' (Some region).
Proof.
  intros Hu%ValidateOverrides_unambiguous.
  pose proof (filter_unambiguous (GR := G1) m' service region Hu) as H1.
  assert (filter (λ o, ov_Service o = service ∧ ov_Region o = region) (range_map (GoRange := G1) m').*2
    = filter (λ o, ov_Service o = service ∧ ov_Region o = region) (range_map (GoRange := G2) m').*2) as E.
  { apply short_perm_eq; [|done]. by rewrite !range_map_perm. }
  unfold EndpointOpts, ResolveEndpoint. simpl. split_and!; [by rewrite E|by rewrite length_fmap|].
  pose proof (list_find_filter (λ o, ov_Service o = service ∧ ov_Region o = region)
    (range_map (GoRange := G1) m').*2) as F1.
  pose proof (list_find_filter (λ o, ov_Service o = service ∧ ov_Region o = region)
    (range_map (GoRange := G2) m').*2) as F2.
  rewrite E, <-F2 in F1.
  by destruct (list_find _ _) as [[]|], (list_find _ _) as [[]|]; simplify_eq/=.
Qed.

Definition two_overrides : gmap string Override :=
  <["1" := mkOverride " EC2 " "us-east-1" "https://ec2.foo" "us-east-1" "" "ec2"]>
  {["2" := mkOverride "EC2" "us-west-2 " "https://ec2.bar" "us-west-2" "" "ec2"]}.

Lemma ValidateOverrides_deterministic_witness :
  EndpointOpts (GR := reverse_order) "EC2" (ValidateOverrides (GR := trie_order) two_overrides).1
    "us-west-2" = [("ec2", "us-west-2")].
Proof.
  destruct (ValidateOverrides_deterministic trie_order reverse_order trie_order two_overrides
    (ValidateOverrides (GR := trie_order) two_overrides).1 (λ u, Ok u) "EC2" (λ _, Ok "") "us-west-2")
    as [-> _]; by vm_compute.
Defined.
