(* ===== verification/Cloud.v ===== *)
(** * Kubernetes objects and annotations

    The fields of Services and Nodes the provider reads, the annotations of aws.go,
    their parsers, and the checks of aws_validations.go. *)

From S2P Require Import Prelude GoLib Effects AwsApi Tags Config.
From Stdlib Require Import Ascii.
Import Strings Errors Strconv.

(** ** Constants (aws.go) *)
Definition NLBHealthCheckRuleDescription := "kubernetes.io/rule/nlb/health".
Definition NLBClientRuleDescription := "kubernetes.io/rule/nlb/client".
Definition NLBMtuDiscoveryRuleDescription := "kubernetes.io/rule/nlb/mtu".
Definition TagNameKubernetesService := "kubernetes.io/service-name".
Definition TagNameSubnetInternalELB := "kubernetes.io/role/internal-elb".
Definition TagNameSubnetPublicELB := "kubernetes.io/role/elb".
Definition ServiceAnnotationLoadBalancerType := "service.beta.kubernetes.io/aws-load-balancer-type".
Definition ServiceAnnotationLoadBalancerALPNPolicy := "service.beta.kubernetes.io/aws-load-balancer-alpn-policy".
Definition ServiceAnnotationLoadBalancerInternal := "service.beta.kubernetes.io/aws-load-balancer-internal".
Definition ServiceAnnotationLoadBalancerProxyProtocol := "service.beta.kubernetes.io/aws-load-balancer-proxy-protocol".
Definition ServiceAnnotationLoadBalancerAccessLogEmitInterval := "service.beta.kubernetes.io/aws-load-balancer-access-log-emit-interval".
Definition ServiceAnnotationLoadBalancerAccessLogEnabled := "service.beta.kubernetes.io/aws-load-balancer-access-log-enabled".
Definition ServiceAnnotationLoadBalancerAccessLogS3BucketName := "service.beta.kubernetes.io/aws-load-balancer-access-log-s3-bucket-name".
Definition ServiceAnnotationLoadBalancerAccessLogS3BucketPrefix := "service.beta.kubernetes.io/aws-load-balancer-access-log-s3-bucket-prefix".
Definition ServiceAnnotationLoadBalancerConnectionDrainingEnabled := "service.beta.kubernetes.io/aws-load-balancer-connection-draining-enabled".
Definition ServiceAnnotationLoadBalancerConnectionDrainingTimeout := "service.beta.kubernetes.io/aws-load-balancer-connection-draining-timeout".
Definition ServiceAnnotationLoadBalancerConnectionIdleTimeout := "service.beta.kubernetes.io/aws-load-balancer-connection-idle-timeout".
Definition ServiceAnnotationLoadBalancerCrossZoneLoadBalancingEnabled := "service.beta.kubernetes.io/aws-load-balancer-cross-zone-load-balancing-enabled".
Definition ServiceAnnotationLoadBalancerExtraSecurityGroups := "service.beta.kubernetes.io/aws-load-balancer-extra-security-groups".
Definition ServiceAnnotationLoadBalancerSecurityGroups := "service.beta.kubernetes.io/aws-load-balancer-security-groups".
Definition ServiceAnnotationLoadBalancerCertificate := "service.beta.kubernetes.io/aws-load-balancer-ssl-cert".
Definition ServiceAnnotationLoadBalancerSSLPorts := "service.beta.kubernetes.io/aws-load-balancer-ssl-ports".
Definition ServiceAnnotationLoadBalancerSSLNegotiationPolicy := "service.beta.kubernetes.io/aws-load-balancer-ssl-negotiation-policy".
Definition ServiceAnnotationLoadBalancerBEProtocol := "service.beta.kubernetes.io/aws-load-balancer-backend-protocol".
Definition ServiceAnnotationLoadBalancerAdditionalTags := "service.beta.kubernetes.io/aws-load-balancer-additional-resource-tags".
Definition ServiceAnnotationLoadBalancerHealthCheckProtocol := "service.beta.kubernetes.io/aws-load-balancer-healthcheck-protocol".
Definition ServiceAnnotationLoadBalancerHealthCheckPort := "service.beta.kubernetes.io/aws-load-balancer-healthcheck-port".
Definition ServiceAnnotationLoadBalancerHealthCheckPath := "service.beta.kubernetes.io/aws-load-balancer-healthcheck-path".
Definition ServiceAnnotationLoadBalancerHCHealthyThreshold := "service.beta.kubernetes.io/aws-load-balancer-healthcheck-healthy-threshold".
Definition ServiceAnnotationLoadBalancerHCUnhealthyThreshold := "service.beta.kubernetes.io/aws-load-balancer-healthcheck-unhealthy-threshold".
Definition ServiceAnnotationLoadBalancerHCTimeout := "service.beta.kubernetes.io/aws-load-balancer-healthcheck-timeout".
Definition ServiceAnnotationLoadBalancerHCInterval := "service.beta.kubernetes.io/aws-load-balancer-healthcheck-interval".
Definition ServiceAnnotationLoadBalancerTargetGroupAttributes := "service.beta.kubernetes.io/aws-load-balancer-target-group-attributes".
Definition ServiceAnnotationLoadBalancerEIPAllocations := "service.beta.kubernetes.io/aws-load-balancer-eip-allocations".
Definition ServiceAnnotationLoadBalancerPrivateIPv4Addresses := "service.beta.kubernetes.io/aws-load-balancer-private-ipv4-addresses".
Definition ServiceAnnotationLoadBalancerTargetNodeLabels := "service.beta.kubernetes.io/aws-load-balancer-target-node-labels".
Definition ServiceAnnotationLoadBalancerSubnets := "service.beta.kubernetes.io/aws-load-balancer-subnets".

Definition targetGroupAttributePreserveClientIPEnabled := "preserve_client_ip.enabled".
Definition targetGroupAttributeProxyProtocolV2Enabled := "proxy_protocol_v2.enabled".
Definition regularAvailabilityZoneType := "availability-zone".
Definition MaxReadThenCreateRetries : nat := 30.
Definition filterNodeLimit : nat := 150.
Definition privateDNSNamePrefix := "ip-".
Definition rbnNamePrefix := "i-".

(** ** Services and nodes (k8s.io/api/core/v1) *)
Record ServicePort := mkServicePort {
  sp_Name : string;
  sp_Protocol : string;
  sp_Port : Z;
  sp_NodePort : Z
}.

Record Service := mkService {
  svc_Namespace : string;
  svc_Name : string;
  svc_UID : string;
  svc_Annotations : gmap string string;
  svc_Ports : list ServicePort;
  svc_Type : string;
  svc_SessionAffinity : string;
  svc_LoadBalancerIP : string;
  svc_LoadBalancerSourceRanges : list string;
  svc_IPFamilies : list string;
  svc_IPFamilyPolicy : option string;
  svc_ExternalTrafficPolicy : string;
  svc_HealthCheckNodePort : Z;
  svc_Hostnames : list string  (** of [Status.LoadBalancer.Ingress] *)
}.

Record Node := mkNode {
  node_Name : string;
  node_Labels : gmap string string;
  node_ProviderID : string
}.

(** [types.NamespacedName] *)
Record NamespacedName := mkNamespacedName { nn_Namespace : string; nn_Name : string }.
Definition nn_String (n : NamespacedName) : string := nn_Namespace n +:+ "/" +:+ nn_Name n.

Definition IPv6Protocol := "IPv6".
Definition IPFamilyPolicySingleStack := "SingleStack".
Definition IPFamilyPolicyPreferDualStack := "PreferDualStack".
Definition IPFamilyPolicyRequireDualStack := "RequireDualStack".

(** ** The provider *)

(** [awsInstance] (aws_instance.go), without its client. *)
Record awsInstance := mkAwsInstance {
  aw_awsID : string;
  aw_nodeName : string;
  aw_availabilityZone : string;
  aw_vpcID : string;
  aw_subnetID : string;
  aw_instanceType : string
}.
Definition no_instance : awsInstance := mkAwsInstance "" "" "" "" "" "".

(** The fields of [Cloud] that hold data; its clients are the calls of [AwsApi], its
    caches are explicit states of the operations that use them. *)
Record Cloud := mkCloud {
  c_cfg : CloudConfig;
  c_region : string;
  c_vpcID : string;
  c_tagging : awsTagging;
  c_selfAWSInstance : awsInstance
}.

(** ** Annotations *)
Definition isNLB (annotations : gmap string string) : bool :=
  String.eqb (mapget annotations ServiceAnnotationLoadBalancerType) "nlb".

Definition isLBExternal (annotations : gmap string string) : bool :=
  let val := mapget annotations ServiceAnnotationLoadBalancerType in
  String.eqb val "nlb-ip" || String.eqb val "external".

(** One "Key=Val" of [getKeyValuePropertiesFromAnnotation]. *)
Definition addProperty (additionalTags : gmap string string) (tagSet : string) :
    gmap string string :=
  match Split (TrimSpace tagSet) "="%char with
  | k :: v :: _ => if len k =? 0 then additionalTags else <[k := v]> additionalTags
  | [k] => if len k =? 0 then additionalTags else <[k := ""]> additionalTags
  | [] => additionalTags
  end.

Definition getKeyValuePropertiesFromAnnotation (annotations : gmap string string)
    (annotation : string) : gmap string string :=
  match annotations !! annotation with
  | Some additionalTagsList =>
     foldl addProperty ∅ (Split (TrimSpace additionalTagsList) ","%char)
  | None => ∅
  end.

Definition splitCommaSeparatedString (commaSeparatedString : string) : list string :=
  filter (λ part, len part ≠ 0) (TrimSpace <$> Split commaSeparatedString ","%char).

Definition getSGListFromAnnotation (annotatedSG : string) : list string :=
  filter (λ extraSG, len extraSG ≠ 0) (TrimSpace <$> Split annotatedSG ","%char).

(** The parsers assign through a pointer when the annotation is present: here they
    return the new value. *)
Definition parseStringAnnotation (annotations : gmap string string) (annotation : string)
    (value : string) : bool * string :=
  match annotations !! annotation with
  | Some v => (true, v)
  | None => (false, value)
  end.

Definition parseStringSliceAnnotation (annotations : gmap string string) (annotation : string)
    (value : list string) : bool * list string :=
  match parseStringAnnotation annotations annotation "" with
  | (false, _) => (false, value)
  | (true, rawValue) => (true, splitCommaSeparatedString rawValue)
  end.

Definition parseInt32Annotation (annotations : gmap string string) (annotation : string)
    (value : Z) : result Z :=
  match annotations !! annotation with
  | Some v =>
     match ParseInt v int_bits with
     | None => Err (Errorf "failed to parse annotation %v=%v" [annotation; v])
     | Some parsed64 => Ok (to_int32 parsed64)
     end
  | None => Ok value
  end.

(** Names and numbers of ports; [None] is the nil pointer, for every port. *)
Record portSets := mkPortSets { ps_names : gset string; ps_numbers : gset Z }.

Definition getPortSets (annotation : string) : option portSets :=
  if negb (String.eqb annotation "") && negb (String.eqb annotation "*") then
    Some (foldl (λ ports item,
      match Atoi item with
      | None => mkPortSets (ps_names ports ∪ {[item]}) (ps_numbers ports)
      | Some port => mkPortSets (ps_names ports) (ps_numbers ports ∪ {[to_int32 port]})
      end) (mkPortSets ∅ ∅) (Split annotation ","%char))
  else None.

(** ** IP families *)
Definition serviceRequestsIPv6 (service : Service) : bool :=
  bool_decide (IPv6Protocol ∈ svc_IPFamilies service).

Definition getTargetGroupIPAddressTypeFromService (service : Service) : string :=
  match svc_IPFamilies service with
  | f :: _ => if String.eqb f IPv6Protocol then "ipv6" else "ipv4"
  | [] => "ipv4"
  end.

Definition getLoadBalancerIPAddressTypeFromService (service : Service) : string :=
  if serviceRequestsIPv6 service then "dualstack" else "ipv4".

Definition canFallbackToIPv4 (service : Service) : bool :=
  match svc_IPFamilyPolicy service with
  | None => negb (serviceRequestsIPv6 service)
  | Some policy =>
     if String.eqb policy IPFamilyPolicySingleStack then negb (serviceRequestsIPv6 service)
     else if String.eqb policy IPFamilyPolicyPreferDualStack then true
     else if String.eqb policy IPFamilyPolicyRequireDualStack then false
     else true
  end.

Definition validateIPFamilyInfo (service : Service) (ipv6Requested : bool) : result unit :=
  let ipFamilyPolicy := default IPFamilyPolicySingleStack (svc_IPFamilyPolicy service) in
  let n := length (svc_IPFamilies service) in
  let num := Itoa (Z.of_nat n) in
  if 3 <=? n then Err (Errorf "ipFamilies requires 1 or 2 entries. got %d" [num])
  else if String.eqb ipFamilyPolicy IPFamilyPolicySingleStack && ipv6Requested then
    Err (Errorf "single stack IPv6 is not supported for network load balancers" [])
  else if String.eqb ipFamilyPolicy IPFamilyPolicyRequireDualStack && negb (n =? 2) then
    Err (Errorf "policy %s requires 2 entries in the ipFamilies field. got %d"
           [IPFamilyPolicyRequireDualStack; num])
  else if String.eqb ipFamilyPolicy IPFamilyPolicyPreferDualStack && (3 <=? n) then
    Err (Errorf "policy %s requires 1 or 2 entries. got %d" [IPFamilyPolicyPreferDualStack; num])
  else Ok tt.

(** ** Protocols *)
Definition checkMixedProtocol (ports : list ServicePort) : result unit :=
  match ports with
  | [] => Ok tt
  | first :: rest =>
     if forallb (λ port, String.eqb (sp_Protocol port) (sp_Protocol first)) rest then Ok tt
     else Err (Errorf "mixed protocol is not supported for LoadBalancer" [])
  end.

Definition checkProtocol (port : ServicePort) (annotations : gmap string string) : result unit :=
  if isNLB annotations && (String.eqb (sp_Protocol port) "TCP" || String.eqb (sp_Protocol port) "UDP")
  then Ok tt
  else if negb (isNLB annotations) && String.eqb (sp_Protocol port) "TCP" then Ok tt
  else Err (Errorf "Protocol %s not supported by LoadBalancer" [sp_Protocol port]).

(** ** Service helpers (k8s.io/cloud-provider) *)
Definition RequestsOnlyLocalTraffic (service : Service) : bool :=
  if negb (String.eqb (svc_Type service) "LoadBalancer") &&
     negb (String.eqb (svc_Type service) "NodePort") then false
  else String.eqb (svc_ExternalTrafficPolicy service) "Local".

Definition NeedsHealthCheck (service : Service) : bool :=
  if negb (String.eqb (svc_Type service) "LoadBalancer") then false
  else RequestsOnlyLocalTraffic service.

Definition GetServiceHealthCheckPathPort (service : Service) : string * Z :=
  if negb (NeedsHealthCheck service) then ("", 0%Z)
  else if Z.eqb (svc_HealthCheckNodePort service) 0 then ("", 0%Z)
  else ("/healthz", svc_HealthCheckNodePort service).

Definition DefaultLoadBalancerName (service : Service) : string :=
  take 32 (keep_bytes (λ c, negb (Ascii.eqb c "-")) ("a" +:+ svc_UID service)).

Definition GetLoadBalancerName (service : Service) : string := DefaultLoadBalancerName service.

(** ** Pre-flight validation (aws_validations.go) *)

(** The ports forbid turning client IP preservation off. *)
Definition hasUDPPort (ports : list ServicePort) : bool :=
  existsb (λ port, String.eqb (sp_Protocol port) "UDP" ||
                   String.eqb (sp_Protocol port) "TCP_UDP") ports.

Definition errPrefix := "error validating target group attributes".

Fixpoint validateAttributes (ports : list ServicePort) (l : list (string * string))
    (targetGroupAttributes : gmap string string) : result unit :=
  match l with
  | [] => Ok tt
  | (attrKey, attrValue) :: l =>
     if bool_decide (is_Some (targetGroupAttributes !! attrKey)) then
       Err (Errorf "%s: %q is set twice in the annotation" [errPrefix; attrKey])
     else if len attrValue =? 0 then
       Err (Errorf "%s: attribute value is empty for %q" [errPrefix; attrKey])
     else if String.eqb attrKey targetGroupAttributePreserveClientIPEnabled then
       if negb (String.eqb attrValue "true") && negb (String.eqb attrValue "false") then
         Err (Errorf "%s: invalid attribute value for %q: %s" [errPrefix; attrKey; attrValue])
       else if hasUDPPort ports && String.eqb attrValue "false" then
         Err (Errorf "%s: client IP preservation can't be disabled for UDP ports" [errPrefix])
       else validateAttributes ports l (<[attrKey := attrValue]> targetGroupAttributes)
     else if String.eqb attrKey targetGroupAttributeProxyProtocolV2Enabled then
       if negb (String.eqb attrValue "true") && negb (String.eqb attrValue "false") then
         Err (Errorf "%s: invalid attribute value for %q: %s" [errPrefix; attrKey; attrValue])
       else validateAttributes ports l (<[attrKey := attrValue]> targetGroupAttributes)
     else Err (Errorf "%s: the attribute %q is not supported by the controller or is invalid"
            [errPrefix; attrKey])
  end.

Section validation.
Context {GR : GoRange}.

Definition validateServiceAnnotationTargetGroupAttributes (apiService : Service)
    (annotations : gmap string string) : result unit :=
  validateAttributes (svc_Ports apiService)
    (range_map (getKeyValuePropertiesFromAnnotation annotations
       ServiceAnnotationLoadBalancerTargetGroupAttributes)) ∅.

Definition validateServiceAnnotations (apiService : Service) (annotations : gmap string string) :
    result unit :=
  let nlb := isNLB annotations in
  let typeError :=
    match svc_Hostnames apiService with
    | [] => None
    | hostname :: _ =>
       let hostIsClassic := HasSuffix hostname ".elb.amazonaws.com" in
       if nlb && hostIsClassic then
         Some (Errorf "cannot update Load Balancer Type annotation %q after creation for NLB"
                 [ServiceAnnotationLoadBalancerType])
       else if negb nlb && negb hostIsClassic then
         Some (Errorf "cannot update Load Balancer Type annotation %q after creation for Classic Load Balancer"
                 [ServiceAnnotationLoadBalancerType])
       else None
    end in
  match typeError with
  | Some e => Err e
  | None =>
     if bool_decide (is_Some (annotations !! ServiceAnnotationLoadBalancerExtraSecurityGroups)) && nlb
     then Err (Errorf "BYO extra security group annotation %q is not supported by NLB"
                 [ServiceAnnotationLoadBalancerExtraSecurityGroups])
     else if bool_decide (is_Some (annotations !! ServiceAnnotationLoadBalancerTargetGroupAttributes)) then
       if negb nlb then Err (Errorf "target group attributes annotation is only supported for NLB" [])
       else validateServiceAnnotationTargetGroupAttributes apiService annotations
     else Ok tt
  end.

Definition ensureLoadBalancerValidation (apiService : Service) (annotations : gmap string string) :
    result unit :=
  validateServiceAnnotations apiService annotations.

(** ** Target nodes (aws_loadbalancer.go) *)
Definition filterTargetNodes (nodes : list Node) (annotations : gmap string string) : list Node :=
  let targetNodeLabels := getKeyValuePropertiesFromAnnotation annotations
    ServiceAnnotationLoadBalancerTargetNodeLabels in
  if size targetNodeLabels =? 0 then nodes else
  filter (λ node, negb (size (node_Labels node) =? 0) &&
    forallb (λ '(targetLabelKey, targetLabelValue),
      match node_Labels node !! targetLabelKey with
      | None => false
      | Some nodeLabelValue =>
         negb (negb (String.eqb nodeLabelValue targetLabelValue) &&
               negb (String.eqb targetLabelValue ""))
      end) (range_map targetNodeLabels) = true) nodes.

End validation.
