(* ===== verification/SecurityGroups.v ===== *)
(** * Security groups (aws.go, aws_loadbalancer.go)

    Reading, creating, tagging and deleting security groups, and keeping their
    ingress rules in line with a desired set of permissions. *)

From S2P Require Import Prelude GoLib Effects AwsApi IPPermissions Tags Config Cloud.
From Stdlib Require Import Ascii.
Import Strings Errors Strconv.

(** [%v] of a set of strings and of a list of errors. *)
Definition fmtSet (s : gset string) : string :=
  "map[" +:+ Join ((λ k, k +:+ ":{}") <$> SortStrings (elements s)) " " +:+ "]".
Definition fmtErrs (errs : list error) : string := "[" +:+ Join (Error <$> errs) " " +:+ "]".

(** ** Lookup *)
Definition findSecurityGroup (securityGroupID : string) :
    prog awsE (result (option SecurityGroup)) :=
  let? groups := ec2 (DescribeSecurityGroups [securityGroupID] []) in
  match groups with
  | [] => Ret (Ok None)
  | [group] => Ret (Ok (Some group))
  | _ => Ret (Err (Errorf "multiple security groups found with same id %q" [securityGroupID]))
  end.

(** Whether a group pair of the permission names a user. *)
Definition hasUserID (p : IpPermission) : bool :=
  existsb (λ u, bool_decide (is_Some (ug_UserId u))) (elems (UserIdGroupPairs p)).

(** The permissions of [l] that some rule of the group covers, or does not cover. *)
Fixpoint selectPermissions (keep : bool) (rules : list IpPermission) (l : list IpPermission) :
    option (list IpPermission) :=
  match l with
  | [] => Some []
  | p :: l =>
     found ← exists_o (λ groupPermission, ipPermissionExists p groupPermission (hasUserID p)) rules;
     changes ← selectPermissions keep rules l;
     Some (if bool_decide (found = keep) then p :: changes else changes)
  end.

Definition isOwnedSecurityGroup (c : Cloud) (securityGroupID : string) : prog awsE (result bool) :=
  let? groups := ec2 (DescribeSecurityGroups [securityGroupID] [])
    else wrap "error retrieving security group %q: %w" [securityGroupID] in
  match groups with
  | [] => Ret (Err (Errorf "security group %q not found" [securityGroupID]))
  | [group] => Ret (hasClusterTagOwned (c_tagging c) (sg_Tags group))
  | _ => Ret (Err (Errorf "[BUG] multiple security groups found with same id %q" [securityGroupID]))
  end.

(** The tagged groups by id; a later duplicate wins. *)
Definition getTaggedSecurityGroups (c : Cloud) : prog awsE (result (gmap string SecurityGroup)) :=
  let? groups := ec2 (DescribeSecurityGroups [] [])
    else (λ err, Errorf "error querying security groups: %q" [Error err]) in
  Ret (Ok (foldl (λ m group,
    if negb (hasClusterTag (c_tagging c) (sg_Tags group)) then m else
    let id := ToString (sg_GroupId group) in
    if String.eqb id "" then m else <[id := group]> m) ∅ groups)).

(** The text of the groups in the error below; [None] where a name is nil. *)
Fixpoint taggedGroupsText (l : list GroupIdentifier) : option string :=
  match l with
  | [] => Some ""
  | g :: l =>
     id ← gi_GroupId g; name ← gi_GroupName g; rest ← taggedGroupsText l;
     Some (Sprintf "%s(%s) " [id; name] +:+ rest)
  end.

(** The outer option is a panic, the inner one the nil group. *)
Definition findSecurityGroupForInstance (instance : Instance_)
    (taggedSecurityGroups : gmap string SecurityGroup) : option (result (option GroupIdentifier)) :=
  let instanceID := ToString (i_InstanceId instance) in
  let groups := filter (λ g, ToString (gi_GroupId g) ≠ "") (i_SecurityGroups instance) in
  let tagged := filter (λ g, is_Some (taggedSecurityGroups !! ToString (gi_GroupId g))) groups in
  let untagged := filter (λ g, ¬ is_Some (taggedSecurityGroups !! ToString (gi_GroupId g))) groups in
  match tagged with
  | [g] => Some (Ok (Some g))
  | _ :: _ =>
     taggedGroups ← taggedGroupsText tagged;
     Some (Err (Errorf "Multiple tagged security groups found for instance %s; ensure only the k8s security group is tagged; the tagged groups were %v"
                  [instanceID; taggedGroups]))
  | [] =>
     match untagged with
     | [g] => Some (Ok (Some g))
     | _ :: _ => Some (Err (Errorf "Multiple untagged security groups found for instance %s; ensure the k8s security group is tagged"
                              [instanceID]))
     | [] => Some (Ok None)
     end
  end.

Section groups.
Context {GR : GoRange} {GS : GoSort}.

(** ** Rules *)
Definition setSecurityGroupIngress (securityGroupID : string) (permissions : IPPermissionSet) :
    prog awsE (result bool) :=
  let? group := findSecurityGroup securityGroupID in
  match group with
  | None => Ret (Err (Errorf "security group not found: %s" [securityGroupID]))
  | Some group =>
     let actual := NewIPPermissionSet (sg_IpPermissions group) in
     let permissions := Ungroup permissions in
     let actual := Ungroup actual in
     let! remove := no_panic (Difference actual permissions) in
     let! add := no_panic (Difference permissions actual) in
     if (Len add =? 0) && (Len remove =? 0) then Ret (Ok false) else
     let? _ := (if negb (Len add =? 0) then
         let? _ := ec2 (AuthorizeSecurityGroupIngress (Some securityGroupID) (List add))
           else (λ err, Errorf "error authorizing security group ingress: %q" [Error err]) in
         Ret (Ok tt)
       else Ret (Ok tt)) in
     let? _ := (if negb (Len remove =? 0) then
         let? _ := ec2 (RevokeSecurityGroupIngress (Some securityGroupID) (List remove))
           else (λ err, Errorf "error revoking security group ingress: %q" [Error err]) in
         Ret (Ok tt)
       else Ret (Ok tt)) in
     Ret (Ok true)
  end.

Definition addSecurityGroupIngress (c : Cloud) (securityGroupID : string)
    (addPermissions : list IpPermission) : prog awsE (result bool) :=
  if String.eqb securityGroupID (cfg_ElbSecurityGroup (c_cfg c)) then Ret (Ok false) else
  let? group := findSecurityGroup securityGroupID in
  match group with
  | None => Ret (Err (Errorf "security group not found: %s" [securityGroupID]))
  | Some group =>
     let! changes := no_panic (selectPermissions false (sg_IpPermissions group) addPermissions) in
     if length changes =? 0 then Ret (Ok false) else
     let? _ := ec2 (AuthorizeSecurityGroupIngress (Some securityGroupID) changes)
       else (λ err, Errorf "error authorizing security group ingress: %q" [Error err]) in
     Ret (Ok true)
  end.

Definition removeSecurityGroupIngress (c : Cloud) (securityGroupID : string)
    (removePermissions : list IpPermission) : prog awsE (result bool) :=
  if String.eqb securityGroupID (cfg_ElbSecurityGroup (c_cfg c)) then Ret (Ok false) else
  let? group := findSecurityGroup securityGroupID in
  match group with
  | None => Ret (Ok false)
  | Some group =>
     let! changes := no_panic (selectPermissions true (sg_IpPermissions group) removePermissions) in
     if length changes =? 0 then Ret (Ok false) else
     let? _ := ec2 (RevokeSecurityGroupIngress (Some securityGroupID) changes) in
     Ret (Ok true)
  end.

(** ** Creation *)

(** [retries] attempts may still follow this one. *)
Fixpoint ensureSecurityGroupLoop (c : Cloud) (name description : string)
    (additionalTags : gmap string string) (retries : nat) : prog awsE (result string) :=
  let? securityGroups := ec2 (DescribeSecurityGroups []
    [newEc2Filter "group-name" [name]; newEc2Filter "vpc-id" [c_vpcID c]]) in
  match securityGroups with
  | group :: _ =>
     let? _ := readRepairClusterTags (c_tagging c) (ToString (sg_GroupId group))
       ResourceLifecycleOwned ∅ (sg_Tags group) in
     Ret (Ok (ToString (sg_GroupId group)))
  | [] =>
     let tags := buildTags (c_tagging c) ResourceLifecycleOwned additionalTags in
     let! r := ec2 (CreateSecurityGroup name description (c_vpcID c) (buildAwsTags tags)) in
     match r with
     | Err e =>
        match AsAPIError e, retries with
        | Some "InvalidGroup.Duplicate", S retries =>
           ensureSecurityGroupLoop c name description additionalTags retries
        | _, _ => Ret (Err e)
        end
     | Ok groupID =>
        let groupID := ToString groupID in
        if String.eqb groupID ""
        then Ret (Err (Errorf "created security group, but id was not returned: %s" [name]))
        else Ret (Ok groupID)
     end
  end.

Definition ensureSecurityGroup (c : Cloud) (name description : string)
    (additionalTags : gmap string string) : prog awsE (result string) :=
  ensureSecurityGroupLoop c name description additionalTags (MaxReadThenCreateRetries - 1).

Definition createSecurityGroup (c : Cloud) (sgName sgDescription : string)
    (additionalTags : gmap string string) : prog awsE (result string) :=
  if len sgName =? 0 then
    Ret (Err (Errorf "error creating security group: security group name cannot be empty" []))
  else ensureSecurityGroup c sgName sgDescription additionalTags.

(** The groups of a classic load balancer, and whether the first one is ours. *)
Definition buildELBSecurityGroupList (c : Cloud) (serviceName : NamespacedName)
    (loadBalancerName : string) (annotations : gmap string string) :
    prog awsE (result (list string * bool)) :=
  let sgList := getSGListFromAnnotation
    (mapget annotations ServiceAnnotationLoadBalancerSecurityGroups) in
  let? (sgList, setupSg) :=
    (if length sgList =? 0 then
       if negb (String.eqb (cfg_ElbSecurityGroup (c_cfg c)) "") then
         Ret (Ok (sgList ++ [cfg_ElbSecurityGroup (c_cfg c)], false))
       else
         let sgName := "k8s-elb-" +:+ loadBalancerName in
         let sgDescription := Sprintf "Security group for Kubernetes ELB %s (%v)"
           [loadBalancerName; nn_String serviceName] in
         let? securityGroupID := createSecurityGroup c sgName sgDescription
           (getKeyValuePropertiesFromAnnotation annotations
              ServiceAnnotationLoadBalancerAdditionalTags) in
         Ret (Ok (sgList ++ [securityGroupID], true))
     else Ret (Ok (sgList, false))) in
  let extraSGList := getSGListFromAnnotation
    (mapget annotations ServiceAnnotationLoadBalancerExtraSecurityGroups) in
  Ret (Ok (sgList ++ extraSGList, setupSg)).

(** [rules] is a map: the insertion is visible to the caller, who drops it. *)
Definition createSecurityGroupRules (sgID : string) (rules : IPPermissionSet)
    (ec2SourceRanges : slice IpRange) (ec2Ipv6SourceRanges : slice Ipv6Range) :
    prog awsE (result unit) :=
  if len sgID =? 0 then Ret (Err (Errorf "security group ID cannot be empty" [])) else
  let permission := mkIpPermission (Some 3%Z) (Some "icmp") ec2SourceRanges ec2Ipv6SourceRanges
    None (Some 4%Z) None in
  let rules := Insert rules [permission] in
  let? _ := setSecurityGroupIngress sgID rules
    else wrap "creating ingress rules for security group %q: %w" [sgID] in
  Ret (Ok tt).

(** ** Order of the groups of a load balancer *)
Definition indexes (l : list string) : gmap string nat :=
  foldl (λ m '(i, sgID), <[sgID := i]> m) ∅ (imap pair l).

Definition sgOrder (annotations : gmap string string) (sgID : string) : nat :=
  let annotatedSGIndex := indexes (getSGListFromAnnotation
    (mapget annotations ServiceAnnotationLoadBalancerSecurityGroups)) in
  let annotatedExtraSGIndex := indexes (getSGListFromAnnotation
    (mapget annotations ServiceAnnotationLoadBalancerExtraSecurityGroups)) in
  match annotatedSGIndex !! sgID, annotatedExtraSGIndex !! sgID with
  | Some i, _ => i
  | None, Some j => size annotatedSGIndex + 1 + j
  | None, None => size annotatedSGIndex
  end.

(** The slice is sorted in place: this is its new content. *)
Definition sortELBSecurityGroupList (securityGroupIDs : list string)
    (annotations : gmap string string) (taggedLBSecurityGroups : gset string) : list string :=
  sortSlice (λ x y,
    (sgOrder annotations x <? sgOrder annotations y) ||
    (bool_decide (x ∈ taggedLBSecurityGroups) && negb (bool_decide (y ∈ taggedLBSecurityGroups))))
    securityGroupIDs.

(** ** References to a group *)

(** The rules of a group that reference [sgID], one group pair each. *)
Definition linkedPermissions (sgID : string) (sg : SecurityGroup) : IPPermissionSet :=
  foldl (λ s rule,
    foldl (λ s pair,
      match ug_GroupId pair with
      | Some id =>
         if String.eqb id sgID then
           Insert s [mkIpPermission (FromPort rule) (IpProtocol rule) None None None (ToPort rule)
                       (Some [pair])]
         else s
      | None => s
      end) s (elems (UserIdGroupPairs rule))) (NewIPPermissionSet []) (sg_IpPermissions sg).

(** Both maps of the source are keyed by the address of a group: here by its place
    in the answer. *)
Definition buildSecurityGroupRuleReferences (c : Cloud) (sgID : string) :
    prog awsE (result (gmap nat (SecurityGroup * bool) * gmap nat (SecurityGroup * IPPermissionSet))) :=
  let? sgsOut := ec2 (DescribeSecurityGroups [] [newEc2Filter "ip-permission.group-id" [sgID]])
    else wrap "error querying security groups for ELB: %w" [] in
  Ret (Ok
    (list_to_map (imap (λ i sg, (i, (sg, hasClusterTag (c_tagging c) (sg_Tags sg)))) sgsOut),
     list_to_map (imap (λ i sg, (i, (sg, linkedPermissions sgID sg))) sgsOut))).

Definition revokeSecurityGroupReferences (c : Cloud) (sg : string) : prog awsE (result unit) :=
  let? (groupsWithClusterTag, groupsLinkedPermissions) := buildSecurityGroupRuleReferences c sg
    else wrap "error building security group rule references for %q: %w" [sg] in
  each (λ '(i, (sgTarget, sgPerms)),
    let tagged := match groupsWithClusterTag !! i with Some (_, b) => b | None => false end in
    if negb tagged then Ret (Ok tt) else
    let? _ := ec2 (RevokeSecurityGroupIngress (sg_GroupId sgTarget) (List sgPerms))
      else wrap "error revoking security group ingress rules from %q: %w"
             [ToString (sg_GroupId sgTarget)] in
    Ret (Ok tt)) (range_map groupsLinkedPermissions).

(** ** Deletion *)

(** One poll: the groups that remain, and whether to stop. *)
Fixpoint deletePass (l : list string) (remaining : gset string) :
    prog awsE (result bool * gset string) :=
  match l with
  | [] => Ret (Ok (bool_decide (remaining = ∅)), remaining)
  | securityGroupID :: l =>
     let! r := ec2 (DeleteSecurityGroup securityGroupID) in
     match r with
     | Ok _ => deletePass l (remaining ∖ {[securityGroupID]})
     | Err err =>
        match AsAPIError err with
        | Some "DependencyViolation" => deletePass l remaining
        | _ => Ret (Err (Errorf "error while deleting load balancer security group (%s): %q"
                           [securityGroupID; Error err]), remaining)
        end
     end
  end.

(** [polls] is the number of polls the clock allows after the first one. *)
Definition deleteSecurityGroupsWithBackoff (polls : nat) (svcName : string)
    (securityGroupIDs : gset string) : prog awsE (result unit) :=
  if size securityGroupIDs =? 0 then Ret (Ok tt) else
  let! (r, remaining) := PollUntilContextTimeout polls
    (λ remaining, deletePass (range_set remaining) remaining) securityGroupIDs in
  match r with
  | Ok _ => Ret (Ok tt)
  | Err err =>
     Ret (Err (wrap "could not delete security groups %v for Load Balancer %q: %w"
            [Join (range_set remaining) ","; svcName] err))
  end.

(** The groups of a load balancer to delete with it, and its tagged groups. *)
Definition buildSecurityGroupsToDelete (c : Cloud) (service : Service) (lbSecurityGroups : list string) :
    prog awsE (result (gset string * gset string)) :=
  let? response := ec2 (DescribeSecurityGroups [] [newEc2Filter "group-id" lbSecurityGroups])
    else (λ err, Errorf "error querying security groups for ELB: %q" [Error err]) in
  let annotatedSgSet : gset string := list_to_set
    (getSGListFromAnnotation
       (mapget (svc_Annotations service) ServiceAnnotationLoadBalancerSecurityGroups) ++
     getSGListFromAnnotation
       (mapget (svc_Annotations service) ServiceAnnotationLoadBalancerExtraSecurityGroups)) in
  loop (λ '(securityGroupIDs, taggedLBSecurityGroups) sg,
    let sgID := ToString (sg_GroupId sg) in
    if String.eqb sgID (cfg_ElbSecurityGroup (c_cfg c)) then
      Ret (Ok (securityGroupIDs, taggedLBSecurityGroups))
    else if String.eqb sgID "" then Ret (Ok (securityGroupIDs, taggedLBSecurityGroups))
    else if negb (hasClusterTag (c_tagging c) (sg_Tags sg)) then
      Ret (Ok (securityGroupIDs, taggedLBSecurityGroups))
    else
    let taggedLBSecurityGroups := taggedLBSecurityGroups ∪ {[sgID]} in
    let? sgCreatedInManagedMode :=
      (if isNLB (svc_Annotations service) then isOwnedSecurityGroup c sgID else Ret (Ok true))
      else wrap "unable to validate if security group %q is owned by the controller: %w" [sgID] in
    if negb sgCreatedInManagedMode then Ret (Ok (securityGroupIDs, taggedLBSecurityGroups))
    else if bool_decide (sgID ∈ annotatedSgSet) then
      Ret (Ok (securityGroupIDs, taggedLBSecurityGroups))
    else Ret (Ok (securityGroupIDs ∪ {[sgID]}, taggedLBSecurityGroups)))
    response (∅, ∅).

(** The errors collected so far, and the groups ready for deletion. *)
Definition removeOwnedStep (c : Cloud) (st : list error * gset string) (sg : string) :
    prog awsE (list error * gset string) :=
  let '(allErrs, sgMap) := st in
  let! r := isOwnedSecurityGroup c sg in
  match r with
  | Err err =>
     Ret (allErrs ++ [wrap "unable to validate if security group %q is owned by the controller: %w"
                        [sg] err], sgMap)
  | Ok isOwned =>
     let! r := revokeSecurityGroupReferences c sg in
     match r with
     | Err err => Ret (allErrs ++ [err], sgMap)
     | Ok _ => Ret (allErrs, if isOwned then sgMap ∪ {[sg]} else sgMap)
     end
  end.

(** The last return of the source drops the errors collected before. *)
Definition removeOwnedSecurityGroups (polls : nat) (c : Cloud) (loadBalancerName : string)
    (securityGroups : list string) : prog awsE (list error) :=
  let! (allErrs, sgMap) := loop_all (removeOwnedStep c) securityGroups ([], ∅) in
  if size sgMap =? 0 then Ret allErrs else
  let! r := deleteSecurityGroupsWithBackoff polls loadBalancerName sgMap in
  match r with
  | Err err =>
     Ret (allErrs ++ [Errorf "error deleting security groups %v: %v" [fmtSet sgMap; Error err]])
  | Ok _ => Ret []
  end.

(** ** Rules on the instances of a classic load balancer *)

(** Traffic of every protocol from the load balancer's group. *)
Definition trafficFrom (loadBalancerSecurityGroupID : string) : IpPermission :=
  mkIpPermission None (Some "-1") None None None None
    (Some [mkUserIdGroupPair None (Some loadBalancerSecurityGroupID) None None None None None]).

(** The groups of the instances, all to be opened. *)
Fixpoint instanceGroups (taggedSecurityGroups : gmap string SecurityGroup)
    (l : list Instance_) (ids : gmap string bool) : prog awsE (result (gmap string bool)) :=
  match l with
  | [] => Ret (Ok ids)
  | instance :: l =>
     let! r := no_panic (findSecurityGroupForInstance instance taggedSecurityGroups) in
     match r with
     | Err e => Ret (Err e)
     | Ok None => instanceGroups taggedSecurityGroups l ids
     | Ok (Some securityGroup) =>
        let id := ToString (gi_GroupId securityGroup) in
        if String.eqb id "" then instanceGroups taggedSecurityGroups l ids
        else instanceGroups taggedSecurityGroups l (<[id := true]> ids)
     end
  end.

(** The comparison with the groups that already admit the traffic. *)
Definition planRules (isDeleting : bool) (actualGroups : list (SecurityGroup * bool))
    (ids : gmap string bool) : gmap string bool :=
  foldl (λ ids '(actualGroup, hasClusterTag),
    let actualGroupID := ToString (sg_GroupId actualGroup) in
    if String.eqb actualGroupID "" then ids else
    match ids !! actualGroupID with
    | Some true => delete actualGroupID ids
    | _ => if (hasClusterTag : bool) || isDeleting then <[actualGroupID := false]> ids else ids
    end) ids actualGroups.

(** The groups of the load balancer are sorted in place; no caller reads them after. *)
Definition updateInstanceSecurityGroupsForLoadBalancer (c : Cloud) (lb : LoadBalancerDescription)
    (instances : gmap string Instance_) (annotations : gmap string string) (isDeleting : bool) :
    prog awsE (result unit) :=
  if cfg_DisableSecurityGroupIngress (c_cfg c) then Ret (Ok tt) else
  let lbSecurityGroupIDs := lb_SecurityGroups lb in
  if length lbSecurityGroupIDs =? 0 then
    Ret (Err (Errorf "could not determine security group for load balancer: %s"
                [ToString (lb_LoadBalancerName lb)]))
  else
  let? taggedSecurityGroups := getTaggedSecurityGroups c
    else (λ err, Errorf "error querying for tagged security groups: %q" [Error err]) in
  let taggedLBSecurityGroups : gset string := list_to_set
    (filter (λ sg, is_Some (taggedSecurityGroups !! sg)) lbSecurityGroupIDs) in
  let lbSecurityGroupIDs :=
    sortELBSecurityGroupList lbSecurityGroupIDs annotations taggedLBSecurityGroups in
  let! loadBalancerSecurityGroupID := no_panic (head lbSecurityGroupIDs) in
  let? (actualGroups, _) := buildSecurityGroupRuleReferences c loadBalancerSecurityGroupID
    else wrap "error building security group rule references: %w" [] in
  let? instanceSecurityGroupIds :=
    instanceGroups taggedSecurityGroups (range_map instances).*2 ∅ in
  let plan := planRules isDeleting (range_map actualGroups).*2 instanceSecurityGroupIds in
  each (λ '(instanceSecurityGroupID, add),
    let permissions := [trafficFrom loadBalancerSecurityGroupID] in
    let? _ := (if (add : bool)
      then addSecurityGroupIngress c instanceSecurityGroupID permissions
      else removeSecurityGroupIngress c instanceSecurityGroupID permissions) in
    Ret (Ok tt)) (range_map plan).

End groups.
