(* ===== verification/SecurityGroupFacts.v ===== *)
(** * Correctness of the security-group operations

    Ingress becomes exactly what is desired; deletion is complete and touches only what
    the cluster owns; creation is bounded and tagged; the order of a load balancer's
    groups. *)

From S2P Require Import Prelude GoLib Effects Json AwsApi IPPermissions Tags Config Cloud SecurityGroups.
Import Strings Errors Strconv.

(** ** Which rules a group opens *)

(** Protocol, ports and IPv4 source of a rule. *)
Definition rule4 : Type := option string * option Z * option Z * option string.

Definition opens (l : list IpPermission) (x : rule4) : Prop :=
  ∃ r, grants l x.1.1.1 x.1.1.2 x.1.2 (FromIpRange r) ∧ CidrIp r = x.2.

(** The IPv4 rules of every security group, by its id. *)
Definition ingress : Type := option string → rule4 → Prop.

(** The effect of a successful call: EC2 adds to the group it is given, or removes from it,
    the rules it is given, whatever their descriptions. *)
Definition effect (R : ingress) (ev : event awsE) : ingress :=
  if is_ok (ev_answer ev) then
    match ev_call ev with
    | EC2 (AuthorizeSecurityGroupIngress g l) => λ g' x, R g' x ∨ g' = g ∧ opens l x
    | EC2 (RevokeSecurityGroupIngress g l) => λ g' x, R g' x ∧ ¬ (g' = g ∧ opens l x)
    | _ => R
    end
  else R.
Definition replay (R : ingress) (tr : list (event awsE)) : ingress := foldl effect R tr.

(** The groups a [DescribeSecurityGroups] answered with. *)
Definition answered_groups (ev : event awsE) : option (list SecurityGroup) :=
  match ev with
  | Ev c r =>
     match c in awsE R return result R → option (list SecurityGroup) with
     | EC2 c =>
        match c in ec2E R return result R → option (list SecurityGroup) with
        | DescribeSecurityGroups _ _ => λ r, match r with Ok l => Some l | Err _ => None end
        | _ => λ _, None
        end
     | _ => λ _, None
     end r
  end.

(** A rule with IPv4 sources has no group sources. *)
Definition unmixed (p : IpPermission) : Prop :=
  elems (IpRanges p) = [] ∨ elems (UserIdGroupPairs p) = [].

Lemma opens_elem l x :
  opens l x ↔ ∃ p r, p ∈ l ∧ IpProtocol p = x.1.1.1 ∧ FromPort p = x.1.1.2 ∧ ToPort p = x.1.2 ∧
    r ∈ elems (IpRanges p) ∧ CidrIp r = x.2.
Proof.
  unfold opens, grants. setoid_rewrite elem_of_sources. naive_solver.
Qed.

Lemma opens_dec l x : opens l x ∨ ¬ opens l x.
Proof.
  assert (Decision (Exists (λ p, (IpProtocol p = x.1.1.1 ∧ FromPort p = x.1.1.2 ∧ ToPort p = x.1.2) ∧
    Exists (λ r, CidrIp r = x.2) (elems (IpRanges p))) l)) as [H|H] by apply _; [left|right].
  - rewrite opens_elem. apply Exists_exists in H as (p & Hp & Hf & (r & Hr & E)%Exists_exists).
    naive_solver.
  - rewrite opens_elem. intros (p & r & Hp & Hf). apply H. apply Exists_exists.
    exists p. rewrite Exists_exists. naive_solver.
Qed.

Section set_ingress.
Context {GR : GoRange} {GS : GoSort}.

Lemma opens_Ungroup s x : wf s → opens (List (Ungroup s)) x ↔ opens (List s) x.
Proof. intros Hs. unfold opens. by setoid_rewrite Ungroup_grants. Qed.

(** A passing rule of [a] that is not of [b] is in the difference, and nothing of the
    difference is opened by [b], when [a] has no mixed rule. *)
Lemma opens_Difference a b d x :
  wf a → wf b → (∀ p, mem p a ∨ mem p b → group_ids p) →
  (∀ p, mem p a ∨ mem p b → atomic p) → (∀ p, mem p a → unmixed p) →
  Difference a b = Some d →
  opens (List d) x ↔ opens (List a) x ∧ ¬ opens (List b) x.
Proof.
  intros Ha Hb Hg Hat Hu Hd. destruct (Difference_spec a b Ha Hb Hg) as (d' & Hd' & Hwd & Hmem).
  assert (d' = d) as -> by congruence. destruct Ha as [Hka Haa], Hb as [Hkb Hab], Hwd as [Hkd Had].
  rewrite !opens_elem. setoid_rewrite elem_of_List; [|done..]. split.
  - intros (p & r & Hp & E1 & E2 & E3 & Hr & E4).
    destruct (proj1 (Hmem p (Had _ _ Hp)) Hp) as [Hpa Hn]. split; [by exists p, r; eauto|].
    intros (e & q & He & F1 & F2 & F3 & Hq & F4). apply Hn. exists e. split; [done|].
    destruct (Hu p Hpa) as [Hp0|Hp0]; [rewrite Hp0 in Hr; set_solver|].
    assert (length (elems (IpRanges p)) = 1) as L1.
    { pose proof (atomic_v4 _ (Hat p (or_introl Hpa))). destruct (elems (IpRanges p)); simpl in *; [set_solver|lia]. }
    assert (length (elems (IpRanges e)) = 1) as L2.
    { pose proof (atomic_v4 _ (Hat e (or_intror He))). destruct (elems (IpRanges e)); simpl in *; [set_solver|lia]. }
    split; [congruence..|lia| |rewrite Hp0; set_solver].
    destruct (elems (IpRanges p)) as [|r1 [|]]; simplify_eq/=.
    intros r' Hr'. exists q. split; [done|]. set_solver by congruence.
  - intros [(p & r & Hp & E1 & E2 & E3 & Hr & E4) Hn]. exists p, r. split; [|done].
    apply Hmem; [by eapply Haa|]. split; [done|]. intros (e & He & Hc). apply Hn.
    destruct (cov_v4 _ _ _ Hc r Hr) as (q & Hq & E). exists e, q.
    destruct Hc. split_and!; congruence.
Qed.

(** What the rules of a group must satisfy for the comparison to be exact. *)
Record plain_rules (l : list IpPermission) : Prop := {
  plain_ascii : Forall ascii_perm l;
  plain_ids : Forall group_ids l;
  plain_unmixed : Forall unmixed l
}.

(** Ungrouping keeps group ids and unmixed rules. *)
Lemma ungroupBy_keeps {A} (get : IpPermission → list A) set (P : IpPermission → Prop) l :
  (∀ p a, P p → a ∈ get p → P (set p a)) → Forall P l → Forall P (ungroupBy get set l).
Proof.
  intros Hset Hl. unfold ungroupBy. rewrite Forall_forall in *.
  intros q (p & Hq & Hp)%list_elem_of_bind. destruct (_ <=? _).
  - apply list_elem_of_singleton in Hq as ->. auto.
  - apply list_elem_of_fmap in Hq as (a & -> & Ha). auto.
Qed.

Lemma ungroupList_ids l : Forall group_ids l → Forall group_ids (ungroupList l).
Proof.
  intros Hl. unfold ungroupList. repeat apply ungroupBy_keeps; [| | |done];
    unfold group_ids; simpl; set_solver.
Qed.

Lemma ungroupList_unmixed l : Forall unmixed l → Forall unmixed (ungroupList l).
Proof.
  intros Hl. unfold ungroupList. repeat apply ungroupBy_keeps; [| | |done];
    intros p a [H|H] Ha; unfold unmixed; simpl; rewrite ?H in *; auto; set_solver.
Qed.

Lemma mem_Ungroup s p : wf s → mem p (Ungroup s) ↔ p ∈ ungroupList (List s).
Proof. intros Hs. rewrite <-Ungroup_elem by done. rewrite elem_of_List; [done|by apply wf_Ungroup]. Qed.

Lemma Ungroup_keeps (P : IpPermission → Prop) s p :
  wf s → (Forall P (List s) → Forall P (ungroupList (List s))) →
  (∀ q, mem q s → P q) → mem p (Ungroup s) → P p.
Proof.
  intros Hs HP H Hp%mem_Ungroup; [|done]. rewrite !Forall_forall in HP. apply HP; [|done].
  intros q Hq. apply H. by apply elem_of_List; [apply Hs|].
Qed.

Lemma opens_New l x : Forall ascii_perm l → opens (List (NewIPPermissionSet l)) x ↔ opens l x.
Proof.
  intros Hl. pose proof (wf_New l Hl) as Hw. rewrite !opens_elem.
  assert (∀ p, p ∈ List (NewIPPermissionSet l) ↔ p ∈ l) as E; [|by setoid_rewrite E].
  intros p. rewrite elem_of_List by apply Hw. split; [apply New_origin|].
  intros Hp. apply mem_Insert; [|done|by left]. by apply (proj1 (Forall_forall _ _) Hl).
Qed.

Lemma Len_zero_opens d x : Len d = 0 → ¬ opens (List d) x.
Proof.
  intros H%map_size_empty_iff. subst. rewrite opens_elem. unfold List. rewrite range_map_empty.
  set_solver.
Qed.

(** Both differences of [setSecurityGroupIngress]. *)
Lemma ingress_differences s l :
  wf s → (∀ p, mem p s → group_ids p) → (∀ p, mem p s → unmixed p) → plain_rules l →
  ∃ remove add, Difference (Ungroup (NewIPPermissionSet l)) (Ungroup s) = Some remove ∧
    Difference (Ungroup s) (Ungroup (NewIPPermissionSet l)) = Some add ∧
    (∀ x, opens (List remove) x ↔ opens l x ∧ ¬ opens (List s) x) ∧
    (∀ x, opens (List add) x ↔ opens (List s) x ∧ ¬ opens l x).
Proof.
  intros Hs Hg Hu [Hl Hlg Hlu]. set (n := NewIPPermissionSet l).
  assert (wf n) as Hn by by apply wf_New.
  assert (∀ p, mem p (Ungroup n) ∨ mem p (Ungroup s) → group_ids p) as Hids.
  { intros p [Hp|Hp].
    - eapply (Ungroup_keeps group_ids n); eauto using ungroupList_ids.
      intros q Hq%New_origin. by apply (proj1 (Forall_forall _ _) Hlg).
    - eapply (Ungroup_keeps group_ids s); eauto using ungroupList_ids. }
  assert (∀ p, mem p (Ungroup n) → unmixed p) as Hnu.
  { intros p Hp. eapply (Ungroup_keeps unmixed n); eauto using ungroupList_unmixed.
    intros q Hq%New_origin. by apply (proj1 (Forall_forall _ _) Hlu). }
  assert (∀ p, mem p (Ungroup s) → unmixed p) as Hsu.
  { intros p Hp. eapply (Ungroup_keeps unmixed s); eauto using ungroupList_unmixed. }
  assert (∀ p, mem p (Ungroup n) ∨ mem p (Ungroup s) → atomic p) as Hat.
  { intros p [Hp|Hp]; apply mem_Ungroup in Hp; try done;
      eapply Forall_forall in Hp; eauto using ungroupList_atomic. }
  pose proof (wf_Ungroup n Hn) as Hwn. pose proof (wf_Ungroup s Hs) as Hws.
  destruct (Difference_spec (Ungroup n) (Ungroup s)) as (remove & Hr & _); [done..|].
  destruct (Difference_spec (Ungroup s) (Ungroup n)) as (add & Had & _); [done..|naive_solver|].
  exists remove, add. split_and!; [done..| |]; intros x.
  - rewrite (opens_Difference _ _ _ _ Hwn Hws) by (eauto; naive_solver).
    rewrite !opens_Ungroup by done. unfold n. by rewrite opens_New.
  - rewrite (opens_Difference _ _ _ _ Hws Hwn) by (eauto; naive_solver).
    rewrite !opens_Ungroup by done. unfold n. by rewrite opens_New.
Qed.

(** How the rules [R] of the account stand after the calls [changes] that were to bring
    those of the group [id] from [now] to [s]. *)
Definition ingress_settled (id : string) (s : IPPermissionSet) (now : list IpPermission)
    (changes : list (event awsE)) (o : outcome (result bool)) (R : ingress) : Prop :=
  (∀ x, opens now x ∧ opens (List s) x → replay R changes (Some id) x) ∧
  (∀ x, replay R changes (Some id) x → opens now x ∨ opens (List s) x) ∧
  match o with
  | Panicked _ => False
  | Done (Err _) => True
  | Done (Ok changed) =>
     (∀ x, replay R changes (Some id) x ↔ opens (List s) x) ∧ (changed = false → changes = [])
  end.

(** EC2 is asked for the group [id] alone; the calls that follow change no other group, and
    they are made only when there is exactly one such group. *)
Definition exact_ingress (id : string) (s : IPPermissionSet) (tr : list (event awsE))
    (o : outcome (result bool)) : Prop :=
  ∃ r changes, tr = Ev (EC2 (DescribeSecurityGroups [id] [])) r :: changes ∧
    (∀ R g x, g ≠ Some id → replay R changes g x ↔ R g x) ∧
    match r with
    | Ok [group] => plain_rules (sg_IpPermissions group) →
       ∀ R, (∀ x, R (Some id) x ↔ opens (sg_IpPermissions group) x) →
         ingress_settled id s (sg_IpPermissions group) changes o R
    | _ => changes = [] ∧ ∃ e, o = Done (Err e)
    end.

(** C8: [setSecurityGroupIngress] makes the IPv4 ingress of the group it is given exactly
    the specified permissions, and changes no other group: when it succeeds on a group whose
    rules do not mix IPv4 and group sources, the calls it made turn the rules of that group
    into the desired ones, and it reports no change only when it made no call.  When it
    fails half-way, no rule that was open and is desired has been closed and none beyond
    those is open.  It never panics there. *)
Theorem setSecurityGroupIngress_exact id s :
  wf s → (∀ p, mem p s → group_ids p) → (∀ p, mem p s → unmixed p) →
  wp (setSecurityGroupIngress id s) (exact_ingress id s) [].
Proof.
  intros Hs Hg Hu. unfold setSecurityGroupIngress, findSecurityGroup. simpl. intros r.
  assert (∀ changes o,
    (∀ R g x, g ≠ Some id → replay R changes g x ↔ R g x) →
    match r with
    | Ok [group] => plain_rules (sg_IpPermissions group) →
       ∀ R, (∀ x, R (Some id) x ↔ opens (sg_IpPermissions group) x) →
         ingress_settled id s (sg_IpPermissions group) changes o R
    | _ => changes = [] ∧ ∃ e, o = Done (Err e)
    end → exact_ingress id s (Ev (EC2 (DescribeSecurityGroups [id] [])) r :: changes) o) as Hend
    by (intros changes o; by exists r, changes).
  destruct r as [[|group [|]]|e]; simpl; try (apply Hend; [done|by eauto]).
  destruct (Difference (Ungroup (NewIPPermissionSet (sg_IpPermissions group))) _) as [remove|] eqn:Er; simpl.
  2:{ apply Hend; [done|]. intros Hp. destruct (ingress_differences s _ Hs Hg Hu Hp) as (?&?&?&?). congruence. }
  destruct (Difference (Ungroup s) _) as [add|] eqn:Ea; simpl.
  2:{ apply Hend; [done|]. intros Hp. destruct (ingress_differences s _ Hs Hg Hu Hp) as (?&?&?&?&?). congruence. }
  assert (plain_rules (sg_IpPermissions group) →
    (∀ x, opens (List remove) x ↔ opens (sg_IpPermissions group) x ∧ ¬ opens (List s) x) ∧
    (∀ x, opens (List add) x ↔ opens (List s) x ∧ ¬ opens (sg_IpPermissions group) x)) as Hdiff.
  { intros Hp. destruct (ingress_differences s _ Hs Hg Hu Hp) as (?&?&?&?&?&?). by simplify_eq. }
  pose proof (Len_zero_opens add) as Za. pose proof (Len_zero_opens remove) as Zr.
  pose proof (opens_dec (sg_IpPermissions group)) as Hnow. pose proof (opens_dec (List s)) as Hwant.
  assert (∀ changes o, (plain_rules (sg_IpPermissions group) → ∀ R, (∀ x, R (Some id) x ↔ opens (sg_IpPermissions group) x) →
    ingress_settled id s (sg_IpPermissions group) changes o R) →
    (∀ R g x, g ≠ Some id → replay R changes g x ↔ R g x) →
    exact_ingress id s (Ev (EC2 (DescribeSecurityGroups [id] [])) (Ok [group]) :: changes) o) as Hend'
    by (intros changes o H1 H2; by apply Hend).
  clear Hend Er Ea Hs Hg Hu.
  destruct (Nat.eqb_spec (Len add) 0) as [Ha|Ha], (Nat.eqb_spec (Len remove) 0) as [Hr|Hr]; simpl.
  2-4: intros [[]|e]; simpl.
  6: intros [[]|e']; simpl.
  all: (apply Hend'; [|intros R g x Hg; unfold replay, effect; simpl; naive_solver]).
  all: intros Hp R HR; destruct (Hdiff Hp) as [H1 H2].
  all: split_and!; try done; try (intros x; specialize (HR x); specialize (H1 x); specialize (H2 x);
    specialize (Hnow x); specialize (Hwant x); try specialize (Za x Ha); try specialize (Zr x Hr);
    unfold replay, effect; simpl; naive_solver).
Qed.

End set_ingress.

(** ** Deletion until the deadline *)

(** The group a call tries to delete, and the groups a trace has deleted. *)
Definition delete_target (ev : event awsE) : option string :=
  match ev_call ev with
  | EC2 (DeleteSecurityGroup g) => Some g
  | _ => None
  end.
Definition deleted (tr : list (event awsE)) : list string :=
  omap (λ ev, if is_ok (ev_answer ev) then delete_target ev else None) tr.

Lemma deleted_app t u : deleted (t ++ u) = deleted t ++ deleted u.
Proof. apply omap_app. Qed.

Section deletion.
Context {GR : GoRange} {GS : GoSort}.

(** Of the groups [ids], those in [remaining] are still to be deleted. *)
Record deleting (ids remaining : gset string) (t : list (event awsE)) : Prop := {
  del_split : ∀ g, g ∈ ids ↔ g ∈ remaining ∨ g ∈ deleted t;
  del_disjoint : ∀ g, g ∈ remaining → g ∉ deleted t;
  del_once : NoDup (deleted t);
  del_only : Forall (λ ev, ∃ g, g ∈ ids ∧ delete_target ev = Some g) t
}.

Lemma deleting_fail ids remaining t g r :
  deleting ids remaining t → g ∈ ids → is_ok r = false →
  deleting ids remaining (t ++ [Ev (EC2 (DeleteSecurityGroup g)) r]).
Proof.
  intros [H1 H2 H3 H4] Hg Hr.
  assert (deleted (t ++ [Ev (EC2 (DeleteSecurityGroup g)) r]) = deleted t) as E.
  { rewrite deleted_app. simpl. rewrite Hr. simpl. by rewrite app_nil_r. }
  split; rewrite ?E; [done..|]. apply Forall_app. split; [done|]. apply Forall_singleton. eauto.
Qed.

Lemma deleting_ok ids remaining t g :
  deleting ids remaining t → g ∈ remaining →
  deleting ids (remaining ∖ {[g]}) (t ++ [Ev (EC2 (DeleteSecurityGroup g)) (Ok tt)]).
Proof.
  intros [H1 H2 H3 H4] Hg. split; rewrite ?deleted_app; simpl.
  - intros h. rewrite H1, elem_of_difference, elem_of_singleton, elem_of_app, list_elem_of_singleton.
    destruct (decide (h = g)); naive_solver.
  - intros h. rewrite elem_of_difference, elem_of_app, list_elem_of_singleton, elem_of_singleton.
    naive_solver.
  - apply NoDup_app. split_and!; [done| |apply NoDup_singleton]. set_solver.
  - apply Forall_app. split; [done|]. apply Forall_singleton. exists g. rewrite H1. auto.
Qed.

Lemma wp_deletePass ids l remaining t :
  NoDup l → (∀ g, g ∈ l → g ∈ remaining) → deleting ids remaining t →
  wp (deletePass l remaining) (λ t' o, ∃ r remaining', o = Done (r, remaining') ∧
    deleting ids remaining' t' ∧ (r = Ok true ↔ remaining' = ∅)) t.
Proof.
  revert remaining t. induction l as [|g l IH]; intros remaining t Hnd Hl Hd; simpl.
  { eexists _, _. split; [done|]. split; [done|]. destruct (bool_decide_reflect (remaining = ∅)); naive_solver. }
  apply NoDup_cons in Hnd as [Hnin Hnd]. assert (g ∈ remaining) as Hg by set_solver.
  assert (g ∈ ids) as Hgi by (apply (del_split _ _ _ Hd); auto).
  intros [[]|e]; simpl.
  - apply IH; [done|set_solver|by apply deleting_ok].
  - assert (∀ e', wp (Ret (Err e', remaining)) (λ t' o, ∃ r remaining', o = Done (r, remaining') ∧
      deleting ids remaining' t' ∧ (r = Ok true ↔ remaining' = ∅))
      (t ++ [Ev (EC2 (DeleteSecurityGroup g)) (Err e)])) as Hstop.
    { intros e'. simpl. eexists _, _. split; [done|]. split; [by apply deleting_fail|]. set_solver. }
    destruct (AsAPIError e) as [code|]; [|done].
    repeat (match goal with |- context [match ?x with _ => _ end] => destruct x end; try apply Hstop).
    apply IH; [done|set_solver|by apply deleting_fail].
Qed.

Lemma wp_deletePolls n ids remaining t :
  deleting ids remaining t →
  wp (PollUntilContextTimeout n (λ remaining, deletePass (range_set remaining) remaining) remaining)
    (λ t' o, ∃ r remaining', o = Done (r, remaining') ∧
       deleting ids remaining' t' ∧ (r = Ok tt ↔ remaining' = ∅)) t.
Proof.
  revert remaining t. induction n as [|n IH]; intros remaining t Hd.
  all: pose proof (wp_deletePass ids (range_set remaining) remaining t (NoDup_range_set _)
    (λ g, proj1 (elem_of_range_set remaining g)) Hd) as Hp.
  all: cbn [PollUntilContextTimeout]; rewrite wp_bind; eapply wp_mono; [exact Hp|].
  all: intros t' o (r & rem & -> & Hd' & Hr); simpl; destruct r as [[]|e]; simpl.
  all: try (eexists _, _; split; [done|]; split; [done|]; naive_solver).
  by apply IH.
Qed.

Lemma wp_deleteSecurityGroups polls name ids :
  wp (deleteSecurityGroupsWithBackoff polls name ids) (λ tr o, ∃ r, o = Done r ∧
    Forall (λ ev, ∃ g, g ∈ ids ∧ delete_target ev = Some g) tr ∧
    NoDup (deleted tr) ∧
    (r = Ok tt ↔ ∀ g, g ∈ ids → g ∈ deleted tr)) [].
Proof.
  assert (deleting ids ids []) as H0.
  { split; [set_solver|set_solver|apply NoDup_nil_2|done]. }
  unfold deleteSecurityGroupsWithBackoff. destruct (Nat.eqb_spec (size ids) 0) as [Hz|_].
  { simpl. exists (Ok tt). split_and!; [done|done|apply NoDup_nil_2|].
    apply size_empty_iff in Hz. set_solver. }
  rewrite wp_bind. eapply wp_mono; [by apply wp_deletePolls|].
  intros t' o (r & rem & -> & [H1 H2 H3 H4] & Hr). simpl.
  assert (rem = ∅ ↔ ∀ g, g ∈ ids → g ∈ deleted t') as E.
  { split; [intros -> g; rewrite H1; set_solver|]. intros H. apply elem_of_equiv_empty_L.
    intros g Hg. eapply H2; [done|]. apply H, H1. by left. }
  destruct r as [[]|e]; simpl; eexists; (split_and!; [done..|]); rewrite <-E; naive_solver.
Qed.

(** C28: [deleteSecurityGroupsWithBackoff] deletes no group but those it is given,
    each at most once, and whatever EC2 answers and however many polls the clock
    allows it returns nil exactly when every one of them has been deleted. *)
Theorem deleteSecurityGroupsWithBackoff_correct polls name ids :
  wp (deleteSecurityGroupsWithBackoff polls name ids) (λ tr o, ∃ r, o = Done r ∧
    Forall (λ ev, ∃ g, g ∈ ids ∧ delete_target ev = Some g) tr ∧
    NoDup (deleted tr) ∧
    (r = Ok tt ↔ ∀ g, g ∈ ids → g ∈ deleted tr)) [].
Proof. apply wp_deleteSecurityGroups. Qed.

End deletion.

(** ** Order of the groups *)
Section order.
Context {GS : GoSort}.
Implicit Types tagged : gset string.

(** [sortELBSecurityGroupList] permutes the groups of the load balancer; when no
    tagged group is placed by the annotations after an untagged one, every group comes after
    the groups the annotations place before it. *)
Theorem sortELBSecurityGroupList_sorted l annotations tagged :
  sortELBSecurityGroupList l annotations tagged ≡ₚ l ∧
  ((∀ x y, x ∈ l → y ∈ l → sgOrder annotations x < sgOrder annotations y → y ∈ tagged → x ∈ tagged) →
   StronglySorted (λ x y, sgOrder annotations x ≤ sgOrder annotations y)
     (sortELBSecurityGroupList l annotations tagged)).
Proof.
  unfold sortELBSecurityGroupList. split; [apply sortSlice_perm|]. intros Htag.
  eapply StronglySorted_weaken; [|apply sortSlice_sorted].
  - simpl. intros x y [H%Nat.ltb_ge _]%orb_false_iff. exact H.
  - intros x y Hx Hy. pose proof (Htag x y Hx Hy) as H1. pose proof (Htag y x Hy Hx) as H2.
    rewrite orb_true_iff, orb_false_iff, andb_true_iff, andb_false_iff, Nat.ltb_lt, Nat.ltb_ge.
    destruct (bool_decide_reflect (x ∈ tagged)), (bool_decide_reflect (y ∈ tagged)); simpl;
      intros [?|[? ?]]; split; auto; try done; try lia;
      destruct (decide (sgOrder annotations y < sgOrder annotations x)); try lia; exfalso; auto.
  - intros x y z _ _ _. rewrite !orb_false_iff, !Nat.ltb_ge.
    destruct (bool_decide (x ∈ tagged)), (bool_decide (y ∈ tagged)), (bool_decide (z ∈ tagged)); simpl;
      intros [? ?] [? ?]; split; try done; lia.
Qed.

(** The comparison is not an order: a tagged group that the annotations place last
    swaps places with an untagged one placed first, whichever way round they come. *)
Lemma sortELBSecurityGroupList_swaps x y annotations tagged :
  sgOrder annotations x < sgOrder annotations y → x ∉ tagged → y ∈ tagged →
  sortELBSecurityGroupList [x; y] annotations tagged = [y; x] ∧
  sortELBSecurityGroupList [y; x] annotations tagged = [x; y].
Proof.
  intros Hlt Hx Hy. unfold sortELBSecurityGroupList, sortSlice, insertionSort. simpl.
  rewrite (proj2 (Nat.ltb_lt _ _) Hlt), !bool_decide_eq_true_2, !bool_decide_eq_false_2 by done.
  rewrite orb_true_r. done.
Qed.
End order.

(** ** Which groups may be changed *)

(** The call reads, or changes the rules of a group other than that of the configuration. *)
Definition spares_global (c : Cloud) (ev : event awsE) : Prop :=
  match ev_call ev with
  | EC2 (AuthorizeSecurityGroupIngress id _) | EC2 (RevokeSecurityGroupIngress id _) =>
      id ≠ Some (cfg_ElbSecurityGroup (c_cfg c))
  | call => readonly call = true
  end.

(** The ids a [DescribeSecurityGroups] asked for. *)
Definition asked_ids (ev : event awsE) : list string :=
  match ev_call ev with
  | EC2 (DescribeSecurityGroups ids _) => ids
  | _ => []
  end.

(** Somewhere in the trace EC2 was asked for [g] alone and answered with a single group
    that carries the ownership tag of the cluster. *)
Definition owned_in (c : Cloud) (tr : list (event awsE)) (g : string) : Prop :=
  ∃ ev sg, ev ∈ tr ∧ asked_ids ev = [g] ∧ answered_groups ev = Some [sg] ∧
    hasClusterTagOwned (c_tagging c) (sg_Tags sg) = Ok true.

Lemma owned_in_app c t u g : owned_in c t g → owned_in c (t ++ u) g.
Proof. intros (ev & sg & Hin & H). exists ev, sg. split; [set_solver|done]. Qed.

Section safety.
Context {GR : GoRange} {GS : GoSort}.

Lemma findSecurityGroup_calls P id :
  (∀ ids fs r, P (Ev (EC2 (DescribeSecurityGroups ids fs)) r)) → all_calls P (findSecurityGroup id).
Proof. intros. unfold findSecurityGroup. calls; auto. Qed.

Lemma addSecurityGroupIngress_calls c id l :
  all_calls (spares_global c) (addSecurityGroupIngress c id l).
Proof.
  unfold addSecurityGroupIngress. destruct (String.eqb_spec id (cfg_ElbSecurityGroup (c_cfg c))); [done|].
  calls; [by apply findSecurityGroup_calls|]. unfold spares_global; simpl; congruence.
Qed.

Lemma removeSecurityGroupIngress_calls c id l :
  all_calls (spares_global c) (removeSecurityGroupIngress c id l).
Proof.
  unfold removeSecurityGroupIngress. destruct (String.eqb_spec id (cfg_ElbSecurityGroup (c_cfg c))); [done|].
  calls; [by apply findSecurityGroup_calls|]. unfold spares_global; simpl; congruence.
Qed.

Lemma instanceGroups_calls P tagged l ids : all_calls P (instanceGroups tagged l ids).
Proof. revert ids. induction l as [|i l IH]; intros ids; cbn [instanceGroups]; calls; apply IH. Qed.

Lemma updateInstanceSecurityGroups_calls c lb instances annotations deleting_ :
  all_calls (spares_global c)
    (updateInstanceSecurityGroupsForLoadBalancer c lb instances annotations deleting_).
Proof.
  unfold updateInstanceSecurityGroupsForLoadBalancer, getTaggedSecurityGroups,
    buildSecurityGroupRuleReferences.
  calls; auto using instanceGroups_calls, addSecurityGroupIngress_calls, removeSecurityGroupIngress_calls.
  all: done.
Qed.

(** Opening and closing the instances for a classic load balancer reads and changes the
    rules of security groups, nothing else, and never touches the rules of the group set in
    the cloud configuration, whatever EC2 answers. *)
Theorem updateInstanceSecurityGroups_spares_global c lb instances annotations deleting_ :
  wp (updateInstanceSecurityGroupsForLoadBalancer c lb instances annotations deleting_)
    (λ tr _, Forall (spares_global c) tr) [].
Proof.
  eapply wp_mono; [apply all_calls_wp, updateInstanceSecurityGroups_calls|].
  by intros t' o (u & -> & H).
Qed.

(** Ownership is asked of EC2, and only read. *)
Lemma wp_isOwnedSecurityGroup c g t Q :
  (∀ r ev, asked_ids ev = [g] → readonly (ev_call ev) = true →
     (r = Ok true → owned_in c (t ++ [ev]) g) → Q (t ++ [ev]) (Done r)) →
  wp (isOwnedSecurityGroup c g) Q t.
Proof.
  intros H. unfold isOwnedSecurityGroup. simpl.
  intros [[|sg [|]]|e]; simpl; apply H; try done. intros Hr.
  eexists _, sg. split; [apply elem_of_app; right; by apply list_elem_of_singleton|done].
Qed.

(** What entitles the provider to delete the group [g] of a service's load balancer. *)
Record deletable (c : Cloud) (service : Service) (tr : list (event awsE)) (g : string) : Prop := {
  dl_nonempty : g ≠ "";
  dl_not_global : g ≠ cfg_ElbSecurityGroup (c_cfg c);
  dl_not_annotated :
    g ∉ getSGListFromAnnotation
          (mapget (svc_Annotations service) ServiceAnnotationLoadBalancerSecurityGroups) ∧
    g ∉ getSGListFromAnnotation
          (mapget (svc_Annotations service) ServiceAnnotationLoadBalancerExtraSecurityGroups);
  dl_tagged : ∃ ev groups sg, ev ∈ tr ∧ answered_groups ev = Some groups ∧ sg ∈ groups ∧
    ToString (sg_GroupId sg) = g ∧ hasClusterTag (c_tagging c) (sg_Tags sg) = true;
  dl_owned : isNLB (svc_Annotations service) = true → owned_in c tr g
}.

Lemma deletable_app c s t u g : deletable c s t g → deletable c s (t ++ u) g.
Proof.
  intros [? ? ? (ev & gs & sg & Hin & H) Ho]. split; try done.
  - exists ev, gs, sg. split; [set_solver|done].
  - intros Hn. by apply owned_in_app, Ho.
Qed.

Definition only_reads (tr : list (event awsE)) : Prop :=
  Forall (λ ev, readonly (ev_call ev) = true) tr.

Lemma only_reads_snoc t ev : only_reads t → readonly (ev_call ev) = true → only_reads (t ++ [ev]).
Proof. intros. apply Forall_app. split; [done|]. by apply Forall_singleton. Qed.

Lemma wp_buildSecurityGroupsToDelete c service sgs t :
  only_reads t →
  wp (buildSecurityGroupsToDelete c service sgs) (λ tr o, only_reads tr ∧
    match o with
    | Done (Ok (ids, _)) => ∀ g, g ∈ ids → deletable c service tr g
    | Done (Err _) => True
    | Panicked _ => False
    end) t.
Proof.
  intros Ht. unfold buildSecurityGroupsToDelete. simpl. intros [response|e]; simpl;
    [|split; [by apply only_reads_snoc|done]].
  set (t1 := t ++ _). assert (only_reads t1) as Ht1 by by apply only_reads_snoc.
  assert (∃ ev, ev ∈ t1 ∧ answered_groups ev = Some response) as (ev0 & Hev0 & Hans).
  { eexists. split; [apply elem_of_app; right; by apply list_elem_of_singleton|done]. }
  clearbody t1. clear Ht.
  apply (wp_loop _ _ _ (λ '(ids, _) t', only_reads t' ∧ ev0 ∈ t' ∧
    ∀ g, g ∈ ids → deletable c service t' g)); [set_solver| |].
  2:{ intros [ids tg] t' (? & _ & ?). auto. }
  intros sg [ids tg] t' Hsg (Hr & Hin & Hids).
  set (g := ToString (sg_GroupId sg)).
  destruct (String.eqb_spec g (cfg_ElbSecurityGroup (c_cfg c))); [by simpl|].
  destruct (String.eqb_spec g ""); [by simpl|].
  destruct (hasClusterTag (c_tagging c) (sg_Tags sg)) eqn:Htag; simpl; [|done].
  rewrite wp_try_with.
  assert (∀ t'' (owned : bool), (∃ u, t'' = t' ++ u) → only_reads t'' →
    (owned = true → isNLB (svc_Annotations service) = true → owned_in c t'' g) →
    wp (if negb owned then Ret (Ok (ids, tg ∪ {[g]}))
        else if bool_decide (g ∈ (list_to_set (getSGListFromAnnotation
          (mapget (svc_Annotations service) ServiceAnnotationLoadBalancerSecurityGroups) ++
          getSGListFromAnnotation (mapget (svc_Annotations service)
            ServiceAnnotationLoadBalancerExtraSecurityGroups)) : gset string))
        then Ret (Ok (ids, tg ∪ {[g]})) else Ret (Ok (ids ∪ {[g]}, tg ∪ {[g]})))
      (λ t0 o, match o with
        | Done (Ok s') => let '(ids0, _) := s' in only_reads t0 ∧ ev0 ∈ t0 ∧
            (∀ g, g ∈ ids0 → deletable c service t0 g)
        | Done (Err e) => only_reads t0 ∧ True
        | Panicked w => only_reads t0 ∧ False
        end) t'') as Hend.
  { intros t'' owned [u ->] Hr'' Hown.
    assert (∀ h, h ∈ ids → deletable c service (t' ++ u) h) as Hids'.
    { intros h Hh. by apply deletable_app, Hids. }
    destruct owned; simpl; [|split_and!; [done|set_solver|done]].
    case_bool_decide as Hann; simpl; (split_and!; [done|set_solver|]); [done|].
    intros h [Hh|Hh]%elem_of_union; [auto|]. apply elem_of_singleton in Hh as ->.
    rewrite elem_of_list_to_set, elem_of_app in Hann.
    split; [done|done|tauto| |auto].
    exists ev0, response, sg. split_and!; try done. set_solver. }
  destruct (isNLB (svc_Annotations service)) eqn:Hnlb; simpl.
  - apply wp_isOwnedSecurityGroup. intros r ev Hask Hro Hown.
    destruct r as [owned|e]; [|split; [by apply only_reads_snoc|done]].
    eapply wp_mono; [apply (Hend _ owned); [by eexists|by apply only_reads_snoc|]|].
    + intros ->. auto.
    + by intros ? [[[]|]|].
  - eapply wp_mono; [apply (Hend _ true); [exists []; by rewrite app_nil_r|done|done]|].
    by intros ? [[[]|]|].
Qed.

(** The security groups chosen for deletion with a load balancer are never the
    group of the cloud configuration nor a group named in the service's annotations;
    each carries the cluster tag, and for an NLB the ownership tag; choosing them
    changes nothing. *)
Theorem buildSecurityGroupsToDelete_safe c service sgs :
  wp (buildSecurityGroupsToDelete c service sgs) (λ tr o, only_reads tr ∧
    match o with
    | Done (Ok (ids, _)) => ∀ g, g ∈ ids → deletable c service tr g
    | Done (Err _) => True
    | Panicked _ => False
    end) [].
Proof. apply wp_buildSecurityGroupsToDelete. by constructor. Qed.

End safety.

(** ** Removal of replaced groups *)
Section removal.
Context {GR : GoRange} {GS : GoSort}.

Lemma revokeSecurityGroupReferences_calls c g :
  all_calls (λ ev, delete_target ev = None) (revokeSecurityGroupReferences c g).
Proof. unfold revokeSecurityGroupReferences, buildSecurityGroupRuleReferences. calls; done. Qed.

Lemma revokeSecurityGroupReferences_no_panic c g t :
  wp (revokeSecurityGroupReferences c g) (λ _ o, ∃ r, o = Done r) t.
Proof.
  unfold revokeSecurityGroupReferences, buildSecurityGroupRuleReferences.
  rewrite wp_try_with, wp_try_with. simpl. intros [sgs|e]; simpl; [|by eexists].
  apply (wp_each _ _ (λ _, True)); [done| |by eexists].
  intros [i [sg perms]] t' _ _. destruct (negb _); simpl; [done|].
  intros [|]; simpl; [done|by eexists].
Qed.

(** Nothing is deleted while the groups are examined. *)
Definition examined (c : Cloud) (sgs : list string) (st : list error * gset string)
    (t : list (event awsE)) : Prop :=
  Forall (λ ev, delete_target ev = None) t ∧ ∀ g, g ∈ st.2 → g ∈ sgs ∧ owned_in c t g.

Lemma wp_removeOwnedStep c sgs st g t :
  g ∈ sgs → examined c sgs st t →
  wp (removeOwnedStep c st g) (λ t' o, ∃ st', o = Done st' ∧ examined c sgs st' t') t.
Proof.
  intros Hg [Hd Ho]. destruct st as [errs m]. unfold removeOwnedStep. rewrite wp_bind.
  apply wp_isOwnedSecurityGroup. intros r ev Hask _ Hown. cbn [andThen].
  assert (Forall (λ ev, delete_target ev = None) (t ++ [ev])) as Hd'.
  { apply Forall_app. split; [done|]. apply Forall_singleton. unfold delete_target, asked_ids in *.
    destruct (ev_call ev) as [? []|? ?|? ?]; naive_solver. }
  assert (∀ h, h ∈ m → h ∈ sgs ∧ owned_in c (t ++ [ev]) h) as Ho'.
  { intros h Hh. destruct (Ho h Hh). auto using owned_in_app. }
  destruct r as [owned|e]; [|by eexists].
  rewrite wp_bind.
  pose proof (all_calls_wp _ _ (t ++ [ev]) (revokeSecurityGroupReferences_calls c g)) as H1.
  pose proof (revokeSecurityGroupReferences_no_panic c g (t ++ [ev])) as H2.
  eapply wp_mono; [exact (wp_and _ _ _ _ H1 H2)|].
  intros t' o [(u & -> & Hu) (r & ->)]. simpl.
  assert (Forall (λ ev, delete_target ev = None) ((t ++ [ev]) ++ u)) by by apply Forall_app.
  assert (∀ h, h ∈ m → h ∈ sgs ∧ owned_in c ((t ++ [ev]) ++ u) h).
  { intros h Hh. destruct (Ho' h Hh). auto using owned_in_app. }
  destruct r as [[]|e]; simpl; eexists; (split; [done|]); split; try done.
  simpl. destruct owned; [|done]. intros h [Hh|Hh]%elem_of_union; [auto|].
  apply elem_of_singleton in Hh as ->. auto using owned_in_app.
Qed.

(** [removeOwnedSecurityGroups] deletes a group only if it was given the group and
    EC2 answered that the group carries this cluster's ownership tag; it always returns,
    with the list of errors. *)
Theorem removeOwnedSecurityGroups_safe polls c name sgs :
  wp (removeOwnedSecurityGroups polls c name sgs) (λ tr o, (∃ errs, o = Done errs) ∧
    ∀ ev g, ev ∈ tr → delete_target ev = Some g → g ∈ sgs ∧ owned_in c tr g) [].
Proof.
  unfold removeOwnedSecurityGroups. rewrite wp_bind.
  apply (wp_loop_all _ _ _ (examined c sgs)).
  - split; [done|set_solver].
  - intros g st t Hg Hex. eapply wp_mono; [by apply (wp_removeOwnedStep c sgs)|].
    by intros t' o (st' & -> & ?).
  - intros [errs m] t [Hd Ho]. simpl. rewrite Forall_forall in Hd.
    destruct (size m =? 0); simpl.
    { split; [by eexists|]. intros ev g Hin E. by rewrite Hd in E. }
    rewrite wp_bind. apply wp_start. eapply wp_mono; [apply wp_deleteSecurityGroups|].
    intros u o (r & -> & Hu & _). simpl. rewrite Forall_forall in Hu.
    assert (∀ ev g, ev ∈ t ++ u → delete_target ev = Some g → g ∈ sgs ∧ owned_in c (t ++ u) g) as H.
    { intros ev g [Hin|Hin]%elem_of_app E; [by rewrite Hd in E|].
      destruct (Hu ev Hin) as (g' & Hg' & E'). assert (g = g') as -> by congruence.
      destruct (Ho g' Hg'). auto using owned_in_app. }
    destruct r; simpl; split; eauto.
Qed.

End removal.

(** ** Creation *)
Definition is_create (ev : event awsE) : bool :=
  match ev_call ev with EC2 (CreateSecurityGroup _ _ _ _) => true | _ => false end.
Definition created_tags (ev : event awsE) : option (list Tag) :=
  match ev_call ev with EC2 (CreateSecurityGroup _ _ _ tags) => Some tags | _ => None end.

Section creation.
Context {GR : GoRange} {GS : GoSort}.

Lemma readRepair_calls t rid lc add obs :
  all_calls (λ ev, is_create ev = false) (readRepairClusterTags t rid lc add obs).
Proof. unfold readRepairClusterTags, createTags. calls; done. Qed.

Lemma readRepair_returns t rid lc add obs tr :
  wp (readRepairClusterTags t rid lc add obs) (λ _ o, ∃ r, o = Done r) tr.
Proof.
  unfold readRepairClusterTags. destruct (missingTags _ _ _ _); [|by simpl; eexists].
  destruct (size _ =? 0); [by simpl; eexists|]. rewrite wp_bind. unfold createTags.
  destruct (size _ =? 0); [by simpl; eexists|]. rewrite wp_bind.
  apply wp_createTags_loop; intros errs; intros; simpl; [by eexists|].
  destruct (last errs); simpl; by eexists.
Qed.

(** The creations of a run, and the tags they carry. *)
Definition creations (n : nat) (c : Cloud) (add : gmap string string) (tr : list (event awsE)) : Prop :=
  length (filter (λ ev, is_create ev = true) tr) ≤ n ∧
  ∀ ev tags, ev ∈ tr → created_tags ev = Some tags →
    tags = buildAwsTags (buildTags (c_tagging c) ResourceLifecycleOwned add).

Lemma creations_app n m c add t u :
  creations n c add t → creations m c add u → creations (n + m) c add (t ++ u).
Proof.
  intros [Hn Ht] [Hm Hu]. split; [rewrite filter_app, length_app; lia|]. set_solver.
Qed.

Lemma creations_weaken n m c add t : n ≤ m → creations n c add t → creations m c add t.
Proof. intros ? []. split; [lia|done]. Qed.

Lemma creations_none c add t : Forall (λ ev, is_create ev = false) t → creations 0 c add t.
Proof.
  intros H. split.
  - induction H as [|ev t Hev _ IH]; simpl; [lia|]. rewrite filter_cons, decide_False; [done|congruence].
  - rewrite Forall_forall in H. intros ev tags Hin E. specialize (H ev Hin). unfold created_tags, is_create in *.
    destruct (ev_call ev) as [? []|? ?|? ?]; done.
Qed.

Lemma wp_ensureExisting c name add group ev0 :
  is_create ev0 = false →
  wp (let? _ := readRepairClusterTags (c_tagging c) (ToString (sg_GroupId group))
        ResourceLifecycleOwned ∅ (sg_Tags group) in
      Ret (Ok (ToString (sg_GroupId group))))
    (λ tr o, (∃ r, o = Done r) ∧ creations name c add tr) [ev0].
Proof.
  intros H0. rewrite wp_try.
  eapply wp_mono; [apply wp_and; [apply all_calls_wp, readRepair_calls|apply readRepair_returns]|].
  intros t' o [(u & -> & Hu) (r & ->)].
  assert (creations name c add ([ev0] ++ u)) as Hc.
  { eapply creations_weaken, (creations_app 0 0); [lia|apply creations_none..]; [by constructor|done]. }
  destruct r; simpl; split; eauto.
Qed.

Lemma wp_ensureSecurityGroupLoop c name desc add n :
  wp (ensureSecurityGroupLoop c name desc add n)
    (λ tr o, (∃ r, o = Done r) ∧ creations (S n) c add tr) [].
Proof.
  assert (∀ m (r1 : result (list SecurityGroup)) fs (r : result (option string)), creations (S m) c add
    [Ev (EC2 (DescribeSecurityGroups [] fs)) r1;
     Ev (EC2 (CreateSecurityGroup name desc (c_vpcID c)
       (buildAwsTags (buildTags (c_tagging c) ResourceLifecycleOwned add)))) r]) as Hone.
  { intros m r1 fs r. split; [simpl; lia|]. intros ev tags.
    rewrite !elem_of_cons, elem_of_nil. intros [->|[->|[]]]; unfold created_tags; simpl; congruence. }
  assert (∀ m r1 fs, creations m c add [Ev (EC2 (DescribeSecurityGroups [] fs)) r1]) as Hzero.
  { intros. eapply creations_weaken, creations_none; [lia|by constructor]. }
  induction n as [|n IH]; cbn [ensureSecurityGroupLoop]; rewrite wp_try; intros [[|group groups]|e].
  2,5: by apply wp_ensureExisting.
  2,4: simpl; split; eauto.
  all: intros [id|e].
  1,3: simpl; destruct (String.eqb _ _); simpl; split; eauto; apply Hone.
  - simpl. destruct (AsAPIError e) as [code|]; [|split; [eauto|apply Hone]].
    repeat (match goal with |- context [match ?x with _ => _ end] => destruct x end;
      try (split; [eauto|apply Hone])).
  - assert (wp (Ret (Err (A := string) e)) (λ tr o, (∃ r, o = Done r) ∧ creations (S (S n)) c add tr)
      [Ev (EC2 (DescribeSecurityGroups [] [newEc2Filter "group-name" [name];
         newEc2Filter "vpc-id" [c_vpcID c]])) (Ok []);
       Ev (EC2 (CreateSecurityGroup name desc (c_vpcID c)
       (buildAwsTags (buildTags (c_tagging c) ResourceLifecycleOwned add)))) (Err e)]) as Hstop.
    { simpl. split; [eauto|apply Hone]. }
    cbn -[wp ensureSecurityGroupLoop buildTags buildAwsTags]. destruct (AsAPIError e) as [code|]; [|done].
    repeat (match goal with |- wp (match ?x with _ => _ end) _ _ => destruct x end; try exact Hstop).
    apply wp_start. eapply wp_mono; [apply IH|]. intros u o [Ho Hu]. split; [done|].
    apply (creations_app 1 (S n)); [apply Hone|done].
Qed.

(** [ensureSecurityGroup] always returns, with at most thirty attempts to create
    the group, and every group it creates carries the tags of a group owned by the
    cluster. *)
Theorem ensureSecurityGroup_bounded c name desc add :
  wp (ensureSecurityGroup c name desc add) (λ tr o, (∃ r, o = Done r) ∧
    length (filter (λ ev, is_create ev = true) tr) ≤ MaxReadThenCreateRetries ∧
    ∀ ev tags, ev ∈ tr → created_tags ev = Some tags →
      tags = buildAwsTags (buildTags (c_tagging c) ResourceLifecycleOwned add)) [].
Proof. apply (wp_ensureSecurityGroupLoop c name desc add (MaxReadThenCreateRetries - 1)). Qed.

End creation.

(** ** Concrete groups *)
Definition web : IPPermissionSet := NewIPPermissionSet [tcp_rule 80 ["10.0.0.0/8"] []].

Lemma web_ascii : Forall ascii_perm [tcp_rule 80 ["10.0.0.0/8"] []].
Proof. repeat constructor; solve_ascii. Qed.

Lemma setSecurityGroupIngress_exact_witness :
  wp (setSecurityGroupIngress (GR := trie_order) "sg-1" web) (exact_ingress (GR := trie_order) "sg-1" web) [].
Proof.
  apply (setSecurityGroupIngress_exact (GR := trie_order) "sg-1" web).
  - apply wf_New, web_ascii.
  - intros p Hp%New_origin. apply list_elem_of_singleton in Hp as ->. intros u. simpl. set_solver.
  - intros p Hp%New_origin. apply list_elem_of_singleton in Hp as ->. by right.
Defined.

(** EC2 with one group, whose calls all succeed. *)
Definition one_group (sg : SecurityGroup) : handler awsE unit := λ R c s,
  (match c in awsE R return result R with
   | EC2 c =>
      match c in ec2E R return result R with
      | DescribeSecurityGroups _ _ => Ok [sg]
      | AuthorizeSecurityGroupIngress _ _ => Ok tt
      | RevokeSecurityGroupIngress _ _ => Ok tt
      | _ => Err (Errorf "unexpected call" [])
      end
   | _ => Err (Errorf "unexpected call" [])
   end, s).

(** The unmixed hypothesis is needed: a rule that EC2 returns with an IPv4 source and a
    group source is revoked whole, and the desired IPv4 rule goes with it. *)
Example setSecurityGroupIngress_mixed :
  let rules := [tcp_rule 80 ["10.0.0.0/8"] ["sg-x"]] in
  let '(o, _, tr) := run (one_group (mkSecurityGroup (Some "sg-1") rules []))
    (setSecurityGroupIngress (GR := trie_order) "sg-1" web) tt [] in
  let x : rule4 := (Some "tcp", Some 80%Z, Some 80%Z, Some "10.0.0.0/8") in
  o = Done (Ok true) ∧ opens (List (GR := trie_order) web) x ∧
  ∀ R, (∀ x, R (Some "sg-1") x ↔ opens rules x) → ¬ replay R (tail tr) (Some "sg-1") x.
Proof.
  vm_compute run. split_and!; [done| |].
  - apply opens_New; [apply web_ascii|]. apply opens_elem.
    exists (tcp_rule 80 ["10.0.0.0/8"] []), (mkIpRange (Some "10.0.0.0/8") None). set_solver.
  - intros R _. unfold replay, effect. simpl. intros [_ H]. apply H. split; [done|]. apply opens_elem.
    eexists _, (mkIpRange (Some "10.0.0.0/8") None). split; [apply list_elem_of_here|]. set_solver.
Qed.

(** IPv6 sources are not compared: a rule that only adds an IPv6 source to an open port
    is not sent to EC2. *)
Definition ipv6_rule : IpPermission :=
  mkIpPermission (Some 80%Z) (Some "tcp") None (Some [mkIpv6Range (Some "::/0") None]) None (Some 80%Z) None.

Example addSecurityGroupIngress_ignores_ipv6 c :
  cfg_ElbSecurityGroup (c_cfg c) = "" →
  let '(o, _, tr) := run (one_group (mkSecurityGroup (Some "sg-1") [tcp_rule 80 ["10.0.0.0/8"] []] []))
    (addSecurityGroupIngress c "sg-1" [ipv6_rule]) tt [] in
  o = Done (Ok false) ∧ length tr = 1.
Proof. intros H. unfold addSecurityGroupIngress. rewrite H. by vm_compute. Qed.

(** Groups [sg-gone], which is not there, and [sg-old], which is owned and deleted. *)
Definition one_gone : handler awsE unit := λ R c s,
  (match c in awsE R return result R with
   | EC2 c =>
      match c in ec2E R return result R with
      | DescribeSecurityGroups ["sg-old"] _ =>
         Ok [mkSecurityGroup (Some "sg-old") [] [mkTag (Some "KubernetesCluster") (Some "prod")]]
      | DescribeSecurityGroups _ _ => Ok []
      | DeleteSecurityGroup _ => Ok tt
      | _ => Err (Errorf "unexpected call" [])
      end
   | _ => Err (Errorf "unexpected call" [])
   end, s).

(** The error about [sg-gone] is collected and then dropped. *)
Example removeOwnedSecurityGroups_drops_errors :
  let c := mkCloud empty_config "" "" prod no_instance in
  let '(o, _, _) := run one_gone
    (removeOwnedSecurityGroups (GR := trie_order) 0 c "lb" ["sg-gone"; "sg-old"]) tt [] in
  let '(o1, _, _) := run one_gone
    (removeOwnedSecurityGroups (GR := trie_order) 0 c "lb" ["sg-gone"]) tt [] in
  o = Done [] ∧ ∃ e, o1 = Done [e].
Proof. vm_compute. split; [done|]. by eexists. Qed.
