(* ===== verification/Subnets.v ===== *)
(** * Zones and subnets (zones.go, aws.go)

    The cache of availability zones, and the choice of the subnets a load balancer is
    created in.  The cache is a state the operations thread. *)

From S2P Require Import Prelude GoLib Effects AwsApi Tags Config Cloud.
From Stdlib Require Import Ascii.
Import Strings Errors.

(** ** Zones (zones.go) *)
Record zoneDetails := mkZoneDetails { zd_name : string; zd_id : string; zd_zoneType : string }.
#[export] Instance zoneDetails_eq_dec : EqDecision zoneDetails.
Proof. solve_decision. Defined.

(** [zoneCache.zoneNameToDetails]; the nil map is the empty one. *)
Abbreviation zoneCache := (gmap string zoneDetails).

Definition shouldPopulateCache (z : zoneCache) (zoneNames : list string) : bool :=
  (size z =? 0) || existsb (λ zone, negb (bool_decide (is_Some (z !! zone)))) zoneNames.

Definition populate (z : zoneCache) : prog awsE (result unit * zoneCache) :=
  let! zones := ec2 DescribeAvailabilityZones in
  match zones with
  | Err err => Ret (Err (Errorf "error describe availability zones: %q" [Error err]), z)
  | Ok zones =>
     Ret (Ok tt, foldl (λ z zone,
       let name := ToString (az_ZoneName zone) in
       <[name := mkZoneDetails name (ToString (az_ZoneId zone)) (ToString (az_ZoneType zone))]> z)
       z zones)
  end.

(** The entries of the names asked for; unknown names are left out. *)
Definition requestedZones (z : zoneCache) (zoneNames : list string) : gmap string zoneDetails :=
  foldl (λ m zone, match z !! zone with Some d => <[zone := d]> m | None => m end) ∅ zoneNames.

Definition getZoneDetailsByNames (z : zoneCache) (zoneNames : list string) :
    prog awsE (result (gmap string zoneDetails) * zoneCache) :=
  if length zoneNames =? 0 then Ret (Ok ∅, z) else
  let! (r, z) := (if shouldPopulateCache z zoneNames then populate z else Ret (Ok tt, z)) in
  match r with
  | Err err => Ret (Err err, z)
  | Ok _ => Ret (Ok (requestedZones z zoneNames), z)
  end.

Definition getZoneIDByZoneName (z : zoneCache) (zoneName : string) :
    prog awsE (result string * zoneCache) :=
  let! (r, z) := getZoneDetailsByNames z [zoneName] in
  match r with
  | Err err => Ret (Err err, z)
  | Ok zoneNameToDetails =>
     match zoneNameToDetails !! zoneName with
     | None => Ret (Err (Errorf "Could not get zone ID from zone name %s" [zoneName]), z)
     | Some zoneDetail => Ret (Ok (zd_id zoneDetail), z)
     end
  end.

(** ** Subnets (aws.go) *)
Fixpoint findTag (tags : list Tag) (key : string) : string * bool :=
  match tags with
  | [] => ("", false)
  | tag :: tags =>
     if String.eqb (ToString (tag_Key tag)) key then (ToString (tag_Value tag), true)
     else findTag tags key
  end.

Definition findSubnets (c : Cloud) : prog awsE (result (list Subnet)) :=
  let? subnets := ec2 (DescribeSubnets [] [newEc2Filter "vpc-id" [c_vpcID c]])
    else (λ err, Errorf "error describing subnets: %q" [Error err]) in
  let matches := filter (λ subnet, hasClusterTag (c_tagging c) (sn_Tags subnet) ||
    hasNoClusterPrefixTag (sn_Tags subnet) = true) subnets in
  if negb (length matches =? 0) then Ret (Ok matches) else
  let? subnets := ec2 (DescribeSubnets [] [newEc2Filter "subnet-id" [aw_subnetID (c_selfAWSInstance c)]])
    else (λ err, Errorf "error describing subnets: %q" [Error err]) in
  Ret (Ok subnets).

(** The last table with such an association. *)
Definition tableWith (P : RouteTableAssociation → bool) (rt : list RouteTable) : option RouteTable :=
  foldl (λ acc table, if existsb P (rtb_Associations table) then Some table else acc) None rt.

Definition isSubnetPublic (rt : list RouteTable) (subnetID : string) : result bool :=
  let subnetTable := tableWith (λ assoc, String.eqb (ToString (rta_SubnetId assoc)) subnetID) rt in
  let subnetTable := match subnetTable with
    | Some table => Some table
    | None => tableWith (λ assoc, ToBool (rta_Main assoc)) rt
    end in
  match subnetTable with
  | None => Err (Errorf "could not locate routing table for subnet %s" [subnetID])
  | Some table =>
     Ok (existsb (λ route, HasPrefix (ToString (rt_GatewayId route)) "igw") (rtb_Routes table))
  end.

Definition roleTag (internalELB : bool) : string :=
  if internalELB then TagNameSubnetInternalELB else TagNameSubnetPublicELB.

(** The tie-break of [findELBSubnets] between two subnets of a zone: whether [subnet]
    replaces [existing]. *)
Definition replaces (c : Cloud) (internalELB : bool) (existing subnet : Subnet) : bool :=
  let tagName := roleTag internalELB in
  let existingHasTag := (findTag (sn_Tags existing) tagName).2 in
  let subnetHasTag := (findTag (sn_Tags subnet) tagName).2 in
  if negb (Bool.eqb existingHasTag subnetHasTag) then subnetHasTag else
  let existingHasClusterTag := hasClusterTag (c_tagging c) (sn_Tags existing) in
  let subnetHasClusterTag := hasClusterTag (c_tagging c) (sn_Tags subnet) in
  if negb (Bool.eqb existingHasClusterTag subnetHasClusterTag) then subnetHasClusterTag else
  negb (bool_decide (String.le (ToString (sn_SubnetId existing)) (ToString (sn_SubnetId subnet)))).

(** The loop over the candidate subnets. *)
Fixpoint pickSubnets (c : Cloud) (internalELB : bool) (rt : list RouteTable) (subnets : list Subnet)
    (subnetsByAZ : gmap string Subnet) : result (gmap string Subnet) :=
  match subnets with
  | [] => Ok subnetsByAZ
  | subnet :: subnets =>
     let az := ToString (sn_AvailabilityZone subnet) in
     let id := ToString (sn_SubnetId subnet) in
     if String.eqb az "" || String.eqb id "" then pickSubnets c internalELB rt subnets subnetsByAZ
     else
     match isSubnetPublic rt id with
     | Err err => Err err
     | Ok isPublic =>
        if negb internalELB && negb isPublic then pickSubnets c internalELB rt subnets subnetsByAZ
        else
        match subnetsByAZ !! az with
        | None => pickSubnets c internalELB rt subnets (<[az := subnet]> subnetsByAZ)
        | Some existing =>
           pickSubnets c internalELB rt subnets
             (if replaces c internalELB existing subnet then <[az := subnet]> subnetsByAZ
              else subnetsByAZ)
        end
     end
  end.

Section subnets.
Context {GR : GoRange}.

(** The ids of the chosen subnets, zone by zone, without local and wavelength zones. *)
Definition regularSubnets (subnetsByAZ : gmap string Subnet) (azNames : list string)
    (zoneNameToDetails : gmap string zoneDetails) : list string :=
  azNames ≫= λ zone,
    match zoneNameToDetails !! zone with
    | Some azType =>
       if negb (String.eqb (zd_zoneType azType) regularAvailabilityZoneType) then []
       else [ToString (subnetsByAZ !! zone ≫= sn_SubnetId)]
    | None => [ToString (subnetsByAZ !! zone ≫= sn_SubnetId)]
    end.

Definition findELBSubnets (c : Cloud) (z : zoneCache) (internalELB : bool) :
    prog awsE (result (list string) * zoneCache) :=
  let! r := findSubnets c in
  match r with
  | Err err => Ret (Err err, z)
  | Ok subnets =>
     let! r := ec2 (DescribeRouteTables [newEc2Filter "vpc-id" [c_vpcID c]]) in
     match r with
     | Err err => Ret (Err (Errorf "error describe route table: %q" [Error err]), z)
     | Ok rt =>
        match pickSubnets c internalELB rt subnets ∅ with
        | Err err => Ret (Err err, z)
        | Ok subnetsByAZ =>
           let azNames := SortStrings (range_map subnetsByAZ).*1 in
           let! (r, z) := getZoneDetailsByNames z azNames in
           match r with
           | Err err => Ret (Err (Errorf "error get availability zone types: %q" [Error err]), z)
           | Ok zoneNameToDetails =>
              Ret (Ok (regularSubnets subnetsByAZ azNames zoneNameToDetails), z)
           end
        end
     end
  end.

Definition resolveSubnetNameOrIDs (c : Cloud) (subnetNameOrIDs : list string) :
    prog awsE (result (list string)) :=
  if length subnetNameOrIDs =? 0 then
    Ret (Err (Errorf "unable to resolve empty subnet slice" []))
  else
  let subnetIDs := filter (λ nameOrID, HasPrefix nameOrID "subnet-" = true) subnetNameOrIDs in
  let subnetNames := filter (λ nameOrID, HasPrefix nameOrID "subnet-" = false) subnetNameOrIDs in
  let? byID := (if 0 <? length subnetIDs then ec2 (DescribeSubnets subnetIDs []) else Ret (Ok [])) in
  let? byName := (if 0 <? length subnetNames
    then ec2 (DescribeSubnets [] [mkFilter "tag:Name" subnetNames; mkFilter "vpc-id" [c_vpcID c]])
    else Ret (Ok [])) in
  let resolvedSubnets := byID ++ byName in
  if negb (length resolvedSubnets =? length subnetNameOrIDs) then
    Ret (Err (Errorf "expected to find %v, but found %v subnets"
      [Strconv.Itoa (Z.of_nat (length subnetNameOrIDs)); Strconv.Itoa (Z.of_nat (length resolvedSubnets))]))
  else Ret (Ok ((λ subnet, ToString (sn_SubnetId subnet)) <$> resolvedSubnets)).

Definition getLoadBalancerSubnets (c : Cloud) (z : zoneCache) (service : Service) (internalELB : bool) :
    prog awsE (result (list string) * zoneCache) :=
  match parseStringSliceAnnotation (svc_Annotations service) ServiceAnnotationLoadBalancerSubnets [] with
  | (true, rawSubnetNameOrIDs) =>
     let! r := resolveSubnetNameOrIDs c rawSubnetNameOrIDs in Ret (r, z)
  | (false, _) => findELBSubnets c z internalELB
  end.

(** The address ranges of the subnets of a load balancer. *)
Definition getSubnetCidrs (subnetIDs : list string) : prog awsE (result (list string)) :=
  let? subnets := ec2 (DescribeSubnets subnetIDs [])
    else (λ err, Errorf "error querying Subnet for ELB: %q" [Error err]) in
  if negb (length subnets =? length subnetIDs) then
    Ret (Err (Errorf "error querying Subnet for ELB, got %d subnets for %v"
      [Strconv.Itoa (Z.of_nat (length subnets)); "[" +:+ Join subnetIDs " " +:+ "]"]))
  else
  Ret (Ok (subnets ≫= λ subnet,
    ToString (sn_CidrBlock subnet) ::
    ((λ a, ToString (assoc_Ipv6CidrBlock a)) <$>
     filter (λ a, assoc_State a = Some "associated") (sn_Ipv6CidrBlockAssociationSet subnet)))).

End subnets.

(** ** The zone cache *)
Lemma requestedZones_lookup z names k :
  requestedZones z names !! k = if bool_decide (k ∈ names) then z !! k else None.
Proof.
  unfold requestedZones.
  assert (∀ m : gmap string zoneDetails, (∀ k d, m !! k = Some d → z !! k = Some d) →
    foldl (λ m zone, match z !! zone with Some d => <[zone := d]> m | None => m end) m names !! k =
    if bool_decide (k ∈ names) then z !! k else m !! k) as H.
  { induction names as [|n names IH]; intros m Hm; simpl; [done|].
    rewrite IH.
    - destruct (decide (k = n)) as [->|Hne].
      + rewrite (bool_decide_eq_true_2 (n ∈ n :: names)) by set_solver. case_bool_decide; [done|].
        destruct (z !! n) eqn:E; [by rewrite lookup_insert_eq|]. destruct (m !! n) eqn:Em; [|done].
        by rewrite (Hm _ _ Em) in E.
      + assert (bool_decide (k ∈ n :: names) = bool_decide (k ∈ names)) as ->.
        { apply bool_decide_ext. set_solver. }
        case_bool_decide; [done|]. destruct (z !! n); [by rewrite lookup_insert_ne|done].
    - intros k' d. destruct (z !! n) eqn:E; [|auto]. rewrite lookup_insert_Some. naive_solver. }
  rewrite H; [by rewrite lookup_empty|]. intros k' d. by rewrite lookup_empty.
Qed.

Lemma populate_grows (zones : list AvailabilityZone) (z : zoneCache) k :
  is_Some (z !! k) → is_Some (foldl (λ z zone,
    let name := ToString (az_ZoneName zone) in
    <[name := mkZoneDetails name (ToString (az_ZoneId zone)) (ToString (az_ZoneType zone))]> z)
    z zones !! k).
Proof.
  revert z. induction zones as [|a zones IH]; intros z Hk; simpl; [done|].
  apply IH. destruct (decide (k = ToString (az_ZoneName a))) as [->|].
  - by rewrite lookup_insert_eq.
  - by rewrite lookup_insert_ne.
Qed.

(** The zone cache answers the names asked for from what it holds, never forgets a
    zone, and asks EC2 only when one of the names is unknown; an error leaves it as it
    was. *)
Theorem getZoneDetailsByNames_cached z names :
  wp (getZoneDetailsByNames z names) (λ tr o, ∃ r z', o = Done (r, z') ∧
    (∀ k, is_Some (z !! k) → is_Some (z' !! k)) ∧
    ((∀ n, n ∈ names → is_Some (z !! n)) → tr = [] ∧ z' = z) ∧ length tr ≤ 1 ∧
    match r with
    | Ok m => ∀ k, m !! k = if bool_decide (k ∈ names) then z' !! k else None
    | Err _ => z' = z
    end) [].
Proof.
  unfold getZoneDetailsByNames. destruct names as [|n names]; simpl.
  { eexists _, _. split; [done|]. split_and!; try done; try (simpl; lia). }
  assert (shouldPopulateCache z (n :: names) = true → ¬ ∀ m, m ∈ n :: names → is_Some (z !! m)) as Hneed.
  { unfold shouldPopulateCache. rewrite orb_true_iff, Nat.eqb_eq, existsb_elem_of. intros H Hall.
    destruct H as [Hz%map_size_empty_iff|(m & Hm & Hf)].
    - destruct (Hall n) as [d Hd]; [set_solver|]. subst. by rewrite lookup_empty in Hd.
    - rewrite negb_true_iff, bool_decide_eq_false in Hf. auto. }
  destruct (shouldPopulateCache z (n :: names)); simpl.
  - intros [zones|e]; simpl; eexists _, _; (split; [done|]); split_and!; try done; try (simpl; lia).
    + intros k. apply populate_grows.
    + intros H. by destruct Hneed.
    + apply requestedZones_lookup.
    + intros H. by destruct Hneed.
  - eexists _, _. split; [done|]. split_and!; try done; try (simpl; lia). apply requestedZones_lookup.
Qed.

(** ** What the choice goes by *)
Section preferences.
Context (c : Cloud) (internalELB : bool) (rt : list RouteTable).

(** The last table of the VPC with an association that satisfies [P]. *)
Definition last_table (P : RouteTableAssociation → Prop) (table : RouteTable) : Prop :=
  ∃ before after, rt = before ++ table :: after ∧ (∃ a, a ∈ rtb_Associations table ∧ P a) ∧
    ∀ other a, other ∈ after → a ∈ rtb_Associations other → ¬ P a.

(** The table that routes a subnet: the one associated with it, the main one where there is
    none. *)
Definition routes_subnet (id : string) (table : RouteTable) : Prop :=
  last_table (λ a, ToString (rta_SubnetId a) = id) table ∨
  (∀ other a, other ∈ rt → a ∈ rtb_Associations other → ToString (rta_SubnetId a) ≠ id) ∧
    last_table (λ a, rta_Main a = Some true) table.

(** A public subnet has a route to an internet gateway. *)
Definition public_subnet (id : string) : Prop :=
  ∃ table r, routes_subnet id table ∧ r ∈ rtb_Routes table ∧ HasPrefix (ToString (rt_GatewayId r)) "igw" = true.

(** A subnet the load balancer could live in. *)
Definition eligible (sn : Subnet) : Prop :=
  ToString (sn_AvailabilityZone sn) ≠ "" ∧ ToString (sn_SubnetId sn) ≠ "" ∧
  (internalELB = true ∨ public_subnet (ToString (sn_SubnetId sn))).

(** It is tagged for load balancers of this kind; for the cluster, if that has a name. *)
Definition for_role (sn : Subnet) : Prop :=
  ∃ tag, tag ∈ sn_Tags sn ∧ ToString (tag_Key tag) =
    if internalELB then "kubernetes.io/role/internal-elb" else "kubernetes.io/role/elb".

Definition for_cluster (sn : Subnet) : Prop :=
  let id := ClusterID (c_tagging c) in
  id = "" ∨ ∃ tag, tag ∈ sn_Tags sn ∧
    (ToString (tag_Key tag) = "KubernetesCluster" ∧ ToString (tag_Value tag) = id ∨
     ToString (tag_Key tag) = "kubernetes.io/cluster/" +:+ id).

(** The best eligible subnet of a zone: one tagged for the role if there is any; among
    those alike, one tagged for the cluster if there is any; among those, the first by id. *)
Record best_of (subnets : list Subnet) (az : string) (best : Subnet) : Prop := {
  best_offered : best ∈ subnets;
  best_eligible : eligible best;
  best_zone : ToString (sn_AvailabilityZone best) = az;
  best_role : ∀ sn, sn ∈ subnets → eligible sn → ToString (sn_AvailabilityZone sn) = az →
    for_role sn → for_role best;
  best_cluster : ∀ sn, sn ∈ subnets → eligible sn → ToString (sn_AvailabilityZone sn) = az →
    (for_role sn ↔ for_role best) → for_cluster sn → for_cluster best;
  best_id : ∀ sn, sn ∈ subnets → eligible sn → ToString (sn_AvailabilityZone sn) = az →
    (for_role sn ↔ for_role best) → (for_cluster sn ↔ for_cluster best) →
    String.le (ToString (sn_SubnetId best)) (ToString (sn_SubnetId sn))
}.

Lemma findTag_spec tags key : (findTag tags key).2 = true ↔ ∃ tag, tag ∈ tags ∧ ToString (tag_Key tag) = key.
Proof.
  induction tags as [|tag tags IH]; simpl; [set_solver|].
  destruct (String.eqb_spec (ToString (tag_Key tag)) key); simpl; [set_solver|]. rewrite IH. set_solver.
Qed.

Lemma for_role_spec sn : (findTag (sn_Tags sn) (roleTag internalELB)).2 = true ↔ for_role sn.
Proof. rewrite findTag_spec. unfold for_role, roleTag. by destruct internalELB. Qed.

Lemma for_cluster_spec sn : hasClusterTag (c_tagging c) (sn_Tags sn) = true ↔ for_cluster sn.
Proof.
  unfold hasClusterTag, for_cluster. rewrite len_zero.
  case_bool_decide as E; [by split; [left|]|]. rewrite existsb_elem_of.
  setoid_rewrite orb_true_iff. setoid_rewrite andb_true_iff. setoid_rewrite String.eqb_eq.
  split; [by right|]. by intros [?|?].
Qed.

Lemma tableWith_spec P Q l :
  (∀ a, P a = true ↔ Q a) →
  match tableWith P l with
  | Some table => ∃ before after, l = before ++ table :: after ∧ (∃ a, a ∈ rtb_Associations table ∧ Q a) ∧
      ∀ other a, other ∈ after → a ∈ rtb_Associations other → ¬ Q a
  | None => ∀ other a, other ∈ l → a ∈ rtb_Associations other → ¬ Q a
  end.
Proof.
  intros HP. induction l as [|table l IH] using rev_ind; [set_solver|].
  unfold tableWith in *. rewrite foldl_snoc. destruct (existsb P (rtb_Associations table)) eqn:E.
  - apply existsb_elem_of in E as (a & Ha & Hq%HP). exists l, []. split_and!; [done|by exists a|set_solver].
  - assert (∀ a, a ∈ rtb_Associations table → ¬ Q a) as Hn.
    { intros a Ha Hq%HP. by rewrite (proj2 (existsb_elem_of _ _) (ex_intro _ a (conj Ha Hq))) in E. }
    destruct (foldl _ _ _) as [t|].
    + destruct IH as (before & after & -> & Ht & Hafter). exists before, (after ++ [table]).
      rewrite <-(assoc_L (++)). split_and!; [done|done|set_solver].
    + set_solver.
Qed.

Lemma isSubnetPublic_spec id b : isSubnetPublic rt id = Ok b → b = true ↔ public_subnet id.
Proof.
  unfold isSubnetPublic, public_subnet.
  pose proof (tableWith_spec (λ a, String.eqb (ToString (rta_SubnetId a)) id) (λ a, ToString (rta_SubnetId a) = id)
    rt (λ a, String.eqb_eq _ _)) as Hown.
  pose proof (tableWith_spec (λ a, ToBool (rta_Main a)) (λ a, rta_Main a = Some true) rt) as Hmain.
  assert (∀ P t t', last_table P t → last_table P t' → t = t') as Honce.
  { intros P t t' (b1 & a1 & E1 & (x & Hx & Px) & Hn1) (b2 & a2 & E2 & (y & Hy & Py) & Hn2).
    destruct (app_eq_inv b1 (t :: a1) b2 (t' :: a2)) as [(k & -> & Ek)|(k & -> & Ek)]; [congruence|..].
    - destruct k as [|z k]; injection Ek as E3 E4; [done|]. exfalso. apply (Hn2 t x); [set_solver|done..].
    - destruct k as [|z k]; injection Ek as E3 E4; [done|]. exfalso. apply (Hn1 t' y); [set_solver|done..]. }
  assert (∀ table, (match tableWith (λ a, String.eqb (ToString (rta_SubnetId a)) id) rt with
     | Some t => Some t | None => tableWith (λ a, ToBool (rta_Main a)) rt end) = Some table →
     ∀ t, routes_subnet id t ↔ t = table) as Htable.
  { intros table. destruct (tableWith (λ a, String.eqb _ _) rt) as [t0|].
    - intros [= ->] t. split; [|intros ->; by left]. intros [H|[H _]]; [by eapply Honce|].
      destruct Hown as (b1 & a1 & -> & (x & Hx & Px) & _). exfalso. apply (H table x); [set_solver|done..].
    - intros E t. rewrite E in Hmain.
      assert (last_table (λ a, rta_Main a = Some true) table) as Hm.
      { apply Hmain. intros x. unfold ToBool. by destruct (rta_Main x) as [[]|]. }
      split; [|intros ->; by right]. intros [(b1 & a1 & -> & (x & Hx & Px) & _)|[_ H]]; [|by eapply Honce].
      exfalso. apply (Hown t x); [set_solver|done..]. }
  destruct (match tableWith _ rt with Some t => Some t | None => _ end) as [table|]; [|done].
  intros [= <-]. specialize (Htable table eq_refl). rewrite existsb_elem_of. split.
  - intros (r & Hr & Hp). exists table, r. split; [by apply Htable|done].
  - intros (t & r & ->%Htable & Hr). by exists r.
Qed.
End preferences.

(** ** The choice of subnets *)
Section choice.
Context (c : Cloud) (internalELB : bool) (rt : list RouteTable).

Lemma replaces_irrefl e : replaces c internalELB e e = false.
Proof.
  unfold replaces. rewrite !eqb_reflx. simpl. rewrite bool_decide_eq_true_2; [done|].
  apply String.le_po.
Qed.

Lemma replaces_trans e s o :
  replaces c internalELB e s = true → replaces c internalELB e o = false →
  replaces c internalELB s o = false.
Proof.
  unfold replaces.
  destruct (findTag (sn_Tags e) _).2, (findTag (sn_Tags s) _).2, (findTag (sn_Tags o) _).2; simpl; try done.
  all: destruct (hasClusterTag _ (sn_Tags e)), (hasClusterTag _ (sn_Tags s)),
    (hasClusterTag _ (sn_Tags o)); simpl; try done.
  all: rewrite negb_true_iff, !negb_false_iff, bool_decide_eq_false, !bool_decide_eq_true; intros H1 H2.
  all: destruct (String.le_total (ToString (sn_SubnetId e)) (ToString (sn_SubnetId s))); [done|].
  all: by etrans.
Qed.

(** Of the subnets seen so far, every eligible one has a rival in its zone that it does
    not replace. *)
Definition chosen (seen : list Subnet) (m : gmap string Subnet) : Prop :=
  (∀ az sn, m !! az = Some sn → sn ∈ seen ∧ eligible internalELB rt sn ∧ ToString (sn_AvailabilityZone sn) = az) ∧
  (∀ sn, sn ∈ seen → eligible internalELB rt sn → ∃ best, m !! ToString (sn_AvailabilityZone sn) = Some best ∧
     replaces c internalELB best sn = false).

Lemma chosen_skip seen m sn : chosen seen m → ¬ eligible internalELB rt sn → chosen (seen ++ [sn]) m.
Proof.
  intros [H1 H2] Hn. split.
  - intros az s Hs. destruct (H1 az s Hs). set_solver.
  - intros s [Hs|Hs]%elem_of_app He; [auto|]. by apply list_elem_of_singleton in Hs as ->.
Qed.

Lemma chosen_new seen m sn :
  chosen seen m → eligible internalELB rt sn → m !! ToString (sn_AvailabilityZone sn) = None →
  chosen (seen ++ [sn]) (<[ToString (sn_AvailabilityZone sn) := sn]> m).
Proof.
  intros [H1 H2] He Hnone. split.
  - intros az s. rewrite lookup_insert_Some. intros [[<- <-]|[_ Hs]]; [set_solver|].
    destruct (H1 az s Hs). set_solver.
  - intros s [Hs|Hs]%elem_of_app Hes; [|apply list_elem_of_singleton in Hs as ->].
    + destruct (H2 s Hs Hes) as (best & Hb & Hr). exists best. split; [|done].
      rewrite lookup_insert_ne; congruence.
    + exists sn. rewrite lookup_insert_eq. split; [done|apply replaces_irrefl].
Qed.

Lemma chosen_rival seen m sn best :
  chosen seen m → eligible internalELB rt sn → m !! ToString (sn_AvailabilityZone sn) = Some best →
  chosen (seen ++ [sn]) (if replaces c internalELB best sn
    then <[ToString (sn_AvailabilityZone sn) := sn]> m else m).
Proof.
  intros [H1 H2] He Hb. destruct (replaces c internalELB best sn) eqn:Hr; split.
  - intros az s. rewrite lookup_insert_Some. intros [[<- <-]|[_ Hs]]; [set_solver|].
    destruct (H1 az s Hs). set_solver.
  - intros s [Hs|Hs]%elem_of_app Hes; [|apply list_elem_of_singleton in Hs as ->].
    + destruct (H2 s Hs Hes) as (b & Hb' & Hr').
      destruct (decide (ToString (sn_AvailabilityZone sn) = ToString (sn_AvailabilityZone s))) as [E|E].
      * exists sn. rewrite E, lookup_insert_eq. split; [done|].
        assert (b = best) as -> by congruence. by eapply replaces_trans.
      * exists b. by rewrite lookup_insert_ne.
    + exists sn. rewrite lookup_insert_eq. split; [done|apply replaces_irrefl].
  - intros az s Hs. destruct (H1 az s Hs). set_solver.
  - intros s [Hs|Hs]%elem_of_app Hes; [auto|]. apply list_elem_of_singleton in Hs as ->. eauto.
Qed.

Lemma pickSubnets_chosen subnets seen m m' :
  chosen seen m → pickSubnets c internalELB rt subnets m = Ok m' → chosen (seen ++ subnets) m'.
Proof.
  revert seen m. induction subnets as [|sn subnets IH]; intros seen m Hc; simpl.
  { intros [= <-]. by rewrite app_nil_r. }
  rewrite cons_middle, (assoc_L (++)).
  destruct (String.eqb_spec (ToString (sn_AvailabilityZone sn)) "") as [Ea|Ea]; simpl.
  { apply IH, chosen_skip; [done|]. by intros []. }
  destruct (String.eqb_spec (ToString (sn_SubnetId sn)) "") as [Ei|Ei].
  { apply IH, chosen_skip; [done|]. by intros (_ & []). }
  destruct (isSubnetPublic rt (ToString (sn_SubnetId sn))) as [public|e] eqn:Hp; [|done].
  destruct (negb internalELB && negb public) eqn:Hpriv.
  { apply IH, chosen_skip; [done|]. intros (_ & _ & [->|E]); [done|].
    apply (isSubnetPublic_spec _ _ _ Hp) in E as ->. by rewrite andb_false_r in Hpriv. }
  assert (eligible internalELB rt sn) as He.
  { split_and!; [done..|]. destruct internalELB; [by left|right].
    apply (isSubnetPublic_spec _ _ _ Hp). by destruct public. }
  destruct (m !! ToString (sn_AvailabilityZone sn)) as [best|] eqn:Hm; apply IH.
  - by apply chosen_rival.
  - by apply chosen_new.
Qed.

(** What it means that a subnet does not replace another one. *)
Lemma not_replaces best sn :
  replaces c internalELB best sn = false →
  (for_role internalELB sn → for_role internalELB best) ∧
  ((for_role internalELB sn ↔ for_role internalELB best) → for_cluster c sn → for_cluster c best) ∧
  ((for_role internalELB sn ↔ for_role internalELB best) → (for_cluster c sn ↔ for_cluster c best) →
     String.le (ToString (sn_SubnetId best)) (ToString (sn_SubnetId sn))).
Proof.
  rewrite <-!for_role_spec, <-!for_cluster_spec. unfold replaces.
  set (first := bool_decide _).
  assert (negb first = false → String.le (ToString (sn_SubnetId best)) (ToString (sn_SubnetId sn))) as Hle
    by (by intros H%negb_false_iff%bool_decide_eq_true).
  clearbody first. revert Hle. generalize (String.le (ToString (sn_SubnetId best)) (ToString (sn_SubnetId sn))).
  generalize (findTag (sn_Tags best) (roleTag internalELB)).2, (findTag (sn_Tags sn) (roleTag internalELB)).2,
    (hasClusterTag (c_tagging c) (sn_Tags best)), (hasClusterTag (c_tagging c) (sn_Tags sn)).
  intros [] [] [] [] P; cbn; intuition congruence.
Qed.

(** C34: when the loop of [findELBSubnets] succeeds it keeps, for every zone with an
    eligible subnet (one with a route to an internet gateway, unless the load balancer is
    internal), exactly one subnet, the best eligible one of the zone: tagged for the role of
    the load balancer if any is; among those alike tagged for the cluster if any is; among
    those the first by id.  Whether it is public plays no further part, so an internal load
    balancer does not prefer a private one. *)
Theorem pickSubnets_best subnets m :
  pickSubnets c internalELB rt subnets ∅ = Ok m →
  (∀ az sn, m !! az = Some sn → best_of c internalELB rt subnets az sn) ∧
  (∀ sn, sn ∈ subnets → eligible internalELB rt sn → is_Some (m !! ToString (sn_AvailabilityZone sn))).
Proof.
  intros H. destruct (pickSubnets_chosen subnets [] ∅ m) as [H1 H2]; [|done|].
  { split; [intros az sn; by rewrite lookup_empty|set_solver]. }
  cbn [app] in *. split.
  - intros az best Hb. destruct (H1 az best Hb) as (Hin & He & Haz).
    assert (∀ sn, sn ∈ subnets → eligible internalELB rt sn → ToString (sn_AvailabilityZone sn) = az →
      replaces c internalELB best sn = false) as Hr.
    { intros sn Hs Hse E. destruct (H2 sn Hs Hse) as (b & Eb & Hr). rewrite E, Hb in Eb. by injection Eb as ->. }
    split; [done..| | |]; intros sn Hs Hse E; by destruct (not_replaces _ _ (Hr sn Hs Hse E)) as (? & ? & ?).
  - intros sn Hs He. destruct (H2 sn Hs He) as (b & Hb & _). by eexists.
Qed.

(** Two subnets neither of which replaces the other have the same id. *)
Lemma replaces_antisym e s :
  replaces c internalELB e s = false → replaces c internalELB s e = false →
  ToString (sn_SubnetId e) = ToString (sn_SubnetId s).
Proof.
  unfold replaces.
  destruct (findTag (sn_Tags e) _).2, (findTag (sn_Tags s) _).2; simpl; try done.
  all: destruct (hasClusterTag _ (sn_Tags e)), (hasClusterTag _ (sn_Tags s)); simpl; try done.
  all: rewrite !negb_false_iff, !bool_decide_eq_true; intros H1 H2; by apply (anti_symm String.le).
Qed.

(** The choice does not depend on the order in which EC2 lists the subnets, when
    their ids are distinct. *)
Theorem pickSubnets_order subnets subnets' m m' :
  subnets ≡ₚ subnets' →
  (∀ s s', s ∈ subnets → s' ∈ subnets → ToString (sn_SubnetId s) = ToString (sn_SubnetId s') → s = s') →
  pickSubnets c internalELB rt subnets ∅ = Ok m → pickSubnets c internalELB rt subnets' ∅ = Ok m' →
  m = m'.
Proof.
  intros Hp Hid Hm Hm'.
  assert (chosen [] ∅) as H0 by (split; [intros az sn; by rewrite lookup_empty|set_solver]).
  destruct (pickSubnets_chosen _ _ _ _ H0 Hm) as [H1 H2].
  destruct (pickSubnets_chosen _ _ _ _ H0 Hm') as [H1' H2']. simpl in *.
  setoid_rewrite <-Hp in H1'. setoid_rewrite <-Hp in H2'.
  assert (∀ az s s', m !! az = Some s → m' !! az = Some s' → s = s') as Heq.
  { intros az s s' Hs Hs'. destruct (H1 _ _ Hs) as (Hin & He & Ez), (H1' _ _ Hs') as (Hin' & He' & Ez').
    destruct (H2 s' Hin' He') as (b & Hb & Hr), (H2' s Hin He) as (b' & Hb' & Hr').
    apply Hid; [done..|]. apply replaces_antisym; congruence. }
  apply map_eq. intros az. destruct (m !! az) as [s|] eqn:Es, (m' !! az) as [s'|] eqn:Es'; [| | |done].
  - f_equal. eauto.
  - destruct (H1 _ _ Es) as (Hin & He & <-). destruct (H2' s Hin He) as (b & Hb & _). congruence.
  - destruct (H1' _ _ Es') as (Hin & He & <-). destruct (H2 s' Hin He) as (b & Hb & _). congruence.
Qed.

End choice.

(** ** Concrete subnets *)
Definition vpc_table : RouteTable :=
  mkRouteTable (Some "rtb-1") [mkRouteTableAssociation (Some true) None]
    [mkRoute (Some "0.0.0.0/0") (Some "igw-1") None "active"] [].
Definition subnet_a := mkSubnet (Some "subnet-a") (Some "us-east-1a") (Some "10.0.0.0/24") [] [].
Definition subnet_b := mkSubnet (Some "subnet-b") (Some "us-east-1a") (Some "10.0.1.0/24") []
  [mkTag (Some "kubernetes.io/role/elb") (Some "1")].
Definition sample_cloud := mkCloud empty_config "us-east-1" "vpc-1" prod
  (mkAwsInstance "i-self" "node-self" "us-east-1a" "vpc-1" "subnet-a" "m5.large").

Lemma pickSubnets_best_witness :
  pickSubnets sample_cloud false [vpc_table] [subnet_a; subnet_b] ∅ = Ok {["us-east-1a" := subnet_b]} ∧
  for_role false subnet_b ∧ ¬ for_role false subnet_a ∧
  best_of sample_cloud false [vpc_table] [subnet_a; subnet_b] "us-east-1a" subnet_b.
Proof.
  split; [by vm_compute|].
  destruct (pickSubnets_best sample_cloud false [vpc_table] [subnet_a; subnet_b]
    {["us-east-1a" := subnet_b]} ltac:(by vm_compute)) as [H _].
  rewrite <-!for_role_spec. split_and!; [by vm_compute|by vm_compute|by apply H].
Defined.

(** The subnet [subnet-0] has a table of its own, without a gateway.  An internal load
    balancer that may use it and the public [subnet-a] gets the first by id: the private one,
    or the public one where the private one has the greater id. *)
Definition private_table (id : string) : RouteTable :=
  mkRouteTable (Some "rtb-2") [mkRouteTableAssociation None (Some id)] [] [].
Definition private_subnet (id : string) : Subnet :=
  mkSubnet (Some id) (Some "us-east-1a") (Some "10.0.2.0/24") [] [].

Example internal_prefers_first_id :
  pickSubnets sample_cloud true [vpc_table; private_table "subnet-0"] [subnet_a; private_subnet "subnet-0"] ∅ =
    Ok {["us-east-1a" := private_subnet "subnet-0"]} ∧
  pickSubnets sample_cloud true [vpc_table; private_table "subnet-c"] [subnet_a; private_subnet "subnet-c"] ∅ =
    Ok {["us-east-1a" := subnet_a]}.
Proof. by vm_compute. Qed.

Lemma pickSubnets_order_witness :
  ({["us-east-1a" := subnet_b]} : gmap string Subnet) = {["us-east-1a" := subnet_b]}.
Proof.
  apply (pickSubnets_order sample_cloud false [vpc_table] [subnet_a; subnet_b] [subnet_b; subnet_a]).
  - apply Permutation_swap.
  - intros s s'. rewrite !elem_of_cons, !elem_of_nil. intros [->|[->|[]]] [->|[->|[]]]; done.
  - by vm_compute.
  - by vm_compute.
Defined.
