(* ===== verification/NetIP.v ===== *)
(** * Addresses and CIDR blocks ([net], [net/netip])

    The textual forms of addresses and prefixes the provider classifies: security-group
    rules name IPv4 and IPv6 sources in different fields. *)

From S2P Require Import Prelude GoLib.
From Stdlib Require Import Ascii.
Import Strings.

(** Bytes of an address; an IPv6 address may carry a zone. *)
Inductive Addr :=
  | Addr4 (bytes : list Z)
  | Addr6 (bytes : list Z) (zone : string).

Definition Is6 (a : Addr) : bool := match a with Addr4 _ => false | Addr6 _ _ => true end.
Definition Zone (a : Addr) : string := match a with Addr4 _ => "" | Addr6 _ z => z end.
Definition BitLen (a : Addr) : Z := match a with Addr4 _ => 32 | Addr6 _ _ => 128 end.

(** A decimal field of a dotted quad: no leading zero, at most 255. *)
Definition octet (s : string) : option Z :=
  match s with
  | EmptyString => None
  | String "0"%char (String _ _) => None
  | _ => x ← Strconv.digits 0 s; if (x <=? 255)%Z then Some x else None
  end.

Definition parseIPv4 (s : string) : option (list Z) :=
  match Split s "."%char with
  | [a; b; c; d] =>
     a ← octet a; b ← octet b; c ← octet c; d ← octet d; Some [a; b; c; d]
  | _ => None
  end.

Definition hex_val (c : ascii) : option Z :=
  let n := nat_of_ascii c in
  if (48 <=? n) && (n <=? 57) then Some (Z.of_nat n - 48)%Z
  else if (97 <=? n) && (n <=? 102) then Some (Z.of_nat n - 87)%Z
  else if (65 <=? n) && (n <=? 70) then Some (Z.of_nat n - 55)%Z
  else None.

(** The hexadecimal digits at the front: their number, their value, the rest. *)
Fixpoint hexField (off : nat) (acc : Z) (s : string) : nat * Z * string :=
  match s with
  | String c t =>
     match hex_val c with
     | Some v => hexField (S off) (acc * 16 + v)%Z t
     | None => (off, acc, s)
     end
  | EmptyString => (off, acc, s)
  end.

Section fields6.
(** The groups a parser refuses, by the number of their digits and their value, and its
    dotted quads. *)
Context (refused : nat → Z → bool) (quad : string → option (list Z)).

(** The fields of an IPv6 address: bytes so far and the place of the ellipsis. *)
Fixpoint fields6 (fuel : nat) (bytes : list Z) (ellipsis : option nat) (s : string) :
    option (list Z * option nat) :=
  match fuel with
  | 0 => if String.eqb s "" then Some (bytes, ellipsis) else None
  | S fuel =>
     if 16 <=? length bytes then if String.eqb s "" then Some (bytes, ellipsis) else None else
     let '(off, acc, rest) := hexField 0 0 s in
     if (off =? 0) || refused off acc then None else
     match rest with
     | String "."%char _ =>
        if match ellipsis with None => negb (length bytes =? 12) | Some _ => 12 <? length bytes end
        then None
        else q ← quad s; Some (bytes ++ q, ellipsis)
     | _ =>
        let bytes := bytes ++ [acc / 256; acc mod 256]%Z in
        match rest with
        | EmptyString => Some (bytes, ellipsis)
        | String ":"%char EmptyString => None
        | String ":"%char (String ":"%char rest) =>
           match ellipsis with
           | Some _ => None
           | None =>
              if String.eqb rest "" then Some (bytes, Some (length bytes))
              else fields6 fuel bytes (Some (length bytes)) rest
           end
        | String ":"%char rest => fields6 fuel bytes ellipsis rest
        | _ => None
        end
     end
  end.

(** The sixteen bytes of an address without a zone. *)
Definition bytes6 (s : string) : option (list Z) :=
  r ← (match s with
       | String ":"%char (String ":"%char EmptyString) => Some ([], Some 0)
       | String ":"%char (String ":"%char t) => fields6 (S (len s)) [] (Some 0) t
       | _ => fields6 (S (len s)) [] None s
       end);
  let '(bytes, ellipsis) := r in
  match ellipsis with
  | None => if length bytes =? 16 then Some bytes else None
  | Some e =>
     if length bytes <? 16
     then Some (firstn e bytes ++ replicate (16 - length bytes) 0%Z ++ skipn e bytes)
     else None
  end.
End fields6.

Definition parseIPv6 (s : string) : option Addr :=
  let '(s, zone, ok) := match IndexByte s "%"%char with
    | Some i => (take i s, drop (S i) s, negb (String.eqb (drop (S i) s) ""))
    | None => (s, "", true)
    end in
  if negb ok then None else
  bytes ← bytes6 (λ digits _, 4 <? digits) parseIPv4 s;
  Some (Addr6 bytes zone).

(** The first dot or colon decides the family. *)
Fixpoint family (s : string) : option bool :=
  match s with
  | EmptyString => None
  | String "."%char _ => Some false
  | String ":"%char _ => Some true
  | String "%"%char _ => None
  | String _ s => family s
  end.

Definition ParseAddr (s : string) : option Addr :=
  match family s with
  | Some false => Addr4 <$> parseIPv4 s
  | Some true => parseIPv6 s
  | None => None
  end.

(** [strings.LastIndexByte] *)
Fixpoint LastIndexByte (s : string) (c : ascii) : option nat :=
  match s with
  | EmptyString => None
  | String d s =>
     match LastIndexByte s c with
     | Some i => Some (S i)
     | None => if Ascii.eqb d c then Some 0 else None
     end
  end.

(** A sign or a leading zero, which [ParsePrefix] refuses. *)
Definition signOrZero (bitsStr : string) : bool :=
  match bitsStr with
  | String c (String _ _) => negb ((49 <=? nat_of_ascii c) && (nat_of_ascii c <=? 57))
  | _ => false
  end.

(** [netip.ParsePrefix]: the address and the prefix length. *)
Definition ParsePrefix (s : string) : option (Addr * Z) :=
  i ← LastIndexByte s "/"%char;
  ip ← ParseAddr (take i s);
  if Is6 ip && negb (String.eqb (Zone ip) "") then None else
  let bitsStr := drop (S i) s in
  if signOrZero bitsStr then None else
  bits ← Strconv.Atoi bitsStr;
  if (bits <? 0)%Z || (BitLen ip <? bits)%Z then None else Some (ip, bits).

(** [dtoi]: the decimal number at the front, whether it is all of the string. *)
Definition maskBits (s : string) : option Z :=
  if String.eqb s "" then None else
  n ← Strconv.digits 0 s; if (16777215 <=? n)%Z then None else Some n.

(** The byte [i] of a masked address. *)
Definition maskByte (bits : Z) (i : nat) (b : Z) : Z :=
  let keep := Z.min 8 (Z.max 0 (bits - 8 * Z.of_nat i)) in
  Z.land b (Z.shiftl (2 ^ keep - 1) (8 - keep)).

(** [net.ParseCIDR], then whether [ipNet.IP.To4()] is non-nil. *)
Definition ParseCIDR_is4 (s : string) : option bool :=
  i ← IndexByte s "/"%char;
  a ← ParseAddr (take i s);
  if negb (String.eqb (Zone a) "") then None else
  n ← maskBits (drop (S i) s);
  if (BitLen a <? n)%Z then None else
  match a with
  | Addr4 _ => Some true
  | Addr6 bytes _ =>
     let m := imap (maskByte n) bytes in
     Some (forallb (λ b, Z.eqb b 0) (firstn 10 m) &&
           forallb (λ b, Z.eqb b 255) (firstn 2 (skipn 10 m)))
  end.

(** [isIPv6CIDR] (aws_loadbalancer.go) *)
Definition isIPv6CIDR (cidr : string) : bool :=
  match ParsePrefix cidr with
  | None => Contains cidr ":"
  | Some (addr, _) => Is6 addr
  end.

Example parse_v4 : ParsePrefix "10.0.0.0/8" = Some (Addr4 [10; 0; 0; 0]%Z, 8%Z).
Proof. reflexivity. Qed.
Example parse_v6 : ParsePrefix "2001:db8::/32" =
  Some (Addr6 [32; 1; 13; 184; 0; 0; 0; 0; 0; 0; 0; 0; 0; 0; 0; 0]%Z "", 32%Z).
Proof. reflexivity. Qed.
Example parse_mapped : (λ p, Is6 p.1) <$> ParsePrefix "::ffff:10.0.0.0/104" = Some true ∧
  ParseCIDR_is4 "::ffff:10.0.0.0/104" = Some true.
Proof. split; reflexivity. Qed.
Example parse_bad : ParsePrefix "10.0.0.0/08" = None ∧ ParsePrefix "1::2::3/64" = None ∧
  ParsePrefix "fe80::1%eth0/64" = None ∧ ParsePrefix "10.0.0.256/8" = None.
Proof. split_and!; reflexivity. Qed.

(** ** The string check suffices *)
Fixpoint byteIn (c : ascii) (s : string) : bool :=
  match s with
  | EmptyString => false
  | String d s => Ascii.eqb d c || byteIn c s
  end.

Lemma Contains_byte s c : Contains s (String c "") = byteIn c s.
Proof.
  induction s as [|d s IH]; [done|]. cbn [Contains byteIn]. rewrite IH. f_equal.
  unfold HasPrefix. simpl. destruct (Ascii.eqb_spec d c) as [->|Hne].
  - case_match; [by destruct s|done].
  - case_match; congruence.
Qed.

Lemma byteIn_split c s i : byteIn c s = byteIn c (take i s) || byteIn c (drop i s).
Proof.
  revert i. induction s as [|d s IH]; intros [|i]; simpl; try done. by rewrite (IH i), orb_assoc.
Qed.

Lemma LastIndexByte_drop s c i : LastIndexByte s c = Some i → drop i s = String c (drop (S i) s).
Proof.
  revert i. induction s as [|d s IH]; intros i; simpl; [done|].
  destruct (LastIndexByte s c) as [j|].
  - intros [= <-]. simpl. by rewrite (IH j).
  - destruct (Ascii.eqb_spec d c) as [->|]; [|done]. by intros [= <-].
Qed.

Lemma byteIn_Split c s sep :
  c ≠ sep → byteIn c s = existsb (byteIn c) (Split s sep).
Proof.
  intros Hne. induction s as [|d s IH]; simpl; [done|].
  destruct (Ascii.eqb_spec d sep) as [->|Hd].
  - simpl. destruct (Ascii.eqb_spec sep c) as [->|]; [done|]. apply IH.
  - destruct (Split s sep) as [|h t]; simpl in *; rewrite IH; [by rewrite !orb_false_r|]. by rewrite orb_assoc.
Qed.

Lemma digits_byteIn c acc s x :
  Strconv.digits acc s = Some x → byteIn c s = true → is_Some (Ascii.is_nat c).
Proof.
  revert acc. induction s as [|d s IH]; intros acc; simpl; [done|].
  destruct (Ascii.is_nat d) eqn:E; [|done]. intros Hd [->%Ascii.eqb_eq|H]%orb_true_iff; [by rewrite E|].
  by eapply IH.
Qed.

Lemma octet_colon s x : octet s = Some x → byteIn ":" s = false.
Proof.
  intros H. apply not_true_iff_false. intros Hc.
  assert (∃ y, Strconv.digits 0 s = Some y) as [y Hy].
  { unfold octet in H. destruct (Strconv.digits 0 s) eqn:E; [by eexists|].
    repeat case_match; simplify_option_eq. }
  destruct (digits_byteIn ":" 0 s y Hy Hc) as [? Hn]. done.
Qed.

Lemma parseIPv4_colon s l : parseIPv4 s = Some l → byteIn ":" s = false.
Proof.
  unfold parseIPv4. rewrite (byteIn_Split ":" s ".") by done.
  destruct (Split s ".") as [|a [|b [|c' [|d []]]]]; try done. intros H. simplify_option_eq.
  simpl. by erewrite !octet_colon by done.
Qed.

Lemma signless c (s : string) :
  c ≠ "+"%char → c ≠ "-"%char →
  (match String c s with
   | String "+" t => (false, t)
   | String "-" t => (true, t)
   | _ => (false, String c s)
   end)%char = (false, String c s).
Proof. intros. destruct c as [[][][][][][][][]]; done. Qed.

Lemma Atoi_colon s x : Strconv.Atoi s = Some x → byteIn ":" s = false.
Proof.
  intros H. apply not_true_iff_false. intros Hc. unfold Strconv.Atoi, Strconv.ParseInt in H.
  assert (∀ t y, Strconv.digits 0 t = Some y → byteIn ":" t = true → False) as Hd.
  { intros t y Hy Ht. by destruct (digits_byteIn ":" 0 t y Hy Ht). }
  destruct s as [|c s]; [done|].
  destruct (decide (c = "+"%char)) as [->|]; [|destruct (decide (c = "-"%char)) as [->|]].
  - simpl in H, Hc. destruct (String.eqb s ""); [done|].
    destruct (Strconv.digits 0 s) eqn:E; [|done]. eauto.
  - simpl in H, Hc. destruct (String.eqb s ""); [done|].
    destruct (Strconv.digits 0 s) eqn:E; [|done]. eauto.
  - destruct (Strconv.digits 0 (String c s)) eqn:E; [eauto|].
    rewrite signless in H by done. cbn [String.eqb] in H. by rewrite E in H.
Qed.

Lemma family_colon s : family s = Some true → byteIn ":" s = true.
Proof.
  induction s as [|c s IH]; simpl; [done|]. intros H. apply orb_true_iff.
  destruct (Ascii.eqb_spec c ":"%char) as [->|Hne]; [by left|right].
  apply IH. destruct c as [[][][][][][][][]]; simpl in *; done.
Qed.

Lemma parseIPv6_Is6 s a : parseIPv6 s = Some a → Is6 a = true.
Proof.
  unfold parseIPv6. destruct (match IndexByte s "%" with Some _ => _ | None => _ end) as [[t zone] ok].
  destruct (negb ok); [done|]. intros (bytes & _ & H)%bind_Some. by injection H as <-.
Qed.

(** [isIPv6CIDR] decides whether the text contains a colon: parsing and the
    fallback on unparsable text agree. *)
Theorem isIPv6CIDR_colon cidr : isIPv6CIDR cidr = Contains cidr ":".
Proof.
  unfold isIPv6CIDR, ParsePrefix. rewrite Contains_byte.
  destruct (LastIndexByte cidr "/") as [i|] eqn:Hi; cbn [mbind option_bind]; [|done].
  destruct (ParseAddr (take i cidr)) as [ip|] eqn:Ha; cbn [mbind option_bind]; [|done].
  destruct (Is6 ip && _); [done|].
  destruct (signOrZero (drop (S i) cidr)); [done|].
  destruct (Strconv.Atoi (drop (S i) cidr)) as [bits|] eqn:Hb; cbn [mbind option_bind]; [|done].
  destruct (_ || _); [done|]. rewrite (byteIn_split _ _ i).
  apply LastIndexByte_drop in Hi as ->. cbn [byteIn]. rewrite (Atoi_colon _ _ Hb).
  unfold ParseAddr in Ha. destruct (family (take i cidr)) as [[]|] eqn:Hf; [| |done].
  - rewrite (family_colon _ Hf). by eapply parseIPv6_Is6.
  - destruct (parseIPv4 (take i cidr)) as [l|] eqn:Hp; [|done]. injection Ha as <-.
    by rewrite (parseIPv4_colon _ _ Hp).
Qed.
