(* ===== verification/Regex.v ===== *)
(** * Regular expressions ([regexp])

    The patterns of the program are anchored at both ends.  A pattern is a term of [re];
    [FindStringSubmatch] matches it by backtracking with the preferences of Go (the first
    alternative, the longest repetition) and returns what the groups matched.  [lang] is
    the meaning of a pattern; [MatchString_lang] shows that the matcher decides it. *)

From S2P Require Import Prelude GoLib.
From Stdlib Require Import Ascii.
Import Strings.

Inductive re :=
  | Eps
  | Cls (f : ascii → bool)
  | Cat (a b : re)
  | Alt (a b : re)
  | Star (a : re)
  | Group (n : nat) (a : re).

Definition Plus (a : re) : re := Cat a (Star a).
Definition Opt (a : re) : re := Alt a Eps.
Fixpoint Times (n : nat) (a : re) : re :=
  match n with 0 => Eps | S n => Cat a (Times n a) end.
Fixpoint Lit (s : string) : re :=
  match s with EmptyString => Eps | String c s => Cat (Cls (Ascii.eqb c)) (Lit s) end.

(** The texts a pattern matches as a whole. *)
Inductive lang : re → string → Prop :=
  | lang_eps : lang Eps ""
  | lang_cls f c : f c = true → lang (Cls f) (String c "")
  | lang_cat a b s t : lang a s → lang b t → lang (Cat a b) (s +:+ t)
  | lang_left a b s : lang a s → lang (Alt a b) s
  | lang_right a b s : lang b s → lang (Alt a b) s
  | lang_stop a : lang (Star a) ""
  | lang_again a s t : lang a s → lang (Star a) t → lang (Star a) (s +:+ t)
  | lang_group n a s : lang a s → lang (Group n a) s.

(** The groups matched so far. *)
Abbreviation captures := (gmap nat string).

(** The text matched as a whole, with what the groups caught before and after. *)
Inductive caught : re → string → captures → captures → Prop :=
  | caught_eps c : caught Eps "" c c
  | caught_cls f b c : f b = true → caught (Cls f) (String b "") c c
  | caught_cat a b s t c c' c'' : caught a s c c' → caught b t c' c'' → caught (Cat a b) (s +:+ t) c c''
  | caught_left a b s c c' : caught a s c c' → caught (Alt a b) s c c'
  | caught_right a b s c c' : caught b s c c' → caught (Alt a b) s c c'
  | caught_stop a c : caught (Star a) "" c c
  | caught_again a s t c c' c'' :
      caught a s c c' → caught (Star a) t c' c'' → caught (Star a) (s +:+ t) c c''
  | caught_group n a s c c' : caught a s c c' → caught (Group n a) s c (<[n := s]> c').

Lemma caught_lang r s c c' : caught r s c c' → lang r s.
Proof. induction 1; eauto using lang. Qed.

Section repeat.
Context {A : Type} (body : string → captures → (string → captures → option A) → option A)
  (k : string → captures → option A).

(** A greedy repetition whose rounds consume something; the text bounds their number. *)
Fixpoint repeat_ (fuel : nat) (s : string) (c : captures) : option A :=
  match fuel with
  | 0 => k s c
  | S fuel =>
     match body s c (λ s' c', if len s' <? len s then repeat_ fuel s' c' else None) with
     | Some x => Some x
     | None => k s c
     end
  end.
End repeat.

Fixpoint backtrack {A} (r : re) (s : string) (c : captures)
    (k : string → captures → option A) : option A :=
  match r with
  | Eps => k s c
  | Cls f =>
     match s with
     | String b t => if f b then k t c else None
     | EmptyString => None
     end
  | Cat a b => backtrack a s c (λ s c, backtrack b s c k)
  | Alt a b =>
     match backtrack a s c k with
     | Some x => Some x
     | None => backtrack b s c k
     end
  | Star a => repeat_ (backtrack a) k (len s) s c
  | Group n a => backtrack a s c (λ s' c, k s' (<[n := take (len s - len s') s]> c))
  end.

(** Of the pattern between [^] and [$]. *)
Definition FindStringSubmatch (r : re) (s : string) : option captures :=
  backtrack r s ∅ (λ s c, if String.eqb s "" then Some c else None).

Definition MatchString (r : re) (s : string) : bool :=
  match FindStringSubmatch r s with Some _ => true | None => false end.

(** ** The matcher decides the language *)
Lemma app_assoc_s (s t u : string) : (s +:+ t) +:+ u = s +:+ t +:+ u.
Proof.
  induction s as [|c s IH]; [done|].
  change (String c ((s +:+ t) +:+ u) = String c (s +:+ t +:+ u)). by rewrite IH.
Qed.

Lemma app_nil_s (s : string) : s +:+ "" = s.
Proof. induction s as [|c s IH]; [done|]. change (String c (s +:+ "") = String c s). by rewrite IH. Qed.

Lemma take_consumed u s : take (len (u +:+ s) - len s) (u +:+ s) = u.
Proof.
  rewrite len_app. replace (len u + len s - len s) with (len u) by lia.
  induction u as [|c u IH]; [done|]. change (String c (take (len u) (u +:+ s)) = String c u). by rewrite IH.
Qed.

Lemma repeat_sound {A} (a : re) (k : string → captures → option A) fuel s c x :
  (∀ s c k x, backtrack (A := A) a s c k = Some x →
     ∃ u s' c', s = u +:+ s' ∧ caught a u c c' ∧ k s' c' = Some x) →
  repeat_ (backtrack a) k fuel s c = Some x →
  ∃ u s' c', s = u +:+ s' ∧ caught (Star a) u c c' ∧ k s' c' = Some x.
Proof.
  intros Ha. revert s c. induction fuel as [|fuel IH]; intros s c H; simpl in H.
  - exists "", s, c. by split_and!; [|constructor|].
  - destruct (backtrack a s c _) as [y|] eqn:E.
    + injection H as ->. apply Ha in E as (u & s' & c' & -> & Hu & E).
      case_match; [|done]. apply IH in E as (v & s'' & c'' & -> & Hv & E).
      exists (u +:+ v), s'', c''. by rewrite app_assoc_s; split_and!; [|by econstructor|].
    + exists "", s, c. by split_and!; [|constructor|].
Qed.

Lemma backtrack_sound {A} (r : re) s c (k : string → captures → option A) x :
  backtrack r s c k = Some x → ∃ u s' c', s = u +:+ s' ∧ caught r u c c' ∧ k s' c' = Some x.
Proof.
  revert s c k x. induction r as [|f|a IHa b IHb|a IHa b IHb|a IHa|n a IHa]; intros s c k x H; simpl in H.
  - exists "", s, c. by split_and!; [|constructor|].
  - destruct s as [|d t]; [done|]. destruct (f d) eqn:E; [|done].
    exists (String d ""), t, c. by split_and!; [|constructor|].
  - apply IHa in H as (u & s' & c' & -> & Hu & H). apply IHb in H as (v & s'' & c'' & -> & Hv & H).
    exists (u +:+ v), s'', c''. by rewrite app_assoc_s; split_and!; [|by econstructor|].
  - destruct (backtrack a s c k) eqn:E.
    + injection H as ->. apply IHa in E as (u & s' & c' & -> & Hu & E).
      exists u, s', c'. by split_and!; [|constructor|].
    + apply IHb in H as (u & s' & c' & -> & Hu & H). exists u, s', c'. by split_and!; [|apply caught_right|].
  - by eapply repeat_sound.
  - apply IHa in H as (u & s' & c' & -> & Hu & H). exists u, s', (<[n := u]> c').
    rewrite take_consumed in H. by split_and!; [|constructor|].
Qed.

(** A match gives what the groups caught on the whole text. *)
Lemma FindStringSubmatch_caught r s c : FindStringSubmatch r s = Some c → caught r s ∅ c.
Proof.
  unfold FindStringSubmatch. intros (u & s' & c' & -> & Hu & E)%backtrack_sound.
  destruct (String.eqb_spec s' ""); [|done]. subst. injection E as <-. by rewrite app_nil_s.
Qed.

(** A repetition is a sequence of rounds that consume something. *)
Inductive rounds (a : re) : string → Prop :=
  | rounds_stop : rounds a ""
  | rounds_again s t : lang a s → s ≠ "" → rounds a t → rounds a (s +:+ t).

Lemma rounds_lang a s : lang (Star a) s → rounds a s.
Proof.
  remember (Star a) as r eqn:E. intros H. induction H as [| | | | | |a' s t Hs _ Ht IH|]; simplify_eq.
  - constructor.
  - destruct s as [|c s]; [by apply IH|]. constructor; [done..|by apply IH].
Qed.

Lemma len_pos s : s ≠ "" → 0 < len s.
Proof. destruct s; [done|]. cbn. lia. Qed.

Lemma repeat_complete {A} (a : re) (k : string → captures → option A) u fuel s' c :
  (∀ u s' c k, lang a u → (∀ c', is_Some (k s' c')) → is_Some (backtrack (A := A) a (u +:+ s') c k)) →
  rounds a u → len u ≤ fuel → (∀ c', is_Some (k s' c')) →
  is_Some (repeat_ (backtrack a) k fuel (u +:+ s') c).
Proof.
  intros Ha Hu. revert fuel c. induction Hu as [|u v Hu Hne Hv IH]; intros fuel c Hf Hk.
  - destruct fuel as [|fuel]; cbn; [done|]. destruct (backtrack a _ _ _); [by eexists|done].
  - pose proof (len_pos u Hne). rewrite len_app in Hf. destruct fuel as [|fuel]; [lia|]. cbn [repeat_].
    rewrite app_assoc_s. destruct (Ha u (v +:+ s') c (λ s'0 c', if len s'0 <? len (u +:+ v +:+ s')
      then repeat_ (backtrack a) k fuel s'0 c' else None) Hu) as [y Hy]; [|].
    + intros c'. rewrite !len_app. destruct (Nat.ltb_spec (len v + len s') (len u + (len v + len s'))); [|lia].
      apply IH; [lia|done].
    + rewrite Hy. by eexists.
Qed.

Lemma backtrack_complete {A} (r : re) u s' c (k : string → captures → option A) :
  lang r u → (∀ c', is_Some (k s' c')) → is_Some (backtrack r (u +:+ s') c k).
Proof.
  revert u s' c k. induction r as [|f|a IHa b IHb|a IHa b IHb|a IHa|n a IHa]; intros u s' c k Hu Hk; cbn.
  - by inversion Hu.
  - inversion Hu as [|? d Hd| | | | | |]; subst. simpl. by rewrite Hd.
  - inversion Hu as [| |? ? s t Hs Ht| | | | |]; subst. rewrite app_assoc_s. apply IHa; [done|]. auto.
  - destruct (backtrack a _ _ _) eqn:E; [by eexists|].
    inversion Hu as [| | |? ? ? Hs|? ? ? Hs| | |]; subst; [|by apply IHb].
    destruct (IHa _ s' c k Hs Hk) as [x Hx]. congruence.
  - apply repeat_complete; [done|by apply rounds_lang|rewrite len_app; lia|done].
  - inversion Hu; subst. apply IHa; auto.
Qed.

Lemma FindStringSubmatch_lang r s : lang r s → is_Some (FindStringSubmatch r s).
Proof.
  intros Hs. unfold FindStringSubmatch. rewrite <-(app_nil_s s).
  apply backtrack_complete; [done|]. intros c'. by eexists.
Qed.

Lemma MatchString_lang r s : MatchString r s = true ↔ lang r s.
Proof.
  unfold MatchString. split.
  - destruct (FindStringSubmatch r s) as [c|] eqn:E; [|done]. intros _.
    by eapply caught_lang, FindStringSubmatch_caught.
  - intros [c ->]%FindStringSubmatch_lang. done.
Qed.
