(* ===== verification/Sha.v ===== *)
(** * Digests ([crypto/sha1], [crypto/sha256], [encoding/hex])

    Names of target groups and security groups end in the hexadecimal digest of what
    identifies them.  Words are 32 bits wide, with wrap-around. *)

From S2P Require Import Prelude GoLib.
From Stdlib Require Import Ascii.

Local Open Scope Z_scope.

Definition w32 (x : Z) : Z := x mod 2 ^ 32.
Definition add32 (x y : Z) : Z := w32 (x + y).
Definition rotl (n x : Z) : Z := Z.lor (w32 (Z.shiftl x n)) (Z.shiftr x (32 - n)).
Definition rotr (n x : Z) : Z := rotl (32 - n) x.
Definition not32 (x : Z) : Z := Z.lxor x (2 ^ 32 - 1).

Definition bytes_of (s : string) : list Z :=
  (λ c, Z.of_nat (nat_of_ascii c)) <$> String.list_ascii_of_string s.

(** The message, a one bit, zeros, and its length in bits: whole blocks of 64 bytes. *)
Definition pad (m : list Z) : list Z :=
  let n := Z.of_nat (length m) in
  m ++ [128] ++ replicate (Z.to_nat ((55 - n) mod 64)) 0 ++
  ((λ i, Z.land (Z.shiftr (8 * n) (8 * i)) 255) <$> [7; 6; 5; 4; 3; 2; 1; 0]).

Fixpoint words (l : list Z) : list Z :=
  match l with
  | a :: b :: c :: d :: l => (((a * 256 + b) * 256 + c) * 256 + d) :: words l
  | _ => []
  end.

Fixpoint blocks (fuel : nat) (l : list Z) : list (list Z) :=
  match fuel, l with
  | _, [] => []
  | O, _ => []
  | S fuel, _ => firstn 16 l :: blocks fuel (skipn 16 l)
  end.
Definition message_blocks (s : string) : list (list Z) :=
  let w := words (pad (bytes_of s)) in blocks (length w) w.

(** Extends the schedule, newest word first, by [n] words. *)
Fixpoint extend (next : list Z → Z) (n : nat) (w : list Z) : list Z :=
  match n with
  | O => w
  | S n => extend next n (next w :: w)
  end.
Definition nth0 (w : list Z) (n : nat) : Z := nth n w 0.

Definition hex8 (x : Z) : string :=
  let d (i : Z) := Errors.hex_digit (Z.to_nat (Z.land (Z.shiftr x (4 * i)) 15)) in
  String (d 7) (String (d 6) (String (d 5) (String (d 4)
    (String (d 3) (String (d 2) (String (d 1) (String (d 0) ""))))))).

(** ** SHA-1 *)
Definition sha1_next (w : list Z) : Z :=
  rotl 1 (Z.lxor (Z.lxor (nth0 w 2) (nth0 w 7)) (Z.lxor (nth0 w 13) (nth0 w 15))).

Definition sha1_round (st : Z * Z * Z * Z * Z) (tw : nat * Z) : Z * Z * Z * Z * Z :=
  let '(a, b, c, d, e) := st in
  let '(t, w) := tw in
  let '(f, k) :=
    if (t <? 20)%nat then (Z.lor (Z.land b c) (Z.land (not32 b) d), 1518500249)
    else if (t <? 40)%nat then (Z.lxor (Z.lxor b c) d, 1859775393)
    else if (t <? 60)%nat then (Z.lor (Z.lor (Z.land b c) (Z.land b d)) (Z.land c d), 2400959708)
    else (Z.lxor (Z.lxor b c) d, 3395469782) in
  (add32 (add32 (add32 (rotl 5 a) f) (add32 e k)) w, a, rotl 30 b, c, d).

Definition sha1_block (h : Z * Z * Z * Z * Z) (block : list Z) : Z * Z * Z * Z * Z :=
  let w := reverse (extend sha1_next 64 (reverse block)) in
  let '(a, b, c, d, e) := foldl sha1_round h (imap pair w) in
  let '(a0, b0, c0, d0, e0) := h in
  (add32 a0 a, add32 b0 b, add32 c0 c, add32 d0 d, add32 e0 e).

Definition sha1_hex (s : string) : string :=
  let '(a, b, c, d, e) := foldl sha1_block
    (1732584193, 4023233417, 2562383102, 271733878, 3285377520) (message_blocks s) in
  hex8 a +:+ hex8 b +:+ hex8 c +:+ hex8 d +:+ hex8 e.

(** ** SHA-256 *)

(** The largest [r] below 2^bits with r^k at most [n]. *)
Fixpoint rootBits (k n : Z) (bits : nat) (r : Z) : Z :=
  match bits with
  | 0%nat => r
  | S b =>
     let r' := r + 2 ^ Z.of_nat b in
     rootBits k n b (if r' ^ k <=? n then r' else r)
  end.

(** The first 32 bits of the fractional part of the [k]-th root of [p]. *)
Definition rootFraction (k p : Z) : Z := w32 (rootBits k (p * 2 ^ (32 * k)) 40 0).

Definition isPrime (n : Z) : bool :=
  (2 <=? n) && forallb (λ d, negb (Z.eqb (n mod Z.of_nat d) 0)) (seq 2 (Z.to_nat (Z.sqrt n) - 1)).

(** The primes below 312, sixty-four of them. *)
Definition firstPrimes : list Z :=
  Eval vm_compute in filter (λ n, isPrime n = true) (Z.of_nat <$> seq 2 310).

(** The round constants come from the cube roots of these primes, the initial state from
    the square roots of the first eight. *)
Definition sha256_k : list Z := Eval vm_compute in rootFraction 3 <$> firstPrimes.
Definition sha256_init : list Z := Eval vm_compute in rootFraction 2 <$> take 8 firstPrimes.

Definition sha256_next (w : list Z) : Z :=
  let x := nth0 w 14 in
  let y := nth0 w 1 in
  let s0 := Z.lxor (Z.lxor (rotr 7 x) (rotr 18 x)) (Z.shiftr x 3) in
  let s1 := Z.lxor (Z.lxor (rotr 17 y) (rotr 19 y)) (Z.shiftr y 10) in
  add32 (add32 (nth0 w 15) s0) (add32 (nth0 w 6) s1).

Definition sha256_round (st : Z * Z * Z * Z * (Z * Z * Z * Z)) (kw : Z * Z) :
    Z * Z * Z * Z * (Z * Z * Z * Z) :=
  let '(a, b, c, d, (e, f, g, h)) := st in
  let '(k, w) := kw in
  let s1 := Z.lxor (Z.lxor (rotr 6 e) (rotr 11 e)) (rotr 25 e) in
  let ch := Z.lxor (Z.land e f) (Z.land (not32 e) g) in
  let t1 := add32 (add32 (add32 h s1) (add32 ch k)) w in
  let s0 := Z.lxor (Z.lxor (rotr 2 a) (rotr 13 a)) (rotr 22 a) in
  let maj := Z.lxor (Z.lxor (Z.land a b) (Z.land a c)) (Z.land b c) in
  (add32 t1 (add32 s0 maj), a, b, c, (add32 d t1, e, f, g)).

Definition sha256_block (h : Z * Z * Z * Z * (Z * Z * Z * Z)) (block : list Z) :
    Z * Z * Z * Z * (Z * Z * Z * Z) :=
  let w := reverse (extend sha256_next 48 (reverse block)) in
  let '(a, b, c, d, (e, f, g, i)) := foldl sha256_round h (combine sha256_k w) in
  let '(a0, b0, c0, d0, (e0, f0, g0, i0)) := h in
  (add32 a0 a, add32 b0 b, add32 c0 c, add32 d0 d,
   (add32 e0 e, add32 f0 f, add32 g0 g, add32 i0 i)).

Definition sha256_hex (s : string) : string :=
  let '(a, b, c, d, (e, f, g, h)) := foldl sha256_block
    (nth0 sha256_init 0, nth0 sha256_init 1, nth0 sha256_init 2, nth0 sha256_init 3,
     (nth0 sha256_init 4, nth0 sha256_init 5, nth0 sha256_init 6, nth0 sha256_init 7)) (message_blocks s) in
  hex8 a +:+ hex8 b +:+ hex8 c +:+ hex8 d +:+ hex8 e +:+ hex8 f +:+ hex8 g +:+ hex8 h.

(** Published test vectors. *)
Example sha1_abc : sha1_hex "abc" = "a9993e364706816aba3e25717850c26c9cd0d89d".
Proof. vm_compute. reflexivity. Qed.
Example sha1_two_blocks :
  sha1_hex "abcdbcdecdefdefgefghfghighijhijkijkljklmklmnlmnomnopnopq" =
  "84983e441c3bd26ebaae4aa1f95129e5e54670f1".
Proof. vm_compute. reflexivity. Qed.
Example sha256_abc : sha256_hex "abc" =
  "ba7816bf8f01cfea414140de5dae2223b00361a396177a9cb410ff61f20015ad".
Proof. vm_compute. reflexivity. Qed.
Example sha256_empty : sha256_hex "" =
  "e3b0c44298fc1c149afbf4c8996fb92427ae41e4649b934ca495991b7852b855".
Proof. vm_compute. reflexivity. Qed.
