(* ===== verification/TargetGroups.v ===== *)
(** * Target groups of network load balancers (aws_loadbalancer.go)

    Names, targets, attributes, and creation or update of the target group and of the
    listener of one port. *)

From S2P Require Import Prelude GoLib Effects AwsApi Tags Config Cloud SecurityGroups Sha.
From Stdlib Require Import Ascii.
Import Strings Errors Strconv.

(** ** Data *)
Record healthCheckConfig := mkHealthCheckConfig {
  hc_Port : string;
  hc_Path : string;
  hc_Protocol : string;
  hc_Interval : Z;
  hc_Timeout : Z;
  hc_HealthyThreshold : Z;
  hc_UnhealthyThreshold : Z
}.

Record nlbPortMapping := mkNlbPortMapping {
  FrontendPort : Z;
  FrontendProtocol : string;
  TrafficPort : Z;
  TrafficProtocol : string;
  SSLCertificateARN : string;
  SSLPolicy : string;
  ALPNPolicy : string;
  HealthCheckConfig : healthCheckConfig
}.

Definition defaultRegisterTargetsChunkSize : nat := 100.
Definition defaultDeregisterTargetsChunkSize : nat := 100.

(** The values of the SDK's enumerations. *)
Definition ProtocolEnumTcp := "TCP".
Definition TargetTypeEnumInstance := "instance".
Definition TargetHealthReasonEnumDeregistrationInProgress := "Target.DeregistrationInProgress".

(** ** Names *)

(** What [invalidELBV2NameRegex] leaves of a name. *)
Definition sanitized : string → string := keep_bytes is_alnum.

(** The digest of the concatenation is that of the successive writes. *)
Definition buildTargetGroupName (c : Cloud) (serviceName : NamespacedName)
    (servicePort nodePort : Z) (targetProtocol targetType : string) (mapping : nlbPortMapping)
    (ipAddressType : string) : string :=
  let tgUUID := sha1_hex (
    clusterID (c_tagging c) +:+ nn_Namespace serviceName +:+ nn_Name serviceName +:+
    Itoa servicePort +:+ Itoa nodePort +:+ targetProtocol +:+ targetType +:+
    hc_Protocol (HealthCheckConfig mapping) +:+ Itoa (hc_Interval (HealthCheckConfig mapping)) +:+
    ipAddressType) in
  "k8s-" +:+ take 8 (sanitized (nn_Namespace serviceName)) +:+
  "-" +:+ take 8 (sanitized (nn_Name serviceName)) +:+
  "-" +:+ take 10 tgUUID.

(** ** Targets *)
Definition computeTargetGroupExpectedTargets (instanceIDs : list string) (port : Z) :
    list TargetDescription :=
  (λ instanceID, mkTargetDescription (Some instanceID) (Some port)) <$> instanceIDs.

(** The targets answered may be nil pointers; a nil [TargetHealth] is a panic. *)
Fixpoint activeTargets (l : list TargetHealthDescription) :
    option (list (option TargetDescription)) :=
  match l with
  | [] => Some []
  | targetDesc :: l =>
     reason ← th_Reason targetDesc;
     actualTargets ← activeTargets l;
     Some (if String.eqb reason TargetHealthReasonEnumDeregistrationInProgress
           then actualTargets else th_Target targetDesc :: actualTargets)
  end.

Definition obtainTargetGroupActualTargets (tgARN : string) :
    prog awsE (result (list (option TargetDescription))) :=
  let? resp := elbv2 (DescribeTargetHealth tgARN)
    else (λ err, Errorf "error describing target group health: %q" [Error err]) in
  let! actualTargets := no_panic (activeTargets resp) in
  Ret (Ok actualTargets).

Definition targetUID (target : TargetDescription) : string :=
  Sprintf "%v:%v" [ToString (td_Id target); Itoa (ToInt32 (td_Port target))].

Definition targetsByUID (targets : list TargetDescription) : gmap string TargetDescription :=
  foldl (λ m target, <[targetUID target := target]> m) ∅ targets.

(** The values of the keys of [a] that are not keys of [b], in the order of the keys. *)
Definition targetsNotIn (a b : gmap string TargetDescription) : list TargetDescription :=
  omap (λ uid, a !! uid) (SortStrings (elements (dom a ∖ dom b))).

(** To register, and to deregister; [None] is the dereference of a nil target. *)
Definition diffTargetGroupTargets (expectedTargets : list TargetDescription)
    (actualTargets : list (option TargetDescription)) :
    option (list TargetDescription * list TargetDescription) :=
  actualTargets ← mapM id actualTargets;
  let expectedTargetsByUID := targetsByUID expectedTargets in
  let actualTargetsByUID := targetsByUID actualTargets in
  Some (targetsNotIn expectedTargetsByUID actualTargetsByUID,
        targetsNotIn actualTargetsByUID expectedTargetsByUID).

(** The loop over the start of a chunk; the start grows, so the length is fuel enough. *)
Fixpoint chunkLoop (fuel i : nat) (targets : list TargetDescription) (chunkSize : nat) :
    list (list TargetDescription) :=
  match fuel with
  | 0 => []
  | S fuel =>
     if i <? length targets then
       let end_ := if length targets <? i + chunkSize then length targets else i + chunkSize in
       firstn (end_ - i) (skipn i targets) :: chunkLoop fuel (i + chunkSize) targets chunkSize
     else []
  end.

Definition chunkTargetDescriptions (targets : list TargetDescription) (chunkSize : nat) :
    list (list TargetDescription) :=
  chunkLoop (S (length targets)) 0 targets chunkSize.

Definition ensureTargetGroupTargets (tgARN : string) (expectedTargets : list TargetDescription)
    (actualTargets : list (option TargetDescription)) : prog awsE (result unit) :=
  let! (targetsToRegister, targetsToDeregister) :=
    no_panic (diffTargetGroupTargets expectedTargets actualTargets) in
  let? _ := (if negb (length targetsToDeregister =? 0) then
      each (λ targetsChunk,
        let? _ := elbv2 (DeregisterTargets tgARN targetsChunk)
          else (λ err, Errorf "error trying to deregister targets in target group: %q" [Error err]) in
        Ret (Ok tt))
        (chunkTargetDescriptions targetsToDeregister defaultDeregisterTargetsChunkSize)
    else Ret (Ok tt)) in
  if negb (length targetsToRegister =? 0) then
    each (λ targetsChunk,
      let? _ := elbv2 (RegisterTargets tgARN targetsChunk)
        else (λ err, Errorf "error trying to register targets in target group: %q" [Error err]) in
      Ret (Ok tt))
      (chunkTargetDescriptions targetsToRegister defaultRegisterTargetsChunkSize)
  else Ret (Ok tt).

Section target_groups.
Context {GR : GoRange}.

(** Tags of a resource, in the order of an iteration over the map. *)
Definition elbTags (tags : gmap string string) : list Tag :=
  (λ '(k, v), mkTag (Some k) (Some v)) <$> range_map tags.

(** ** Attributes *)
Definition buildTargetGroupAttributes (tg : option TargetGroup) (tgAttributes : slice Attribute)
    (annotations : gmap string string) : result (list Attribute) :=
  let errPrefix := "error building target group attributes" in
  match tg, tgAttributes with
  | None, _ => Err (Errorf "%s: target group is nil" [errPrefix])
  | _, None => Err (Errorf "%s: target group attributes are nil" [errPrefix])
  | Some _, Some tgAttributes =>
     let existingAttributes : gmap string string :=
       foldl (λ m attr, <[ToString (at_Key attr) := ToString (at_Value attr)]> m) ∅ tgAttributes in
     let annotationAttributes := getKeyValuePropertiesFromAnnotation annotations
       ServiceAnnotationLoadBalancerTargetGroupAttributes in
     Ok (omap (λ '(attrKey, attrValue),
       match existingAttributes !! attrKey with
       | None => None
       | Some v => if String.eqb attrValue v then None
                   else Some (mkAttribute (Some attrKey) (Some attrValue))
       end) (range_map annotationAttributes))
  end.

Definition ensureTargetGroupAttributes (tg : option TargetGroup) (annotations : gmap string string) :
    prog awsE (result unit) :=
  match tg with
  | None => Ret (Err (Errorf "unable to reconcile target group attributes: target group is required" []))
  | Some tg =>
  let? tgAttributes := elbv2 (DescribeTargetGroupAttributes (tg_TargetGroupArn tg))
    else wrap "unable to retrieve target group attributes during attribute sync: %w" [] in
  let? desiredTargetGroupAttributes := Ret (buildTargetGroupAttributes (Some tg) tgAttributes annotations)
    else wrap "unable to build target group attributes: %w" [] in
  if length desiredTargetGroupAttributes =? 0 then Ret (Ok tt) else
  let? _ := elbv2 (ModifyTargetGroupAttributes (tg_TargetGroupArn tg) desiredTargetGroupAttributes)
    else wrap "unable to modify target group attributes during attribute sync: %w" [] in
  Ret (Ok tt)
  end.

Definition reconcileTargetGroupsAttributes (lbARN : string) (annotations : gmap string string) :
    prog awsE (result unit) :=
  if len lbARN =? 0 then
    Ret (Err (Errorf "error updating target groups attributes: load balancer ARN is empty" []))
  else
  let? targetGroups := elbv2 (DescribeTargetGroups (Some lbARN) [])
    else wrap "error updating target groups attributes from load balancer %q: %w" [lbARN] in
  let! errs := loop_all (λ errs tg,
    let! r := ensureTargetGroupAttributes (Some tg) annotations in
    match r with
    | Err err => Ret (errs ++ [wrap "error updating target group attributes for target group %q: %w"
                                 [ToString (tg_TargetGroupArn tg)] err])
    | Ok _ => Ret errs
    end) targetGroups [] in
  if negb (length errs =? 0) then
    Ret (Err (Errorf "one or more errors occurred while updating target group attributes: %v"
                [fmtErrs errs]))
  else Ret (Ok tt).

(** ** Creation and update *)
Definition createTargetGroupInput (c : Cloud) (serviceName : NamespacedName)
    (mapping : nlbPortMapping) (vpcID : string) (tags : gmap string string)
    (ipAddressType : string) : CreateTargetGroupInput :=
  let targetType := TargetTypeEnumInstance in
  let hc := HealthCheckConfig mapping in
  mkCreateTargetGroupInput vpcID
    (buildTargetGroupName c serviceName (FrontendPort mapping) (TrafficPort mapping)
       (TrafficProtocol mapping) targetType mapping ipAddressType)
    (TrafficPort mapping) (TrafficProtocol mapping) targetType ipAddressType
    (hc_Interval hc) (hc_Port hc) (hc_Protocol hc) (hc_HealthyThreshold hc)
    (hc_UnhealthyThreshold hc)
    (if negb (String.eqb (hc_Protocol hc) ProtocolEnumTcp) then Some (hc_Path hc) else None)
    (if negb (size tags =? 0) then elbTags tags else []).

(** The health-check block: the input of [ModifyTargetGroup] when something differs.  The
    path is compared with the path of the new, empty input. *)
Definition healthCheckChange (targetGroup : TargetGroup) (mapping : nlbPortMapping) :
    option ModifyTargetGroupInput :=
  let hc := HealthCheckConfig mapping in
  let portDiffers := negb (String.eqb (hc_Port hc) (ToString (tg_HealthCheckPort targetGroup))) in
  let thresholdDiffers :=
    negb (Z.eqb (hc_HealthyThreshold hc) (ToInt32 (tg_HealthyThresholdCount targetGroup))) in
  let inputHealthCheckPath : option string := None in
  let pathDiffers := negb (EqualFold (hc_Protocol hc) ProtocolEnumTcp) &&
    negb (String.eqb (hc_Path hc) (ToString inputHealthCheckPath)) in
  if portDiffers || thresholdDiffers || pathDiffers then
    Some (mkModifyTargetGroupInput (tg_TargetGroupArn targetGroup)
      (if portDiffers then Some (hc_Port hc) else None)
      (if thresholdDiffers then Some (hc_HealthyThreshold hc) else None)
      (if thresholdDiffers then Some (hc_UnhealthyThreshold hc) else None)
      (if pathDiffers then Some (hc_Path hc) else None))
  else None.

Definition ensureTargetGroup (c : Cloud) (targetGroup : option TargetGroup)
    (serviceName : NamespacedName) (mapping : nlbPortMapping) (instances : list string)
    (vpcID : string) (tags : gmap string string) (ipAddressType : string) :
    prog awsE (result TargetGroup) :=
  let expectedTargets := computeTargetGroupExpectedTargets instances (TrafficPort mapping) in
  match targetGroup with
  | None =>
     let? result := elbv2 (CreateTargetGroup
         (createTargetGroupInput c serviceName mapping vpcID tags ipAddressType))
       else (λ err, Errorf "error creating load balancer target group: %q" [Error err]) in
     match result with
     | [tg] =>
        let? _ := ensureTargetGroupTargets (ToString (tg_TargetGroupArn tg)) expectedTargets [] in
        Ret (Ok tg)
     | _ => Ret (Err (Errorf "expected only one target group on CreateTargetGroup, got %d groups"
                        [Itoa (Z.of_nat (length result))]))
     end
  | Some targetGroup =>
     let tgARN := ToString (tg_TargetGroupArn targetGroup) in
     let? actualTargets := obtainTargetGroupActualTargets tgARN in
     let? _ := ensureTargetGroupTargets tgARN expectedTargets actualTargets in
     match healthCheckChange targetGroup mapping with
     | Some input =>
        let? _ := elbv2 (ModifyTargetGroup input)
          else (λ err, Errorf "error modifying target group health check: %q" [Error err]) in
        let? result := elbv2 (DescribeTargetGroups None [ToString (tg_TargetGroupArn targetGroup)])
          else (λ err, Errorf "error retrieving target group after creation/update: %q" [Error err]) in
        let! targetGroup := no_panic (head result) in
        Ret (Ok targetGroup)
     | None => Ret (Ok targetGroup)
     end
  end.

Definition createListenerV2 (c : Cloud) (loadBalancerArn : option string) (mapping : nlbPortMapping)
    (namespacedName : NamespacedName) (instanceIDs : list string) (vpcID : string)
    (tags : gmap string string) (ipAddressType : string) : prog awsE (result Listener) :=
  let? target := ensureTargetGroup c None namespacedName mapping instanceIDs vpcID tags
    ipAddressType in
  let tls := String.eqb (FrontendProtocol mapping) "TLS" in
  let? listeners := elbv2 (CreateListener (mkCreateListenerInput loadBalancerArn
      (FrontendPort mapping) (FrontendProtocol mapping) (tg_TargetGroupArn target)
      (if tls && negb (String.eqb (SSLPolicy mapping) "") then Some (SSLPolicy mapping) else None)
      (if tls && negb (String.eqb (ALPNPolicy mapping) "") then [ALPNPolicy mapping] else [])
      (if tls then [SSLCertificateARN mapping] else [])
      (elbTags tags)))
    else (λ err, Errorf "error creating load balancer listener: %q" [Error err]) in
  let! listener := no_panic (head listeners) in
  Ret (Ok listener).

(** A listener without a default action is a panic, after its deletion. *)
Definition deleteListenerV2 (listener : Listener) : prog awsE (result unit) :=
  let? _ := elbv2 (DeleteListener (ls_ListenerArn listener))
    else (λ err, Errorf "error deleting load balancer listener: %q" [Error err]) in
  let! targetGroupArn := no_panic (head (ls_DefaultActions listener)) in
  let? _ := elbv2 (DeleteTargetGroup targetGroupArn)
    else (λ err, Errorf "error deleting load balancer target group: %q" [Error err]) in
  Ret (Ok tt).

End target_groups.
