(* ===== verification/TargetGroupFacts.v ===== *)
(** * Correctness of the target-group operations

    Names AWS accepts, exact registration of targets in bounded batches, and
    convergence of attributes and health checks. *)

From S2P Require Import Prelude GoLib Effects Json AwsApi Tags Config Cloud SecurityGroups Sha TargetGroups.
From Stdlib Require Import Ascii.
Import Strings Errors Strconv.

(** ** Names *)
Definition hyphen_or_alnum (c : ascii) : bool := is_alnum c || Ascii.eqb c "-".

(** The last byte. *)
Definition last_byte (s : string) : option ascii := last (String.list_ascii_of_string s).

Lemma hex_digit_alnum n : n < 16 → is_alnum (hex_digit n) = true.
Proof.
  intros H. do 16 (destruct n as [|n]; [done|]). lia.
Qed.

Lemma hex8_alnum x : all_bytes is_alnum (hex8 x) = true.
Proof.
  assert (∀ y, Z.to_nat (Z.land y 15) < 16) as B.
  { intros y. rewrite (Z.land_ones _ 4) by lia. pose proof (Z.mod_pos_bound y (2 ^ 4)). lia. }
  unfold hex8. cbn [all_bytes]. by rewrite !hex_digit_alnum by apply B.
Qed.

Lemma sha1_hex_alnum s : all_bytes is_alnum (sha1_hex s) = true ∧ len (sha1_hex s) = 40.
Proof.
  unfold sha1_hex. destruct (foldl _ _ _) as [[[[a b] c] d] e].
  rewrite !all_bytes_app, !hex8_alnum, !len_app. done.
Qed.

Lemma last_byte_app s t b : last_byte t = Some b → last_byte (s +:+ t) = Some b.
Proof.
  intros Ht. unfold last_byte in *. induction s as [|c s IH]; [done|].
  change (String c s +:+ t) with (String c (s +:+ t)). cbn [String.list_ascii_of_string].
  by destruct (String.list_ascii_of_string (s +:+ t)).
Qed.

Lemma last_byte_all f s c : all_bytes f s = true → last_byte s = Some c → f c = true.
Proof.
  unfold last_byte. intros Hs Hc. assert (c ∈ String.list_ascii_of_string s) as Hin.
  { by apply last_Some_elem_of. }
  clear Hc. induction s as [|d s IH]; simpl in *; [set_solver|].
  apply andb_true_iff in Hs as [Hd Hs]. apply elem_of_cons in Hin as [->|]; auto.
Qed.

(** A name AWS accepts for a target group or a security group: 16 to 32 bytes, letters,
    digits and hyphens, our prefix first and no hyphen last. *)
Definition valid_name (name : string) : Prop :=
  16 ≤ len name ≤ 32 ∧ all_bytes hyphen_or_alnum name = true ∧ HasPrefix name "k8s-" = true ∧
  ∃ b, last_byte name = Some b ∧ is_alnum b = true.

Lemma k8s_name_valid ns n uuid :
  all_bytes is_alnum uuid = true → 10 ≤ len uuid →
  valid_name ("k8s-" +:+ take 8 (keep_bytes is_alnum ns) +:+ "-" +:+
    take 8 (keep_bytes is_alnum n) +:+ "-" +:+ take 10 uuid).
Proof.
  intros Ha Hl.
  assert (∀ s, all_bytes is_alnum s = true → all_bytes hyphen_or_alnum s = true) as Hm.
  { intros s. apply all_bytes_mono. intros x E. unfold hyphen_or_alnum. by rewrite E. }
  split_and!; try (rewrite !len_app, !len_take; change (len "k8s-") with 4; change (len "-") with 1; lia).
  - rewrite !all_bytes_app.
    rewrite (Hm (take 8 (keep_bytes _ n))), (Hm (take 8 (keep_bytes _ _))), (Hm (take 10 _))
      by auto using all_bytes_take, all_bytes_keep. done.
  - apply prefix_app.
  - destruct (last_byte (take 10 uuid)) as [b|] eqn:E.
    + exists b. split; [|by eapply last_byte_all; [apply all_bytes_take|]].
      by repeat apply last_byte_app.
    + destruct uuid as [|x [|]]; simpl in *; try lia.
      unfold last_byte in E. apply last_None in E. done.
Qed.

(** The name of a target group is one AWS accepts, whatever the names of the
    namespace and of the service: 16 to 32 bytes, letters, digits and hyphens, with a
    letter first and no hyphen last. *)
Theorem buildTargetGroupName_valid c serviceName servicePort nodePort proto type mapping ipType :
  valid_name
    (buildTargetGroupName c serviceName servicePort nodePort proto type mapping ipType).
Proof.
  apply k8s_name_valid; [apply sha1_hex_alnum|]. rewrite (proj2 (sha1_hex_alnum _)). lia.
Qed.

(** ** Targets *)
Definition target_key (t : TargetDescription) : string * Z :=
  (ToString (td_Id t), ToInt32 (td_Port t)).
Definition keyset (l : list TargetDescription) : gset (string * Z) :=
  list_to_set (target_key <$> l).

Lemma app_string_nil_r (s : string) : s +:+ "" = s.
Proof. induction s as [|c s IH]; [done|]. change (String c (s +:+ "") = String c s). by rewrite IH. Qed.

(** A separator that does not occur after it splits in one way. *)
Lemma split_last (c : ascii) (s s' u u' : string) :
  all_bytes (λ d, negb (Ascii.eqb d c)) u = true →
  all_bytes (λ d, negb (Ascii.eqb d c)) u' = true →
  s +:+ String c u = s' +:+ String c u' → s = s' ∧ u = u'.
Proof.
  assert (∀ w v, all_bytes (λ d, negb (Ascii.eqb d c)) (w +:+ String c v) = false) as F.
  { intros w v. rewrite all_bytes_app. cbn [all_bytes]. rewrite Ascii.eqb_refl. apply andb_false_r. }
  intros Hu Hu'. revert s'. induction s as [|d s IH]; intros [|d' s'] E.
  - by injection E.
  - change (String c u = String d' (s' +:+ String c u')) in E. injection E as -> ->.
    by rewrite F in Hu.
  - change (String d (s +:+ String c u) = String c u') in E. injection E as -> <-.
    by rewrite F in Hu'.
  - change (String d (s +:+ String c u) = String d' (s' +:+ String c u')) in E.
    injection E as -> E. by apply IH in E as [-> ->].
Qed.

Lemma Itoa_no_colon x : all_bytes (λ d, negb (Ascii.eqb d ":")) (Itoa x) = true.
Proof.
  unfold Itoa. pose proof (pretty_Z_chars x) as H.
  induction (pretty x) as [|d s IH]; simpl in *; [done|].
  apply Forall_cons in H as [Hd Hs]. rewrite IH by done.
  destruct (Ascii.eqb_spec d ":") as [->|]; [|done]. destruct Hd as [Hd|Hd]; [by destruct Hd|discriminate].
Qed.

Lemma targetUID_key t t' : targetUID t = targetUID t' ↔ target_key t = target_key t'.
Proof.
  unfold targetUID, target_key. split; [|by intros [= -> ->]].
  assert (∀ a b, Sprintf "%v:%v" [a; b] = a +:+ String ":" b) as E.
  { intros a b. cbn [Sprintf]. cbn. by rewrite app_string_nil_r. }
  rewrite !E. intros [-> Hp]%split_last; auto using Itoa_no_colon. f_equal.
  by apply (inj pretty) in Hp.
Qed.

Lemma targetsByUID_lookup l uid :
  targetsByUID l !! uid =
  last (filter (λ t, targetUID t = uid) l).
Proof.
  unfold targetsByUID. induction l as [|t l IH] using rev_ind; [done|].
  rewrite foldl_snoc, filter_app. destruct (decide (targetUID t = uid)) as [<-|Hn].
  - rewrite lookup_insert_eq, filter_cons_True, filter_nil by done. by rewrite last_snoc.
  - rewrite lookup_insert_ne, filter_cons_False, filter_nil by done. by rewrite app_nil_r, IH.
Qed.

Lemma targetsByUID_Some l uid t : targetsByUID l !! uid = Some t → t ∈ l ∧ targetUID t = uid.
Proof.
  rewrite targetsByUID_lookup. intros H%last_Some_elem_of. by apply list_elem_of_filter in H as [].
Qed.

Lemma targetsByUID_is_Some l t :
  is_Some (targetsByUID l !! targetUID t) ↔ target_key t ∈ keyset l.
Proof.
  unfold keyset. rewrite elem_of_list_to_set, list_elem_of_fmap. split.
  - intros [t' [Ht E]%targetsByUID_Some]. exists t'. split; [|done].
    symmetry. by apply targetUID_key.
  - intros (t' & E & Ht). rewrite targetsByUID_lookup. apply not_eq_None_Some. rewrite last_None.
    intros Hn. assert (t' ∈ filter (λ t0, targetUID t0 = targetUID t) l) as Hf.
    { apply list_elem_of_filter. split; [|done]. by apply targetUID_key. }
    rewrite Hn in Hf. set_solver.
Qed.

(** The keys of a difference of maps are the difference of the keys. *)
Lemma keyset_targetsNotIn l l' :
  keyset (targetsNotIn (targetsByUID l) (targetsByUID l')) = keyset l ∖ keyset l'.
Proof.
  apply set_eq. intros x. unfold targetsNotIn.
  rewrite elem_of_difference. unfold keyset at 1. rewrite elem_of_list_to_set, list_elem_of_fmap.
  setoid_rewrite list_elem_of_omap.
  setoid_rewrite (merge_sort_Permutation String.le _). setoid_rewrite elem_of_elements.
  setoid_rewrite elem_of_difference. setoid_rewrite elem_of_dom. split.
  - intros (t & -> & uid & [_ Hn] & Ht). apply targetsByUID_Some in Ht as [Ht <-].
    rewrite <-!targetsByUID_is_Some. split; [|done]. rewrite targetsByUID_is_Some.
    unfold keyset. set_solver.
  - intros [Hx Hn]. unfold keyset in Hx. apply elem_of_list_to_set, list_elem_of_fmap in Hx as (t & -> & Ht).
    destruct (proj2 (targetsByUID_is_Some l t)) as [t' Ht']; [unfold keyset; set_solver|].
    exists t'. destruct (targetsByUID_Some _ _ _ Ht') as [_ E]. apply targetUID_key in E.
    split; [done|]. exists (targetUID t). split; [|done]. split; [by eexists|].
    by rewrite targetsByUID_is_Some.
Qed.

(** *** Batches *)
Lemma chunkLoop_spec fuel i (l : list TargetDescription) n :
  0 < n → length l < fuel + i →
  concat (chunkLoop fuel i l n) = skipn i l ∧
  Forall (λ chunk, 1 ≤ length chunk ≤ n) (chunkLoop fuel i l n).
Proof.
  intros Hn. revert i. induction fuel as [|fuel IH]; intros i Hf; simpl.
  - split; [|constructor]. symmetry. apply drop_ge. lia.
  - destruct (Nat.ltb_spec i (length l)) as [Hi|Hi]; [|split; [symmetry; apply drop_ge; lia|constructor]].
    destruct (IH (i + n)) as [E Hc]; [lia|].
    assert (∀ k, (if length l <? i + n then length l else i + n) = k →
      i + n = k ∨ k = length l ∧ length l < i + n) as Hk.
    { intros k. destruct (Nat.ltb_spec (length l) (i + n)); lia. }
    specialize (Hk _ eq_refl). set (k := if _ <? _ then _ else _) in *. clearbody k. split.
    + simpl. rewrite E. rewrite <-(take_drop (k - i) (list.drop i l)) at 2. f_equal.
      rewrite drop_drop. destruct Hk as [<-|[-> ?]]; [f_equal; lia|]. rewrite !drop_ge by lia. done.
    + constructor; [|done]. rewrite length_firstn, length_skipn. lia.
Qed.

Lemma chunkTargetDescriptions_spec l n :
  0 < n →
  concat (chunkTargetDescriptions l n) = l ∧
  Forall (λ chunk, 1 ≤ length chunk ≤ n) (chunkTargetDescriptions l n).
Proof. intros Hn. apply (chunkLoop_spec _ 0 l n Hn). lia. Qed.

(** *** Registration *)

(** A successful call registers or deregisters the targets it is given. *)
Definition target_effect (S : gset (string * Z)) (ev : event awsE) : gset (string * Z) :=
  if is_ok (ev_answer ev) then
    match ev_call ev with
    | ELBV2 (RegisterTargets _ l) => S ∪ keyset l
    | ELBV2 (DeregisterTargets _ l) => S ∖ keyset l
    | _ => S
    end
  else S.
Definition registered (S : gset (string * Z)) (tr : list (event awsE)) : gset (string * Z) :=
  foldl target_effect S tr.

(** The call is a batch of 1 to 100 targets of one target group. *)
Definition deregisters (arn : string) (ev : event awsE) : Prop :=
  match ev_call ev with
  | ELBV2 (DeregisterTargets a l) => a = arn ∧ 1 ≤ length l ≤ 100
  | _ => False
  end.
Definition registers (arn : string) (ev : event awsE) : Prop :=
  match ev_call ev with
  | ELBV2 (RegisterTargets a l) => a = arn ∧ 1 ≤ length l ≤ 100
  | _ => False
  end.

(** Deregistrations come first; the targets that stay are never touched, and nothing but
    the expected targets is added; success leaves exactly the expected targets. *)
Definition exact_targets (arn : string) (expected actual : gset (string * Z))
    (tr : list (event awsE)) (o : outcome (result unit)) : Prop :=
  (∃ d r, tr = d ++ r ∧ Forall (deregisters arn) d ∧ Forall (registers arn) r) ∧
  expected ∩ actual ⊆ registered actual tr ⊆ expected ∪ actual ∧
  match o with
  | Done (Ok _) => registered actual tr = expected
  | Done (Err _) => True
  | Panicked _ => False
  end.

Lemma keyset_app l l' : keyset (l ++ l') = keyset l ∪ keyset l'.
Proof. unfold keyset. by rewrite fmap_app, list_to_set_app_L. Qed.

(** The calls of one of the two loops: [S past] is what is registered after the batches
    [past], in front of the calls [t0]. *)
Lemma wp_batches (f : list TargetDescription → elbv2E unit) (P : event awsE → Prop) (w : error → error)
    (actual : gset (string * Z)) (St : list TargetDescription → gset (string * Z)) t0 l Q :
  (∀ chunk r, 1 ≤ length chunk ≤ 100 → P (Ev (ELBV2 (f chunk)) r)) →
  registered actual t0 = St [] →
  (∀ past chunk, target_effect (St past) (Ev (ELBV2 (f chunk)) (Ok tt)) = St (past ++ chunk)) →
  (∀ past rest u e, l = past ++ rest → Forall P u →
     registered actual (t0 ++ u) = St past → Q (t0 ++ u) (Done (Err e))) →
  (∀ u, Forall P u → registered actual (t0 ++ u) = St l → Q (t0 ++ u) (Done (Ok tt))) →
  wp (each (λ chunk, let? _ := elbv2 (f chunk) else w in Ret (Ok tt))
        (chunkTargetDescriptions l 100)) Q t0.
Proof.
  intros HP H0 Hstep Herr Hok.
  destruct (chunkTargetDescriptions_spec l 100) as [Hl Hc]; [lia|].
  apply (wp_each_done _ _ (λ past t, ∃ u, t = t0 ++ u ∧ Forall P u ∧
    registered actual t = St (concat past))).
  - exists []. rewrite app_nil_r. auto.
  - intros past chunk rest t E (u & -> & Hu & HS). simpl. intros r.
    assert (1 ≤ length chunk ≤ 100) as Hlen.
    { rewrite E in Hc. apply Forall_app in Hc as [_ Hc]. by apply Forall_cons in Hc as []. }
    destruct r as [[]|e]; simpl; rewrite <-(assoc_L (++)).
    + exists (u ++ [Ev (ELBV2 (f chunk)) (Ok tt)]). split_and!; [done|..].
      * apply Forall_app. auto.
      * rewrite (assoc_L (++)). unfold registered in *. rewrite foldl_snoc, HS.
        rewrite concat_app. simpl. rewrite app_nil_r. apply Hstep.
    + apply (Herr (concat past) (concat (chunk :: rest))).
      * by rewrite <-Hl, E, concat_app.
      * apply Forall_app. auto.
      * rewrite (assoc_L (++)). unfold registered in *. by rewrite foldl_snoc, HS.
  - intros t (u & -> & Hu & HS). apply Hok; [done|]. by rewrite HS, Hl.
Qed.

Lemma mapM_id_Some {A} (l : list A) : mapM id (Some <$> l) = Some l.
Proof. by apply mapM_Some, Forall2_fmap_l, Forall_Forall2_diag, Forall_true. Qed.

Section plan.
Implicit Types e a r : gset (string * Z).

Lemma plan_remove e a r : r ⊆ a ∖ e → e ∩ a ⊆ a ∖ r ⊆ e ∪ a.
Proof. set_solver. Qed.

Lemma plan_add e a r : r ⊆ e ∖ a → e ∩ a ⊆ a ∖ (a ∖ e) ∪ r ⊆ e ∪ a.
Proof. intros Hr. split; intros x Hx; destruct (decide (x ∈ a)), (decide (x ∈ e)); set_solver. Qed.

Lemma plan_done e a : a ∖ (a ∖ e) ∪ (e ∖ a) = e.
Proof. apply set_eq. intros x. destruct (decide (x ∈ a)), (decide (x ∈ e)); set_solver. Qed.
End plan.

Lemma wp_registration arn expected actual a t0 Q :
  registered actual t0 = actual ∖ (actual ∖ keyset expected) →
  (∀ u o, Forall (registers arn) u →
    keyset expected ∩ actual ⊆ registered actual (t0 ++ u) ⊆ keyset expected ∪ actual →
    match o with
    | Done (Ok _) => registered actual (t0 ++ u) = keyset expected
    | Done (Err _) => True
    | Panicked _ => False
    end → Q (t0 ++ u) o) →
  keyset a = keyset expected ∖ actual →
  wp (if negb (length a =? 0) then
        each (λ targetsChunk,
          let? _ := elbv2 (RegisterTargets arn targetsChunk)
            else (λ err, Errorf "error trying to register targets in target group: %q" [Error err]) in
          Ret (Ok tt)) (chunkTargetDescriptions a defaultRegisterTargetsChunkSize)
      else Ret (Ok tt)) Q t0.
Proof.
  intros H0 HQ Ha. destruct (Nat.eqb_spec (length a) 0) as [Hz|_].
  - apply nil_length_inv in Hz as ->. specialize (HQ [] (Done (Ok tt))).
    rewrite app_nil_r in HQ. simpl. change (∅ = keyset expected ∖ actual) in Ha.
    assert (registered actual t0 = keyset expected) as E.
    { rewrite H0. pose proof (plan_done (keyset expected) actual) as P.
      rewrite <-Ha in P. by rewrite union_empty_r_L in P. }
    apply HQ; [constructor| |done]. rewrite E. clear. set_solver.
  - cbn [negb]. apply (wp_batches (RegisterTargets arn) (registers arn) _ actual
      (λ past, (actual ∖ (actual ∖ keyset expected)) ∪ keyset past)).
    + intros chunk r Hc. done.
    + rewrite H0. by change (keyset []) with (∅ : gset (string * Z)); rewrite union_empty_r_L.
    + intros past chunk. unfold target_effect. simpl. rewrite keyset_app. clear. set_solver.
    + intros past rest u e E Hu HS. apply HQ; [done| |done]. rewrite HS. apply plan_add.
      rewrite <-Ha, E, keyset_app. clear. set_solver.
    + intros u Hu HS. rewrite Ha in HS. apply HQ; [done|..]; rewrite HS; [by apply plan_add|apply plan_done].
Qed.

(** C7: [ensureTargetGroupTargets] never panics on targets the service describes, and
    whatever the service answers it sends only batches of 1 to 100 targets of that group,
    all deregistrations before the first registration; targets that are both expected and
    registered are never touched, no other target than the expected ones is added, and
    when it reports success exactly the expected targets (by id and port) are registered. *)
Theorem ensureTargetGroupTargets_exact arn expected actual :
  wp (ensureTargetGroupTargets arn expected (Some <$> actual))
     (exact_targets arn (keyset expected) (keyset actual)) [].
Proof.
  unfold ensureTargetGroupTargets, diffTargetGroupTargets.
  rewrite mapM_id_Some. cbn [mbind option_bind no_panic bind].
  pose proof (keyset_targetsNotIn expected actual) as Ha.
  pose proof (keyset_targetsNotIn actual expected) as Hr.
  set (a := targetsNotIn _ _) in *. set (r := targetsNotIn (targetsByUID actual) _) in *.
  clearbody a r. rewrite wp_try. destruct (Nat.eqb_spec (length r) 0) as [Hz|_].
  - apply nil_length_inv in Hz as ->. change (∅ = keyset actual ∖ keyset expected) in Hr.
    apply (wp_registration arn expected (keyset actual)); [|intros u o Hu Hb Ho|done].
    + rewrite <-Hr, difference_empty_L. done.
    + split_and!; [by exists [], u|apply Hb..|done].
  - cbn [negb]. apply (wp_batches (DeregisterTargets arn) (deregisters arn) _ (keyset actual)
      (λ past, keyset actual ∖ keyset past)).
    + intros chunk x Hc. done.
    + change (keyset []) with (∅ : gset (string * Z)). by rewrite difference_empty_L.
    + intros past chunk. unfold target_effect. simpl. rewrite keyset_app. apply set_eq. intros x.
      rewrite !elem_of_difference, elem_of_union. tauto.
    + intros past rest u e E Hu HS. simpl in *.
      assert (keyset past ⊆ keyset actual ∖ keyset expected) as Hp%plan_remove.
      { rewrite <-Hr, E, keyset_app. clear. set_solver. }
      split_and!; [by exists u, []; rewrite app_nil_r|rewrite HS; apply Hp..|done].
    + intros u Hu HS. apply (wp_registration arn expected (keyset actual)); [by rewrite HS, Hr|
        intros v o Hv Hb Ho|done]. split_and!; [by exists u, v|apply Hb..|done].
Qed.

(** ** Attributes *)
Definition attributeMap (m : gmap string string) (l : list Attribute) : gmap string string :=
  foldl (λ m attr, <[ToString (at_Key attr) := ToString (at_Value attr)]> m) m l.

Lemma attributeMap_ne m l k :
  (∀ a, a ∈ l → ToString (at_Key a) ≠ k) → attributeMap m l !! k = m !! k.
Proof.
  revert m. induction l as [|a l IH]; intros m H; [done|]. simpl. rewrite IH by set_solver.
  apply lookup_insert_ne. set_solver.
Qed.

Lemma attributeMap_eq m l k v :
  (∃ a, a ∈ l ∧ ToString (at_Key a) = k) →
  (∀ a, a ∈ l → ToString (at_Key a) = k → ToString (at_Value a) = v) →
  attributeMap m l !! k = Some v.
Proof.
  intros (a & Ha & Hk) Hv. induction l as [|b l IH] using rev_ind; [set_solver|].
  unfold attributeMap. rewrite foldl_snoc. destruct (decide (ToString (at_Key b) = k)) as [<-|Hn].
  - rewrite lookup_insert_eq. f_equal. apply Hv; set_solver.
  - rewrite lookup_insert_ne by done. apply IH; set_solver.
Qed.

Section attributes.
Context {GR : GoRange}.

Definition desiredAttributes (annotations : gmap string string) : gmap string string :=
  getKeyValuePropertiesFromAnnotation annotations ServiceAnnotationLoadBalancerTargetGroupAttributes.

(** The attributes the difference is made of. *)
Lemma elem_of_attribute_diff (existing desired : gmap string string) a :
  a ∈ omap (λ '(k, v), match existing !! k with
                       | None => None
                       | Some w => if String.eqb v w then None else Some (mkAttribute (Some k) (Some v))
                       end) (range_map desired) ↔
  ∃ k v w, a = mkAttribute (Some k) (Some v) ∧ desired !! k = Some v ∧ existing !! k = Some w ∧ v ≠ w.
Proof.
  rewrite list_elem_of_omap. split.
  - intros ([k v] & Hkv%elem_of_range_map & E). destruct (existing !! k) as [w|] eqn:Ek; [|done].
    destruct (String.eqb_spec v w); simplify_eq. by exists k, v, w.
  - intros (k & v & w & -> & Hd & He & Hn). exists (k, v). rewrite elem_of_range_map. split; [done|].
    rewrite He. by destruct (String.eqb_spec v w).
Qed.

(** The attributes [buildTargetGroupAttributes] asks to change turn the current
    attributes of the target group into the desired ones: an attribute the group knows
    takes the value of the annotation, any other keeps its own; only attributes whose
    value differs are sent, and once they are applied nothing is left to change. *)
Theorem buildTargetGroupAttributes_converges tg attrs annotations :
  let existing := attributeMap ∅ attrs in
  let desired := desiredAttributes annotations in
  ∃ diff, buildTargetGroupAttributes (Some tg) (Some attrs) annotations = Ok diff ∧
    (∀ k, attributeMap existing diff !! k =
          match existing !! k, desired !! k with
          | Some _, Some v => Some v
          | e, _ => e
          end) ∧
    (∀ a, a ∈ diff → existing !! ToString (at_Key a) ≠ Some (ToString (at_Value a))) ∧
    buildTargetGroupAttributes (Some tg) (Some (attrs ++ diff)) annotations = Ok [].
Proof.
  intros existing desired. eexists. split; [reflexivity|].
  change (foldl _ ∅ attrs) with existing. change (getKeyValuePropertiesFromAnnotation _ _) with desired.
  set (diff := omap _ _). pose proof (elem_of_attribute_diff existing desired) as Hd. fold diff in Hd.
  assert (∀ k, attributeMap existing diff !! k =
    match existing !! k, desired !! k with Some _, Some v => Some v | e, _ => e end) as Hafter.
  { intros k. destruct (existing !! k) as [w|] eqn:Ee, (desired !! k) as [v|] eqn:Ed;
      [destruct (decide (v = w)) as [->|Hn]|..]; last 3 first.
    4: { rewrite attributeMap_ne; [done|]. intros a (k' & v' & w' & -> & ? & ? & ?)%Hd <-. simplify_eq/=. }
    4: { apply attributeMap_eq.
         - exists (mkAttribute (Some k) (Some v)). split; [|done]. apply Hd. by exists k, v, w.
         - intros a (k' & v' & w' & -> & ? & ? & ?)%Hd <-. by simplify_eq/=. }
    all: rewrite attributeMap_ne; [done|]; intros a (k' & v' & w' & -> & ? & ? & ?)%Hd <-; simplify_eq/=. }
  split_and!; [done| |].
  - intros a (k & v & w & -> & Hk & He & Hn)%Hd. simpl. rewrite He. congruence.
  - unfold buildTargetGroupAttributes. f_equal. fold (desiredAttributes annotations). fold desired.
    rewrite foldl_app. fold (attributeMap ∅ attrs). fold existing. fold (attributeMap existing diff).
    match goal with |- ?l = _ => destruct l as [|a l'] eqn:El; [done|exfalso] end.
    assert (a ∈ a :: l') as Ha by set_solver. rewrite <-El in Ha.
    apply elem_of_attribute_diff in Ha as (k & v & w & _ & Hk & He & Hn).
    rewrite Hafter, Hk in He. destruct (existing !! k); simplify_eq.
Qed.
End attributes.

(** ** Steady state *)

(** The health descriptions a [DescribeTargetHealth] answered with. *)
Definition answered_health (ev : event awsE) : option (list TargetHealthDescription) :=
  match ev with
  | Ev c r =>
     match c in awsE R return result R → option (list TargetHealthDescription) with
     | ELBV2 c =>
        match c in elbv2E R return result R → option (list TargetHealthDescription) with
        | DescribeTargetHealth _ => λ r, match r with Ok l => Some l | Err _ => None end
        | _ => λ _, None
        end
     | _ => λ _, None
     end r
  end.

Definition modifies_target_group (ev : event awsE) : bool :=
  match ev_call ev with ELBV2 (ModifyTargetGroup _) => true | _ => false end.

(** The health check of the group is the wanted one, as far as the code compares. *)
Definition health_check_matches (tg : TargetGroup) (mapping : nlbPortMapping) : Prop :=
  let hc := HealthCheckConfig mapping in
  hc_Port hc = ToString (tg_HealthCheckPort tg) ∧
  hc_HealthyThreshold hc = ToInt32 (tg_HealthyThresholdCount tg) ∧
  (EqualFold (hc_Protocol hc) ProtocolEnumTcp = true ∨ hc_Path hc = "").

Lemma healthCheckChange_None tg mapping :
  healthCheckChange tg mapping = None ↔ health_check_matches tg mapping.
Proof.
  unfold healthCheckChange, health_check_matches. cbn [ToString default].
  destruct (String.eqb_spec (hc_Port (HealthCheckConfig mapping)) (ToString (tg_HealthCheckPort tg))),
    (Z.eqb_spec (hc_HealthyThreshold (HealthCheckConfig mapping)) (ToInt32 (tg_HealthyThresholdCount tg))),
    (EqualFold (hc_Protocol (HealthCheckConfig mapping)) ProtocolEnumTcp),
    (String.eqb_spec (hc_Path (HealthCheckConfig mapping)) ""); simpl; naive_solver.
Qed.

Lemma keyset_nil l : keyset l = ∅ → l = [].
Proof. destruct l as [|t l]; [done|]. unfold keyset. rewrite fmap_cons. set_solver. Qed.

Lemma ensureTargetGroupTargets_settled arn expected actual :
  keyset actual = keyset expected →
  ensureTargetGroupTargets arn expected (Some <$> actual) = Ret (Ok tt).
Proof.
  intros E. unfold ensureTargetGroupTargets, diffTargetGroupTargets.
  rewrite mapM_id_Some. cbn [mbind option_bind no_panic bind].
  rewrite (keyset_nil (targetsNotIn (targetsByUID expected) _)), (keyset_nil (targetsNotIn _ _));
    [done|rewrite keyset_targetsNotIn, E; apply difference_diag_L..].
Qed.

Lemma wp_grows {E A} (p : prog E A) t : wp p (λ t' _, ∃ u, t' = t ++ u) t.
Proof.
  eapply wp_mono; [apply (all_calls_wp (λ _, True))|by intros ? ? (u & -> & _); exists u].
  induction p; simpl; auto.
Qed.

(** On an existing group. *)
Section steady.
Context {GR : GoRange} (c : Cloud) (tg : TargetGroup) (serviceName : NamespacedName)
  (mapping : nlbPortMapping) (instances : list string) (vpcID : string)
  (tags : gmap string string) (ipAddressType : string).

Let ensure := ensureTargetGroup c (Some tg) serviceName mapping instances vpcID tags ipAddressType.

(** Once the targets registered are the expected ones and the health check is the
    wanted one, with a TCP health check or no path, [ensureTargetGroup] only reads: it
    makes the one call that describes the targets and returns the group unchanged. *)
Theorem ensureTargetGroup_converged :
  health_check_matches tg mapping →
  wp ensure (λ tr o, ∀ health actual,
    head tr ≫= answered_health = Some health →
    activeTargets health = Some (Some <$> actual) →
    keyset actual = keyset (computeTargetGroupExpectedTargets instances (TrafficPort mapping)) →
    length tr = 1 ∧ o = Done (Ok tg)) [].
Proof.
  intros Hc%healthCheckChange_None. unfold ensure, ensureTargetGroup, obtainTargetGroupActualTargets.
  rewrite Hc, wp_try, wp_try_with. intros [health|e]; [|by intros ? ?].
  cbn [wp]. rewrite wp_bind.
  destruct (activeTargets health) as [targets|] eqn:Ht; simpl; [|by intros ? actual [= <-]; rewrite Ht].
  destruct (mapM id targets) as [actual|] eqn:Ha.
  2: { rewrite wp_try. unfold ensureTargetGroupTargets, diffTargetGroupTargets. rewrite Ha. simpl.
       intros ? actual [= <-] E _. simplify_eq. by rewrite mapM_id_Some in Ha. }
  assert (targets = Some <$> actual) as ->.
  { apply mapM_Some in Ha. clear -Ha. induction Ha; simpl; by f_equal/=. }
  destruct (decide (keyset actual =
    keyset (computeTargetGroupExpectedTargets instances (TrafficPort mapping)))) as [E|Hn].
  - rewrite ensureTargetGroupTargets_settled by done. done.
  - eapply wp_mono; [apply wp_grows|]. intros t o [u ->] ? actual' [= <-] E.
    rewrite Ht in E. injection E as E. by apply (inj (fmap Some)) in E as <-.
Qed.
End steady.

(** The health check is over HTTP. *)
Definition http_path (mapping : nlbPortMapping) : Prop :=
  EqualFold (hc_Protocol (HealthCheckConfig mapping)) ProtocolEnumTcp = false ∧
  hc_Path (HealthCheckConfig mapping) ≠ "".

(** With a health check that has a path, over HTTP or HTTPS, [ensureTargetGroup] modifies
    an existing group on every run, even when nothing differs: the path is compared
    with the one of the request being built, not with the one of the group. *)
Theorem ensureTargetGroup_http_modifies {GR : GoRange} c tg serviceName mapping instances vpcID tags
    ipAddressType :
  http_path mapping →
  wp (ensureTargetGroup c (Some tg) serviceName mapping instances vpcID tags ipAddressType)
     (λ tr o, match o with
              | Done (Ok _) => existsb modifies_target_group tr = true
              | _ => True
              end) [].
Proof.
  intros [Hp Hpath]. unfold ensureTargetGroup.
  destruct (healthCheckChange tg mapping) as [input|] eqn:E.
  2: { apply healthCheckChange_None in E as (_ & _ & [E|E]); congruence. }
  rewrite wp_try. eapply wp_mono; [apply wp_grows|]. intros t [[targets|]|] _; [|done..].
  rewrite wp_try. eapply wp_mono; [apply wp_grows|]. intros t' [[[]|]|] _; [|done..].
  rewrite wp_try_with. intros [[]|]; cbn [wp]; [|done].
  rewrite wp_try_with. intros [groups|]; cbn [wp]; [|done].
  assert (∀ ev, existsb modifies_target_group
    ((t' ++ [Ev (ELBV2 (ModifyTargetGroup input)) (Ok tt)]) ++ [ev]) = true) as Hm.
  { intros ev. rewrite !existsb_app. simpl. by rewrite orb_true_r. }
  destruct groups as [|g groups]; simpl; auto.
Qed.

(** ** Examples *)
Definition sample_mapping (protocol : string) : nlbPortMapping :=
  mkNlbPortMapping 80 "TCP" 30080 "TCP" "" "" ""
    (mkHealthCheckConfig "traffic-port" "/healthz" protocol 30 10 3 3).
Definition sample_group : TargetGroup :=
  mkTargetGroup (Some "arn:tg") (Some 30080%Z) "TCP" "ipv4" (Some "traffic-port") "TCP" (Some 30%Z)
    (Some 3%Z).
Definition some_cloud : Cloud :=
  mkCloud empty_config "us-east-1" "vpc-1" (mkTagging "prod" false) no_instance.

Lemma ensureTargetGroup_converged_witness :
  wp (ensureTargetGroup (GR := trie_order) some_cloud (Some sample_group) (mkNamespacedName "ns" "svc")
        (sample_mapping "TCP") ["i-1"] "vpc-1" ∅ "ipv4")
     (λ tr o, ∀ health actual,
        head tr ≫= answered_health = Some health →
        activeTargets health = Some (Some <$> actual) →
        keyset actual = keyset (computeTargetGroupExpectedTargets ["i-1"] 30080) →
        length tr = 1 ∧ o = Done (Ok sample_group)) [].
Proof.
  apply (ensureTargetGroup_converged (GR := trie_order) some_cloud sample_group
    (mkNamespacedName "ns" "svc") (sample_mapping "TCP") ["i-1"] "vpc-1" ∅ "ipv4").
  split_and!; [reflexivity..|]. left. reflexivity.
Defined.

Lemma ensureTargetGroup_http_modifies_witness :
  wp (ensureTargetGroup (GR := trie_order) some_cloud (Some sample_group) (mkNamespacedName "ns" "svc")
        (sample_mapping "HTTP") ["i-1"] "vpc-1" ∅ "ipv4")
     (λ tr o, match o with Done (Ok _) => existsb modifies_target_group tr = true | _ => True end) [].
Proof.
  apply (ensureTargetGroup_http_modifies (GR := trie_order) some_cloud sample_group
    (mkNamespacedName "ns" "svc") (sample_mapping "HTTP") ["i-1"] "vpc-1" ∅ "ipv4").
  split; [reflexivity|discriminate].
Defined.

(** The parts of a name are written to the digest without separators: two services of
    different namespaces can share a target group name. *)
Example buildTargetGroupName_shared :
  let name ns n := buildTargetGroupName some_cloud (mkNamespacedName ns n) 80 30080 "TCP" "instance"
    (sample_mapping "TCP") "ipv4" in
  name "aaaaaaaaa" "aaaaaaaaaa" = name "aaaaaaaaaa" "aaaaaaaaa".
Proof. vm_compute. reflexivity. Qed.
