(* ===== verification/NlbRules.v ===== *)
(** * Rules that let an NLB reach its instances (aws_loadbalancer.go, aws.go)

    The managed security group of a network load balancer, and the rules on the groups
    of the instances: client traffic, health checks and path MTU discovery.  The
    permission sets of the source are maps shared with the caller: the operations that
    change them return their new content. *)

From S2P Require Import Prelude GoLib Effects AwsApi IPPermissions Tags Config Cloud SecurityGroups NetIP Sha TargetGroups.
From Stdlib Require Import Ascii.
Import Strings Errors Strconv.

Definition defaultHealthCheckPort := "traffic-port".
Definition ProtocolEnumUdp := "UDP".

(** ** The security group of the load balancer *)
Definition GetSecurityGroupNameForNLB (clusterName : string) (svc : Service) : string :=
  let uuid := sha256_hex (clusterName +:+ svc_Name svc +:+ svc_Namespace svc +:+ svc_UID svc) in
  "k8s-" +:+ take 8 (keep_bytes is_alnum (svc_Namespace svc)) +:+
  "-" +:+ take 8 (keep_bytes is_alnum (svc_Name svc)) +:+
  "-" +:+ take 10 uuid.

(** The groups to attach, and whether they are ours. *)
Definition ensureNLBSecurityGroup {GR : GoRange} (c : Cloud) (clusterName : string) (svc : Service)
    (existingLB : option LoadBalancerV2) : prog awsE (result (list string * bool)) :=
  let annotations := svc_Annotations svc in
  let? isManaged := Ret (IsNLBSecurityGroupModeManaged (c_cfg c))
    else wrap "error checking NLB security group mode: %w" [] in
  if negb isManaged then
    match existingLB with
    | Some lb => Ret (Ok (elems (nlb_SecurityGroups lb), false))
    | None => Ret (Ok ([], false))
    end
  else
  if match existingLB with
     | Some lb => length (elems (nlb_SecurityGroups lb)) =? 0
     | None => false
     end then Ret (Ok ([], false))
  else
  let byoSGList := getSGListFromAnnotation
    (mapget annotations ServiceAnnotationLoadBalancerSecurityGroups) in
  if 0 <? length byoSGList then Ret (Ok (byoSGList, false)) else
  let sgName := GetSecurityGroupNameForNLB clusterName svc in
  let sgDescription := "[k8s] Managed SecurityGroup for LoadBalancer" in
  let additionalTags := getKeyValuePropertiesFromAnnotation annotations
    ServiceAnnotationLoadBalancerAdditionalTags in
  let? securityGroupID := createSecurityGroup c sgName sgDescription additionalTags
    else wrap "unable to create security group for NLB: %w" [] in
  Ret (Ok ([securityGroupID], true)).

(** Both families of a list of CIDR blocks; nil slices when there is none. *)
Definition separateIPv4AndIPv6CIDRs (cidrs : list string) : slice IpRange * slice Ipv6Range :=
  foldl (λ '(ipv4Ranges, ipv6Ranges) cidr,
    match ParseCIDR_is4 cidr with
    | None => (ipv4Ranges, ipv6Ranges)
    | Some true => (Some (elems ipv4Ranges ++ [mkIpRange (Some cidr) None]), ipv6Ranges)
    | Some false => (ipv4Ranges, Some (elems ipv6Ranges ++ [mkIpv6Range (Some cidr) None]))
    end) (None, None) cidrs.

(** The ingress rule of a listener. *)
Definition listenerPermission (ec2SourceRanges : slice IpRange)
    (ec2Ipv6SourceRanges : slice Ipv6Range) (mapping : nlbPortMapping) : IpPermission :=
  mkIpPermission (Some (FrontendPort mapping)) (Some (ToLower (FrontendProtocol mapping)))
    (if 0 <? length (elems ec2SourceRanges) then ec2SourceRanges else None)
    (if 0 <? length (elems ec2Ipv6SourceRanges) then ec2Ipv6SourceRanges else None)
    None (Some (FrontendPort mapping)) None.

Section rules.
Context {GR : GoRange} {GS : GoSort}.

Definition ensureNLBSecurityGroupRules (securityGroupID : string) (sourceCIDRs : list string)
    (v2Mappings : list nlbPortMapping) : prog awsE (result unit) :=
  if String.eqb securityGroupID "" then Ret (Ok tt) else
  let (ec2SourceRanges, ec2Ipv6SourceRanges) := separateIPv4AndIPv6CIDRs sourceCIDRs in
  let ingressRules := foldl (λ rules mapping,
    Insert rules [listenerPermission ec2SourceRanges ec2Ipv6SourceRanges mapping])
    (NewIPPermissionSet []) v2Mappings in
  createSecurityGroupRules securityGroupID ingressRules ec2SourceRanges ec2Ipv6SourceRanges.

(** ** The rules of the instances *)

(** Traffic to one port from one block. *)
Definition trafficPermission (ruleDesc protocol : string) (port : Z) (cidr : string) : IpPermission :=
  mkIpPermission (Some port) (Some protocol)
    (if isIPv6CIDR cidr then None else Some [mkIpRange (Some cidr) (Some ruleDesc)])
    (if isIPv6CIDR cidr then Some [mkIpv6Range (Some cidr) (Some ruleDesc)] else None)
    None (Some port) None.

Definition trafficPermissions (ruleDesc protocol : string) (ports : gset Z) (cidrs : list string) :
    IPPermissionSet :=
  foldl (λ s port, foldl (λ s cidr, Insert s [trafficPermission ruleDesc protocol port cidr]) s cidrs)
    (NewIPPermissionSet []) (range_set ports).

(** The common end of both updates: revoke what carries the description and is not
    desired, then grant what is missing.  Returns the permissions of the group after. *)
Definition syncPermissions (c : Cloud) (sgID : string) (sgPerms desiredPerms : IPPermissionSet)
    (ruleDesc : string) : prog awsE (result IPPermissionSet) :=
  let! permsToGrant := no_panic (Difference desiredPerms sgPerms) in
  let! permsToRevoke := no_panic (Difference sgPerms desiredPerms) in
  let permsToRevoke := DeleteIf permsToRevoke (IPPermissionNotMatch (IPPermissionMatchDesc ruleDesc)) in
  let? sgPerms := (if 0 <? size permsToRevoke then
      let permsToRevokeList := List permsToRevoke in
      let? _ := removeSecurityGroupIngress c sgID permsToRevokeList in
      Ret (Ok (Delete sgPerms permsToRevokeList))
    else Ret (Ok sgPerms)) in
  if 0 <? size permsToGrant then
    let permsToGrantList := List permsToGrant in
    let? _ := addSecurityGroupIngress c sgID permsToGrantList in
    Ret (Ok (Insert sgPerms permsToGrantList))
  else Ret (Ok sgPerms).

Definition updateInstanceSecurityGroupForNLBTraffic (c : Cloud) (sgID : string)
    (sgPerms : IPPermissionSet) (ruleDesc protocol : string) (ports : gset Z)
    (cidrs : list string) : prog awsE (result IPPermissionSet) :=
  syncPermissions c sgID sgPerms (trafficPermissions ruleDesc protocol ports cidrs) ruleDesc.

(** The MTU rules that go with the client rules of a permission. *)
Definition mtuPermissions (perm : IpPermission) : list IpPermission :=
  (omap (λ ipRange,
     if Contains (ToString (ipr_Description ipRange)) NLBClientRuleDescription then
       Some (mkIpPermission (Some 3%Z) (Some "icmp")
         (Some [mkIpRange (CidrIp ipRange) (Some NLBMtuDiscoveryRuleDescription)]) None None
         (Some 4%Z) None)
     else None) (elems (IpRanges perm))) ++
  (omap (λ ipv6Range,
     if Contains (ToString (ip6_Description ipv6Range)) NLBClientRuleDescription then
       Some (mkIpPermission (Some 2%Z) (Some "icmpv6") None
         (Some [mkIpv6Range (CidrIpv6 ipv6Range) (Some NLBMtuDiscoveryRuleDescription)]) None
         (Some (-1)%Z) None)
     else None) (elems (Ipv6Ranges perm))).

Definition updateInstanceSecurityGroupForNLBMTU (c : Cloud) (sgID : string)
    (sgPerms : IPPermissionSet) : prog awsE (result IPPermissionSet) :=
  let desiredPerms := foldl (λ s perm, Insert s (mtuPermissions perm)) (NewIPPermissionSet [])
    (List sgPerms) in
  syncPermissions c sgID sgPerms desiredPerms NLBMtuDiscoveryRuleDescription.

(** The group of every instance. *)
Fixpoint desiredGroups (clusterSGs : gmap string SecurityGroup) (l : list Instance_)
    (desiredSGIDs : gset string) : prog awsE (result (gset string)) :=
  match l with
  | [] => Ret (Ok desiredSGIDs)
  | instance :: l =>
     let! r := no_panic (findSecurityGroupForInstance instance clusterSGs) in
     match r with
     | Err e => Ret (Err e)
     | Ok None => desiredGroups clusterSGs l desiredSGIDs
     | Ok (Some sg) => desiredGroups clusterSGs l (desiredSGIDs ∪ {[ToString (gi_GroupId sg)]})
     end
  end.

(** Client ports, client protocol and health-check ports of the mappings. *)
Fixpoint portSetsOf (portMappings : list nlbPortMapping) (clientPorts : gset Z)
    (clientProtocol : string) (healthCheckPorts : gset Z) : result (gset Z * string * gset Z) :=
  match portMappings with
  | [] => Ok (clientPorts, clientProtocol, healthCheckPorts)
  | port :: l =>
     let clientPorts := clientPorts ∪ {[TrafficPort port]} in
     let hc := hc_Port (HealthCheckConfig port) in
     match (if negb (String.eqb hc defaultHealthCheckPort) then to_int32 <$> ParseInt hc int_bits
            else Some (TrafficPort port)) with
     | None => Err (Errorf "Invalid health check port %v" [hc])
     | Some hcPort =>
        portSetsOf l clientPorts
          (if String.eqb (TrafficProtocol port) ProtocolEnumUdp then "udp" else clientProtocol)
          (healthCheckPorts ∪ {[hcPort]})
     end
  end.

(** The client blocks admit every address. *)
Definition clientCIDRsAllOpen (clientCIDRs : list string) : bool :=
  let ipv4ClientCIDRs := filter (λ cidr, isIPv6CIDR cidr = false) clientCIDRs in
  let ipv6ClientCIDRs := filter (λ cidr, isIPv6CIDR cidr = true) clientCIDRs in
  match ipv4ClientCIDRs with
  | [v4] => String.eqb v4 "0.0.0.0/0" &&
      match ipv6ClientCIDRs with
      | [] => true
      | [v6] => String.eqb v6 "::/0"
      | _ => false
      end
  | _ => false
  end.

(** The update of one group of the cluster. *)
Definition updateGroupForNLB (c : Cloud) (desiredSGIDs : gset string) (subnetCIDRs clientCIDRs : list string)
    (clientPorts : gset Z) (clientProtocol : string) (healthCheckPorts : gset Z)
    (clientRuleAnnotation healthRuleAnnotation : string) (sgID : string) (sg : SecurityGroup) :
    prog awsE (result unit) :=
  let original := Ungroup (NewIPPermissionSet (sg_IpPermissions sg)) in
  let? sgPerms :=
    (if bool_decide (sgID ∈ desiredSGIDs) then
       let? sgPerms :=
         (if negb (clientCIDRsAllOpen clientCIDRs) || negb (String.eqb clientProtocol "tcp") ||
             negb (bool_decide (healthCheckPorts = clientPorts)) then
            updateInstanceSecurityGroupForNLBTraffic c sgID original healthRuleAnnotation "tcp"
              healthCheckPorts subnetCIDRs
          else Ret (Ok original)) in
       updateInstanceSecurityGroupForNLBTraffic c sgID sgPerms clientRuleAnnotation clientProtocol
         clientPorts clientCIDRs
     else
       let? sgPerms := updateInstanceSecurityGroupForNLBTraffic c sgID original
         healthRuleAnnotation "tcp" ∅ [] in
       updateInstanceSecurityGroupForNLBTraffic c sgID sgPerms clientRuleAnnotation clientProtocol
         ∅ []) in
  if negb (Equal sgPerms (Ungroup (NewIPPermissionSet (sg_IpPermissions sg)))) then
    let? _ := updateInstanceSecurityGroupForNLBMTU c sgID sgPerms in Ret (Ok tt)
  else Ret (Ok tt).

Definition updateInstanceSecurityGroupsForNLB (c : Cloud) (lbName : string)
    (instances : gmap string Instance_) (subnetCIDRs clientCIDRs : list string)
    (portMappings : list nlbPortMapping) : prog awsE (result unit) :=
  if cfg_DisableSecurityGroupIngress (c_cfg c) then Ret (Ok tt) else
  let? clusterSGs := getTaggedSecurityGroups c
    else (λ err, Errorf "error querying for tagged security groups: %q" [Error err]) in
  let? desiredSGIDs := desiredGroups clusterSGs (range_map instances).*2 ∅ in
  let? clusterSGs := loop (λ clusterSGs sgID,
    let? sg := findSecurityGroup sgID
      else (λ err, Errorf "error finding instance group: %q" [Error err]) in
    match sg with
    | None => Ret (Err (Errorf "error finding security group: %s" [sgID]))
    | Some sg => Ret (Ok (<[sgID := sg]> clusterSGs))
    end) (range_set (desiredSGIDs ∖ dom clusterSGs)) clusterSGs in
  let? (clientPorts, clientProtocol, healthCheckPorts) := Ret (portSetsOf portMappings ∅ "tcp" ∅) in
  let clientRuleAnnotation := Sprintf "%s=%s" [NLBClientRuleDescription; lbName] in
  let healthRuleAnnotation := Sprintf "%s=%s" [NLBHealthCheckRuleDescription; lbName] in
  each (λ '(sgID, sg), updateGroupForNLB c desiredSGIDs subnetCIDRs clientCIDRs clientPorts
    clientProtocol healthCheckPorts clientRuleAnnotation healthRuleAnnotation sgID sg)
    (range_map clusterSGs).

End rules.
