(* ===== verification/Nlb.v ===== *)
(** * Network load balancers (aws_loadbalancer.go, aws.go)

    The health check of a service, the attributes of the load balancer, and
    [ensureLoadBalancerv2], which creates the load balancer with its listeners or brings
    an existing one in line with the ports of the service. *)

From S2P Require Import Prelude GoLib Effects AwsApi Tags Config Cloud TargetGroups NlbRules.
From Stdlib Require Import Ascii.
Import Strings Errors Strconv.

Definition defaultHealthCheckPath := "/".
Definition defaultNlbHealthCheckInterval : Z := 30.
Definition defaultNlbHealthCheckTimeout : Z := 10.
Definition defaultNlbHealthCheckThreshold : Z := 3.
Definition defaultKubeProxyHealthCheckPort : Z := 10256.
Definition defaultKubeProxyHealthCheckPath := "/healthz".
Definition lbAttrLoadBalancingCrossZoneEnabled := "load_balancing.cross_zone.enabled".
Definition lbAttrAccessLogsS3Enabled := "access_logs.s3.enabled".
Definition lbAttrAccessLogsS3Bucket := "access_logs.s3.bucket".
Definition lbAttrAccessLogsS3Prefix := "access_logs.s3.prefix".

Definition ProtocolEnumHttp := "HTTP".
Definition ProtocolEnumHttps := "HTTPS".
Definition ProtocolEnumTls := "TLS".
Definition LoadBalancerTypeEnumNetwork := "network".
Definition LoadBalancerSchemeEnumInternal := "internal".
Definition ServiceExternalTrafficPolicyTypeLocal := "Local".

(** ** Health checks *)
Local Open Scope go_scope.

(** The port, path and protocol before the annotations on numbers. *)
Definition healthCheckTarget (cfg : CloudConfig) (svc : Service) : result healthCheckConfig :=
  let local := String.eqb (svc_ExternalTrafficPolicy svc) ServiceExternalTrafficPolicyTypeLocal in
  let hc :=
    if local then
      let (path, port) := GetServiceHealthCheckPathPort svc in
      mkHealthCheckConfig (Itoa port) path ProtocolEnumHttp 10 10 2 2
    else mkHealthCheckConfig defaultHealthCheckPort defaultHealthCheckPath ProtocolEnumTcp
           defaultNlbHealthCheckInterval defaultNlbHealthCheckTimeout
           defaultNlbHealthCheckThreshold defaultNlbHealthCheckThreshold in
  let with_target (port path protocol : string) :=
    mkHealthCheckConfig port path protocol (hc_Interval hc) (hc_Timeout hc)
      (hc_HealthyThreshold hc) (hc_UnhealthyThreshold hc) in
  let annotations := svc_Annotations svc in
  let protocol :=
    match parseStringAnnotation annotations ServiceAnnotationLoadBalancerHealthCheckProtocol
            (hc_Protocol hc) with
    | (true, protocolStr) => ToUpper protocolStr
    | (false, _) => hc_Protocol hc
    end in
  path ←? (if String.eqb protocol ProtocolEnumHttp || String.eqb protocol ProtocolEnumHttps then
             Ok (parseStringAnnotation annotations ServiceAnnotationLoadBalancerHealthCheckPath
                   (hc_Path hc)).2
           else if String.eqb protocol ProtocolEnumTcp then Ok ""
           else Err (Errorf "Unsupported health check protocol %v" [protocol]));
  let port := (parseStringAnnotation annotations ServiceAnnotationLoadBalancerHealthCheckPort
                 (hc_Port hc)).2 in
  let mode := cfg_HealthProbeMode cfg in
  if String.eqb mode ClusterServiceLoadBalancerHealthProbeModeShared then
    if negb local then
      Ok (with_target
            (if negb (Z.eqb (cfg_HealthProbePort cfg) 0) then Itoa (cfg_HealthProbePort cfg)
             else Itoa defaultKubeProxyHealthCheckPort)
            (if negb (String.eqb (cfg_HealthProbePath cfg) "") then cfg_HealthProbePath cfg
             else defaultKubeProxyHealthCheckPath)
            ProtocolEnumHttp)
    else Ok (with_target port path protocol)
  else if String.eqb mode ClusterServiceLoadBalancerHealthProbeModeServiceNodePort ||
          String.eqb mode "" then Ok (with_target port path protocol)
  else Err (Errorf "Unsupported ClusterServiceLoadBalancerHealthProbeMode %v" [mode]).

Definition buildNLBHealthCheckConfiguration (c : Cloud) (svc : Service) : result healthCheckConfig :=
  let annotations := svc_Annotations svc in
  hc ←? healthCheckTarget (c_cfg c) svc;
  interval ←? parseInt32Annotation annotations ServiceAnnotationLoadBalancerHCInterval (hc_Interval hc);
  timeout ←? parseInt32Annotation annotations ServiceAnnotationLoadBalancerHCTimeout (hc_Timeout hc);
  healthy ←? parseInt32Annotation annotations ServiceAnnotationLoadBalancerHCHealthyThreshold
    (hc_HealthyThreshold hc);
  unhealthy ←? parseInt32Annotation annotations ServiceAnnotationLoadBalancerHCUnhealthyThreshold
    (hc_UnhealthyThreshold hc);
  if negb (String.eqb (hc_Port hc) defaultHealthCheckPort) &&
     negb (bool_decide (is_Some (ParseInt (hc_Port hc) int_bits))) then
    Err (Errorf "Invalid health check port '%v'" [hc_Port hc])
  else Ok (mkHealthCheckConfig (hc_Port hc) (hc_Path hc) (hc_Protocol hc) interval timeout healthy unhealthy).

(** ** The load balancer *)

(** A missing load balancer is [None]; the SDK gives a [LoadBalancerNotFoundException] the
    code below. *)
Definition describeLoadBalancerv2 (name : string) : prog awsE (result (option LoadBalancerV2)) :=
  let! response := elbv2 (DescribeLoadBalancers [name] []) in
  match response with
  | Err err =>
     match AsAPIError err with
     | Some "LoadBalancerNotFound" => Ret (Ok None)
     | _ => Ret (Err (Errorf "error describing load balancer: %q" [Error err]))
     end
  | Ok lbs =>
     match filter (λ lb, nlb_Type lb = LoadBalancerTypeEnumNetwork) lbs with
     | lb :: _ => Ret (Ok (Some lb))
     | [] => Ret (Err (Errorf "NLB '%s' could not be found" [name]))
     end
  end.

(** [None] is an index out of range. *)
Fixpoint createSubnetMappingsFrom (index : nat) (subnetIDs allocationIDs privateIPv4Addresses : list string) :
    option (list SubnetMapping) :=
  match subnetIDs with
  | [] => Some []
  | id :: subnetIDs =>
     allocation ← (if 0 <? length allocationIDs then Some <$> allocationIDs !! index else Some None);
     address ← (if 0 <? length privateIPv4Addresses then Some <$> privateIPv4Addresses !! index
                else Some None);
     rest ← createSubnetMappingsFrom (S index) subnetIDs allocationIDs privateIPv4Addresses;
     Some (mkSubnetMapping id allocation address :: rest)
  end.
Definition createSubnetMappings (subnetIDs allocationIDs privateIPv4Addresses : list string) :
    option (list SubnetMapping) :=
  createSubnetMappingsFrom 0 subnetIDs allocationIDs privateIPv4Addresses.

(** A boolean annotation, as the text of an attribute. *)
Definition boolAttribute (annotations : gmap string string) (name : string) : result string :=
  let annotation := mapget annotations name in
  if negb (String.eqb annotation "") then
    match ParseBool annotation with
    | None => Err (Errorf "error parsing service annotation: %s=%s" [name; annotation])
    | Some enabled => Ok (if (enabled : bool) then "true" else "false")
    end
  else Ok "false".

(** The attributes to change, given the desired values and the current attributes. *)
Definition changedLBAttributes (crossZone accessLogs bucket pfx : string)
    (current : gmap string string) : list Attribute :=
  let change k v :=
    if negb (String.eqb v (mapget current k)) then [mkAttribute (Some k) (Some v)] else [] in
  change lbAttrLoadBalancingCrossZoneEnabled crossZone ++
  change lbAttrAccessLogsS3Enabled accessLogs ++
  (if String.eqb accessLogs "true" then
     change lbAttrAccessLogsS3Bucket bucket ++ change lbAttrAccessLogsS3Prefix pfx
   else []).

Definition reconcileLBAttributes (loadBalancerArn : string) (annotations : gmap string string) :
    prog awsE (result unit) :=
  let? crossZone := Ret (boolAttribute annotations
    ServiceAnnotationLoadBalancerCrossZoneLoadBalancingEnabled) in
  let? accessLogs := Ret (boolAttribute annotations ServiceAnnotationLoadBalancerAccessLogEnabled) in
  let bucket := mapget annotations ServiceAnnotationLoadBalancerAccessLogS3BucketName in
  let pfx := mapget annotations ServiceAnnotationLoadBalancerAccessLogS3BucketPrefix in
  let? attributes := elbv2 (DescribeLoadBalancerAttributes loadBalancerArn)
    else (λ err, Errorf "unable to retrieve load balancer attributes during attribute sync: %q"
                   [Error err]) in
  let current := foldl (λ (m : gmap string string) attr,
    <[ToString (at_Key attr) := ToString (at_Value attr)]> m) ∅ attributes in
  let changedAttributes := changedLBAttributes crossZone accessLogs bucket pfx current in
  if 0 <? length changedAttributes then
    let? _ := elbv2 (ModifyLoadBalancerAttributes loadBalancerArn changedAttributes)
      else (λ err, Errorf "unable to update load balancer attributes during attribute sync: %q"
                     [Error err]) in
    Ret (Ok tt)
  else Ret (Ok tt).

(** ** Listeners *)

(** The listeners by port and protocol; a later one replaces an earlier one.  [None] is a
    listener without a port. *)
Definition listenersByPort (l : list Listener) : option (gmap Z (gmap string Listener)) :=
  foldl (λ acc listener,
    actual ← acc; port ← ls_Port listener;
    Some (<[port := <[ls_Protocol listener := listener]> (default ∅ (actual !! port))]> actual))
    (Some ∅) l.

(** [actual[port][protocol]] *)
Definition listenerAt (actual : gmap Z (gmap string Listener)) (port : Z) (protocol : string) :
    option Listener :=
  actual !! port ≫= λ m, m !! protocol.

Definition targetGroupsByPort (l : list TargetGroup) : option (gmap Z TargetGroup) :=
  foldl (λ acc targetGroup,
    m ← acc; port ← tg_Port targetGroup; Some (<[port := targetGroup]> m)) (Some ∅) l.

Definition currentALPN (listener : Listener) : string := default "" (head (ls_AlpnPolicy listener)).

(** The mapping of this iteration, whose ALPN policy is reset when the annotation is gone. *)
Definition resetALPN (listener : Listener) (mapping : nlbPortMapping) : nlbPortMapping :=
  if String.eqb (FrontendProtocol mapping) ProtocolEnumTls && String.eqb (ALPNPolicy mapping) "" &&
     negb (String.eqb (currentALPN listener) "") then
    mkNlbPortMapping (FrontendPort mapping) (FrontendProtocol mapping) (TrafficPort mapping)
      (TrafficProtocol mapping) (SSLCertificateARN mapping) (SSLPolicy mapping) "None"
      (HealthCheckConfig mapping)
  else mapping.

(** The listener itself differs from the mapping. *)
Definition listenerDiffers (listener : Listener) (mapping : nlbPortMapping) : bool :=
  negb (String.eqb (ls_Protocol listener) (FrontendProtocol mapping)) ||
  (if String.eqb (FrontendProtocol mapping) ProtocolEnumTls then
     negb (String.eqb (ToString (ls_SslPolicy listener)) (SSLPolicy mapping)) ||
     match ls_Certificates listener with
     | [] => true
     | certificate :: _ => negb (String.eqb (ToString certificate) (SSLCertificateARN mapping))
     end ||
     negb (String.eqb (currentALPN listener) (ALPNPolicy mapping))
   else if String.eqb (FrontendProtocol mapping) ProtocolEnumTcp then
     negb (String.eqb (ToString (ls_SslPolicy listener)) "") ||
     negb (length (ls_Certificates listener) =? 0)
   else false).

(** The group cannot be changed into what the mapping asks for. *)
Definition mustRecreate (targetGroup : option TargetGroup) (mapping : nlbPortMapping)
    (targetGroupIPAddressType : string) : bool :=
  match targetGroup with
  | None => true
  | Some targetGroup =>
     let hc := HealthCheckConfig mapping in
     negb (String.eqb (tg_Protocol targetGroup) (TrafficProtocol mapping)) ||
     (negb (EqualFold (hc_Protocol hc) (tg_HealthCheckProtocol targetGroup)) ||
      negb (Z.eqb (hc_Interval hc) (ToInt32 (tg_HealthCheckIntervalSeconds targetGroup)))) ||
     negb (String.eqb (tg_IpAddressType targetGroup) targetGroupIPAddressType)
  end.

Definition modifyListenerInput (listener : Listener) (mapping : nlbPortMapping)
    (targetGroupArn : option string) : ModifyListenerInput :=
  let tls := String.eqb (FrontendProtocol mapping) ProtocolEnumTls in
  mkModifyListenerInput (ls_ListenerArn listener) (FrontendPort mapping) (FrontendProtocol mapping)
    targetGroupArn
    (if tls && negb (String.eqb (SSLPolicy mapping) "") then Some (SSLPolicy mapping) else None)
    (if tls && negb (String.eqb (ALPNPolicy mapping) "") then [ALPNPolicy mapping] else [])
    (if tls then [SSLCertificateARN mapping] else []).

Section nlb.
Context {GR : GoRange}.

(** The body of the loop over the mappings, for a listener that exists. *)
Definition updateListener (c : Cloud) (namespacedName : NamespacedName)
    (nodePortTargetGroup : gmap Z TargetGroup) (instanceIDs : list string) (vpcId : option string)
    (tags : gmap string string) (targetGroupIPAddressType : string) (listener : Listener)
    (mapping : nlbPortMapping) : prog awsE (result unit) :=
  let mapping := resetALPN listener mapping in
  let targetGroup := nodePortTargetGroup !! TrafficPort mapping in
  let? (targetGroup, targetGroupRecreated) :=
    (if mustRecreate targetGroup mapping targetGroupIPAddressType then
       let! vpcId := no_panic vpcId in
       let? targetGroup := ensureTargetGroup c None namespacedName mapping instanceIDs vpcId tags
         targetGroupIPAddressType in
       Ret (Ok (targetGroup, true))
     else
       let! targetGroup := no_panic targetGroup in Ret (Ok (targetGroup, false))) in
  let? _ := (if listenerDiffers listener mapping || targetGroupRecreated then
      let? _ := elbv2 (ModifyListener
          (modifyListenerInput listener mapping (tg_TargetGroupArn targetGroup)))
        else (λ err, Errorf "error updating load balancer listener: %q" [Error err]) in
      Ret (Ok tt)
    else Ret (Ok tt)) in
  if (targetGroupRecreated : bool) then
    let! old := no_panic (head (ls_DefaultActions listener)) in
    let? _ := elbv2 (DeleteTargetGroup old)
      else (λ err, Errorf "error deleting old target group: %q" [Error err]) in
    Ret (Ok tt)
  else
    let! vpcId := no_panic vpcId in
    let? _ := ensureTargetGroup c (Some targetGroup) namespacedName mapping instanceIDs vpcId tags
      targetGroupIPAddressType in
    Ret (Ok tt).

(** The ports and protocols the mappings ask for. *)
Definition frontEndPorts (mappings : list nlbPortMapping) : gmap Z (gset string) :=
  foldl (λ m mapping,
    <[FrontendPort mapping :=
        default ∅ (m !! FrontendPort mapping) ∪ {[FrontendProtocol mapping]}]> m) ∅ mappings.

(** The body of the loop over the mappings: the listener is updated or created. *)
Definition syncMapping (c : Cloud) (namespacedName : NamespacedName) (loadBalancer : LoadBalancerV2)
    (actual : gmap Z (gmap string Listener)) (nodePortTargetGroup : gmap Z TargetGroup)
    (instanceIDs : list string) (tags : gmap string string) (targetGroupIPAddressType : string)
    (_ : bool) (mapping : nlbPortMapping) : prog awsE (result bool) :=
  match listenerAt actual (FrontendPort mapping) (FrontendProtocol mapping) with
  | Some listener =>
     let? _ := updateListener c namespacedName nodePortTargetGroup instanceIDs
       (nlb_VpcId loadBalancer) tags targetGroupIPAddressType listener mapping in
     Ret (Ok true)
  | None =>
     let! vpcId := no_panic (nlb_VpcId loadBalancer) in
     let? _ := createListenerV2 c (nlb_LoadBalancerArn loadBalancer) mapping namespacedName
       instanceIDs vpcId tags targetGroupIPAddressType in
     Ret (Ok true)
  end.

(** The deletions: every listener no mapping asks for. *)
Definition deleteStaleListeners (actual : gmap Z (gmap string Listener))
    (mappings : list nlbPortMapping) (dirty : bool) : prog awsE (result bool) :=
  loop (λ dirty '(port, listeners),
    loop (λ dirty '(protocol, listener),
      if bool_decide (protocol ∈ default ∅ (frontEndPorts mappings !! port)) then Ret (Ok dirty) else
      let? _ := deleteListenerV2 listener in
      Ret (Ok true)) (range_map listeners) dirty)
    (range_map actual) dirty.

(** Additions, modifications and deletions of listeners; whether there was one. *)
Definition syncMappings (c : Cloud) (namespacedName : NamespacedName) (loadBalancer : LoadBalancerV2)
    (mappings : list nlbPortMapping) (instanceIDs : list string) (tags : gmap string string)
    (targetGroupIPAddressType : string) : prog awsE (result bool) :=
  let? listeners := elbv2 (DescribeListeners (nlb_LoadBalancerArn loadBalancer))
    else (λ err, Errorf "error describing listeners: %q" [Error err]) in
  let! actual := no_panic (listenersByPort listeners) in
  let? actualTargetGroups := elbv2 (DescribeTargetGroups (nlb_LoadBalancerArn loadBalancer) [])
    else (λ err, Errorf "error listing target groups: %q" [Error err]) in
  let! nodePortTargetGroup := no_panic (targetGroupsByPort actualTargetGroups) in
  let? dirty := loop (syncMapping c namespacedName loadBalancer actual nodePortTargetGroup
    instanceIDs tags targetGroupIPAddressType) mappings false in
  deleteStaleListeners actual mappings dirty.

(** A list annotation with one element per subnet. *)
Definition perSubnet (annotations : gmap string string) (name format : string)
    (discoveredSubnetIDs : list string) : result (list string) :=
  match annotations !! name with
  | None => Ok []
  | Some l =>
     let items := Split l ","%char in
     if length items =? length discoveredSubnetIDs then Ok items
     else Err (Errorf format
            [Itoa (Z.of_nat (length items)); Itoa (Z.of_nat (length discoveredSubnetIDs))])
  end.

Definition createNLB (c : Cloud) (namespacedName : NamespacedName) (loadBalancerName : string)
    (mappings : list nlbPortMapping) (instanceIDs discoveredSubnetIDs : list string)
    (internalELB : bool) (annotations : gmap string string) (securityGroups : list string)
    (service : Service) (tags : gmap string string) (targetGroupIPAddressType : string) :
    prog awsE (result LoadBalancerV2) :=
  let? allocationIDs := Ret (perSubnet annotations ServiceAnnotationLoadBalancerEIPAllocations
    "error creating load balancer: Must have same number of EIP AllocationIDs (%d) and SubnetIDs (%d)"
    discoveredSubnetIDs) in
  let? privateIPv4Addresses := Ret (perSubnet annotations
    ServiceAnnotationLoadBalancerPrivateIPv4Addresses
    "error creating load balancer: Must have same number of Private IPv4Addresses (%d) and SubnetIDs (%d)"
    discoveredSubnetIDs) in
  let! subnetMappings := no_panic
    (createSubnetMappings discoveredSubnetIDs allocationIDs privateIPv4Addresses) in
  let? loadBalancers := elbv2 (CreateLoadBalancer (mkCreateNlbInput loadBalancerName
      (getLoadBalancerIPAddressTypeFromService service)
      (if internalELB then LoadBalancerSchemeEnumInternal else "")
      subnetMappings securityGroups (elbTags tags)))
    else (λ err, Errorf "error creating load balancer: %q" [Error err]) in
  let! loadBalancer := no_panic (head loadBalancers) in
  let? _ := each (λ mapping,
    let! vpcId := no_panic (nlb_VpcId loadBalancer) in
    let? _ := createListenerV2 c (nlb_LoadBalancerArn loadBalancer) mapping namespacedName
        instanceIDs vpcId tags targetGroupIPAddressType
      else (λ err, Errorf "error creating listener: %q" [Error err]) in
    Ret (Ok tt)) mappings in
  let? _ := reconcileLBAttributes (ToString (nlb_LoadBalancerArn loadBalancer)) annotations in
  Ret (Ok loadBalancer).

(** The load balancer as it is after the changes: described again when it is dirty. *)
Definition refreshNLB (dirty : bool) (loadBalancer : LoadBalancerV2) : prog awsE (result LoadBalancerV2) :=
  if dirty then
    let? loadBalancers := elbv2 (DescribeLoadBalancers [] [ToString (nlb_LoadBalancerArn loadBalancer)])
      else (λ err, Errorf "error retrieving load balancer after update: %q" [Error err]) in
    let! loadBalancer := no_panic (head loadBalancers) in
    Ret (Ok loadBalancer)
  else Ret (Ok loadBalancer).

(** The last step of both branches: the attributes of the target groups, where the
    annotation gives some. *)
Definition reconcileGroups (annotations : gmap string string) (loadBalancer : LoadBalancerV2) :
    prog awsE (result LoadBalancerV2) :=
  let? _ := (if bool_decide (is_Some (annotations !! ServiceAnnotationLoadBalancerTargetGroupAttributes))
    then
      let? _ := reconcileTargetGroupsAttributes (ToString (nlb_LoadBalancerArn loadBalancer)) annotations
        else (λ err, Errorf "error reconciling target group attributes: %q" [Error err]) in
      Ret (Ok tt)
    else Ret (Ok tt)) in
  Ret (Ok loadBalancer).

Definition updateNLB (c : Cloud) (namespacedName : NamespacedName) (loadBalancer : LoadBalancerV2)
    (mappings : list nlbPortMapping) (instanceIDs : list string) (annotations : gmap string string)
    (securityGroups : list string) (service : Service) (tags : gmap string string)
    (targetGroupIPAddressType : string) : prog awsE (result LoadBalancerV2) :=
  let expected : gset string := list_to_set securityGroups in
  let actual : gset string := list_to_set (elems (nlb_SecurityGroups loadBalancer)) in
  let groupsDiffer := negb (bool_decide (expected = actual)) && (0 <? length securityGroups) in
  let? _ := (if groupsDiffer then
      let? _ := elbv2 (SetSecurityGroups (nlb_LoadBalancerArn loadBalancer) securityGroups)
        else wrap "error setting security groups on load balancer: %w" [] in
      Ret (Ok tt)
    else Ret (Ok tt)) in
  let desiredIPAddressType := getLoadBalancerIPAddressTypeFromService service in
  let typeDiffers := negb (String.eqb (nlb_IpAddressType loadBalancer) desiredIPAddressType) in
  let? _ := (if typeDiffers then
      let? _ := elbv2 (SetIpAddressType (nlb_LoadBalancerArn loadBalancer) desiredIPAddressType)
        else (λ err, Errorf "error updating load balancer IpAddressType: %q" [Error err]) in
      Ret (Ok tt)
    else Ret (Ok tt)) in
  let? mappingsChanged := syncMappings c namespacedName loadBalancer mappings instanceIDs tags
    targetGroupIPAddressType in
  let? _ := reconcileLBAttributes (ToString (nlb_LoadBalancerArn loadBalancer)) annotations in
  refreshNLB (groupsDiffer || typeDiffers || mappingsChanged) loadBalancer.

Definition ensureLoadBalancerv2 (c : Cloud) (namespacedName : NamespacedName)
    (loadBalancerName : string) (mappings : list nlbPortMapping)
    (instanceIDs discoveredSubnetIDs : list string) (internalELB : bool)
    (annotations : gmap string string) (securityGroups : list string) (service : Service) :
    prog awsE (result LoadBalancerV2) :=
  let? loadBalancer := describeLoadBalancerv2 loadBalancerName in
  let tags := getKeyValuePropertiesFromAnnotation annotations
    ServiceAnnotationLoadBalancerAdditionalTags in
  let tags := <[TagNameKubernetesService := nn_String namespacedName]> tags in
  let tags := buildTags (c_tagging c) ResourceLifecycleOwned tags in
  let targetGroupIPAddressType := getTargetGroupIPAddressTypeFromService service in
  let ipv6Requested := serviceRequestsIPv6 service in
  let? _ := Ret (validateIPFamilyInfo service ipv6Requested) in
  let? loadBalancer :=
    match loadBalancer with
    | None => createNLB c namespacedName loadBalancerName mappings instanceIDs discoveredSubnetIDs
        internalELB annotations securityGroups service tags targetGroupIPAddressType
    | Some loadBalancer => updateNLB c namespacedName loadBalancer mappings instanceIDs annotations
        securityGroups service tags targetGroupIPAddressType
    end in
  reconcileGroups annotations loadBalancer.

End nlb.
