(* ===== verification/NlbFacts.v ===== *)
(** * Correctness of the NLB operations

    Health checks, names, attributes, listeners and the rules of the instances of a
    network load balancer. *)

From S2P Require Import Prelude GoLib Effects Json AwsApi IPPermissions Tags Config Cloud SecurityGroups SecurityGroupFacts NetIP Sha TargetGroups TargetGroupFacts NlbRules Nlb.
From Stdlib Require Import Ascii.
Import Strings Errors Strconv.

(** ** Rules carry the mark of their load balancer *)
Definition marked (marks : list string) (p : IpPermission) : Prop :=
  ∃ d, d ∈ marks ∧ Test (IPPermissionMatchDesc d) p = true.

(** The descriptions the rules of a load balancer carry. *)
Definition nlb_marks (lbName : string) : list string :=
  [Sprintf "%s=%s" [NLBClientRuleDescription; lbName];
   Sprintf "%s=%s" [NLBHealthCheckRuleDescription; lbName];
   NLBMtuDiscoveryRuleDescription].

(** The call reads, or changes only marked rules of a group that is not the one of the
    configuration. *)
Definition marked_change (c : Cloud) (marks : list string) (ev : event awsE) : Prop :=
  match ev_call ev with
  | EC2 (AuthorizeSecurityGroupIngress id l) | EC2 (RevokeSecurityGroupIngress id l) =>
     id ≠ Some (cfg_ElbSecurityGroup (c_cfg c)) ∧ Forall (marked marks) l
  | call => readonly call = true
  end.

Section marks.
Context {GR : GoRange} {GS : GoSort}.

Lemma elem_of_List_lookup (s : IPPermissionSet) p : p ∈ List s ↔ ∃ k, s !! k = Some p.
Proof.
  unfold List. rewrite list_elem_of_fmap. split.
  - intros ([k q] & -> & H%elem_of_range_map). by exists k.
  - intros [k H]. exists (k, p). by rewrite elem_of_range_map.
Qed.

Lemma not_elem_of_List_nil p : p ∉ List (NewIPPermissionSet []).
Proof. rewrite elem_of_List_lookup. intros [k Hk]. change ((∅ : IPPermissionSet) !! k = Some p) in Hk. by rewrite lookup_empty in Hk. Qed.

Lemma elem_of_List_Insert s items p : p ∈ List (Insert s items) → p ∈ items ∨ p ∈ List s.
Proof.
  rewrite !elem_of_List_lookup. intros [k [?|?]%Insert_origin]; eauto.
Qed.

Lemma elem_of_List_Difference a b d p : Difference a b = Some d → p ∈ List d → p ∈ List a.
Proof.
  unfold Difference. intros Hd Hp.
  assert (∀ l acc, differenceLoop b l acc = Some d → p ∈ l ∨ p ∈ List acc) as H.
  { induction l as [|x l IH]; intros acc; cbn [differenceLoop].
    - intros [= ->]. by right.
    - destruct (differenceFound b x) as [[]|]; cbn [mbind option_bind]; [| |done].
      + intros [?|?]%IH; [left; set_solver|by right].
      + intros [?|H]%IH; [left; set_solver|]. apply elem_of_List_Insert in H as [?|?]; [left|by right].
        set_solver. }
  apply H in Hd as [?|Hn]; [done|]. by apply not_elem_of_List_nil in Hn.
Qed.

Lemma selectPermissions_subset keep rules l changes p :
  selectPermissions keep rules l = Some changes → p ∈ changes → p ∈ l.
Proof.
  revert changes. induction l as [|x l IH]; intros changes; cbn [selectPermissions].
  - intros [= <-]. set_solver.
  - destruct (exists_o _ rules) as [found|]; cbn [mbind option_bind]; [|done].
    destruct (selectPermissions keep rules l) as [ch|] eqn:E; cbn [mbind option_bind]; [|done].
    intros [= <-]. case_bool_decide; intros; set_solver.
Qed.

Lemma change_calls c marks id l :
  Forall (marked marks) l →
  all_calls (marked_change c marks) (addSecurityGroupIngress c id l) ∧
  all_calls (marked_change c marks) (removeSecurityGroupIngress c id l).
Proof.
  intros Hl.
  assert (∀ keep rules changes, selectPermissions keep rules l = Some changes →
    Forall (marked marks) changes) as Hs.
  { intros keep rules changes E. apply Forall_forall. intros p Hp.
    eapply Forall_forall; [exact Hl|]. by eapply selectPermissions_subset. }
  unfold addSecurityGroupIngress, removeSecurityGroupIngress.
  destruct (String.eqb_spec id (cfg_ElbSecurityGroup (c_cfg c))); [done|].
  assert (Some id ≠ Some (cfg_ElbSecurityGroup (c_cfg c))) as Hid by congruence.
  split; (apply all_calls_try; [by apply findSecurityGroup_calls|]); intros [group|]; try done.
  all: destruct (selectPermissions _ _ l) as [changes|] eqn:E; simpl; [|done]; apply Hs in E.
  all: destruct (length changes =? 0); simpl; [done|]; intros r; split; [done|by destruct r].
Qed.

(** Both passes of an update keep to the description they are given. *)
Lemma syncPermissions_calls c marks id s desired d :
  d ∈ marks → (∀ p, p ∈ List desired → Test (IPPermissionMatchDesc d) p = true) →
  all_calls (marked_change c marks) (syncPermissions c id s desired d).
Proof.
  intros Hd Hdesired. unfold syncPermissions.
  destruct (Difference desired s) as [grant|] eqn:Eg; simpl; [|done].
  destruct (Difference s desired) as [revoke|] eqn:Er; simpl; [|done].
  set (rv := DeleteIf revoke _).
  assert (Forall (marked marks) (List grant)) as Hg.
  { apply Forall_forall. intros p Hp. exists d. split; [done|].
    by eapply Hdesired, elem_of_List_Difference. }
  assert (Forall (marked marks) (List rv)) as Hr.
  { apply Forall_forall. intros p [k [_ Ht]%DeleteIf_lookup]%elem_of_List_lookup.
    exists d. split; [done|]. simpl in Ht. by apply negb_false_iff in Ht. }
  clearbody rv. destruct (change_calls c marks id _ Hg) as [Ha _].
  destruct (change_calls c marks id _ Hr) as [_ Hrm].
  apply all_calls_try.
  - destruct (0 <? size rv); [|done]. by apply all_calls_try.
  - intros s'. destruct (0 <? size grant); [|done]. by apply all_calls_try.
Qed.

Lemma Test_trafficPermission d proto port cidr :
  Test (IPPermissionMatchDesc d) (trafficPermission d proto port cidr) = true.
Proof.
  unfold trafficPermission. simpl. destruct (isIPv6CIDR cidr); simpl; by rewrite String.eqb_refl.
Qed.

Lemma trafficPermissions_marked d proto ports cidrs p :
  p ∈ List (trafficPermissions d proto ports cidrs) → Test (IPPermissionMatchDesc d) p = true.
Proof.
  assert (∀ A (f : IPPermissionSet → A → IPPermissionSet) l s,
    (∀ s x, (∀ p, p ∈ List s → Test (IPPermissionMatchDesc d) p = true) →
       ∀ p, p ∈ List (f s x) → Test (IPPermissionMatchDesc d) p = true) →
    (∀ p, p ∈ List s → Test (IPPermissionMatchDesc d) p = true) →
    ∀ p, p ∈ List (foldl f s l) → Test (IPPermissionMatchDesc d) p = true) as Hfold.
  { intros A f l. induction l as [|x l IH]; intros s Hf Hs q; simpl; [apply Hs|]. apply IH; [done|].
    by apply Hf. }
  unfold trafficPermissions. apply Hfold.
  - intros s port Hs. apply Hfold; [|done]. intros s' cidr Hs' q [Hq|]%elem_of_List_Insert; [|auto].
    apply list_elem_of_singleton in Hq as ->. apply Test_trafficPermission.
  - intros q Hq. by apply not_elem_of_List_nil in Hq.
Qed.

Lemma mtuPermissions_marked p q :
  q ∈ mtuPermissions p → Test (IPPermissionMatchDesc NLBMtuDiscoveryRuleDescription) q = true.
Proof.
  unfold mtuPermissions. rewrite elem_of_app, !list_elem_of_omap.
  by intros [(r & _ & E)|(r & _ & E)]; case_match; simplify_eq.
Qed.

Lemma mtuDesired_marked l s q :
  (∀ p, p ∈ List s → Test (IPPermissionMatchDesc NLBMtuDiscoveryRuleDescription) p = true) →
  q ∈ List (foldl (λ s perm, Insert s (mtuPermissions perm)) s l) →
  Test (IPPermissionMatchDesc NLBMtuDiscoveryRuleDescription) q = true.
Proof.
  revert s. induction l as [|p l IH]; intros s Hs; simpl; [apply Hs|]. apply IH.
  intros p' [Hp|]%elem_of_List_Insert; [by eapply mtuPermissions_marked|auto].
Qed.

Lemma traffic_calls c marks id s d proto ports cidrs :
  d ∈ marks →
  all_calls (marked_change c marks)
    (updateInstanceSecurityGroupForNLBTraffic c id s d proto ports cidrs).
Proof. intros. apply syncPermissions_calls; [done|]. apply trafficPermissions_marked. Qed.

Lemma mtu_calls c marks id s :
  NLBMtuDiscoveryRuleDescription ∈ marks →
  all_calls (marked_change c marks) (updateInstanceSecurityGroupForNLBMTU c id s).
Proof.
  intros. apply syncPermissions_calls; [done|]. intros p. apply mtuDesired_marked.
  intros q Hq. by apply not_elem_of_List_nil in Hq.
Qed.

Lemma desiredGroups_calls P groups l acc : all_calls P (desiredGroups groups l acc).
Proof.
  revert acc. induction l as [|i l IH]; intros acc; cbn [desiredGroups]; [done|].
  calls; apply IH.
Qed.

Lemma updateInstanceSecurityGroupsForNLB_calls c lbName instances subnetCIDRs clientCIDRs mappings :
  all_calls (marked_change c (nlb_marks lbName))
    (updateInstanceSecurityGroupsForNLB c lbName instances subnetCIDRs clientCIDRs mappings).
Proof.
  unfold updateInstanceSecurityGroupsForNLB, getTaggedSecurityGroups, updateGroupForNLB.
  assert (Sprintf "%s=%s" [NLBClientRuleDescription; lbName] ∈ nlb_marks lbName) by set_solver.
  assert (Sprintf "%s=%s" [NLBHealthCheckRuleDescription; lbName] ∈ nlb_marks lbName) by set_solver.
  assert (NLBMtuDiscoveryRuleDescription ∈ nlb_marks lbName) by set_solver.
  calls; auto using desiredGroups_calls, traffic_calls, mtu_calls.
  all: try done. all: by apply findSecurityGroup_calls.
Qed.

End marks.

(** ** Health checks *)

(** What the rest of the code relies on: a protocol of the API, a path exactly when the
    protocol has one, a port that can be read back, and numbers of 32 bits. *)
Record valid_health_check (hc : healthCheckConfig) : Prop := {
  vh_protocol : hc_Protocol hc ∈ [ProtocolEnumHttp; ProtocolEnumHttps; ProtocolEnumTcp];
  vh_path : hc_Protocol hc = ProtocolEnumTcp → hc_Path hc = "";
  vh_port : hc_Port hc = defaultHealthCheckPort ∨ is_Some (ParseInt (hc_Port hc) int_bits);
  vh_numbers : Forall (λ n, int32_min ≤ n ≤ int32_max)%Z
    [hc_Interval hc; hc_Timeout hc; hc_HealthyThreshold hc; hc_UnhealthyThreshold hc]
}.

Lemma parseInt32Annotation_range annotations name value n :
  (int32_min ≤ value ≤ int32_max)%Z →
  parseInt32Annotation annotations name value = Ok n → (int32_min ≤ n ≤ int32_max)%Z.
Proof.
  unfold parseInt32Annotation. intros Hv H. destruct (annotations !! name); [|by simplify_eq].
  destruct (ParseInt _ _); simplify_eq. apply to_int32_range.
Qed.

Lemma healthCheckTarget_valid cfg svc hc :
  healthCheckTarget cfg svc = Ok hc →
  hc_Protocol hc ∈ [ProtocolEnumHttp; ProtocolEnumHttps; ProtocolEnumTcp] ∧
  (hc_Protocol hc = ProtocolEnumTcp → hc_Path hc = "") ∧
  Forall (λ n, int32_min ≤ n ≤ int32_max)%Z
    [hc_Interval hc; hc_Timeout hc; hc_HealthyThreshold hc; hc_UnhealthyThreshold hc].
Proof.
  unfold healthCheckTarget.
  set (start := if String.eqb (svc_ExternalTrafficPolicy svc) _ then _ else _).
  assert (Forall (λ n, int32_min ≤ n ≤ int32_max)%Z
    [hc_Interval start; hc_Timeout start; hc_HealthyThreshold start; hc_UnhealthyThreshold start]) as Hn.
  { unfold start. destruct (String.eqb _ _); [destruct (GetServiceHealthCheckPathPort svc)|];
      rewrite !Forall_cons, Forall_nil; simpl; split_and!; done. }
  clearbody start. cbv zeta. set (protocol := match parseStringAnnotation _ _ _ with (_, _) => _ end). clearbody protocol.
  set (path := if _ || _ then _ else _).
  assert (∀ p, path = Ok p → protocol ∈ [ProtocolEnumHttp; ProtocolEnumHttps; ProtocolEnumTcp] ∧
    (protocol = ProtocolEnumTcp → p = "")) as Hp.
  { intros p. unfold path. clear path. destruct (String.eqb_spec protocol ProtocolEnumHttp) as [->|]; [set_solver|].
    destruct (String.eqb_spec protocol ProtocolEnumHttps) as [->|]; [set_solver|]. simpl.
    destruct (String.eqb_spec protocol ProtocolEnumTcp) as [->|]; [|done]. intros [= <-]. set_solver. }
  destruct path as [p|]; [|done]. destruct (Hp p eq_refl) as [Hproto Hpath]. cbn [rbind].
  repeat case_match; intros ?; simplify_eq; cbn; auto; split_and!; auto; set_solver.
Qed.

(** The health check built for a service is well formed: HTTP, HTTPS or TCP, no path
    for TCP, a port that is the traffic port or a number, and 32-bit numbers; so the ports
    the rules of the instances are computed from are always found. *)
Theorem buildNLBHealthCheckConfiguration_valid c svc hc :
  buildNLBHealthCheckConfiguration c svc = Ok hc →
  valid_health_check hc ∧
  ∀ mappings, Forall (λ m, HealthCheckConfig m = hc) mappings →
    ∃ ports, portSetsOf mappings ∅ "tcp" ∅ = Ok ports.
Proof.
  unfold buildNLBHealthCheckConfiguration. intros H.
  destruct (healthCheckTarget (c_cfg c) svc) as [t|] eqn:Et; [|done]. cbn [rbind] in H.
  apply healthCheckTarget_valid in Et as (Hproto & Hpath & Hn).
  apply Forall_cons in Hn as [H1 Hn]. apply Forall_cons in Hn as [H2 Hn].
  apply Forall_cons in Hn as [H3 Hn]. apply Forall_cons in Hn as [H4 _].
  do 4 (destruct (parseInt32Annotation _ _ _) eqn:? in H; [|done]; cbn [rbind] in H).
  destruct (negb (String.eqb (hc_Port t) defaultHealthCheckPort) && _) eqn:Eport; [done|].
  simplify_eq.
  assert (hc_Port t = defaultHealthCheckPort ∨ is_Some (ParseInt (hc_Port t) int_bits)) as Hport.
  { apply andb_false_iff in Eport as [E|E]; apply negb_false_iff in E.
    - left. by apply String.eqb_eq.
    - right. by apply bool_decide_eq_true in E. }
  split.
  - split; [done..|]. rewrite !Forall_cons, Forall_nil. cbn [hc_Interval hc_Timeout hc_HealthyThreshold hc_UnhealthyThreshold].
    split_and!; try (eapply parseInt32Annotation_range; [|eassumption]; done); done.
  - intros mappings Hm. generalize (∅ : gset Z) at 1. generalize "tcp". generalize (∅ : gset Z).
    induction Hm as [|m l Em _ IH]; intros h proto p; simpl; [by eexists|].
    rewrite Em. cbn [hc_Port].
    destruct (String.eqb_spec (hc_Port t) defaultHealthCheckPort) as [E|E]; simpl; [apply IH|].
    destruct Hport as [?|[n Hn]]; [done|]. rewrite Hn. apply IH.
Qed.

(** ** Names *)
Lemma sha256_hex_alnum s : all_bytes is_alnum (sha256_hex s) = true ∧ len (sha256_hex s) = 64.
Proof.
  unfold sha256_hex. destruct (foldl _ _ _) as [[[[a b] c] d] [[[e f] g] h]].
  rewrite !all_bytes_app, !hex8_alnum, !len_app. done.
Qed.

Lemma keep_bytes_len f s : len (keep_bytes f s) ≤ len s.
Proof. induction s as [|c s IH]; simpl; [done|]. destruct (f c); simpl; lia. Qed.

(** The names given to new resources are within the limits of AWS whatever the service
    is called: the managed security group of an NLB has a name of 16 to 32 letters, digits
    and hyphens that neither starts like a group id nor ends in a hyphen, and a load
    balancer one of at most 32 bytes that starts with a letter and has no hyphen. *)
Theorem resource_names_valid clusterName svc :
  valid_name (GetSecurityGroupNameForNLB clusterName svc) ∧
  len (GetLoadBalancerName svc) ≤ 32 ∧ HasPrefix (GetLoadBalancerName svc) "a" = true ∧
  all_bytes (λ b, negb (Ascii.eqb b "-")) (GetLoadBalancerName svc) = true.
Proof.
  split; [apply k8s_name_valid; [apply sha256_hex_alnum|]; rewrite (proj2 (sha256_hex_alnum _)); lia|].
  unfold GetLoadBalancerName, DefaultLoadBalancerName. split_and!.
  - rewrite len_take. lia.
  - change ("a" +:+ svc_UID svc) with (String "a" (svc_UID svc)). simpl.
    by destruct (keep_bytes _ _).
  - apply all_bytes_take, all_bytes_keep.
Qed.

(** ** Attributes of the load balancer *)

Lemma attributeMap_app m l l' : attributeMap m (l ++ l') = attributeMap (attributeMap m l) l'.
Proof. apply foldl_app. Qed.

(** A change of one attribute sets it and nothing else. *)
Lemma mapget_change (current m : gmap string string) k v :
  m !! k = current !! k →
  let m' := attributeMap m
    (if negb (String.eqb v (mapget current k)) then [mkAttribute (Some k) (Some v)] else []) in
  mapget m' k = v ∧ ∀ k', k' ≠ k → m' !! k' = m !! k'.
Proof.
  intros Hk. destruct (String.eqb_spec v (mapget current k)) as [->|Hn]; simpl.
  - split; [|done]. unfold mapget. by rewrite Hk.
  - split; [unfold mapget; by rewrite lookup_insert_eq|]. intros k' Hk'. by rewrite lookup_insert_ne.
Qed.

(** The attribute changes sent for a load balancer make the current attributes the
    desired ones, keep every attribute the code does not manage (and the bucket of disabled
    access logs), and leave nothing to change on the next run. *)
Theorem changedLBAttributes_converges crossZone accessLogs bucket pfx (current : gmap string string) :
  let changes := changedLBAttributes crossZone accessLogs bucket pfx current in
  let after := attributeMap current changes in
  mapget after lbAttrLoadBalancingCrossZoneEnabled = crossZone ∧
  mapget after lbAttrAccessLogsS3Enabled = accessLogs ∧
  (accessLogs = "true" →
    mapget after lbAttrAccessLogsS3Bucket = bucket ∧ mapget after lbAttrAccessLogsS3Prefix = pfx) ∧
  (∀ k, k ∉ [lbAttrLoadBalancingCrossZoneEnabled; lbAttrAccessLogsS3Enabled] →
    (accessLogs = "true" → k ∉ [lbAttrAccessLogsS3Bucket; lbAttrAccessLogsS3Prefix]) →
    after !! k = current !! k) ∧
  changedLBAttributes crossZone accessLogs bucket pfx after = [].
Proof.
  intros changes after.
  assert (mapget after lbAttrLoadBalancingCrossZoneEnabled = crossZone ∧
    mapget after lbAttrAccessLogsS3Enabled = accessLogs ∧
    (accessLogs = "true" →
      mapget after lbAttrAccessLogsS3Bucket = bucket ∧ mapget after lbAttrAccessLogsS3Prefix = pfx) ∧
    (∀ k, k ∉ [lbAttrLoadBalancingCrossZoneEnabled; lbAttrAccessLogsS3Enabled] →
      (accessLogs = "true" → k ∉ [lbAttrAccessLogsS3Bucket; lbAttrAccessLogsS3Prefix]) →
      after !! k = current !! k)) as (H1 & H2 & H3 & H4).
  { unfold after, changes. clear after changes. unfold changedLBAttributes. rewrite !attributeMap_app.
    destruct (mapget_change current current lbAttrLoadBalancingCrossZoneEnabled crossZone) as [A1 A2]; [done|].
    set (m1 := attributeMap current _) in *. clearbody m1.
    destruct (mapget_change current m1 lbAttrAccessLogsS3Enabled accessLogs) as [B1 B2]; [by apply A2|].
    set (m2 := attributeMap m1 _) in *. clearbody m2.
    assert (mapget m2 lbAttrLoadBalancingCrossZoneEnabled = crossZone) as C1.
    { rewrite <-A1. unfold mapget. by rewrite B2. }
    destruct (String.eqb_spec accessLogs "true") as [Et|Et].
    2: { split_and!; [done..|]. intros k Hk _. by rewrite B2, A2 by set_solver. }
    rewrite attributeMap_app.
    destruct (mapget_change current m2 lbAttrAccessLogsS3Bucket bucket) as [D1 D2];
      [by rewrite B2, A2|]. set (m3 := attributeMap m2 _) in *. clearbody m3.
    destruct (mapget_change current m3 lbAttrAccessLogsS3Prefix pfx) as [E1 E2];
      [by rewrite D2, B2, A2|]. set (m4 := attributeMap m3 _) in *. clearbody m4.
    split_and!.
    - rewrite <-C1. unfold mapget. by rewrite E2, D2.
    - rewrite <-B1. unfold mapget. by rewrite E2, D2.
    - intros _. split; [|done]. rewrite <-D1. unfold mapget. by rewrite E2.
    - intros k Hk Hk'. specialize (Hk' Et). by rewrite E2, D2, B2, A2 by set_solver. }
  split_and!; [done..|]. unfold changedLBAttributes.
  rewrite H1, H2, !String.eqb_refl. simpl. destruct (String.eqb_spec accessLogs "true") as [Et|]; [|done].
  destruct (H3 Et) as [-> ->]. by rewrite !String.eqb_refl.
Qed.

(** ** Listeners *)

(** The port and protocol of a listener that was created. *)
Definition created_listener (ev : event awsE) : option (Z * string) :=
  match ev_call ev with
  | ELBV2 (CreateListener input) =>
     if is_ok (ev_answer ev) then Some (cl_Port input, cl_Protocol input) else None
  | _ => None
  end.
(** The listener a call asks to delete, and the one it did delete. *)
Definition delete_request (ev : event awsE) : option (option string) :=
  match ev_call ev with ELBV2 (DeleteListener arn) => Some arn | _ => None end.
Definition deleted_listener (ev : event awsE) : option (option string) :=
  if is_ok (ev_answer ev) then delete_request ev else None.
(** The target group a call asks to delete. *)
Definition group_delete_request (ev : event awsE) : option (option string) :=
  match ev_call ev with ELBV2 (DeleteTargetGroup arn) => Some arn | _ => None end.

(** The listeners a [DescribeListeners] answered with. *)
Definition answered_listeners (ev : event awsE) : option (list Listener) :=
  match ev with
  | Ev c r =>
     match c in awsE R return result R → option (list Listener) with
     | ELBV2 c =>
        match c in elbv2E R return result R → option (list Listener) with
        | DescribeListeners _ => λ r, match r with Ok l => Some l | Err _ => None end
        | _ => λ _, None
        end
     | _ => λ _, None
     end r
  end.

(** The call neither creates nor deletes a listener. *)
Definition keeps_listeners (ev : event awsE) : Prop :=
  created_listener ev = None ∧ delete_request ev = None.

Lemma keeps_listeners_omap u :
  Forall keeps_listeners u → omap created_listener u = [] ∧ omap delete_request u = [] ∧
    omap deleted_listener u = [].
Proof.
  intros Hu. rewrite Forall_forall in Hu.
  split_and!; apply elem_of_nil_inv; intros x (ev & Hin & E)%list_elem_of_omap;
    destruct (Hu ev Hin) as [Hc Hd]; unfold deleted_listener in *; [| |destruct (is_ok _)]; congruence.
Qed.

Lemma deleted_requested (u : list (event awsE)) arn : arn ∈ omap deleted_listener u → arn ∈ omap delete_request u.
Proof.
  rewrite !list_elem_of_omap. intros (ev & Hin & E). exists ev. split; [done|].
  unfold deleted_listener in E. by destruct (is_ok _).
Qed.

Section listeners.
Context {GR : GoRange} (c : Cloud) (nn : NamespacedName) (instanceIDs : list string)
  (tags : gmap string string) (ipType : string).

(** What updating a target group calls. *)
Lemma ensureTargetGroup_calls (P : event awsE → Prop) tg mapping vpcID :
  (∀ R (call : elbv2E R) r, match call with
     | CreateTargetGroup _ | ModifyTargetGroup _ | RegisterTargets _ _ | DeregisterTargets _ _
     | DescribeTargetHealth _ | DescribeTargetGroups _ _ => True
     | _ => False
     end → P (Ev (ELBV2 call) r)) →
  all_calls P (ensureTargetGroup c tg nn mapping instanceIDs vpcID tags ipType).
Proof.
  intros H. unfold ensureTargetGroup, ensureTargetGroupTargets, obtainTargetGroupActualTargets.
  calls; by apply H.
Qed.

Lemma updateListener_calls groups vpcId listener mapping :
  all_calls keeps_listeners
    (updateListener c nn groups instanceIDs vpcId tags ipType listener mapping).
Proof.
  unfold updateListener.
  assert (∀ tg m v, all_calls keeps_listeners (ensureTargetGroup c tg nn m instanceIDs v tags ipType)) as He.
  { intros. apply ensureTargetGroup_calls. intros R call r. by destruct call. }
  calls; auto; done.
Qed.

Lemma wp_createListenerV2 arn mapping vpcID t :
  wp (createListenerV2 c arn mapping nn instanceIDs vpcID tags ipType)
     (λ t' o, ∃ u, t' = t ++ u ∧ omap delete_request u = [] ∧ omap deleted_listener u = [] ∧
        match o with
        | Done (Ok _) => omap created_listener u = [(FrontendPort mapping, FrontendProtocol mapping)]
        | _ => True
        end) t.
Proof.
  unfold createListenerV2. rewrite wp_try. eapply wp_mono.
  { apply (all_calls_wp keeps_listeners), ensureTargetGroup_calls. intros R call r. by destruct call. }
  intros t' o (u & -> & (H1 & H2 & H3)%keeps_listeners_omap).
  destruct o as [[target|e]|w]; [|by exists u..].
  rewrite wp_try_with. intros r. set (ev := Ev _ r).
  assert (omap delete_request (u ++ [ev]) = [] ∧ omap deleted_listener (u ++ [ev]) = []) as [Hd Hd'].
  { rewrite !omap_app, H2, H3. simpl. by destruct r. }
  destruct r as [[|l ls]|e]; cbn [wp no_panic head bind]; exists (u ++ [ev]); rewrite (assoc_L (++));
    (split_and!; [done..|]); try done.
  by rewrite omap_app, H1.
Qed.

Lemma wp_deleteListenerV2 listener t :
  wp (deleteListenerV2 listener)
     (λ t' o, ∃ u, t' = t ++ u ∧ omap created_listener u = [] ∧
        omap delete_request u = [ls_ListenerArn listener] ∧
        match o with
        | Done (Ok _) => omap deleted_listener u = [ls_ListenerArn listener]
        | _ => True
        end) t.
Proof.
  unfold deleteListenerV2. rewrite wp_try_with. intros [[]|e]; cbn [wp].
  2: { eexists [_]. by split_and!. }
  destruct (head (ls_DefaultActions listener)) as [tg|]; cbn [no_panic bind wp].
  2: { eexists [_]. by split_and!. }
  rewrite wp_try_with. intros [[]|e]; cbn [wp]; rewrite <-(assoc_L (++)); eexists; by split_and!.
Qed.

(** A new target group is one [CreateTargetGroup] answered. *)
Lemma wp_createGroup m vpcID t :
  wp (ensureTargetGroup c None nn m instanceIDs vpcID tags ipType) (λ t' o, ∃ u, t' = t ++ u ∧
    Forall (λ ev, group_delete_request ev = None) u ∧ ∀ tg, o = Done (Ok tg) →
      Ev (ELBV2 (CreateTargetGroup (createTargetGroupInput c nn m vpcID tags ipType))) (Ok [tg]) ∈ u) t.
Proof.
  unfold ensureTargetGroup. rewrite wp_try_with. intros r. set (ev := Ev _ r). cbn [wp].
  assert (group_delete_request ev = None) as Hev by done.
  destruct r as [[|tg [|]]|e]; try (exists [ev]; split_and!; [done|by constructor|done]).
  rewrite wp_try. eapply wp_mono.
  { apply (all_calls_wp (λ ev, group_delete_request ev = None)). unfold ensureTargetGroupTargets. calls; done. }
  intros t' o (u & -> & Hu). rewrite <-(assoc_L (++)).
  destruct o as [[[]|e]|w]; cbn [wp]; exists (ev :: u); (split_and!; [done|by constructor|]); [|done..].
  intros tg' [= <-]. set_solver.
Qed.

(** The old group of the listener was replaced: a new one was created for the node port, and
    the last call pointed the listener at it. *)
Definition replaced (listener : Listener) (mapping : nlbPortMapping) (old : option string)
    (pre : list (event awsE)) : Prop :=
  head (ls_DefaultActions listener) = Some old ∧
  ∃ pre' create new modify,
    pre = pre' ++ [Ev (ELBV2 (ModifyListener modify)) (Ok tt)] ∧
    Ev (ELBV2 (CreateTargetGroup create)) (Ok [new]) ∈ pre' ∧
    (ct_Port create = TrafficPort mapping ∧ ct_Protocol create = TrafficProtocol mapping ∧
     ct_IpAddressType create = ipType) ∧
    (ml_ListenerArn modify = ls_ListenerArn listener ∧ ml_TargetGroupArn modify = tg_TargetGroupArn new) ∧
    modify = modifyListenerInput listener (resetALPN listener mapping) (tg_TargetGroupArn new).

(** C27: when the target group of a listener has to be replaced, the old group is deleted
    only after the listener was successfully pointed at the new one: whatever the service
    answers, a request to delete a target group names the group the listener used, is the
    last call, and directly follows a successful modification of that listener, which names
    the group that [CreateTargetGroup] answered before for the node port of the mapping. *)
Theorem updateListener_deletes_last groups vpcId listener mapping :
  wp (updateListener c nn groups instanceIDs vpcId tags ipType listener mapping)
     (λ tr _, ∀ pre ev post arn,
        tr = pre ++ ev :: post → group_delete_request ev = Some arn →
        post = [] ∧ replaced listener mapping arn pre) [].
Proof.
  assert (∀ u, Forall (λ ev, group_delete_request ev = None) u → ∀ pre ev post arn,
    u = pre ++ ev :: post → group_delete_request ev ≠ Some arn) as Hquiet.
  { intros u Hu pre ev post arn -> E. apply Forall_app in Hu as [_ Hu].
    apply Forall_cons in Hu as [Hu _]. congruence. }
  assert (∀ tg m v, all_calls (λ ev, group_delete_request ev = None)
    (ensureTargetGroup c tg nn m instanceIDs v tags ipType)) as He.
  { intros. apply ensureTargetGroup_calls. intros R call r. by destruct call. }
  assert (TrafficPort (resetALPN listener mapping) = TrafficPort mapping ∧
    TrafficProtocol (resetALPN listener mapping) = TrafficProtocol mapping) as Hm
    by (unfold resetALPN; by destruct (_ && _ && _)).
  unfold updateListener, replaced. set (m := resetALPN listener mapping) in *. clearbody m.
  destruct (mustRecreate (groups !! TrafficPort m) m ipType).
  2: { destruct (groups !! TrafficPort m) as [tg|]; [|by simpl; intros []].
       rewrite wp_try. cbn [no_panic bind wp].
       eapply wp_mono; [apply (all_calls_wp (λ ev, group_delete_request ev = None))|].
       - calls; auto; done.
       - intros t o (u & -> & Hu) pre ev post arn E Ha. by eapply Hquiet in Ha. }
  destruct vpcId as [vpcId|]; [|by simpl; intros []]. cbn [no_panic bind].
  rewrite !wp_try. eapply wp_mono; [apply wp_createGroup|].
  intros t [[tg|e]|w] (u & -> & Hu & Hnew); simpl app in *;
    try (intros pre ev post arn E Ha; by eapply Hquiet in Ha). cbn [wp]. specialize (Hnew tg eq_refl).
  rewrite orb_true_r, wp_try, wp_try_with. intros [[]|e]; cbn [wp].
  2: { intros pre ev post arn E Ha. eapply Hquiet in Ha; [done| |exact E]. apply Forall_app. auto. }
  set (ev0 := Ev _ (Ok tt)).
  assert (Forall (λ ev, group_delete_request ev = None) (u ++ [ev0])) as Hu'.
  { apply Forall_app. split; [done|]. by apply Forall_singleton. }
  destruct (head (ls_DefaultActions listener)) as [old|] eqn:Eh; cbn [no_panic bind wp].
  2: { intros pre ev post arn E Ha. by eapply Hquiet in Ha. }
  rewrite wp_try_with. intros r. set (ev1 := Ev _ r).
  assert (∀ pre ev post arn, (u ++ [ev0]) ++ [ev1] = pre ++ ev :: post →
    group_delete_request ev = Some arn → post = [] ∧ old = arn ∧ pre = u ++ [ev0]) as Hlast.
  { intros pre ev post arn E Ha. destruct post as [|x post _] using rev_ind.
    - apply app_inj_2 in E as [<- [= <-]]; [|done]. change (Some old = Some arn) in Ha. by simplify_eq.
    - exfalso. rewrite app_comm_cons, (assoc_L (++)) in E. apply app_inj_2 in E as [E _]; [|done].
      by eapply Hquiet in Ha. }
  destruct r; cbn [wp]; intros pre ev post arn E Ha; destruct (Hlast _ _ _ _ E Ha) as (-> & <- & ->);
    (split; [done|]); (split; [done|]); eexists u, _, tg, _; (split_and!; first [exact Hnew | apply Hm | done]).
Qed.

(** *** The listeners after a run *)
(** The code of a missing load balancer, as one comparison. *)
Lemma not_found_cases {A} (code : option string) (x y : A) :
  match code with Some "LoadBalancerNotFound" => x | _ => y end =
  if decide (code = Some "LoadBalancerNotFound") then x else y.
Proof.
  destruct code as [s|]; [|done].
  repeat (match goal with |- context [match ?x with _ => _ end] =>
    lazymatch x with decide _ => fail | _ => destruct x end end; try done).
Qed.

Definition frontend (m : nlbPortMapping) : Z * string := (FrontendPort m, FrontendProtocol m).

Lemma elem_of_frontEndPorts mappings port proto :
  proto ∈ default ∅ (frontEndPorts mappings !! port) ↔ (port, proto) ∈ frontend <$> mappings.
Proof.
  unfold frontEndPorts. induction mappings as [|m l IH] using rev_ind; [set_solver|].
  rewrite foldl_snoc, fmap_app, elem_of_app. simpl. rewrite list_elem_of_singleton.
  destruct (decide (port = FrontendPort m)) as [->|Hn].
  - rewrite lookup_insert_eq. simpl. rewrite elem_of_union, IH, elem_of_singleton.
    unfold frontend. naive_solver.
  - rewrite lookup_insert_ne, IH by done. unfold frontend. naive_solver.
Qed.

(** A listener that exists and that no mapping asks for. *)
Definition stale (actual : gmap Z (gmap string Listener)) (mappings : list nlbPortMapping)
    (arn : option string) : Prop :=
  ∃ port proto l, listenerAt actual port proto = Some l ∧ ls_ListenerArn l = arn ∧
    (port, proto) ∉ frontend <$> mappings.

(** The calls delete stale listeners only and create none. *)
Definition only_stale (actual : gmap Z (gmap string Listener)) (mappings : list nlbPortMapping)
    (u : list (event awsE)) : Prop :=
  omap created_listener u = [] ∧ ∀ arn, arn ∈ omap delete_request u → stale actual mappings arn.

Lemma only_stale_app actual mappings u v :
  only_stale actual mappings u → only_stale actual mappings v → only_stale actual mappings (u ++ v).
Proof.
  intros [Hc Hr] [Hc' Hr']. split; [by rewrite omap_app, Hc, Hc'|].
  intros arn. rewrite omap_app, elem_of_app. naive_solver.
Qed.

Lemma wp_deletePort actual mappings port ls dirty t :
  actual !! port = Some ls →
  wp (loop (λ dirty '(protocol, listener),
        if bool_decide (protocol ∈ default ∅ (frontEndPorts mappings !! port)) then Ret (Ok dirty) else
        let? _ := deleteListenerV2 listener in
        Ret (Ok true)) (range_map ls) dirty)
     (λ t' o, ∃ v, t' = t ++ v ∧ only_stale actual mappings v ∧
        match o with
        | Done (Ok _) => ∀ proto l, ls !! proto = Some l → (port, proto) ∉ frontend <$> mappings →
            ls_ListenerArn l ∈ omap deleted_listener v
        | _ => True
        end) t.
Proof.
  intros Hport. apply (wp_loop_done _ _ _ (λ past _ t', ∃ v, t' = t ++ v ∧ only_stale actual mappings v ∧
    ∀ proto l, (proto, l) ∈ past → (port, proto) ∉ frontend <$> mappings →
      ls_ListenerArn l ∈ omap deleted_listener v)).
  - exists []. rewrite app_nil_r. split_and!; [done|split; set_solver|set_solver].
  - intros past [proto l] rest d t' Hl (v & -> & Hv & Hd).
    assert (ls !! proto = Some l) as Hproto by (apply elem_of_range_map; rewrite Hl; set_solver).
    case_bool_decide as Hw; rewrite elem_of_frontEndPorts in Hw.
    + simpl. exists v. split_and!; [done..|]. intros proto' l' Hin Hn.
      apply elem_of_app in Hin as [?|Hin%list_elem_of_singleton]; [eauto|]. by simplify_eq.
    + rewrite wp_try. eapply wp_mono; [apply wp_deleteListenerV2|].
      intros t' o (w & -> & Hcw & Hrw & Hdw).
      assert (only_stale actual mappings (v ++ w)) as Hvw.
      { apply only_stale_app; [done|]. split; [done|]. rewrite Hrw. intros arn ->%list_elem_of_singleton.
        exists port, proto, l. split_and!; [|done|done]. unfold listenerAt. by rewrite Hport. }
      rewrite <-(assoc_L (++)). destruct o as [[[]|e]|e]; cbn [wp]; exists (v ++ w); split_and!; try done.
      intros proto' l' Hin Hn. rewrite omap_app, Hdw. apply elem_of_app.
      apply elem_of_app in Hin as [?|Hin%list_elem_of_singleton]; [left; eauto|].
      simplify_eq. right. set_solver.
  - intros d t' (v & -> & Hv & Hd). exists v. split_and!; [done..|].
    intros proto l Hl. apply Hd. by apply elem_of_range_map.
Qed.

Lemma wp_deleteStaleListeners actual mappings dirty t :
  wp (deleteStaleListeners actual mappings dirty)
     (λ t' o, ∃ u, t' = t ++ u ∧ only_stale actual mappings u ∧
        match o with
        | Done (Ok _) => ∀ arn, stale actual mappings arn → arn ∈ omap deleted_listener u
        | _ => True
        end) t.
Proof.
  apply (wp_loop_done _ _ _ (λ past _ t', ∃ u, t' = t ++ u ∧ only_stale actual mappings u ∧
    ∀ port ls proto l, (port, ls) ∈ past → ls !! proto = Some l →
      (port, proto) ∉ frontend <$> mappings → ls_ListenerArn l ∈ omap deleted_listener u)).
  - exists []. rewrite app_nil_r. split_and!; [done|split; set_solver|set_solver].
  - intros past [port ls] rest d t' Hl (u & -> & Hu & Hd).
    assert (actual !! port = Some ls) as Hport by (apply elem_of_range_map; rewrite Hl; set_solver).
    eapply wp_mono; [by apply (wp_deletePort actual mappings)|].
    intros t' o (v & -> & Hv & Hdv). rewrite <-(assoc_L (++)).
    pose proof (only_stale_app _ _ _ _ Hu Hv) as Huv.
    destruct o as [[d'|e]|e]; exists (u ++ v); split_and!; try done.
    intros port' ls' proto l Hin Hp Hn. rewrite omap_app, elem_of_app.
    apply elem_of_app in Hin as [?|Hin%list_elem_of_singleton]; [left; eauto|]. simplify_eq. right. eauto.
  - intros d t' (u & -> & Hu & Hd). exists u. split_and!; [done..|].
    intros arn (port & proto & l & Hl & <- & Hn). unfold listenerAt in Hl.
    destruct (actual !! port) as [ls|] eqn:E; [|done]. eapply Hd; [|done|done].
    by apply elem_of_range_map.
Qed.

(** The mappings whose listener does not exist yet, in their order. *)
Definition missing (actual : gmap Z (gmap string Listener)) (mappings : list nlbPortMapping) :
    list (Z * string) :=
  filter (λ f, listenerAt actual f.1 f.2 = None) (frontend <$> mappings).

Lemma wp_syncMapping lb actual groups mapping d t :
  wp (syncMapping c nn lb actual groups instanceIDs tags ipType d mapping)
     (λ t' o, ∃ u, t' = t ++ u ∧ omap delete_request u = [] ∧
        match o with
        | Done (Ok _) => omap created_listener u = missing actual [mapping]
        | _ => True
        end) t.
Proof.
  unfold syncMapping, missing. cbn [fmap list_fmap]. rewrite filter_cons. cbn [frontend fst snd].
  destruct (listenerAt actual _ _) as [listener|] eqn:E.
  - rewrite decide_False by done. rewrite wp_try.
    eapply wp_mono; [apply (all_calls_wp keeps_listeners), updateListener_calls|].
    intros t' o (u & -> & (H1 & H2 & _)%keeps_listeners_omap). by destruct o as [[[]|]|]; exists u.
  - rewrite decide_True by done. destruct (nlb_VpcId lb) as [v|]; cbn [no_panic bind wp].
    2: { exists []. by rewrite app_nil_r. }
    rewrite wp_try. eapply wp_mono; [apply wp_createListenerV2|].
    intros t' o (u & -> & H1 & _ & H2). by destruct o as [[l|]|]; exists u.
Qed.

Lemma missing_app actual l l' : missing actual (l ++ l') = missing actual l ++ missing actual l'.
Proof. unfold missing. by rewrite fmap_app, filter_app. Qed.

(** From the listeners described: what is deleted is stale; success creates what is missing
    and deletes all that is stale. *)
Definition listeners_exact (mappings : list nlbPortMapping) (tr : list (event awsE))
    (o : outcome (result bool)) : Prop :=
  ∀ listeners actual,
    head tr ≫= answered_listeners = Some listeners → listenersByPort listeners = Some actual →
    (∀ arn, arn ∈ omap delete_request tr → stale actual mappings arn) ∧
    match o with
    | Done (Ok _) => omap created_listener tr = missing actual mappings ∧
        ∀ arn, stale actual mappings arn → arn ∈ omap deleted_listener tr
    | _ => True
    end.

(** [syncMappings] makes the listeners of a load balancer those of the service: from
    the listeners the service describes, whatever it answers afterwards, only listeners
    whose port and protocol no mapping asks for are ever deleted; and on success exactly
    the missing listeners were created, in order, and every stale one was deleted. *)
Theorem syncMappings_exact lb mappings :
  wp (syncMappings c nn lb mappings instanceIDs tags ipType)
     (listeners_exact mappings) [].
Proof.
  unfold syncMappings. rewrite wp_try_with. intros [listeners|e]; cbn [wp]; [|by intros ? ?].
  set (ev0 := Ev _ _). destruct (listenersByPort listeners) as [actual|] eqn:Ea; cbn [no_panic bind wp].
  2: { intros ? ? [= <-] E. congruence. }
  rewrite wp_try_with. intros r. set (t0 := ([] ++ [ev0]) ++ _).
  assert (omap delete_request t0 = [] ∧ omap created_listener t0 = []) as [Hd0 Hc0] by by destruct r.
  assert (∀ u, head (t0 ++ u) ≫= answered_listeners = Some listeners) as Hhead by done.
  clearbody t0.
  assert (∀ u o, omap delete_request u = [] → (∀ d, o ≠ Done (Ok d)) →
    listeners_exact mappings (t0 ++ u) o) as Hearly.
  { intros u o Hu Ho l' a' _ _. rewrite omap_app, Hd0, Hu. split; [set_solver|].
    destruct o as [[d|]|]; [by destruct (Ho d)|done..]. }
  destruct r as [tgs|e]; cbn [wp]; [|by rewrite <-(app_nil_r t0); apply (Hearly [])].
  destruct (targetGroupsByPort tgs) as [groups|]; cbn [no_panic bind wp];
    [|by rewrite <-(app_nil_r t0); apply (Hearly [])].
  rewrite wp_try.
  apply (wp_loop_done _ _ _ (λ past _ t', ∃ u, t' = t0 ++ u ∧ omap delete_request u = [] ∧
    omap created_listener u = missing actual past)).
  - exists []. by rewrite app_nil_r.
  - intros past m rest d t' Hl (u & -> & Hu & Hc). eapply wp_mono; [apply wp_syncMapping|].
    intros t' o (v & -> & Hv & Hcv). rewrite <-(assoc_L (++)).
    assert (omap delete_request (u ++ v) = []) as Huv by by rewrite omap_app, Hu, Hv.
    destruct o as [[d'|e]|w]; [|by apply Hearly..]. exists (u ++ v).
    split_and!; [done..|]. by rewrite missing_app, omap_app, Hc, Hcv.
  - intros d t' (u & -> & Hu & Hc). eapply wp_mono; [apply (wp_deleteStaleListeners actual mappings)|].
    intros t' o (v & -> & [Hcv Hrv] & Hdv) listeners' actual'. rewrite <-(assoc_L (++)), Hhead.
    intros [= <-] ?. simplify_eq. rewrite !omap_app, Hd0, Hc0, Hu, Hcv, app_nil_r.
    split; [done|]. destruct o as [[d'|e]|w]; [|done..]. split; [done|]. set_solver.
Qed.
End listeners.

(** ** Examples *)
Definition nlb_service : Service :=
  mkService "ns" "svc" "12345678-abcd" ∅ [mkServicePort "http" "TCP" 80 30080] "LoadBalancer" "None" ""
    [] ["IPv4"] None "Cluster" 0 [].

Lemma buildNLBHealthCheckConfiguration_valid_witness :
  ∃ hc, buildNLBHealthCheckConfiguration some_cloud nlb_service = Ok hc ∧ valid_health_check hc.
Proof.
  eexists. split; [reflexivity|].
  apply (buildNLBHealthCheckConfiguration_valid some_cloud nlb_service). reflexivity.
Defined.
