(* ===== verification/NlbIsolation.v ===== *)
(** * Whose rules a network load balancer changes

    The rules on the groups of the instances carry, in the description of their sources,
    the load balancer they serve.  The update for one load balancer changes its own rules,
    and the path-MTU rules, which the load balancers share, only as far as no other load
    balancer needs them; where EC2 has merged sources of several load balancers into one
    rule, that rule is treated as a whole. *)

From S2P Require Import Prelude GoLib Effects Json AwsApi IPPermissions Tags Config Cloud SecurityGroups SecurityGroupFacts NetIP Sha TargetGroups TargetGroupFacts NlbRules Nlb NlbFacts.
From Stdlib Require Import Ascii.
Import Strings Errors Strconv.

(** ** Descriptions *)

(** The descriptions of the sources of a rule. *)
Definition descriptions (p : IpPermission) : list string :=
  ((λ r, ToString (ipr_Description r)) <$> elems (IpRanges p)) ++
  ((λ r, ToString (ip6_Description r)) <$> elems (Ipv6Ranges p)) ++
  ((λ r, ToString (pl_Description r)) <$> elems (PrefixListIds p)) ++
  ((λ r, ToString (ug_Description r)) <$> elems (UserIdGroupPairs p)).

(** The sources of the rule are of one kind, and it has at most one IPv6 source. *)
Definition separate (p : IpPermission) : Prop :=
  (elems (Ipv6Ranges p) = [] ∧ elems (PrefixListIds p) = [] ∧ elems (UserIdGroupPairs p) = []) ∨
  (elems (IpRanges p) = [] ∧ length (elems (Ipv6Ranges p)) ≤ 1 ∧ elems (PrefixListIds p) = [] ∧
     elems (UserIdGroupPairs p) = []) ∨
  (elems (IpRanges p) = [] ∧ elems (Ipv6Ranges p) = [] ∧ elems (UserIdGroupPairs p) = []) ∨
  (elems (IpRanges p) = [] ∧ elems (Ipv6Ranges p) = [] ∧ elems (PrefixListIds p) = []).

Lemma Test_descriptions d p : Test (IPPermissionMatchDesc d) p = true ↔ d ∈ descriptions p.
Proof.
  cbn [Test]. unfold descriptions. rewrite !orb_true_iff, !existsb_elem_of, !elem_of_app, !list_elem_of_fmap.
  setoid_rewrite String.eqb_eq. naive_solver.
Qed.

Lemma separate_descriptions d p :
  atomic p → separate p → d ∈ descriptions p → descriptions p = [d].
Proof.
  intros [H4 Hug Hpl] Hs. unfold descriptions. assert (∀ l : list string, length l ≤ 1 → d ∈ l → l = [d]) as Hone.
  { intros [|x [|]] Hl Hd; simpl in *; [set_solver|set_solver|lia]. }
  destruct Hs as [(-> & -> & ->)|[(-> & H6 & -> & ->)|[(-> & -> & ->)|(-> & -> & ->)]]];
    cbn [fmap list_fmap app]; rewrite ?app_nil_r; apply Hone; by rewrite ?length_app, length_fmap.
Qed.

(** ** What a load balancer may change *)
Section marks.
Context (lbName : string).

(** The descriptions only its own rules carry: client traffic and health checks. *)
Definition own_marks : list string :=
  [Sprintf "%s=%s" [NLBClientRuleDescription; lbName];
   Sprintf "%s=%s" [NLBHealthCheckRuleDescription; lbName]].

(** The rule of path MTU discovery from the block [x]. *)
Definition mtu_rule (x : option string) (p : IpPermission) : Prop :=
  IpProtocol p = Some "icmp" ∧ FromPort p = Some 3%Z ∧ ToPort p = Some 4%Z ∧
  elems (UserIdGroupPairs p) = [] ∧ ∃ r, elems (IpRanges p) = [r] ∧ CidrIp r = x.

(** Some other load balancer has a client rule from the block [x], in a rule none of whose
    sources is this one's. *)
Definition foreign (q : IpPermission) : Prop := ∀ d, d ∈ descriptions q → d ∉ own_marks.
Definition others_need (rules : list IpPermission) (x : option string) : Prop :=
  ∃ q r, q ∈ rules ∧ foreign q ∧ r ∈ elems (IpRanges q) ∧ CidrIp r = x ∧
    Contains (ToString (ipr_Description r)) NLBClientRuleDescription = true.

(** A rule that may be added: every source of it is marked for the load balancer, or it is a
    rule of path MTU discovery. *)
Definition grantable (p : IpPermission) : Prop :=
  (∃ d, d ∈ own_marks ∧ descriptions p = [d]) ∨
  descriptions p = [NLBMtuDiscoveryRuleDescription] ∧
    (IpProtocol p = Some "icmp" ∨ IpProtocol p = Some "icmpv6").

(** A rule that may be removed from a group that had [rules]: its only source is marked for
    the load balancer, or for path MTU discovery where no other load balancer needs it. *)
Definition revocable (rules : list IpPermission) (p : IpPermission) : Prop :=
  separate p →
  (∃ d, d ∈ own_marks ∧ descriptions p = [d]) ∨
  descriptions p = [NLBMtuDiscoveryRuleDescription] ∧
    (Forall ascii_perm rules → ∀ x, others_need rules x → ¬ mtu_rule x p).
End marks.

(** Calls that read, or change the rules of the group [id], which is not the one of the
    configuration, within [G] and [V]. *)
Definition changes (c : Cloud) (id : string) (G V : IpPermission → Prop) (ev : event awsE) : Prop :=
  match ev_call ev with
  | EC2 (AuthorizeSecurityGroupIngress id' l) =>
      id' = Some id ∧ id ≠ cfg_ElbSecurityGroup (c_cfg c) ∧ Forall G l
  | EC2 (RevokeSecurityGroupIngress id' l) =>
      id' = Some id ∧ id ≠ cfg_ElbSecurityGroup (c_cfg c) ∧ Forall V l
  | call => readonly call = true
  end.

Section sync.
Context {GR : GoRange} {GS : GoSort} (c : Cloud) (id : string).

Lemma selected_Forall (P : IpPermission → Prop) keep rules l changes :
  selectPermissions keep rules l = Some changes → Forall P l → Forall P changes.
Proof.
  intros E Hl. apply Forall_forall. intros p Hp. eapply Forall_forall; [exact Hl|].
  by eapply selectPermissions_subset.
Qed.

Lemma add_changes (G V : IpPermission → Prop) l :
  Forall G l → all_calls (changes c id G V) (addSecurityGroupIngress c id l).
Proof.
  intros Hl. unfold addSecurityGroupIngress.
  destruct (String.eqb_spec id (cfg_ElbSecurityGroup (c_cfg c))); [done|].
  apply all_calls_try; [by apply findSecurityGroup_calls|]. intros [group|]; [|done].
  destruct (selectPermissions _ _ l) as [ch|] eqn:E; simpl; [|done].
  destruct (length ch =? 0); simpl; [done|]. intros r. split; [|by destruct r].
  split_and!; [done..|]. by eapply selected_Forall.
Qed.

Lemma remove_changes (G V : IpPermission → Prop) l :
  Forall V l → all_calls (changes c id G V) (removeSecurityGroupIngress c id l).
Proof.
  intros Hl. unfold removeSecurityGroupIngress.
  destruct (String.eqb_spec id (cfg_ElbSecurityGroup (c_cfg c))); [done|].
  apply all_calls_try; [by apply findSecurityGroup_calls|]. intros [group|]; [|done].
  destruct (selectPermissions _ _ l) as [ch|] eqn:E; simpl; [|done].
  destruct (length ch =? 0); simpl; [done|]. intros r. split; [|by destruct r].
  split_and!; [done..|]. by eapply selected_Forall.
Qed.

(** A member of a difference was not found in the subtrahend. *)
Lemma elem_of_Difference_not_found a b d p :
  Difference a b = Some d → p ∈ List d → p ∈ List a ∧ differenceFound b p = Some false.
Proof.
  unfold Difference. intros Hd Hp.
  assert (∀ l acc, differenceLoop b l acc = Some d →
    (p ∈ l ∧ differenceFound b p = Some false) ∨ p ∈ List acc) as H.
  { induction l as [|x l IH]; intros acc; cbn [differenceLoop].
    - intros [= ->]. by right.
    - destruct (differenceFound b x) as [[]|] eqn:E; cbn [mbind option_bind]; [| |done].
      + intros [[? ?]|?]%IH; [left; set_solver|by right].
      + intros [[? ?]|H]%IH; [left; set_solver|]. apply elem_of_List_Insert in H as [?|?]; [left|by right].
        set_solver. }
  apply H in Hd as [?|Hn]; [done|]. by apply not_elem_of_List_nil in Hn.
Qed.

Lemma elem_of_List_Delete s l p : p ∈ List (Delete s l) → p ∈ List s.
Proof.
  rewrite !elem_of_List_lookup. intros [k Hk]. exists k. revert s Hk. unfold Delete.
  induction l as [|x l IH]; intros s; simpl; [done|]. intros H%IH. by apply lookup_delete_Some in H as [_ ?].
Qed.

Lemma List_empty s : size s = 0 → List s = [].
Proof. intros ->%map_size_empty_iff. unfold List. by rewrite range_map_empty. Qed.

(** The permissions after a pass: some that carry the mark are gone, some desired added. *)
Definition synced (s desired : IPPermissionSet) (d : string) (s' : IPPermissionSet) : Prop :=
  ∃ gone added, s' = Insert (Delete s gone) added ∧
    (∀ p, p ∈ gone → p ∈ List s ∧ d ∈ descriptions p) ∧ ∀ p, p ∈ added → p ∈ List desired.

Lemma wp_sync (G V : IpPermission → Prop) s desired d t :
  (∀ p, p ∈ List desired → G p) →
  (∀ p, p ∈ List s → d ∈ descriptions p → differenceFound desired p = Some false → V p) →
  wp (syncPermissions c id s desired d) (λ t' o, ∃ u, t' = t ++ u ∧ Forall (changes c id G V) u ∧
    ∀ s', o = Done (Ok s') → synced s desired d s') t.
Proof.
  intros HG HV. unfold syncPermissions.
  assert (∀ o : outcome (result IPPermissionSet), (∀ s', o ≠ Done (Ok s')) → ∃ u, t = t ++ u ∧
    Forall (changes c id G V) u ∧ ∀ s', o = Done (Ok s') → synced s desired d s') as Hstop.
  { intros o Ho. exists []. rewrite app_nil_r. split_and!; [done..|]. intros s' E. by destruct (Ho s'). }
  destruct (Difference desired s) as [grant|] eqn:Eg; simpl; [|by apply Hstop].
  destruct (Difference s desired) as [revoke|] eqn:Er; simpl; [|by apply Hstop]. clear Hstop.
  set (rv := DeleteIf revoke _).
  assert (∀ p, p ∈ List grant → p ∈ List desired) as Hg
    by (intros p Hp; by apply (elem_of_Difference_not_found _ _ _ _ Eg)).
  assert (∀ p, p ∈ List rv → (p ∈ List s ∧ d ∈ descriptions p) ∧ V p) as Hr.
  { intros p [k [Hk Ht]%DeleteIf_lookup]%elem_of_List_lookup. cbn in Ht. apply negb_false_iff in Ht.
    assert (p ∈ List revoke) as Hp by (apply elem_of_List_lookup; by exists k).
    apply (elem_of_Difference_not_found _ _ _ _ Er) in Hp as [Hp Hf].
    assert (d ∈ descriptions p) by (by apply Test_descriptions). auto. }
  clearbody rv. clear Eg Er revoke. rewrite wp_try.
  apply (wp_mono _ (λ t' o, ∃ u, t' = t ++ u ∧ Forall (changes c id G V) u ∧
    ∀ s', o = Done (Ok s') → s' = Delete s (List rv))).
  { destruct (Nat.ltb_spec 0 (size rv)).
    - rewrite wp_try. eapply wp_mono; [apply (all_calls_wp (changes c id G V)), remove_changes|].
      { apply Forall_forall. intros p Hp. by apply Hr. }
      intros t' [[b|e]|w] (u & -> & Hu); cbn [wp]; exists u; (split_and!; [done..|]); by intros s' [= ->].
    - cbn [wp]. exists []. rewrite app_nil_r, List_empty by lia. split_and!; [done..|]. by intros s' [= ->]. }
  intros t' [[s1|e]|w] (u & -> & Hu & Hs1); [|by exists u..]. rewrite (Hs1 s1 eq_refl).
  destruct (Nat.ltb_spec 0 (size grant)).
  - rewrite wp_try. eapply wp_mono; [apply (all_calls_wp (changes c id G V)), add_changes|].
    { apply Forall_forall. intros p Hp. by apply HG, Hg. }
    intros t' [[b|e]|w] (v & -> & Hv); cbn [wp]; exists (u ++ v); rewrite (assoc_L (++));
      (split_and!; [done|by apply Forall_app|]); try done.
    intros s' [= <-]. exists (List rv), (List grant). split_and!; [done| |done]. intros p Hp. by apply Hr.
  - cbn [wp]. exists u. split_and!; [done..|]. intros s' [= <-].
    exists (List rv), []. split_and!; [done| |set_solver]. intros p Hp. by apply Hr.
Qed.
End sync.

(** ** What stays through the passes *)

(** One piece per source: every IPv4 source of a rule has a piece of its own, which carries
    no description the rule does not. *)
Lemma ungroup_pass {A} (get : IpPermission → list A) set l q (D : IpPermission → Prop) :
  (∀ p a, a ∈ get p → D p → D (set p a)) →
  q ∈ l → D q → ∃ q', q' ∈ ungroupBy get set l ∧ D q'.
Proof.
  intros HD Hq H. unfold ungroupBy. destruct (Nat.leb_spec (length (get q)) 1) as [Hl|Hl].
  - exists q. split; [|done]. apply list_elem_of_bind. exists q. split; [|done].
    rewrite (proj2 (Nat.leb_le _ _)) by done. set_solver.
  - destruct (two_members _ Hl) as [a Ha]. exists (set q a). split; [|by apply HD].
    apply list_elem_of_bind. exists q. split; [|done].
    rewrite (proj2 (Nat.leb_gt _ _)) by done. set_solver.
Qed.

Lemma in_single_v4 p r :
  length (elems (IpRanges p)) ≤ 1 → r ∈ elems (IpRanges p) → elems (IpRanges p) = [r].
Proof. destruct (elems (IpRanges p)) as [|x [|]]; simpl; intros; [set_solver|set_solver|lia]. Qed.

Lemma ungroup_piece l q r :
  q ∈ l → r ∈ elems (IpRanges q) →
  ∃ q', q' ∈ ungroupList l ∧ elems (IpRanges q') = [r] ∧ descriptions q' ⊆ descriptions q.
Proof.
  intros Hq Hr. set (D := λ q', elems (IpRanges q') = [r] ∧ descriptions q' ⊆ descriptions q).
  assert (∃ q', q' ∈ ungroupBy (λ p, elems (IpRanges p)) withIpRange l ∧ D q') as (q1 & H1 & HD1).
  { unfold ungroupBy. destruct (Nat.leb_spec (length (elems (IpRanges q))) 1) as [Hl|Hl].
    - exists q. split; [|by split; [apply in_single_v4|]]. apply list_elem_of_bind. exists q. split; [|done].
      rewrite (proj2 (Nat.leb_le _ _)) by done. set_solver.
    - exists (withIpRange q r). split.
      + apply list_elem_of_bind. exists q. split; [|done].
        rewrite (proj2 (Nat.leb_gt _ _)) by done. set_solver.
      + split; [done|]. unfold descriptions. simpl. intros d. rewrite !elem_of_cons, !elem_of_app.
        intros [->|?]; [left; by apply (list_elem_of_fmap_2 (λ r, ToString (ipr_Description r)))|tauto]. }
  unfold ungroupList.
  assert (∃ q', q' ∈ ungroupBy (λ p, elems (UserIdGroupPairs p)) withUserIdGroupPair
    (ungroupBy (λ p, elems (IpRanges p)) withIpRange l) ∧ D q') as (q2 & H2 & HD2).
  { apply (ungroup_pass _ _ _ q1); [|done..]. intros p a Ha [E Hd]. split; [done|]. etrans; [|exact Hd].
    unfold descriptions. simpl. intros d. rewrite !elem_of_app, elem_of_cons.
    intros [?|[?|[?|[->|[]%not_elem_of_nil]]]]; [tauto..|].
    do 3 right. by apply (list_elem_of_fmap_2 (λ r, ToString (ug_Description r))). }
  apply (ungroup_pass _ _ _ q2); [|done..]. intros p a Ha [E Hd]. split; [done|]. etrans; [|exact Hd].
  unfold descriptions. simpl. intros d. rewrite !elem_of_app, elem_of_cons.
  intros [?|[?|[->|?]]]; [tauto| |by do 2 right; left; apply (list_elem_of_fmap_2 (λ r, ToString (pl_Description r)))|tauto].
  tauto.
Qed.

Section holds.
Context {GR : GoRange} (lbName : string) (rules : list IpPermission).

(** The permissions the passes work on: single sources, and still every piece of a rule of
    the group that is not this load balancer's. *)
Definition holds (s : IPPermissionSet) : Prop :=
  (∀ p, p ∈ List s → atomic p) ∧
  (Forall ascii_perm rules → wf s ∧
    ∀ q, q ∈ ungroupList (List (NewIPPermissionSet rules)) → foreign lbName q → mem q s).

Lemma holds_Ungroup : holds (Ungroup (NewIPPermissionSet rules)).
Proof.
  split.
  - intros p [k Hp]%elem_of_List_lookup.
    assert (p ∈ ungroupList (List (NewIPPermissionSet rules))) as H
      by (apply Insert_origin in Hp as [?|Hp]; [done|by rewrite lookup_empty in Hp]).
    eapply Forall_forall; [apply ungroupList_atomic|done].
  - intros Ha%wf_New. split; [by apply wf_Ungroup|]. intros q Hq _. by apply mem_Ungroup.
Qed.

Lemma holds_synced s desired d s' :
  d ∈ own_marks lbName → holds s → synced s desired d s' →
  (∀ p, p ∈ List desired → atomic p ∧ ascii_perm p) → holds s'.
Proof.
  intros Hd [Hat Hk] (gone & added & -> & Hgone & Hadded) Hdes. split.
  - intros p [Hp|Hp%elem_of_List_Delete]%elem_of_List_Insert; [by apply Hdes, Hadded|by apply Hat].
  - intros Ha. destruct (Hk Ha) as [Hwf Hkeep].
    assert (Forall ascii_perm added) as Hadd by (apply Forall_forall; intros p ?; by apply Hdes, Hadded).
    assert (Forall ascii_perm gone) as Hg.
    { apply Forall_forall. intros p [Hp _]%Hgone. by eapply Forall_forall; [apply wf_List|]. }
    pose proof Hwf as [H1 H2]. destruct (Delete_inv s gone H1 H2) as [H3 H4].
    split; [by apply Insert_inv|]. intros q Hq Hf. specialize (Hkeep q Hq Hf).
    assert (ascii_perm q) by (by eapply H2). rewrite mem_Insert, mem_Delete by done. right.
    split; [|done]. intros [_ Hin]%Hgone. by apply (Hf d).
Qed.

(** The rules of path MTU discovery for what the group still has. *)
Lemma elem_of_desired s p :
  p ∈ List (foldl (λ s perm, Insert s (mtuPermissions perm)) (NewIPPermissionSet []) (List s)) →
  ∃ q, q ∈ List s ∧ p ∈ mtuPermissions q.
Proof.
  assert (∀ l s0, p ∈ List (foldl (λ s perm, Insert s (mtuPermissions perm)) s0 l) →
    (∃ q, q ∈ l ∧ p ∈ mtuPermissions q) ∨ p ∈ List s0) as H.
  { induction l as [|x l IH]; intros s0; simpl; [auto|].
    intros [(q & ? & ?)|[?|?]%elem_of_List_Insert]%IH; [left; exists q|left; exists x|right]; set_solver. }
  intros [?|Hn]%H; [done|]. by apply not_elem_of_List_nil in Hn.
Qed.

Lemma mtuPermissions_ascii q : ascii_perm q → Forall ascii_perm (mtuPermissions q).
Proof.
  intros [_ H4 H6 _ _]. apply Forall_forall. intros p. unfold mtuPermissions.
  rewrite elem_of_app, !list_elem_of_omap.
  intros [(r & Hr & E)|(r & Hr & E)]; case_match; simplify_eq.
  - apply (ascii_elems ascii_IpRange _ _ H4) in Hr as [Hr _]. split; simpl; try done; [solve_ascii|].
    intros ? [= <-]. apply Forall_singleton. split; [done|solve_ascii].
  - apply (ascii_elems ascii_Ipv6Range _ _ H6) in Hr as [Hr _]. split; simpl; try done; [solve_ascii|].
    intros ? [= <-]. apply Forall_singleton. split; [done|solve_ascii].
Qed.

Lemma desired_mem s q p :
  wf s → mem q s → p ∈ mtuPermissions q →
  p ∈ List (foldl (λ s perm, Insert s (mtuPermissions perm)) (NewIPPermissionSet []) (List s)).
Proof.
  intros Hs Hq Hp. assert (q ∈ List s) as Hin by (destruct Hs; by apply elem_of_List).
  assert (ascii_perm p) as Hpa.
  { pose proof (mtuPermissions_ascii q) as Ha. eapply Forall_forall; [apply Ha|done].
    destruct Hs as [_ H2]. by eapply H2. }
  assert (∀ l s0, Forall ascii_perm l → wf s0 → (q ∈ l ∨ mem p s0) →
    wf (foldl (λ s perm, Insert s (mtuPermissions perm)) s0 l) ∧
    mem p (foldl (λ s perm, Insert s (mtuPermissions perm)) s0 l)) as H.
  { induction l as [|x l IH]; intros s0 Hl H0 Hor; simpl; [destruct Hor; [set_solver|done]|].
    apply Forall_cons in Hl as [Hx Hl]. pose proof (mtuPermissions_ascii x Hx) as Hmx.
    destruct H0. apply IH; [done|by apply Insert_inv|]. rewrite mem_Insert by done. set_solver. }
  destruct (H (List s) (NewIPPermissionSet [])) as [[? ?] ?];
    [by apply wf_List|by apply wf_New|by left|]. by apply elem_of_List.
Qed.

(** A rule of path MTU discovery that another load balancer needs is found among the
    desired ones. *)
Lemma needed_found s p x :
  holds s → Forall ascii_perm rules → others_need lbName rules x → mtu_rule x p →
  differenceFound (foldl (λ s perm, Insert s (mtuPermissions perm)) (NewIPPermissionSet []) (List s)) p
    ≠ Some false.
Proof.
  intros [_ Hk] Ha (q & r & Hq & Hf & Hr & Hx & Hc) (Hproto & Hfrom & Hto & Hug & r' & Hr' & Hx').
  destruct (Hk Ha) as [Hwf Hkeep]. pose proof (wf_New rules Ha) as [Hk0 _].
  assert (q ∈ List (NewIPPermissionSet rules)) as Hq0.
  { apply elem_of_List; [done|]. unfold NewIPPermissionSet. apply mem_Insert; [|done|by left].
    by eapply Forall_forall. }
  destruct (ungroup_piece _ _ _ Hq0 Hr) as (q' & Hq' & Hr1 & Hsub).
  assert (mem q' s) as Hm by (apply Hkeep; [done|intros d Hd; by apply Hf, Hsub]).
  set (e := mkIpPermission (Some 3%Z) (Some "icmp")
    (Some [mkIpRange (CidrIp r) (Some NLBMtuDiscoveryRuleDescription)]) None None (Some 4%Z) None).
  assert (e ∈ mtuPermissions q') as He.
  { unfold mtuPermissions. apply elem_of_app. left. rewrite Hr1. cbn. rewrite Hc. set_solver. }
  pose proof (desired_mem s q' e Hwf Hm He) as Hin. clear He.
  unfold differenceFound. revert Hin. generalize (List (foldl (λ s perm, Insert s (mtuPermissions perm))
    (NewIPPermissionSet []) (List s))) as dl. intros dl Hin.
  induction dl as [|y dl IH]; [set_solver|]. cbn [exists_o].
  destruct (ipPermissionExists p y false) as [[]|] eqn:E; simpl; [by intros [=]| |by intros [=]].
  apply IH. apply elem_of_cons in Hin as [<-|?]; [|done]. exfalso. revert E.
  unfold ipPermissionExists. rewrite Hproto, Hfrom, Hto, Hr', Hug. simpl. rewrite Hx', <-Hx.
  assert (isEqualStringPointer (CidrIp r) (CidrIp r) = true) as -> by by apply isEqualStringPointer_spec.
  done.
Qed.
End holds.

(** ** The passes over one group *)
Lemma is_ascii_app s t : is_ascii s → is_ascii t → is_ascii (s +:+ t).
Proof.
  unfold is_ascii. intros Hs Ht. assert (∀ s t, String.list_ascii_of_string (s +:+ t) =
    (String.list_ascii_of_string s ++ String.list_ascii_of_string t)%list) as ->.
  { clear. induction s as [|x s IH]; intros t; [done|]. unfold String.app in *. simpl. by rewrite IH. }
  by apply Forall_app.
Qed.

Lemma own_mark_ascii lbName d : is_ascii lbName → d ∈ own_marks lbName → is_ascii d.
Proof.
  intros Hl. unfold own_marks. rewrite !elem_of_cons, elem_of_nil.
  assert (∀ a, is_ascii a → is_ascii (Sprintf "%s=%s" [a; lbName])) as H.
  { intros a Ha. change (is_ascii (a +:+ ("=" +:+ (lbName +:+ "")))).
    repeat apply is_ascii_app; try done; by apply (bool_decide_unpack _). }
  intros [->|[->|[]]]; apply H; by apply (bool_decide_unpack _).
Qed.

Section group.
Context {GR : GoRange} {GS : GoSort} (c : Cloud) (lbName id : string) (rules : list IpPermission).
Context (name_ascii : is_ascii lbName).

(** The calls are changes that may be made, and the permissions returned hold what stays. *)
Definition passed (t t' : list (event awsE)) (o : outcome (result IPPermissionSet)) : Prop :=
  ∃ u, t' = t ++ u ∧ Forall (changes c id (grantable lbName) (revocable lbName rules)) u ∧
    ∀ s', o = Done (Ok s') → holds lbName rules s'.

Lemma trafficPermission_props d proto port cidr :
  descriptions (trafficPermission d proto port cidr) = [d] ∧
  atomic (trafficPermission d proto port cidr) ∧
  (is_ascii d → is_ascii proto → is_ascii cidr → ascii_perm (trafficPermission d proto port cidr)).
Proof.
  unfold trafficPermission, descriptions. split_and!.
  - by destruct (isIPv6CIDR cidr).
  - split; simpl; try lia; destruct (isIPv6CIDR cidr); simpl; lia.
  - intros Hd Hp Hc. split; simpl; try done; try (by intros ? [= <-]);
      destruct (isIPv6CIDR cidr); try done; intros ? [= <-]; apply Forall_singleton; split; by intros ? [= <-].
Qed.

Lemma elem_of_trafficPermissions d proto ports cidrs p :
  p ∈ List (trafficPermissions d proto ports cidrs) →
  ∃ port cidr, cidr ∈ cidrs ∧ p = trafficPermission d proto port cidr.
Proof.
  unfold trafficPermissions.
  assert (∀ port l s, p ∈ List (foldl (λ s cidr, Insert s [trafficPermission d proto port cidr]) s l) →
    (∃ cidr, cidr ∈ l ∧ p = trafficPermission d proto port cidr) ∨ p ∈ List s) as H.
  { intros port. induction l as [|x l IH]; intros s; cbn [foldl]; [auto|].
    intros [(y & ? & ?)|[?|?]%elem_of_List_Insert]%IH; [left; exists y|left; exists x|right]; set_solver. }
  assert (∀ l s, p ∈ List (foldl (λ s port, foldl (λ s cidr, Insert s [trafficPermission d proto port cidr])
    s cidrs) s l) → (∃ port cidr, cidr ∈ cidrs ∧ p = trafficPermission d proto port cidr) ∨ p ∈ List s) as H'.
  { induction l as [|x l IH]; intros s; cbn [foldl]; [auto|].
    intros [?|[(y & ? & ?)|?]%H]%IH; [by left|left; by exists x, y|by right]. }
  intros [?|Hn]%H'; [done|]. by apply not_elem_of_List_nil in Hn.
Qed.

Lemma wp_traffic s d proto ports cidrs t :
  d ∈ own_marks lbName → is_ascii proto → Forall is_ascii cidrs → holds lbName rules s →
  wp (updateInstanceSecurityGroupForNLBTraffic c id s d proto ports cidrs) (passed t) t.
Proof.
  intros Hd Hp Hc Hs. unfold updateInstanceSecurityGroupForNLBTraffic.
  eapply wp_mono; [apply (wp_sync c id (grantable lbName) (revocable lbName rules))|].
  - intros p (port & cidr & _ & ->)%elem_of_trafficPermissions. left. exists d. split; [done|].
    apply trafficPermission_props.
  - intros p Hin Hdp _ Hsep. left. exists d. split; [done|].
    apply separate_descriptions; [by apply Hs|done..].
  - intros t' o (u & -> & Hu & Hsync). exists u. split_and!; [done..|]. intros s' E.
    apply (holds_synced _ _ s (trafficPermissions d proto ports cidrs) d s'); [done..|by apply Hsync|].
    intros p (port & cidr & Hin & ->)%elem_of_trafficPermissions.
    split; [apply trafficPermission_props|]. apply trafficPermission_props; [|done|].
    + by apply (own_mark_ascii lbName).
    + by eapply (proj1 (Forall_forall _ _)).
Qed.

Lemma mtuPermissions_grantable q p : p ∈ mtuPermissions q → grantable lbName p.
Proof.
  unfold mtuPermissions. rewrite elem_of_app, !list_elem_of_omap.
  intros [(r & Hr & E)|(r & Hr & E)]; case_match; simplify_eq; right; split; auto.
Qed.

Lemma wp_mtu s t :
  holds lbName rules s → wp (updateInstanceSecurityGroupForNLBMTU c id s) (λ t' _, ∃ u, t' = t ++ u ∧
    Forall (changes c id (grantable lbName) (revocable lbName rules)) u) t.
Proof.
  intros Hs. unfold updateInstanceSecurityGroupForNLBMTU.
  eapply wp_mono; [apply (wp_sync c id (grantable lbName) (revocable lbName rules))|].
  - intros p (q & _ & Hp)%elem_of_desired. by eapply mtuPermissions_grantable.
  - intros p Hin Hdp Hf Hsep. right. split; [apply separate_descriptions; [by apply Hs|done..]|].
    intros Ha x Hx Hm. by eapply needed_found in Hf.
  - intros t' o (u & -> & Hu & _). by exists u.
Qed.

Lemma wp_updateGroup desired subnetCIDRs clientCIDRs ports proto hports sg t :
  is_ascii proto → Forall is_ascii subnetCIDRs → Forall is_ascii clientCIDRs →
  sg_IpPermissions sg = rules →
  wp (updateGroupForNLB c desired subnetCIDRs clientCIDRs ports proto hports
       (Sprintf "%s=%s" [NLBClientRuleDescription; lbName])
       (Sprintf "%s=%s" [NLBHealthCheckRuleDescription; lbName]) id sg)
    (λ t' _, ∃ u, t' = t ++ u ∧
       Forall (changes c id (grantable lbName) (revocable lbName rules)) u) t.
Proof.
  intros Hp Hsub Hcl Hsg. unfold updateGroupForNLB. rewrite Hsg.
  assert (is_ascii "tcp") by (by apply (bool_decide_unpack _)).
  assert (Sprintf "%s=%s" [NLBClientRuleDescription; lbName] ∈ own_marks lbName) as Hm1 by set_solver.
  assert (Sprintf "%s=%s" [NLBHealthCheckRuleDescription; lbName] ∈ own_marks lbName) as Hm2 by set_solver.
  revert Hm1 Hm2. generalize (Sprintf "%s=%s" [NLBClientRuleDescription; lbName]) as d1.
  generalize (Sprintf "%s=%s" [NLBHealthCheckRuleDescription; lbName]) as d2. intros d2 d1 Hm1 Hm2.
  pose proof (holds_Ungroup lbName rules) as H0. revert H0.
  generalize (Ungroup (NewIPPermissionSet rules)) as s0. intros s0 H0.
  assert (∀ (p : prog awsE (result IPPermissionSet)) proto ports cidrs, is_ascii proto → Forall is_ascii cidrs →
    wp p (passed t) t →
    wp (let? s := p in updateInstanceSecurityGroupForNLBTraffic c id s d1 proto ports cidrs) (passed t) t) as Hseq.
  { intros p pr po ci ? ? Hw. rewrite wp_try. eapply wp_mono; [exact Hw|].
    intros t' [[s1|e]|w] (u & -> & Hu & Hs1); [|by exists u..].
    eapply wp_mono; [apply wp_traffic; [done..|by apply Hs1]|].
    intros t' o (v & -> & Hv & Hs2). exists (u ++ v). rewrite (assoc_L (++)).
    split_and!; [done|by apply Forall_app|done]. }
  rewrite wp_try. eapply (wp_mono _ (passed t)).
  { case_bool_decide; apply Hseq; try done.
    - destruct (_ || _); [by apply wp_traffic|]. cbn [wp]. exists []. rewrite app_nil_r.
      split_and!; [done..|]. by intros s' [= <-].
    - by apply wp_traffic. }
  intros t' [[s1|e]|w] (u & -> & Hu & Hs1); [|by exists u..].
  destruct (negb _); [|by exists u]. rewrite wp_try.
  eapply wp_mono; [apply wp_mtu; by apply Hs1|]. intros t' [[s2|e]|w] (v & -> & Hv); cbn [wp];
    exists (u ++ v); rewrite (assoc_L (++)); (split; [done|by apply Forall_app]).
Qed.
End group.

(** ** The update for one load balancer *)
Section update.
Context (c : Cloud) (lbName : string).

(** EC2 has described the group [id] with the rules [rules], either by its id or among the
    groups tagged for the cluster. *)
Definition described (t : list (event awsE)) (id : string) (rules : list IpPermission) : Prop :=
  ∃ sg, sg_IpPermissions sg = rules ∧
    (Ev (EC2 (DescribeSecurityGroups [id] [])) (Ok [sg]) ∈ t ∨
     ∃ l, Ev (EC2 (DescribeSecurityGroups [] [])) (Ok l) ∈ t ∧ sg ∈ l ∧
       ToString (sg_GroupId sg) = id ∧ hasClusterTag (c_tagging c) (sg_Tags sg) = true).

(** The call reads, or changes a group as far as the rules described before allow. *)
Definition entitled (t : list (event awsE)) (ev : event awsE) : Prop :=
  readonly (ev_call ev) = true ∨
  ∃ id rules, described t id rules ∧ changes c id (grantable lbName) (revocable lbName rules) ev.

Lemma described_app t u id rules : described t id rules → described (t ++ u) id rules.
Proof.
  intros (sg & E & [H|(l & H1 & H2)]); exists sg; (split; [done|]); [left; set_solver|]. right. exists l. set_solver.
Qed.

Lemma entitled_app t u ev : entitled t ev → entitled (t ++ u) ev.
Proof. intros [?|(id & rules & ?%(described_app _ u) & ?)]; [by left|right]. by exists id, rules. Qed.

Context {GR : GoRange} {GS : GoSort}.

(** The groups of a map have been described. *)
Definition groups_described (t : list (event awsE)) (m : gmap string SecurityGroup) : Prop :=
  ∀ id sg, m !! id = Some sg → described t id (sg_IpPermissions sg).

Lemma wp_tagged t :
  justified entitled t →
  wp (getTaggedSecurityGroups c) (λ t' o, justified entitled t' ∧
    ∀ m, o = Done (Ok m) → groups_described t' m) t.
Proof.
  intros Ht. unfold getTaggedSecurityGroups. intros r. set (ev := Ev _ r).
  assert (justified entitled (t ++ [ev])) by (apply justified_snoc; [done|by left]).
  destruct r as [l|e]; cbn; (split; [done|]); [|done]. intros m [= <-].
  assert (∀ l' m0, l' ⊆ l → groups_described (t ++ [ev]) m0 → groups_described (t ++ [ev])
    (foldl (λ m group,
      if negb (hasClusterTag (c_tagging c) (sg_Tags group)) then m else
      let id := ToString (sg_GroupId group) in
      if String.eqb id "" then m else <[id := group]> m) m0 l')) as Hfold; [|by apply Hfold].
  induction l' as [|g l' IH]; intros m0 Hl Hm; cbn [foldl]; [done|]. apply IH; [set_solver|].
  destruct (hasClusterTag (c_tagging c) (sg_Tags g)) eqn:Eg; simpl; [|done].
  destruct (String.eqb _ ""); [done|]. intros id sg [[<- <-]|[_ ?]]%lookup_insert_Some; [|by apply Hm].
  exists g. split; [done|]. right. exists l. split_and!; [apply snoc_elem|set_solver|done..].
Qed.

Lemma wp_findGroup id t Q :
  (∀ ev r, readonly (ev_call ev) = true →
     (∀ sg, r = Ok (Some sg) → described (t ++ [ev]) id (sg_IpPermissions sg)) →
     Q (t ++ [ev]) (Done r)) →
  wp (findSecurityGroup id) Q t.
Proof.
  intros H. unfold findSecurityGroup. intros [[|sg [|]]|e]; cbn; apply H; try done.
  intros sg' [= <-]. exists sg. split; [done|]. left. apply snoc_elem.
Qed.

Lemma portSetsOf_ascii l ports proto hports r :
  is_ascii proto → portSetsOf l ports proto hports = Ok r → is_ascii r.1.2.
Proof.
  revert ports proto hports. induction l as [|m l IH]; intros ports proto hports Hp; simpl.
  - by intros [= <-].
  - destruct (if negb _ then _ else _); [|done]. apply IH. destruct (String.eqb _ _); [by apply (bool_decide_unpack _)|done].
Qed.

Lemma desiredGroups_silent groups l acc t (Q : list (event awsE) → outcome (result (gset string)) → Prop) :
  (∀ o, Q t o) → wp (desiredGroups groups l acc) Q t.
Proof.
  intros HQ. revert acc. induction l as [|i l IH]; intros acc; cbn [desiredGroups]; [apply HQ|].
  destruct (findSecurityGroupForInstance i groups) as [[[g|]|e]|]; cbn; auto.
Qed.

(** C18: adjusting the security groups of the instances to a network load balancer keeps to
    its own rules.  It changes only groups EC2 described, never the one of the cloud
    configuration.  Every rule it adds has one source, which carries the client or health
    mark of this load balancer or is one of path MTU discovery.  Every rule it removes whose
    sources are of one kind, with at most one IPv6 source, has one source, which carries a
    mark of this load balancer, so it belongs to no other; or it is one of path MTU discovery,
    and then no client rule of another load balancer in the group has its IPv4 block.  Every
    other call is a read.  The names and blocks are ASCII. *)
Theorem updateInstanceSecurityGroupsForNLB_isolated instances subnetCIDRs clientCIDRs mappings :
  is_ascii lbName → Forall is_ascii subnetCIDRs → Forall is_ascii clientCIDRs →
  wp (updateInstanceSecurityGroupsForNLB c lbName instances subnetCIDRs clientCIDRs mappings)
     (λ tr _, justified entitled tr) [].
Proof.
  intros Hlb Hsub Hcl. pose proof (justified_nil entitled) as H0.
  unfold updateInstanceSecurityGroupsForNLB. destruct (cfg_DisableSecurityGroupIngress _); [done|].
  rewrite wp_try_with. eapply wp_mono; [by apply wp_tagged|].
  intros t [[m|e]|w] (Ht & Hm); [|done..]. specialize (Hm m eq_refl). clear H0.
  rewrite wp_try. apply desiredGroups_silent. intros [[desired|e]|w]; [|done..].
  rewrite wp_try. apply (wp_loop _ _ _ (λ m t, justified entitled t ∧ groups_described t m)); [done| |].
  { clear t Ht Hm. intros id m' t _ [Ht Hm]. rewrite wp_try_with. apply wp_findGroup. intros ev r Hev Hd.
    assert (justified entitled (t ++ [ev])) by (apply justified_snoc; [done|by left]).
    destruct r as [[sg|]|e]; [|done..]. split; [done|].
    intros id' sg' [[<- <-]|[_ ?]]%lookup_insert_Some; [by apply Hd|by apply described_app, Hm]. }
  clear t m Ht Hm. intros m t [Ht Hm]. rewrite wp_try. cbn [wp].
  destruct (portSetsOf mappings ∅ "tcp" ∅) as [[[ports proto] hports]|e] eqn:Eports; [|done].
  apply portSetsOf_ascii in Eports; [|by apply (bool_decide_unpack _)].
  apply (wp_each _ _ (λ t, justified entitled t ∧ groups_described t m)); [done| |by intros ? []].
  clear t Ht Hm. intros [id sg] t Hin [Ht Hm]. apply elem_of_range_map in Hin.
  eapply wp_mono; [by apply (wp_updateGroup c lbName id (sg_IpPermissions sg))|].
  intros t' o (u & -> & Hu). specialize (Hm id sg Hin) as Hd.
  assert (justified entitled (t ++ u)) as Hj.
  { apply justified_app; [apply entitled_app|done|]. eapply Forall_impl; [exact Hu|]. intros ev Hev.
    right. by exists id, (sg_IpPermissions sg). }
  destruct o as [[]|]; [|done..]. split; [done|]. intros id' sg' ?. by apply described_app, Hm.
Qed.
End update.

(** ** Two load balancers in one group *)
Definition client_of (lb : string) : string := Sprintf "%s=%s" [NLBClientRuleDescription; lb].

(** EC2 reports the sources of one protocol and port as one rule. *)
Definition from_blocks (proto : string) (from to : Z) (l : list (string * string)) : IpPermission :=
  mkIpPermission (Some from) (Some proto)
    (Some ((λ '(cidr, d), mkIpRange (Some cidr) (Some d)) <$> l)) None None (Some to) None.
Definition from_blocks6 (proto : string) (from to : Z) (l : list (string * string)) : IpPermission :=
  mkIpPermission (Some from) (Some proto) None
    (Some ((λ '(cidr, d), mkIpv6Range (Some cidr) (Some d)) <$> l)) None (Some to) None.

Definition shared_group : SecurityGroup := mkSecurityGroup (Some "sg-1")
  [from_blocks "tcp" 30000 30000 [("0.0.0.0/0", client_of "one"); ("10.0.0.0/8", client_of "two")];
   from_blocks "icmp" 3 4 [("0.0.0.0/0", NLBMtuDiscoveryRuleDescription);
                           ("10.0.0.0/8", NLBMtuDiscoveryRuleDescription)];
   from_blocks "tcp" 22 22 [("10.0.0.0/8", "ssh")]]
  [mkTag (Some "KubernetesCluster") (Some "prod")].

(** What a run revokes. *)
Definition revoked (tr : list (event awsE)) : list (list IpPermission) :=
  omap (λ ev, match ev_call ev with EC2 (RevokeSecurityGroupIngress _ l) => Some l | _ => None end) tr.

Definition isolated_cloud : Cloud := mkCloud empty_config "" "" prod no_instance.

Lemma updateInstanceSecurityGroupsForNLB_isolated_witness :
  let '(o, _, tr) := run (one_group shared_group)
    (updateInstanceSecurityGroupsForNLB (GR := trie_order) isolated_cloud "one" ∅ [] [] []) tt [] in
  o = Done (Ok tt) ∧
  revoked tr = [[from_blocks "tcp" 30000 30000 [("0.0.0.0/0", client_of "one")]];
                [from_blocks "icmp" 3 4 [("0.0.0.0/0", NLBMtuDiscoveryRuleDescription)]]] ∧
  justified (entitled isolated_cloud "one") tr.
Proof.
  assert (is_ascii "one") as Ha by (by apply (bool_decide_unpack _)).
  pose proof (wp_run (one_group shared_group) _ _ tt []
    (updateInstanceSecurityGroupsForNLB_isolated isolated_cloud "one" (GR := trie_order) ∅ [] [] []
      Ha (Forall_nil_2 _) (Forall_nil_2 _))) as H.
  revert H. vm_compute run. intros H. split_and!; [done|by vm_compute|exact H].
Defined.

(** Where EC2 reports IPv6 sources of both load balancers as one rule, the rule is not
    split: it goes as a whole, with the source of the other load balancer. *)
Example isolated_needs_separate_rules :
  let both := from_blocks6 "tcp" 30000 30000
    [("::/0", client_of "one"); ("fd00::/8", client_of "two")] in
  let '(o, _, tr) := run (one_group (mkSecurityGroup (Some "sg-1") [both]
      [mkTag (Some "KubernetesCluster") (Some "prod")]))
    (updateInstanceSecurityGroupsForNLB (GR := trie_order) isolated_cloud "one" ∅ [] [] []) tt [] in
  o = Done (Ok tt) ∧ revoked tr = [[both]] ∧ ¬ separate both.
Proof. vm_compute run. split_and!; [done|by vm_compute|]. vm_compute. intuition (lia || discriminate). Qed.
