(* ===== verification/NlbListeners.v ===== *)
(** * What [ensureLoadBalancerv2] leaves behind

    The listeners of a load balancer as an abstract state that the calls of the API change,
    and the contract of [ensureLoadBalancerv2] in terms of that state: whatever the service
    answers, success means that the load balancer has exactly the wanted listeners. *)

From S2P Require Import Prelude GoLib Effects Track AwsApi Tags Config Cloud TargetGroups NlbRules Nlb NlbFacts.
From stdpp Require Import infinite.
Import Errors.

(** ** The listeners of one load balancer

    By ARN, each with its port and protocol. *)
Abbreviation listeners := (gmap string (Z * string)).
Implicit Types w : listeners.
Definition has w (f : Z * string) : Prop := ∃ arn, w !! arn = Some f.
(** No two listeners have the same port and protocol. *)
Definition distinct w : Prop := ∀ arn arn' f, w !! arn = Some f → w !! arn' = Some f → arn = arn'.

(** A complete answer of [DescribeListeners]. *)
Definition lists w (l : list Listener) : Prop :=
  (∀ x, x ∈ l → ∃ arn port, ls_ListenerArn x = Some arn ∧ ls_Port x = Some port ∧
     w !! arn = Some (port, ls_Protocol x)) ∧
  (∀ arn f, w !! arn = Some f → ∃ x, x ∈ l ∧ ls_ListenerArn x = Some arn).

(** What one call does to the listeners of the load balancer with the ARN [lb]: a refused call
    does nothing; a new listener has an ARN and a port and protocol of its own. *)
Definition serves (lb : option string) w (ev : event awsE) w' : Prop :=
  match ev with
  | Ev c r =>
     match c in awsE R return result R → Prop with
     | ELBV2 c =>
        match c in elbv2E R return result R → Prop with
        | DescribeListeners arn => λ r,
           w' = w ∧ match r with Ok l => arn = lb → lists w l | Err _ => True end
        | CreateListener input => λ r,
           if is_ok r && bool_decide (cl_LoadBalancerArn input = lb) then
             ∃ arn, w !! arn = None ∧ ¬ has w (cl_Port input, cl_Protocol input) ∧
               w' = <[arn := (cl_Port input, cl_Protocol input)]> w
           else w' = w
        | ModifyListener input => λ r,
           w' = match is_ok r, ml_ListenerArn input with
                | true, Some arn => alter (λ _, (ml_Port input, ml_Protocol input)) arn w
                | _, _ => w
                end
        | DeleteListener arn => λ r,
           w' = match is_ok r, arn with true, Some arn => delete arn w | _, _ => w end
        | _ => λ _, w' = w
        end
     | _ => λ _, w' = w
     end r
  end.

(** ** The load balancer of a name

    Its ARN and its listeners, when there is one. *)
Abbreviation network := (option (option string * listeners)).
Implicit Types W : network.

(** A load balancer is only created where there is none, and has no listeners then. *)
Definition nlb_serves (name : string) W (ev : event awsE) W' : Prop :=
  match ev with
  | Ev c r =>
     match c in awsE R return result R → Prop with
     | ELBV2 c =>
        match c in elbv2E R return result R → Prop with
        | DescribeLoadBalancers names arns => λ r,
           W' = W ∧ (names = [name] → arns = [] →
             match r with
             | Ok l => ∀ lb, head (filter (λ lb, nlb_Type lb = LoadBalancerTypeEnumNetwork) l) = Some lb →
                 ∃ w, W = Some (nlb_LoadBalancerArn lb, w)
             | Err e => AsAPIError e = Some "LoadBalancerNotFound" → W = None
             end)
        | CreateLoadBalancer input => λ r,
           match r with
           | Ok l => if String.eqb (cn_Name input) name then
               W = None ∧ ∃ arn, W' = Some (arn, ∅) ∧ ∀ lb, head l = Some lb → nlb_LoadBalancerArn lb = arn
             else W' = W
           | Err _ => W' = W
           end
        | DeleteLoadBalancer arn => λ r,
           W' = match W with
                | Some (a, _) => if is_ok r && bool_decide (arn = a) then None else W
                | None => None
                end
        | c => λ r,
           match W with
           | Some (arn, w) => ∃ w', serves arn w (Ev (ELBV2 c) r) w' ∧ W' = Some (arn, w')
           | None => W' = None
           end
        end
     | _ => λ _, W' = W
     end r
  end.

(** Calls that change neither the load balancer nor its listeners. *)
Definition quiet (ev : event awsE) : Prop :=
  match ev_call ev with
  | ELBV2 (CreateLoadBalancer _) | ELBV2 (DeleteLoadBalancer _) | ELBV2 (CreateListener _)
  | ELBV2 (ModifyListener _) | ELBV2 (DeleteListener _) => False
  | _ => True
  end.

Lemma quiet_stable name P ev : quiet ev → stable (nlb_serves name) P P ev.
Proof.
  destruct ev as [R c r]. unfold quiet. cbn [ev_call].
  destruct c as [R c|R c|R c]; [intros _ W W' ? E; cbn in E; by subst..|].
  intros Hq W W' HW Hs. destruct c; try done; cbn in Hs; try (by destruct Hs as [-> _]).
  all: destruct W as [[a w]|]; [destruct Hs as (w' & Hs & ->)|by subst]; try (by subst).
  by destruct Hs as [-> _].
Qed.

Lemma wp_quiet {A} name W0 (p : prog awsE A) P t :
  all_calls quiet p → tracked (nlb_serves name) W0 P t →
  wp p (λ t' _, tracked (nlb_serves name) W0 P t') t.
Proof. intros H. apply wp_tracked. eapply all_calls_mono; [exact H|]. intros. by apply quiet_stable. Qed.

Definition listeners_of W : listeners := match W with Some (_, w) => w | None => ∅ end.

(** ** The calls around the listeners *)
Section phases.
Context {GR : GoRange} (c : Cloud) (nn : NamespacedName) (instanceIDs : list string)
  (tags : gmap string string) (ipType : string).
Context (name : string) (lb : LoadBalancerV2) (W0 : network).
Abbreviation w0 := (listeners_of W0).

(** The load balancer is [lb], and its listeners satisfy [P]. *)
Definition at_lb (P : listeners → Prop) W : Prop :=
  (∀ arn w, W0 = Some (arn, w) → arn = nlb_LoadBalancerArn lb) ∧
  ∃ w, W = Some (nlb_LoadBalancerArn lb, w) ∧ P w.
Abbreviation tracks P := (tracked (nlb_serves name) W0 (at_lb P)).
Abbreviation keeps P P' := (stable (nlb_serves name) (at_lb P) (at_lb P')).

Lemma tracks_mono (P P' : listeners → Prop) t : tracks P t → (∀ w, P w → P' w) → tracks P' t.
Proof. intros Ht H. eapply tracked_mono; [exact Ht|]. intros W (Ha & w & -> & Hw). split; [done|]. eauto. Qed.

Lemma keeps_intro (P P' : listeners → Prop) R (cl : elbv2E R) r :
  match cl with DescribeLoadBalancers _ _ | CreateLoadBalancer _ | DeleteLoadBalancer _ => False | _ => True end →
  (∀ w w', P w → serves (nlb_LoadBalancerArn lb) w (Ev (ELBV2 cl) r) w' → P' w') →
  keeps P P' (Ev (ELBV2 cl) r).
Proof.
  intros Hc H W W' (Ha & w & -> & Hw) Hs. split; [done|].
  destruct cl; try done; cbn in Hs; destruct Hs as (w' & Hs & ->); exists w'; (split; [done|]); by eapply H.
Qed.

Lemma quiet_ensureTargetGroup tg mapping vpcID :
  all_calls quiet (ensureTargetGroup c tg nn mapping instanceIDs vpcID tags ipType).
Proof. apply ensureTargetGroup_calls. intros R call r. by destruct call. Qed.

Lemma quiet_reconcileLBAttributes arn annotations : all_calls quiet (reconcileLBAttributes arn annotations).
Proof. unfold reconcileLBAttributes. calls; done. Qed.

Lemma quiet_reconcileTargetGroups arn annotations :
  all_calls quiet (reconcileTargetGroupsAttributes arn annotations).
Proof. unfold reconcileTargetGroupsAttributes, ensureTargetGroupAttributes. calls; done. Qed.

(** Modifying a listener into what it already is, for the port and the protocol. *)
Lemma updateListener_stable groups vpcId listener mapping P :
  (∀ w, P w → ∃ arn, ls_ListenerArn listener = Some arn ∧ w !! arn = Some (frontend mapping)) →
  all_calls (keeps P P) (updateListener c nn groups instanceIDs vpcId tags ipType listener mapping).
Proof.
  intros HP. unfold updateListener.
  assert (∀ tg m v, all_calls (keeps P P) (ensureTargetGroup c tg nn m instanceIDs v tags ipType)) as He.
  { intros. eapply all_calls_mono; [apply quiet_ensureTargetGroup|]. intros. by apply quiet_stable. }
  calls; auto; try (by apply quiet_stable).
  all: apply keeps_intro; [done|]; intros w w' Hw E; destruct (HP w Hw) as (arn & Harn & Hf); cbn in E;
    rewrite Harn in E; subst w'.
  all: destruct (is_ok r); [|done].
  all: replace (alter _ arn w) with w; [done|].
  all: apply map_eq; intros k; destruct (decide (k = arn)) as [-> |]; [|by rewrite lookup_alter_ne].
  all: rewrite lookup_alter_eq, Hf; cbn; unfold resetALPN; by case_match.
Qed.

(** A listener is created, unless there is an error. *)
Lemma wp_create arn mapping vpcID P t :
  arn = nlb_LoadBalancerArn lb → tracks P t →
  wp (createListenerV2 c arn mapping nn instanceIDs vpcID tags ipType)
     (λ t' o, tracks (λ w', P w' ∨ ∃ w a, P w ∧ w !! a = None ∧ ¬ has w (frontend mapping) ∧
                w' = <[a := frontend mapping]> w) t' ∧
        match o with
        | Done (Ok _) => tracks (λ w', ∃ w a, P w ∧ w !! a = None ∧ ¬ has w (frontend mapping) ∧
                           w' = <[a := frontend mapping]> w) t'
        | _ => True
        end) t.
Proof.
  intros -> Ht. unfold createListenerV2. rewrite wp_try.
  eapply wp_mono; [eapply wp_quiet; [apply quiet_ensureTargetGroup|exact Ht]|].
  intros t' [[target|e]|s] Ht'; [|split; [eapply tracks_mono; [exact Ht'|by left]|done]..].
  rewrite wp_try_with. intros r.
  set (ev := Ev _ r). assert (∀ l, r = Ok l → tracks (λ w', ∃ w a, P w ∧ w !! a = None ∧
    ¬ has w (frontend mapping) ∧ w' = <[a := frontend mapping]> w) (t' ++ [ev])) as Hok.
  { intros l ->. eapply tracked_snoc; [exact Ht'|]. apply keeps_intro; [done|]. intros w w' Hw. cbn.
    rewrite bool_decide_true by done. intros (a & Ha & Hn & ->). eauto 10. }
  destruct r as [l|e].
  - specialize (Hok l eq_refl). destruct l as [|x l]; cbn [wp no_panic head bind];
      (split; [eapply tracks_mono; [exact Hok|by right]|done]).
  - split; [|done]. eapply tracked_snoc; [exact Ht'|]. apply keeps_intro; [done|]. intros w w' Hw E. cbn in E. subst. by left.
Qed.

(** The listener of an entry is deleted, unless there is an error. *)
Lemma wp_delete listener P t :
  (∀ w, P w → is_Some (ls_ListenerArn listener)) → tracks P t →
  wp (deleteListenerV2 listener)
     (λ t' o, tracks (λ w', P w' ∨ ∃ w a, P w ∧ ls_ListenerArn listener = Some a ∧ w' = delete a w) t' ∧
        match o with
        | Done (Ok _) => tracks (λ w', ∃ w a, P w ∧ ls_ListenerArn listener = Some a ∧ w' = delete a w) t'
        | _ => True
        end) t.
Proof.
  intros HP Ht. unfold deleteListenerV2. rewrite wp_try_with. intros [[]|e].
  2: { cbn [wp]. split; [|done]. eapply tracked_snoc; [exact Ht|]. apply keeps_intro; [done|]. intros w w' Hw E. cbn in E. subst. by left. }
  assert (tracks (λ w', ∃ w a, P w ∧ ls_ListenerArn listener = Some a ∧ w' = delete a w)
    (t ++ [Ev (ELBV2 (DeleteListener (ls_ListenerArn listener))) (Ok tt)])) as Hd.
  { eapply tracked_snoc; [exact Ht|]. apply keeps_intro; [done|]. intros w w' Hw E. cbn in E.
    destruct (HP w Hw) as [a Ha]. rewrite Ha in E. eauto. }
  destruct (head (ls_DefaultActions listener)) as [tg|]; cbn [no_panic bind wp].
  2: { split; [eapply tracks_mono; [exact Hd|by right]|done]. }
  rewrite wp_try_with. intros r.
  assert (tracks (λ w', ∃ w a, P w ∧ ls_ListenerArn listener = Some a ∧ w' = delete a w)
    ((t ++ [Ev (ELBV2 (DeleteListener (ls_ListenerArn listener))) (Ok tt)]) ++ [Ev (ELBV2 (DeleteTargetGroup tg)) r])) as Hd'.
  { eapply tracked_snoc; [exact Hd|]. by apply quiet_stable. }
  destruct r as [[]|e]; cbn [wp]; (split; [eapply tracks_mono; [exact Hd'|by right]|done]).
Qed.

(** *** Bringing the listeners in line *)
Context (mappings : list nlbPortMapping) (Hdistinct : distinct w0).
Abbreviation wanted := (frontend <$> mappings).

Lemma listenersByPort_lookup (l : list Listener) actual port proto :
  listenersByPort l = Some actual →
  (∀ x, listenerAt actual port proto = Some x → x ∈ l ∧ ls_Port x = Some port ∧ ls_Protocol x = proto) ∧
  (∀ x, x ∈ l → ls_Port x = Some port → ls_Protocol x = proto → is_Some (listenerAt actual port proto)).
Proof.
  revert actual. induction l as [|x l IH] using rev_ind; intros actual.
  - intros [= <-]. split; [done|set_solver].
  - unfold listenersByPort. rewrite foldl_snoc. fold (listenersByPort l).
    destruct (listenersByPort l) as [m|]; [|done]. cbn. destruct (ls_Port x) as [p|] eqn:Ep; [|done].
    cbn. intros [= <-]. destruct (IH m eq_refl) as [IH1 IH2]. unfold listenerAt in *.
    assert (<[p := <[ls_Protocol x := x]> (default ∅ (m !! p))]> m !! port ≫= (λ m, m !! proto) =
      if decide (port = p ∧ proto = ls_Protocol x) then Some x else m !! port ≫= λ m, m !! proto) as ->.
    { destruct (decide (port = p)) as [->|]; [|rewrite lookup_insert_ne, decide_False by naive_solver; done].
      rewrite lookup_insert_eq. cbn. destruct (decide (proto = ls_Protocol x)) as [->|].
      - by rewrite lookup_insert_eq, decide_True.
      - rewrite lookup_insert_ne, decide_False by naive_solver. by destruct (m !! p). }
    case_decide as Hd; split.
    + intros y [= <-]. destruct Hd as [-> ->]. split; [apply snoc_elem|done].
    + done.
    + intros y Hy. destruct (IH1 y Hy) as (? & ? & ?). set_solver.
    + intros y [Hy|Hy%list_elem_of_singleton]%elem_of_app; [by apply IH2|]. subst y.
      intros Hp Hproto. destruct Hd. split; congruence.
Qed.

(** The listeners after the listeners for [past] were created. *)
Definition grown (l : list Listener) (past : list nlbPortMapping) w : Prop :=
  lists w0 l ∧ w0 ⊆ w ∧ (∀ f, f ∈ frontend <$> past → has w f) ∧
  (∀ arn f, w !! arn = Some f → w0 !! arn = Some f ∨ f ∈ frontend <$> past).

Lemma grown_more l past m w : grown l past w → has w (frontend m) → grown l (past ++ [m]) w.
Proof.
  intros (H1 & H2 & H3 & H4) Hm. split_and!; [done|done| |].
  - intros f. rewrite fmap_app, elem_of_app. intros [Hf|Hf]; [by apply H3|]. cbn in Hf.
    apply list_elem_of_singleton in Hf as ->. done.
  - intros arn f Hf. rewrite fmap_app, elem_of_app. destruct (H4 arn f Hf); auto.
Qed.

Lemma grown_insert l past m w a :
  grown l past w → w !! a = None → grown l (past ++ [m]) (<[a := frontend m]> w).
Proof.
  intros (H1 & H2 & H3 & H4) Ha. split_and!; [done|by apply insert_subseteq_r; [eapply lookup_weaken_None|]| |].
  - intros f. rewrite fmap_app, elem_of_app. intros [Hf|Hf].
    + destruct (H3 f Hf) as [k Hk]. exists k. rewrite lookup_insert_ne; [done|]. by intros ->; congruence.
    + cbn in Hf. apply list_elem_of_singleton in Hf as ->. exists a. apply lookup_insert_eq.
  - intros arn f. rewrite fmap_app, elem_of_app. destruct (decide (arn = a)) as [-> |].
    + rewrite lookup_insert_eq. intros [= <-]. right. right. set_solver.
    + rewrite lookup_insert_ne by done. intros Hf. destruct (H4 arn f Hf); auto.
Qed.

Lemma wp_syncMapping_tracked l actual groups mapping past d t :
  listenersByPort l = Some actual → tracks (grown l past) t →
  wp (syncMapping c nn lb actual groups instanceIDs tags ipType d mapping)
     (λ t' o, tracks (λ w, grown l past w ∨ grown l (past ++ [mapping]) w) t' ∧
        match o with Done (Ok _) => tracks (grown l (past ++ [mapping])) t' | _ => True end) t.
Proof.
  intros Hl Ht. unfold syncMapping.
  destruct (listenersByPort_lookup l actual (FrontendPort mapping) (FrontendProtocol mapping) Hl) as [Hat _].
  destruct (listenerAt actual _ _) as [x|].
  - assert (∀ w, grown l past w → ∃ arn, ls_ListenerArn x = Some arn ∧ w !! arn = Some (frontend mapping)) as Hx.
    { intros w ([Hlist _] & Hsub & _). destruct (Hat x eq_refl) as (Hin & Hp & Hproto).
      destruct (Hlist x Hin) as (arn & port & Ha & Hp' & Hw). exists arn. split; [done|].
      eapply lookup_weaken; [|exact Hsub]. rewrite Hw, Hproto. unfold frontend. congruence. }
    rewrite wp_try. eapply wp_mono; [eapply wp_tracked; [by apply updateListener_stable|exact Ht]|].
    intros t' o Ht'. assert (tracks (grown l (past ++ [mapping])) t') as Ht2.
    { eapply tracks_mono; [exact Ht'|]. intros w Hw. apply grown_more; [done|].
      destruct (Hx w Hw) as (arn & _ & ?). by exists arn. }
    destruct o as [[[]|e]|s]; cbn [wp]; (split; [|done]); (eapply tracks_mono; [exact Ht'|by left]).
  - destruct (nlb_VpcId lb) as [v|]; cbn [no_panic bind wp];
      [|split; [eapply tracks_mono; [exact Ht|by left]|done]].
    rewrite wp_try. eapply wp_mono; [by apply (wp_create (nlb_LoadBalancerArn lb) mapping v (grown l past))|].
    assert (∀ w', (∃ w a, grown l past w ∧ w !! a = None ∧ ¬ has w (frontend mapping) ∧
      w' = <[a:=frontend mapping]> w) → grown l (past ++ [mapping]) w') as Hg.
    { intros w' (w & a & Hw & Ha & _ & ->). by apply grown_insert. }
    intros t' o [Ht' Hok].
    assert (tracks (λ w, grown l past w ∨ grown l (past ++ [mapping]) w) t') as Hor.
    { eapply tracks_mono; [exact Ht'|]. intros w [Hw|Hw]; [by left|right; by apply Hg]. }
    destruct o as [[x|e]|s]; cbn [wp]; (split; [done|]); [|done..].
    eapply tracks_mono; [exact Hok|done].
Qed.

(** The listeners once those of the entries in [seen] that are not wanted were deleted. *)
Definition pruned (l : list Listener) (seen : Z * string → Prop) w : Prop :=
  lists w0 l ∧ (∀ f, f ∈ wanted → has w f) ∧
  (∀ arn f, w !! arn = Some f → f ∈ wanted ∨ w0 !! arn = Some f ∧ ¬ seen f) ∧
  (∀ arn f, w0 !! arn = Some f → f ∉ wanted → w !! arn = Some f ∨ w !! arn = None).

Lemma pruned_grown l w : grown l mappings w → pruned l (λ _, False) w.
Proof.
  intros (H1 & H2 & H3 & H4). split_and!; [done..| |].
  - intros arn f Hf. destruct (H4 arn f Hf); [right|left]; auto.
  - intros arn f Hf _. left. by eapply lookup_weaken.
Qed.

Lemma pruned_mono l (seen seen' : Z * string → Prop) w :
  pruned l seen w → (∀ f, seen' f → f ∉ wanted → seen f) → pruned l seen' w.
Proof.
  intros (H1 & H2 & H3 & H4) H. split_and!; [done..| |done].
  intros arn f Hf. destruct (H3 arn f Hf) as [?|[? ?]]; [by left|].
  destruct (decide (f ∈ wanted)) as [?|Hn]; [by left|right; split; [done|]]. intros ?. auto.
Qed.

Lemma pruned_delete l (seen : Z * string → Prop) w a f :
  pruned l seen w → w0 !! a = Some f → f ∉ wanted →
  pruned l (λ g, seen g ∨ g = f) (delete a w).
Proof.
  intros (H1 & H2 & H3 & H4) Ha Hn. split_and!; [done| | |].
  - intros g Hg. destruct (H2 g Hg) as [b Hb]. exists b. rewrite lookup_delete_ne; [done|].
    intros <-. destruct (H4 a f Ha Hn); congruence.
  - intros b g [Hne Hb]%lookup_delete_Some. destruct (H3 b g Hb) as [?|[Hg Hs]]; [by left|right].
    split; [done|]. intros [?| ->]; [done|]. destruct Hne. by eapply Hdistinct.
  - intros b g Hb Hg. destruct (decide (a = b)) as [<-|]; [right; apply lookup_delete_eq|].
    rewrite lookup_delete_ne by done. auto.
Qed.

Lemma pruned_exact l actual w :
  listenersByPort l = Some actual →
  pruned l (λ f, is_Some (listenerAt actual f.1 f.2)) w → ∀ f, has w f ↔ f ∈ wanted.
Proof.
  intros Hl (H1 & H2 & H3 & _) f. split; [|apply H2]. intros [arn Hf].
  destruct (H3 arn f Hf) as [?|[Hw Hn]]; [done|]. destruct Hn, H1 as [H1 H1'].
  destruct (H1' arn f Hw) as (x & Hx & Ha). destruct (H1 x Hx) as (a & p & Ha' & Hp & Hx').
  assert (f = (p, ls_Protocol x)) as -> by congruence.
  by eapply (listenersByPort_lookup l actual); [| |cbn|cbn].
Qed.

(** One entry of the map of listeners. *)
Lemma wp_prune_entry l (seen : Z * string → Prop) actual port proto x (d : bool) t :
  listenersByPort l = Some actual → listenerAt actual port proto = Some x →
  tracks (pruned l seen) t →
  wp (if bool_decide (proto ∈ default ∅ (frontEndPorts mappings !! port)) then Ret (Ok d) else
      let? _ := deleteListenerV2 x in Ret (Ok true))
     (λ t' o, tracks (λ w, ∃ seen, pruned l seen w) t' ∧
        match o with
        | Done (Ok _) => tracks (pruned l (λ f, seen f ∨ f = (port, proto))) t'
        | _ => True
        end) t.
Proof.
  intros Hl Hx Ht. destruct (listenersByPort_lookup l actual port proto Hl) as [Hat _].
  destruct (Hat x Hx) as (Hin & Hp & Hproto). case_bool_decide as Hw; rewrite elem_of_frontEndPorts in Hw.
  { cbn [wp]. split; [eapply tracks_mono; [exact Ht|by eauto]|]. eapply tracks_mono; [exact Ht|].
    intros w Hpr. eapply pruned_mono; [exact Hpr|]. by intros f [?| ->]. }
  assert (∀ w, pruned l seen w → ∃ a, ls_ListenerArn x = Some a ∧ w0 !! a = Some (port, proto)) as Harn.
  { intros w ([H1 _] & _). destruct (H1 x Hin) as (a & p & Ha & Hp' & Hw0). exists a.
    split; [done|]. rewrite Hw0. congruence. }
  assert (∀ w', (∃ w a, pruned l seen w ∧ ls_ListenerArn x = Some a ∧ w' = delete a w) →
    pruned l (λ f, seen f ∨ f = (port, proto)) w') as Hdel.
  { intros w' (w & a & Hpr & Ha & ->). apply pruned_delete; [done| |done].
    destruct (Harn w Hpr) as (a' & Ha' & Hw'). congruence. }
  rewrite wp_try. eapply wp_mono; [apply (wp_delete x (pruned l seen)); [|done]|].
  { intros w Hpr. destruct (Harn w Hpr) as (a & -> & _). by eexists. }
  intros t' o [Ht' Hok].
  assert (tracks (λ w, ∃ seen, pruned l seen w) t') as Hany.
  { eapply tracks_mono; [exact Ht'|]. intros w [Hw'|Hw']; [by eauto|]. eexists. by apply Hdel. }
  destruct o as [[[]|e]|s]; cbn [wp]; (split; [done|]); [|done..].
  eapply tracks_mono; [exact Hok|done].
Qed.

Lemma wp_deleteStaleListeners_tracked l actual d t :
  listenersByPort l = Some actual → tracks (pruned l (λ _, False)) t →
  wp (deleteStaleListeners actual mappings d)
     (λ t' o, tracks (λ w, ∃ seen, pruned l seen w) t' ∧
        match o with
        | Done (Ok _) => tracks (λ w, ∀ f, has w f ↔ f ∈ wanted) t'
        | _ => True
        end) t.
Proof.
  intros Hl Ht. unfold deleteStaleListeners.
  apply (wp_loop_done _ _ _ (λ past _ t', tracks (pruned l (λ f, ∃ ls, (f.1, ls) ∈ past ∧ is_Some (ls !! f.2))) t')).
  - eapply tracks_mono; [exact Ht|]. intros w Hw. eapply pruned_mono; [exact Hw|].
    intros f (ls & Hin & _) _. by apply not_elem_of_nil in Hin.
  - intros past [port ls] rest d' t' Hr Ht'.
    assert (actual !! port = Some ls) as Hport by (apply elem_of_range_map; rewrite Hr; set_solver).
    apply (wp_loop_done _ _ _ (λ past' _ t', tracks (pruned l (λ f,
      (∃ ls, (f.1, ls) ∈ past ∧ is_Some (ls !! f.2)) ∨ f.1 = port ∧ f.2 ∈ past'.*1)) t')).
    + eapply tracks_mono; [exact Ht'|]. intros w Hw. eapply pruned_mono; [exact Hw|].
      intros f [?|[_ Hin]] _; [done|]. by apply not_elem_of_nil in Hin.
    + intros past' [proto x] rest' d'' t'' Hr' Ht''.
      assert (listenerAt actual port proto = Some x) as Hx.
      { unfold listenerAt. rewrite Hport. cbn. apply elem_of_range_map. rewrite Hr'. set_solver. }
      eapply wp_mono; [eapply wp_prune_entry; [exact Hl|exact Hx|exact Ht'']|].
      intros t3 [[d3|e]|s] [Hany Hok]; [|done..]. eapply tracks_mono; [exact Hok|].
      intros w Hw. eapply pruned_mono; [exact Hw|]. intros [p q] H _. cbn [fst snd] in *.
      rewrite fmap_app, elem_of_app in H. cbn in H. rewrite list_elem_of_singleton in H. naive_solver.
    + intros d'' t'' Ht''. cbn beta iota. eapply tracks_mono; [exact Ht''|]. intros w Hw.
      eapply pruned_mono; [exact Hw|]. intros [p q] (ls' & Hin & Hq) _. cbn [fst snd] in *.
      apply elem_of_app in Hin as [Hin|Hin%list_elem_of_singleton]; [left; by eauto|right].
      simplify_eq. split; [done|]. destruct Hq as [x Hq]. apply list_elem_of_fmap. exists (q, x).
      split; [done|]. by apply elem_of_range_map.
  - intros d' t' Ht'. split; [eapply tracks_mono; [exact Ht'|by eauto]|].
    eapply tracks_mono; [exact Ht'|]. intros w Hw. eapply pruned_exact; [exact Hl|].
    eapply pruned_mono; [exact Hw|]. intros [p q] [x Hx] _. unfold listenerAt in Hx. cbn [fst snd] in *.
    destruct (actual !! p) as [ls|] eqn:E; [|done]. exists ls. split; [by apply elem_of_range_map|by exists x].
Qed.

(** No wanted listener is lost. *)
Definition kept w : Prop := ∀ f, f ∈ wanted → has w0 f → has w f.
Definition exact w : Prop := ∀ f, has w f ↔ f ∈ wanted.
(** How a run ends: with all wanted listeners, and on success with no others. *)
Definition ends {A} (t : list (event awsE)) (o : outcome (result A)) : Prop :=
  tracks kept t ∧ match o with Done (Ok _) => tracks exact t | _ => True end.

Lemma kept_exact w : exact w → kept w.
Proof. intros H f Hf _. by apply H. Qed.
Lemma kept_grown l past w : grown l past w → kept w.
Proof. intros (_ & H & _) f _ [a Ha]. exists a. by eapply lookup_weaken. Qed.
Lemma kept_pruned l seen w : pruned l seen w → kept w.
Proof. intros (_ & H & _) f Hf _. auto. Qed.

Lemma ends_exact {A} (o : outcome (result A)) t : tracks exact t → ends t o.
Proof. intros H. split; [eapply tracks_mono; [exact H|apply kept_exact]|]. by destruct o as [[]|]. Qed.

(** Quiet calls once the listeners are exact. *)
Lemma wp_ends_quiet {A} (p : prog awsE (result A)) t :
  all_calls quiet p → tracks exact t → wp p ends t.
Proof. intros Hp Ht. eapply wp_mono; [by eapply wp_quiet|]. intros t' o. apply ends_exact. Qed.

Lemma wp_syncMappings t :
  tracks (λ w, w = w0) t → wp (syncMappings c nn lb mappings instanceIDs tags ipType) ends t.
Proof.
  intros Ht. unfold syncMappings.
  assert (∀ t, tracks (λ w, w = w0) t → tracks kept t) as H0.
  { intros t' Ht'. eapply tracks_mono; [exact Ht'|]. by intros w -> f. }
  rewrite wp_try_with. intros [l|e]; cbn [wp].
  2: { split; [|done]. apply H0. eapply tracked_snoc; [exact Ht|]. by apply quiet_stable. }
  set (ev0 := Ev _ _). assert (tracks (grown l []) (t ++ [ev0])) as Ht0.
  { eapply tracked_snoc; [exact Ht|]. apply keeps_intro; [done|]. intros w w' -> [-> Hl].
    split_and!; [by apply Hl|done|set_solver|by left]. }
  destruct (listenersByPort l) as [actual|] eqn:Ea; cbn [no_panic bind wp].
  2: { split; [|done]. eapply tracks_mono; [exact Ht0|apply kept_grown]. }
  rewrite wp_try_with. intros r. set (ev1 := Ev _ r).
  assert (tracks (grown l []) ((t ++ [ev0]) ++ [ev1])) as Ht1.
  { eapply tracked_snoc; [exact Ht0|]. by apply quiet_stable. }
  assert (tracks kept ((t ++ [ev0]) ++ [ev1])) as Hk.
  { eapply tracks_mono; [exact Ht1|apply kept_grown]. }
  destruct r as [tgs|e]; cbn [wp]; [|by split].
  destruct (targetGroupsByPort tgs) as [groups|]; cbn [no_panic bind wp]; [|by split].
  rewrite wp_try. apply (wp_loop_done _ _ _ (λ past _ t', tracks (grown l past) t')); [done| |].
  - intros past m rest d t' _ Ht'. eapply wp_mono; [by apply (wp_syncMapping_tracked l actual _ _ past)|].
    intros t2 [[d'|e]|s] [Hor Hok]; [done|split..]; try done; (eapply tracks_mono; [exact Hor|]);
      intros w [Hw|Hw]; by eapply kept_grown.
  - intros d t' Ht'. eapply wp_mono; [apply (wp_deleteStaleListeners_tracked l actual); [done|]|].
    { eapply tracks_mono; [exact Ht'|]. apply pruned_grown. }
    intros t2 o [Hany Hok]. split; [|by destruct o as [[]|]].
    eapply tracks_mono; [exact Hany|]. intros w [seen Hw]. by eapply kept_pruned.
Qed.

(** An existing load balancer. *)
Lemma wp_updateNLB annotations securityGroups service t :
  tracks (λ w, w = w0) t →
  wp (updateNLB c nn lb mappings instanceIDs annotations securityGroups service tags ipType) ends t.
Proof.
  intros Ht. unfold updateNLB.
  assert (∀ t, tracks (λ w, w = w0) t → tracks kept t) as H0.
  { intros t' Ht'. eapply tracks_mono; [exact Ht'|]. by intros w -> f. }
  rewrite wp_try. eapply wp_mono; [eapply wp_quiet; [calls; done|exact Ht]|].
  intros t1 [[[]|e]|s] Ht1; [|by split; [apply H0|]..].
  rewrite wp_try. eapply wp_mono; [eapply wp_quiet; [calls; done|exact Ht1]|].
  intros t2 [[[]|e]|s] Ht2; [|by split; [apply H0|]..].
  rewrite wp_try. eapply wp_mono; [by apply wp_syncMappings|].
  intros t3 [[d|e]|s] [Hk Hok]; [|by split..].
  apply wp_ends_quiet; [|done]. unfold refreshNLB. calls; try done; apply quiet_reconcileLBAttributes.
Qed.

(** The listeners of a new load balancer, from the call that created it. *)
Lemma wp_createListeners arn t :
  arn = nlb_LoadBalancerArn lb → tracks (λ w, w = w0 ∧ w0 = ∅) t →
  wp (each (λ mapping,
        let! vpcId := no_panic (nlb_VpcId lb) in
        let? _ := createListenerV2 c arn mapping nn instanceIDs vpcId tags ipType
          else (λ err, Errorf "error creating listener: %q" [Error err]) in
        Ret (Ok tt)) mappings)
     ends t.
Proof.
  intros -> Ht. apply (wp_each_done _ _ (λ past t', tracks (λ w, grown [] past w ∧ w0 = ∅) t')).
  - eapply tracks_mono; [exact Ht|]. intros w [-> E]. split; [|done].
    split; [|split_and!; [done|set_solver|by left] ]. split; [set_solver|]. rewrite E.
    by intros ?? ?%lookup_empty_Some.
  - intros past m rest t' _ Ht'. assert (tracks kept t') as Hk.
    { eapply tracks_mono; [exact Ht'|]. intros w [Hw _]. by eapply kept_grown. }
    destruct (nlb_VpcId lb) as [v|]; cbn [no_panic bind wp]; [|by split].
    rewrite wp_try_with. eapply wp_mono; [by apply (wp_create (nlb_LoadBalancerArn lb) m v (λ w, grown [] past w ∧ w0 = ∅))|].
    assert (∀ w', (∃ w a, (grown [] past w ∧ w0 = ∅) ∧ w !! a = None ∧ ¬ has w (frontend m) ∧
      w' = <[a:=frontend m]> w) → grown [] (past ++ [m]) w' ∧ w0 = ∅) as Hg.
    { intros w' (w & a & [Hw E] & Ha & _ & ->). split; [by apply grown_insert|done]. }
    intros t2 o [Hor Hok]. assert (tracks kept t2) as Hk2.
    { eapply tracks_mono; [exact Hor|]. intros w [[Hw _]|Hw]; [by eapply kept_grown|].
      apply Hg in Hw as [Hw _]. by eapply kept_grown. }
    destruct o as [[x|e]|s]; cbn [wp]; [|by split..]. eapply tracks_mono; [exact Hok|exact Hg].
  - intros t' Ht'. apply ends_exact. eapply tracks_mono; [exact Ht'|].
    intros w [(_ & _ & H3 & H4) E] f. split; [|apply H3]. intros [a Ha].
    destruct (H4 a f Ha) as [Ha'|?]; [|done]. rewrite E in Ha'. by apply lookup_empty_Some in Ha'.
Qed.


(** What follows an exact synchronisation. *)
Lemma wp_tail annotations (x : LoadBalancerV2) t :
  tracks exact t →
  wp (reconcileGroups annotations x) ends t.
Proof. apply wp_ends_quiet. unfold reconcileGroups. calls; try done; apply quiet_reconcileTargetGroups. Qed.
End phases.

(** ** The contract *)

(** A load balancer that existed is still there with the wanted listeners it had. *)
Definition nlb_kept (mappings : list nlbPortMapping) W0 W : Prop :=
  ∀ arn w0, W0 = Some (arn, w0) → ∃ w, W = Some (arn, w) ∧
    ∀ f, f ∈ frontend <$> mappings → has w0 f → has w f.
Definition nlb_exact (mappings : list nlbPortMapping) W : Prop :=
  ∃ arn w, W = Some (arn, w) ∧ ∀ f, has w f ↔ f ∈ frontend <$> mappings.
Definition nlb_distinct W : Prop := distinct (listeners_of W).

(** How a run for the load balancer [name] ends. *)
Definition nlb_ends {A} (name : string) (mappings : list nlbPortMapping) W0 (t : list (event awsE))
    (o : outcome (result A)) : Prop :=
  tracked (nlb_serves name) W0 (nlb_kept mappings W0) t ∧
  match o with Done (Ok _) => tracked (nlb_serves name) W0 (nlb_exact mappings) t | _ => True end.

Lemma ends_nlb {A} name lb W0 mappings t (o : outcome (result A)) :
  ends name lb W0 mappings t o → nlb_ends name mappings W0 t o.
Proof.
  intros [Hk He]. split.
  - eapply tracked_mono; [exact Hk|]. intros W (Ha & w & -> & Hw) arn w0 E. rewrite (Ha _ _ E).
    exists w. split; [done|]. intros f Hf H0. apply (Hw f Hf). by rewrite E.
  - destruct o as [[a|e]|s]; [|done..]. eapply tracked_mono; [exact He|].
    intros W (_ & w & -> & Hw). by eexists _, w.
Qed.

Lemma nlb_kept_same mappings W0 : nlb_kept mappings W0 W0.
Proof. intros arn w0 ->. by exists w0. Qed.

Section contract.
Context {GR : GoRange} (c : Cloud) (nn : NamespacedName) (instanceIDs : list string) (name : string).

Lemma quiet_describe n : all_calls quiet (describeLoadBalancerv2 n).
Proof. unfold describeLoadBalancerv2. calls; done. Qed.

Lemma wp_ensureLoadBalancerv2 mappings subnetIDs internal annotations groups service W0 t :
  nlb_distinct W0 → tracked (nlb_serves name) W0 (λ W, W = W0) t →
  wp (ensureLoadBalancerv2 c nn name mappings instanceIDs subnetIDs internal annotations groups service)
     (nlb_ends name mappings W0) t.
Proof.
  intros Hd H0. assert (∀ A t (o : outcome (result A)), tracked (nlb_serves name) W0 (λ W, W = W0) t →
    (∀ a, o ≠ Done (Ok a)) → nlb_ends name mappings W0 t o) as Hfail.
  { intros A t' o Ht Ho. split; [eapply tracked_mono; [exact Ht|intros W ->; apply nlb_kept_same]|].
    destruct o as [[a|]|]; [by destruct (Ho a)|done..]. }
  unfold ensureLoadBalancerv2, describeLoadBalancerv2. rewrite wp_try, wp_bind. intros r.
  assert (tracked (nlb_serves name) W0 (λ W, W = W0) (t ++ [Ev (ELBV2 (DescribeLoadBalancers [name] [])) r])) as Ht0.
  { eapply tracked_snoc; [exact H0|]. by apply quiet_stable. }
  destruct r as [lbs|e]; cbn [andThen app wp].
  - destruct (filter _ lbs) as [|lb rest] eqn:Ef; cbn [wp]; [by apply Hfail|].
    assert (tracked (nlb_serves name) W0 (at_lb lb W0 (λ w, w = listeners_of W0))
      (t ++ [Ev (ELBV2 (DescribeLoadBalancers [name] [])) (Ok lbs)])) as Ht.
    { eapply tracked_snoc; [exact H0|]. intros W W' -> [-> Hs]. rewrite Ef in Hs.
      destruct (Hs eq_refl eq_refl lb eq_refl) as [w ->]. split; [by intros ? ? [= ->]|by exists w]. }
    rewrite wp_try. cbn [wp]. destruct (validateIPFamilyInfo _ _) as [[]|e]; cbn [wp]; [|by apply Hfail].
    rewrite wp_try. eapply wp_mono; [by apply wp_updateNLB|].
    intros t' [[x|e]|s] [Hk Hok]; [|by apply (ends_nlb _ lb); split..].
    eapply wp_mono; [by apply wp_tail|]. intros t2 o. apply ends_nlb.
  - rewrite not_found_cases. case_decide as He; cbn [wp]; [|by apply Hfail].
    rewrite wp_try. cbn [wp]. destruct (validateIPFamilyInfo _ _) as [[]|e']; cbn [wp]; [|by apply Hfail].
    unfold createNLB. rewrite !wp_try. cbn [wp].
    destruct (perSubnet _ _ _ _) as [allocations|e']; cbn [wp]; [|by apply Hfail].
    rewrite wp_try. cbn [wp]. destruct (perSubnet _ _ _ _) as [addresses|e']; cbn [wp]; [|by apply Hfail].
    destruct (createSubnetMappings _ _ _) as [sms|]; cbn [no_panic bind wp]; [|by apply Hfail].
    rewrite wp_try_with. set (t0 := t ++ _) in *. intros r. set (ev1 := Ev _ r).
    destruct r as [lbs|e']; cbn [wp]; [|apply Hfail; [|done]; eapply tracked_snoc; [exact Ht0|by intros W W' -> ->]].
    assert (tracked (nlb_serves name) W0 (λ W, W0 = None ∧ ∃ arn, W = Some (arn, ∅) ∧
      ∀ lb, head lbs = Some lb → nlb_LoadBalancerArn lb = arn) (t0 ++ [ev1])) as Hnew.
    { eapply tracked_snoc; [exact Ht0|]. intros W W' -> Hs. cbn in Hs. by rewrite String.eqb_refl in Hs. }
    destruct (head lbs) as [lb|] eqn:Eh; cbn [no_panic bind wp].
    2: { split; [|done]. eapply tracked_mono; [exact Hnew|]. intros W [E _] arn w0 ?. congruence. }
    rewrite <-wp_try. assert (tracked (nlb_serves name) W0
      (at_lb lb W0 (λ w, w = listeners_of W0 ∧ listeners_of W0 = ∅)) (t0 ++ [ev1])) as Ht.
    { eapply tracked_mono; [exact Hnew|]. intros W (E & arn & -> & Harn). split; [by rewrite E|].
      exists ∅. rewrite (Harn lb eq_refl), E. done. }
    rewrite !wp_try. eapply wp_mono; [by apply wp_createListeners|].
    intros t' [[[]|e']|s] [Hk Hok]; [|by apply (ends_nlb _ lb); split..]. rewrite wp_try.
    eapply wp_mono; [eapply wp_quiet; [apply quiet_reconcileLBAttributes|exact Hok]|].
    intros t2 [[[]|e']|s] Ht2; cbn [wp]; [|by apply (ends_nlb _ lb), ends_exact..].
    eapply wp_mono; [by apply wp_tail|]. intros t3 o. apply ends_nlb.
Qed.
End contract.

(** C5: [ensureLoadBalancerv2] against an abstract state of the service, the network load
    balancer of a name with its listeners: whatever the service answers, a load balancer that
    exists keeps every listener that is wanted, even when the run fails half-way, and when
    it returns without an error there is a load balancer with exactly the listeners whose
    port and protocol the mappings of the service ask for. *)
Theorem ensureLoadBalancerv2_exact {GR : GoRange} c nn name mappings instanceIDs subnetIDs internal annotations
    groups service :
  wp (ensureLoadBalancerv2 c nn name mappings instanceIDs subnetIDs internal annotations groups service)
     (λ tr o, ∀ W0 W, nlb_distinct W0 → evolves (nlb_serves name) W0 tr W →
        nlb_kept mappings W0 W ∧ ((∃ a, o = Done (Ok a)) → nlb_exact mappings W)) [].
Proof.
  apply (wp_contract _ _ _ (λ W0 o W, nlb_kept mappings W0 W ∧ ((∃ a, o = Done (Ok a)) → nlb_exact mappings W))).
  intros W0 Hd. eapply wp_mono; [apply wp_ensureLoadBalancerv2; [exact Hd|by apply tracked_start]|].
  intros tr o [Hk He] W Hev. split; [by apply Hk|]. intros [a ->]. by apply He.
Qed.

(** ** A service that keeps one load balancer with its listeners *)
Definition describe_network (arn : option string) : LoadBalancerV2 :=
  mkLoadBalancerV2 arn (Some "nlb.example.com") LoadBalancerTypeEnumNetwork (Some "vpc-1") None "ipv4" [] None.
Definition the_group : TargetGroup := mkTargetGroup (Some "tg-1") None "" "" None "" None None.

Definition describe_listeners w : list Listener :=
  (λ '(arn, (port, protocol)), mkListener (Some arn) (Some port) protocol None [] [] [Some "tg-0"]) <$>
    map_to_list w.

Definition refused {A} : result A := Err (APIError "ValidationError" "not served").

(** The calls about the listeners of the load balancer [lb]. *)
Definition listener_answers (lb : option string) {R} (c : elbv2E R) w : result R * listeners :=
  match c in elbv2E R return result R * listeners with
  | DescribeListeners arn => (if bool_decide (arn = lb) then Ok (describe_listeners w) else refused, w)
  | CreateListener input =>
     let f := (cl_Port input, cl_Protocol input) in
     if bool_decide (cl_LoadBalancerArn input = lb) && negb (bool_decide (f ∈ (map_to_list w).*2)) then
       let arn := fresh (dom w) in
       (Ok [mkListener (Some arn) (Some (cl_Port input)) (cl_Protocol input) None [] [] []], <[arn := f]> w)
     else (refused, w)
  | ModifyListener input =>
     (Ok tt, match ml_ListenerArn input with
             | Some arn => alter (λ _, (ml_Port input, ml_Protocol input)) arn w
             | None => w
             end)
  | DeleteListener arn => (Ok tt, match arn with Some arn => delete arn w | None => w end)
  | CreateTargetGroup _ => (Ok [the_group], w)
  | DescribeTargetGroups _ _ => (Ok [], w)
  | DescribeTargetHealth _ => (Ok [], w)
  | RegisterTargets _ _ | DeleteTargetGroup _ | SetIpAddressType _ _ | SetSecurityGroups _ _
  | ModifyLoadBalancerAttributes _ _ => (Ok tt, w)
  | DescribeLoadBalancerAttributes _ => (Ok [], w)
  | _ => (refused, w)
  end.

Definition nlb_answers (name : string) : handler awsE network := λ R c W,
  match c in awsE R return result R * network with
  | ELBV2 c =>
     match c in elbv2E R return result R * network with
     | DescribeLoadBalancers _ _ =>
        (match W with
         | Some (arn, _) => Ok [describe_network arn]
         | None => Err (APIError "LoadBalancerNotFound" "no such load balancer")
         end, W)
     | CreateLoadBalancer input =>
        match W with
        | None => if String.eqb (cn_Name input) name
                  then (Ok [describe_network (Some "lb-1")], Some (Some "lb-1", ∅)) else (refused, W)
        | Some _ => (refused, W)
        end
     | DeleteLoadBalancer arn =>
        match W with
        | Some (a, _) => if bool_decide (arn = a) then (Ok tt, None) else (refused, W)
        | None => (refused, None)
        end
     | c =>
        match W with
        | Some (arn, w) => let '(r, w') := listener_answers arn c w in (r, Some (arn, w'))
        | None => (refused, None)
        end
     end
  | _ => (refused, W)
  end.

(** Its answers fit its state. *)
Lemma listener_answers_serves lb R (c : elbv2E R) w :
  serves lb w (Ev (ELBV2 c) (listener_answers lb c w).1) (listener_answers lb c w).2.
Proof.
  destruct c; try done; unfold listener_answers.
  - case_bool_decide as E; cbn [fst snd serves]; [|done]. split; [done|]. intros _. split.
    + intros x ([a [port proto]] & -> & Hin%elem_of_map_to_list)%list_elem_of_fmap. by exists a, port.
    + intros a [port proto] H. exists (mkListener (Some a) (Some port) proto None [] [] [Some "tg-0"]).
      split; [|done]. apply list_elem_of_fmap. exists (a, (port, proto)). split; [done|]. by apply elem_of_map_to_list.
  - case_bool_decide as E; cbn [andb]; [|done].
    case_bool_decide as Hf; cbn; [done|]. rewrite bool_decide_true by done. eexists. split_and!; [| |done].
    + apply not_elem_of_dom, is_fresh.
    + intros [a Ha]. apply Hf. apply list_elem_of_fmap. exists (a, (cl_Port input, cl_Protocol input)).
      split; [done|]. by apply elem_of_map_to_list.
Qed.

Lemma nlb_answers_serves name R (c : awsE R) W :
  nlb_serves name W (Ev c (nlb_answers name R c W).1) (nlb_answers name R c W).2.
Proof.
  destruct c as [R c|R c|R c]; [done|done|].
  assert (match c with DescribeLoadBalancers _ _ | CreateLoadBalancer _ | DeleteLoadBalancer _ => True | _ =>
    nlb_serves name W (Ev (ELBV2 c) (nlb_answers name R (ELBV2 c) W).1) (nlb_answers name R (ELBV2 c) W).2 end) as H.
  { destruct W as [[a w]|]; [|by destruct c].
    pose proof (listener_answers_serves a R c w) as H. destruct c; try done; cbn -[serves listener_answers];
      destruct (listener_answers a _ w) as [r w']; cbn [fst snd] in *; by exists w'. }
  destruct c; try done.
  - split; [done|]. intros _ _. destruct W as [[a w]|]; [|done]. intros lb [= <-]. by exists w.
  - cbn. destruct W as [[a w]|]; cbn; [done|]. destruct (String.eqb _ _) eqn:E; cbn; rewrite ?E; [|done].
    split; [done|]. exists (Some "lb-1"). split; [done|]. by intros lb [= <-].
  - cbn. destruct W as [[a w]|]; cbn; [|done]. by case_bool_decide as E.
Qed.

Definition port_mapping (port nodePort : Z) (protocol : string) : nlbPortMapping :=
  mkNlbPortMapping port protocol nodePort protocol "" "" "" (mkHealthCheckConfig "traffic-port" "" "TCP" 30 10 3 3).

(** One listener stays, one goes, one is new. *)
Definition network_before : network := Some (Some "lb-1", {["l-1" := (80%Z, "TCP"); "l-2" := (8080%Z, "TCP")]}).
Definition wanted_mappings : list nlbPortMapping := [port_mapping 80 30080 "TCP"; port_mapping 443 30443 "TCP"].
Definition nlb_update : prog awsE (result LoadBalancerV2) :=
  ensureLoadBalancerv2 (GR := trie_order) (mkCloud empty_config "" "" prod no_instance)
    (mkNamespacedName "default" "svc") "lb" wanted_mappings ["i-1"] ["subnet-a"] false ∅ [] nlb_service.

Lemma ensureLoadBalancerv2_exact_witness :
  let '(o, W, _) := run (nlb_answers "lb") nlb_update network_before [] in
  (∃ a, o = Done (Ok a)) ∧ nlb_exact wanted_mappings W.
Proof.
  pose proof (wp_run (nlb_answers "lb") nlb_update _ network_before []
    (ensureLoadBalancerv2_exact _ _ "lb" wanted_mappings _ _ _ _ _ _)) as H.
  pose proof (run_evolves (nlb_serves "lb") network_before (nlb_answers "lb") nlb_update network_before []
    (nlb_answers_serves "lb") eq_refl) as He.
  assert (∃ a, (run (nlb_answers "lb") nlb_update network_before []).1.1 = Done (Ok a)) as Ha
    by (eexists; vm_compute; reflexivity).
  destruct (run (nlb_answers "lb") nlb_update network_before []) as [[o W] tr]. cbn [fst] in Ha.
  split; [exact Ha|]. apply (H network_before W); [|exact He|exact Ha].
  intros a a' f. cbn [listeners_of network_before].
  rewrite !lookup_insert_Some, !lookup_singleton_Some. naive_solver.
Defined.

(** Also from nothing. *)
Example ensureLoadBalancerv2_creates :
  let '(o, W, _) := run (nlb_answers "lb") nlb_update None [] in
  is_Some (match o with Done (Ok lb) => Some lb | _ => None end) ∧
  (λ '(_, w), (map_to_list w).*2) <$> W = Some [(443%Z, "TCP"); (80%Z, "TCP")].
Proof. vm_compute. split; [by eexists|]. done. Qed.
