(* ===== verification/Instances.v ===== *)
(** * Instances and their names (instances.go, aws.go, variant)

    Instance ids from provider ids, the cache of [DescribeInstances], and lookups by id
    and by node name. *)

From S2P Require Import Prelude GoLib Effects AwsApi Tags Config Cloud.
From Stdlib Require Import Ascii.
Import Strings Errors Strconv.

(** ** [url.Parse] on texts that start with aws:// (net/url) *)
Definition is_ctl (c : ascii) : bool := (nat_of_ascii c <? 32) || (nat_of_ascii c =? 127).

(** What is before and after the first separator. *)
Definition cut (s : string) (sep : ascii) : string * string :=
  match IndexByte s sep with
  | Some i => (take i s, drop (S i) s)
  | None => (s, "")
  end.

Definition unhex (c : ascii) : option nat :=
  let n := nat_of_ascii c in
  if is_digit c then Some (n - 48)
  else if (97 <=? n) && (n <=? 102) then Some (n - 87)
  else if (65 <=? n) && (n <=? 70) then Some (n - 55)
  else None.

(** The decoding of a path or a fragment; [None] is an [EscapeError]. *)
Fixpoint unescape (s : string) : option string :=
  match s with
  | EmptyString => Some ""
  | String c t =>
     if Ascii.eqb c "%" then
       match t with
       | String a (String b u) =>
          x ← unhex a; y ← unhex b; r ← unescape u;
          Some (String (ascii_of_nat (16 * x + y)) r)
       | _ => None
       end
     else r ← unescape t; Some (String c r)
  end.

(** A byte a host may contain as it is. *)
Definition host_byte (c : ascii) : bool :=
  is_alnum c || (128 <=? nat_of_ascii c) ||
  existsb (Ascii.eqb c) ["-"; "_"; "."; "~"; "!"; "$"; "&"; "'"; "("; ")"; "*"; "+"; ","; ";"; "=";
    ":"; "["; "]"; "<"; ">"; "034"]%char.

Fixpoint host_escapes (s : string) : bool :=
  match s with
  | EmptyString => true
  | String c t =>
     if Ascii.eqb c "%" then
       match t with
       | String a (String b u) =>
          match unhex a, unhex b with
          | Some x, Some y => ((8 <=? x) || ((x =? 2) && (y =? 5))) && host_escapes u
          | _, _ => false
          end
       | _ => false
       end
     else host_byte c && host_escapes t
  end.

(** Nothing, or a colon and digits. *)
Definition validOptionalPort (port : string) : bool :=
  match port with
  | EmptyString => true
  | String c t => Ascii.eqb c ":" && all_bytes is_digit t
  end.

Section ids.
(** What the parser decides on authorities with a user part or an IP literal. *)
Context (odd_authority : string → bool).

Definition authority_ok (authority : string) : bool :=
  if Contains authority "@" || Contains authority "[" then odd_authority authority
  else
  match IndexByte authority ":" with
  | Some i => validOptionalPort (drop i authority)
  | None => true
  end && host_escapes authority.

(** The path of the URL [aws://rest]; [None] is a parse error. *)
Definition urlPath (rest : string) : option string :=
  let (u, frag) := cut rest "#" in
  if negb (all_bytes (λ c, negb (is_ctl c)) u) then None else
  let (u, _) := cut u "?" in
  let '(authority, path) :=
    match IndexByte u "/" with
    | Some i => (take i u, drop i u)
    | None => (u, "")
    end in
  if negb (authority_ok authority) then None else
  path ← unescape path;
  _ ← unescape frag;
  Some path.

(** ** Instance ids *)

(** [variant.IsVariantNode], with the one variant the program registers. *)
Definition fargateNodeNamePrefix := "fargate-".
Definition IsVariantNode (instanceID : string) : bool := HasPrefix instanceID fargateNodeNamePrefix.

(** [awsInstanceRegMatch] *)
Definition awsInstanceRegMatch (s : string) : bool :=
  HasPrefix s "i-" && negb (Contains (drop 2 s) "/").

(** The scheme of the URL is always the one of the prefix. *)
Definition MapToAWSInstanceID (name : string) : result string :=
  let s := if HasPrefix name "aws://" then name else "aws:///" +:+ name in
  match urlPath (drop 6 s) with
  | None => Err (Errorf "Invalid instance name (%s): %v" [name; "parse error"])
  | Some path =>
     let tokens := Split (TrimByte path "/") "/" in
     let awsID := default "" (last tokens) in
     if String.eqb awsID "" || negb (awsInstanceRegMatch awsID || IsVariantNode awsID) then
       Err (Errorf "Invalid format for AWS instance (%s)" [name])
     else Ok awsID
  end.

Fixpoint mapToAWSInstanceIDs (nodes : list Node) : result (list string) :=
  match nodes with
  | [] => Ok []
  | node :: nodes =>
     if String.eqb (node_ProviderID node) "" then
       Err (Errorf "node %q did not have ProviderID set" [node_Name node])
     else
     match MapToAWSInstanceID (node_ProviderID node) with
     | Err _ => Err (Errorf "unable to parse ProviderID %q for node %q"
                       [node_ProviderID node; node_Name node])
     | Ok instanceID =>
        match mapToAWSInstanceIDs nodes with
        | Err e => Err e
        | Ok instanceIDs => Ok (instanceID :: instanceIDs)
        end
     end
  end.

Definition mapToAWSInstanceIDsTolerant (nodes : list Node) : list string :=
  omap (λ node,
    if String.eqb (node_ProviderID node) "" then None else
    match MapToAWSInstanceID (node_ProviderID node) with
    | Err _ => None
    | Ok instanceID => Some instanceID
    end) nodes.

(** ** The cache *)
Record allInstancesSnapshot := mkSnapshot {
  snap_timestamp : Z;
  snap_instances : gmap string Instance_
}.

Record cacheCriteria := mkCacheCriteria { MaxAge : Z; HasInstances : list string }.

Definition olderThan (s other : allInstancesSnapshot) : bool :=
  (snap_timestamp s <? snap_timestamp other)%Z.

(** [now] is the time the check reads. *)
Definition MeetsCriteria (now : Z) (s : allInstancesSnapshot) (criteria : cacheCriteria) : bool :=
  if (0 <? MaxAge criteria)%Z && (MaxAge criteria <? now - snap_timestamp s)%Z then false
  else forallb (λ id, bool_decide (is_Some (snap_instances s !! id))) (HasInstances criteria).

Definition FindInstances (s : allInstancesSnapshot) (ids : list string) : gmap string Instance_ :=
  foldl (λ m id,
    match snap_instances s !! id with
    | Some instance => <[id := instance]> m
    | None => m
    end) ∅ ids.

Definition describeInstances (c : Cloud) (filters : list Filter) : prog awsE (result (list Instance_)) :=
  let? response := ec2 (DescribeInstances [] filters) in
  Ret (Ok (filter (λ instance, hasClusterTag (c_tagging c) (i_Tags instance) = true) response)).

(** [snapshot] is the field of the cache; the result carries its new value. *)
Definition describeAllInstancesUncached (c : Cloud) (now : Z) (snapshot : option allInstancesSnapshot) :
    prog awsE (result allInstancesSnapshot * option allInstancesSnapshot) :=
  let! r := describeInstances c [] in
  match r with
  | Err e => Ret (Err e, snapshot)
  | Ok instances =>
     let m := foldl (λ (m : gmap string Instance_) i, <[ToString (i_InstanceId i) := i]> m) ∅ instances in
     let new := mkSnapshot now m in
     match snapshot with
     | Some old => if olderThan new old then Ret (Ok new, snapshot) else Ret (Ok new, Some new)
     | None => Ret (Ok new, Some new)
     end
  end.

(** The two times are those of the check and of a new snapshot. *)
Definition describeAllInstancesCached (c : Cloud) (now now' : Z) (criteria : cacheCriteria)
    (snapshot : option allInstancesSnapshot) :
    prog awsE (result allInstancesSnapshot * option allInstancesSnapshot) :=
  match snapshot with
  | Some s =>
     if MeetsCriteria now s criteria then Ret (Ok s, snapshot)
     else describeAllInstancesUncached c now' snapshot
  | None => describeAllInstancesUncached c now' snapshot
  end.

(** Ten minutes, in nanoseconds. *)
Definition defaultEC2InstanceCacheMaxAge : Z := 600000000000.

Definition findInstancesForELB {GR : GoRange} (c : Cloud) (now now' : Z) (nodes : list Node)
    (annotations : gmap string string) (snapshot : option allInstancesSnapshot) :
    prog awsE (result (gmap string Instance_) * option allInstancesSnapshot) :=
  let targetNodes := filterTargetNodes nodes annotations in
  let instanceIDs := mapToAWSInstanceIDsTolerant targetNodes in
  let! (r, snapshot) := describeAllInstancesCached c now now'
    (mkCacheCriteria defaultEC2InstanceCacheMaxAge instanceIDs) snapshot in
  match r with
  | Err e => Ret (Err e, snapshot)
  | Ok s => Ret (Ok (FindInstances s instanceIDs), snapshot)
  end.

(** ** Lookups *)
Definition describeInstance (instanceID : string) : prog awsE (result Instance_) :=
  let? instances := ec2 (DescribeInstances [instanceID] []) in
  match instances with
  | [] => Ret (Err (Errorf "no instances found for instance: %s" [instanceID]))
  | [instance] => Ret (Ok instance)
  | _ => Ret (Err (Errorf "multiple instances found for instance: %s" [instanceID]))
  end.

(** What the batcher of describe calls answers for a list of ids. *)
Context (describeInstanceBatcher : list string → prog awsE (result (list Instance_))).

Definition getInstancesByIDs (instanceIDs : list string) : prog awsE (result (gmap string Instance_)) :=
  if length instanceIDs =? 0 then Ret (Ok ∅) else
  let? instances := describeInstanceBatcher instanceIDs in
  Ret (Ok (foldl (λ m instance,
    let instanceID := ToString (i_InstanceId instance) in
    if String.eqb instanceID "" then m else <[instanceID := instance]> m) ∅ instances)).

(** [None] is the nil instance of a map that has another key. *)
Definition getInstanceByID (instanceID : string) : prog awsE (result (option Instance_)) :=
  let! r := getInstancesByIDs [instanceID] in
  match r with
  | Err err => Ret (Err (if IsAWSErrorInstanceNotFound err then InstanceNotFound else err))
  | Ok instances =>
     if size instances =? 0 then Ret (Err InstanceNotFound)
     else if 1 <? size instances then
       Ret (Err (Errorf "multiple instances found for instance: %s" [instanceID]))
     else Ret (Ok (instances !! instanceID))
  end.

Fixpoint namesLoop (c : Cloud) (fuel : nat) (nodeNames : list string) (states : list string)
    (acc : list Instance_) : prog awsE (result (list Instance_)) :=
  match fuel, nodeNames with
  | _, [] | 0, _ => Ret (Ok acc)
  | S fuel, _ =>
     let nameSlice := firstn filterNodeLimit nodeNames in
     let filters := mkFilter "private-dns-name" nameSlice ::
       (if 0 <? length states then [newEc2Filter "instance-state-name" states] else []) in
     let? instances := describeInstances c filters in
     namesLoop c fuel (skipn filterNodeLimit nodeNames) states (acc ++ instances)
  end.

(** The names go out in slices of [filterNodeLimit]. *)
Definition getInstancesByNodeNames (c : Cloud) (nodeNames states : list string) :
    prog awsE (result (list Instance_)) :=
  namesLoop c (length nodeNames) nodeNames states [].

Definition mapNodeNameToPrivateDNSName (nodeName : string) : string := nodeName.
Definition mapInstanceToNodeName (i : Instance_) : string := ToString (i_PrivateDnsName i).
Definition aliveFilter : list string := ["pending"; "running"; "shutting-down"; "stopping"; "stopped"].

Definition findInstanceByNodeName (c : Cloud) (nodeName : string) : prog awsE (result (option Instance_)) :=
  let privateDNSName := mapNodeNameToPrivateDNSName nodeName in
  let? instances := describeInstances c
    [newEc2Filter "private-dns-name" [privateDNSName]; newEc2Filter "instance-state-name" aliveFilter] in
  match instances with
  | [] => Ret (Ok None)
  | [instance] => Ret (Ok (Some instance))
  | _ => Ret (Err (Errorf "multiple instances found for name: %s" [nodeName]))
  end.

Definition nodeNameToIPAddress (nodeName : string) : string :=
  let nodeName := TrimPrefix nodeName privateDNSNamePrefix in
  let nodeName := default "" (head (Split nodeName ".")) in
  ReplaceByte nodeName "-" ".".

(** The node informer: [None] before it has synced, then what its lister answers. *)
Definition informer : Type := option (string → result Node).

Definition nodeNameToInstanceID (nodeInformer : informer) (nodeName : string) : result string :=
  if HasPrefix nodeName rbnNamePrefix then
    match IndexByte nodeName "." with
    | Some idx => Ok (take idx nodeName)
    | None => Ok nodeName
    end
  else if len nodeName =? 0 then Err (Errorf "no nodeName provided" [])
  else
  match nodeInformer with
  | None => Err (Errorf "node informer has not synced yet" [])
  | Some lister =>
     match lister nodeName with
     | Err e => Err e
     | Ok node =>
        if len (node_ProviderID node) =? 0 then Err (Errorf "node has no providerID" [])
        else MapToAWSInstanceID (node_ProviderID node)
     end
  end.

(** The index of the informer by instance id. *)
Definition instanceIDToNodeName (index : option (string → result (list string))) (instanceID : string) :
    result string :=
  if len instanceID =? 0 then Err (Errorf "no instanceID provided" []) else
  match index with
  | None => Err (Errorf "node informer has not synced yet" [])
  | Some index =>
     match index instanceID with
     | Err err => Err (Errorf "error getting node with instanceID %q: %v" [instanceID; Error err])
     | Ok [] => Err (Errorf "node with instanceID %q not found" [instanceID])
     | Ok [node] => Ok node
     | Ok nodes => Err (Errorf "multiple nodes with instanceID %q found: %v"
                          [instanceID; "[" +:+ Join nodes " " +:+ "]"])
     end
  end.

Definition getInstanceByNodeName (c : Cloud) (nodeInformer : informer) (nodeName : string) :
    prog awsE (result Instance_) :=
  let? instance :=
    match nodeNameToInstanceID nodeInformer nodeName with
    | Err _ => findInstanceByNodeName c nodeName
    | Ok awsID => getInstanceByID awsID
    end in
  match instance with
  | None => Ret (Err InstanceNotFound)
  | Some instance => Ret (Ok instance)
  end.

End ids.
