(* ===== verification/InstanceFacts.v ===== *)
(** * Correctness of instance ids and of the instance cache *)

From S2P Require Import Prelude GoLib Effects Json AwsApi Tags Config Cloud NetIP TargetGroupFacts Instances.
From Stdlib Require Import Ascii.
Import Strings Errors Strconv.

(** ** Provider ids *)

(** A byte of a zone or of an instance id. *)
Definition id_byte (c : ascii) : bool :=
  negb (is_ctl c) && negb (existsb (Ascii.eqb c) ["/"; "%"; "?"; "#"]%char).

Definition not_byte (c d : ascii) : bool := negb (Ascii.eqb d c).

Lemma IndexByte_None c s : all_bytes (not_byte c) s = true → IndexByte s c = None.
Proof.
  induction s as [|d s IH]; [done|]. cbn [all_bytes IndexByte]. unfold not_byte at 1.
  intros [Hd Hs]%andb_true_iff. apply negb_true_iff in Hd. rewrite Hd. by rewrite IH.
Qed.

Lemma unescape_id s : all_bytes (not_byte "%") s = true → unescape s = Some s.
Proof.
  induction s as [|d s IH]; [done|]. cbn [all_bytes unescape]. unfold not_byte at 1.
  intros [Hd Hs]%andb_true_iff. apply negb_true_iff in Hd. rewrite Hd. by rewrite IH.
Qed.

Lemma TrimLeftByte_id s c d t : s = String d t → Ascii.eqb d c = false → TrimLeftByte s c = s.
Proof. intros -> E. simpl. by rewrite E. Qed.

Lemma rev_append_app s t : String.rev_app s t = String.rev s +:+ t.
Proof.
  unfold String.rev. revert t. induction s as [|c s IH]; intros t; [done|].
  cbn [String.rev_app]. rewrite IH, (IH (String c "")), app_string_assoc. done.
Qed.

Lemma rev_cons c s : String.rev (String c s) = String.rev s +:+ String c "".
Proof. unfold String.rev at 1. cbn [String.rev_app]. apply rev_append_app. Qed.

Lemma rev_app s t : String.rev (s +:+ t) = String.rev t +:+ String.rev s.
Proof.
  induction s as [|c s IH]; [by rewrite app_string_nil_r|].
  change (String c s +:+ t) with (String c (s +:+ t)).
  by rewrite !rev_cons, IH, app_string_assoc.
Qed.

Lemma rev_involutive s : String.rev (String.rev s) = s.
Proof. induction s as [|c s IH]; [done|]. by rewrite rev_cons, rev_app, IH. Qed.

Lemma all_bytes_rev f s : all_bytes f (String.rev s) = all_bytes f s.
Proof.
  induction s as [|c s IH]; [done|]. rewrite rev_cons, all_bytes_app, IH. cbn [all_bytes].
  rewrite andb_true_r. apply andb_comm.
Qed.

(** Nothing is trimmed from a text that starts and ends with other bytes. *)
Lemma TrimByte_inner s t u c :
  all_bytes (not_byte c) t = true → t ≠ "" → TrimLeftByte s c = u +:+ t → TrimByte s c = u +:+ t.
Proof.
  intros Ht Hne E. unfold TrimByte. rewrite E, rev_app.
  rewrite <-all_bytes_rev in Ht. destruct (String.rev t) as [|d r] eqn:Er.
  { apply (f_equal String.rev) in Er. rewrite rev_involutive in Er. done. }
  cbn [all_bytes] in Ht. apply andb_true_iff in Ht as [Hd _]. apply negb_true_iff in Hd.
  rewrite (TrimLeftByte_id _ c d (r +:+ String.rev u)) by done.
  by rewrite <-Er, <-rev_app, rev_involutive.
Qed.

Lemma Split_single s c : all_bytes (not_byte c) s = true → Split s c = [s].
Proof.
  induction s as [|d s IH]; [done|]. cbn [all_bytes Split]. unfold not_byte at 1.
  intros [Hd Hs]%andb_true_iff. apply negb_true_iff in Hd. by rewrite Hd, IH.
Qed.

Lemma Split_not_nil s c : Split s c ≠ [].
Proof. destruct s as [|d s]; [done|]. simpl. destruct (Ascii.eqb d c); [done|]. by destruct (Split s c). Qed.

Lemma Split_last s t c :
  all_bytes (not_byte c) t = true → last (Split (s +:+ String c t) c) = Some t.
Proof.
  intros Ht. induction s as [|d s IH].
  - change (last (Split (String c t) c) = Some t). simpl. by rewrite Ascii.eqb_refl, Split_single.
  - change (String d s +:+ String c t) with (String d (s +:+ String c t)). simpl.
    pose proof (Split_not_nil (s +:+ String c t) c).
    destruct (Split (s +:+ String c t) c) as [|h l] eqn:E; [done|].
    destruct (Ascii.eqb d c); [by rewrite last_cons, IH|].
    destruct l as [|x l]; [|exact IH].
    exfalso. assert (length (Split (s +:+ String c t) c) ≥ 2) as Hl; [|rewrite E in Hl; simpl in Hl; lia].
    clear -Ht. induction s as [|e s IH].
    + change (length (Split (String c t) c) ≥ 2). simpl. rewrite Ascii.eqb_refl, Split_single by done. simpl. lia.
    + change (String e s +:+ String c t) with (String e (s +:+ String c t)). simpl.
      destruct (Ascii.eqb e c); [simpl; lia|]. destruct (Split _ _); simpl in *; lia.
Qed.

Lemma id_bytes s : all_bytes id_byte s = true → all_bytes (not_byte "/") s = true.
Proof.
  apply all_bytes_mono. intros d Hd. unfold not_byte. by destruct (Ascii.eqb_spec d "/") as [->|].
Qed.

Lemma all_bytes_drop f n s : all_bytes f s = true → all_bytes f (drop n s) = true.
Proof.
  revert n. induction s as [|c s IH]; intros [|n]; simpl; try done.
  intros [_ H]%andb_true_iff. auto.
Qed.

Lemma no_slash s : all_bytes (not_byte "/") s = true → Contains s "/" = false.
Proof.
  intros Hs. rewrite Contains_byte. induction s as [|c s IH]; [done|]. cbn [all_bytes byteIn] in *.
  apply andb_true_iff in Hs as [Hc Hs]. apply negb_true_iff in Hc. by rewrite Hc, IH.
Qed.

Section ids.
Context (odd : string → bool).

(** A byte of the path of a provider id. *)
Definition path_byte (c : ascii) : bool := id_byte c || Ascii.eqb c "/".

Lemma path_bytes s : all_bytes id_byte s = true → all_bytes path_byte s = true.
Proof. apply all_bytes_mono. unfold path_byte. by intros d ->. Qed.

Lemma path_bytes_not c p :
  c = "%"%char ∨ c = "?"%char ∨ c = "#"%char →
  all_bytes path_byte p = true → all_bytes (not_byte c) p = true.
Proof.
  intros Hc. apply all_bytes_mono. intros d Hd. unfold not_byte.
  destruct (Ascii.eqb_spec d c) as [->|]; [|done].
  by destruct Hc as [->|[->| ->]].
Qed.

Lemma urlPath_plain p :
  HasPrefix p "/" = true → all_bytes path_byte p = true → urlPath odd p = Some p.
Proof.
  intros Hs Hp. unfold urlPath, cut.
  rewrite IndexByte_None by (apply path_bytes_not; auto).
  rewrite (all_bytes_mono path_byte) by (done || (intros c; unfold path_byte, id_byte;
    destruct (Ascii.eqb_spec c "/") as [->|]; [done|]; by destruct (is_ctl c))). cbn [negb].
  rewrite IndexByte_None by (apply path_bytes_not; auto).
  destruct p as [|d p]; [done|].
  assert (d = "/"%char) as ->.
  { unfold HasPrefix in Hs. simpl in Hs. case_match; congruence. }
  cbn [IndexByte Ascii.eqb Bool.eqb take drop]. change (authority_ok odd "") with true. cbn [negb].
  by rewrite (unescape_id (String "/" p)) by (apply path_bytes_not; auto).
Qed.

(** C36: provider ids are read back: an id of the form i-... with a zone (or none) in the
    form the provider writes, aws:///zone/id, and a bare id, map to that id, when zone and id
    have no control character and none of the characters / % ? #. *)
Theorem MapToAWSInstanceID_roundtrip zone id :
  all_bytes id_byte zone = true → all_bytes id_byte id = true → HasPrefix id "i-" = true →
  MapToAWSInstanceID odd ("aws:///" +:+ zone +:+ "/" +:+ id) = Ok id ∧
  MapToAWSInstanceID odd id = Ok id.
Proof.
  intros Hz Hi Hp.
  assert (id ≠ "") as Hne by by intros ->.
  assert (all_bytes (not_byte "/") id = true) as Hi1 by by apply id_bytes.
  assert (all_bytes (not_byte "/") zone = true) as Hz1 by by apply id_bytes.
  assert (∀ path, TrimLeftByte path "/" = id ∨ TrimLeftByte path "/" = zone +:+ String "/" id →
    let awsID := default "" (last (Split (TrimByte path "/") "/")) in
    awsID = id) as Hlast.
  { intros path [E|E].
    - rewrite (TrimByte_inner path id "" "/") by done.
      change ("" +:+ id) with id. by rewrite Split_single.
    - rewrite (TrimByte_inner path id (zone +:+ String "/" "") "/"); [|done..|].
      + rewrite app_string_assoc. change (String "/" "" +:+ id) with (String "/" id).
        by rewrite Split_last.
      + rewrite E, app_string_assoc. done. }
  assert (awsInstanceRegMatch id = true) as Hreg.
  { unfold awsInstanceRegMatch. by rewrite Hp, no_slash by by apply all_bytes_drop. }
  assert (∀ name path, urlPath odd (drop 6 (if HasPrefix name "aws://" then name else "aws:///" +:+ name)) = Some path →
    TrimLeftByte path "/" = id ∨ TrimLeftByte path "/" = zone +:+ String "/" id →
    MapToAWSInstanceID odd name = Ok id) as Hmap.
  { intros name path E Ht. unfold MapToAWSInstanceID. rewrite E, (Hlast path Ht), Hreg.
    by destruct id. }
  split.
  - apply (Hmap _ ("/" +:+ zone +:+ "/" +:+ id)).
    + change (HasPrefix ("aws:///" +:+ zone +:+ "/" +:+ id) "aws://") with
        (HasPrefix ("aws://" +:+ ("/" +:+ zone +:+ "/" +:+ id)) "aws://").
      unfold HasPrefix. rewrite prefix_app.
      change (drop 6 ("aws:///" +:+ zone +:+ "/" +:+ id)) with ("/" +:+ zone +:+ "/" +:+ id).
      apply urlPath_plain; [apply prefix_app|]. by rewrite !all_bytes_app, (path_bytes zone), (path_bytes id).
    + change ("/" +:+ zone +:+ "/" +:+ id) with (String "/" (zone +:+ String "/" id)).
      cbn [TrimLeftByte]. rewrite Ascii.eqb_refl. destruct zone as [|d z].
      * left. change (TrimLeftByte (String "/" id) "/" = id). cbn [TrimLeftByte]. rewrite Ascii.eqb_refl.
        destruct id as [|e i]; [done|]. cbn [all_bytes] in Hi1. apply andb_true_iff in Hi1 as [Hd _].
        apply negb_true_iff in Hd. by eapply TrimLeftByte_id.
      * right. cbn [all_bytes] in Hz1. apply andb_true_iff in Hz1 as [Hd _].
        apply negb_true_iff in Hd. by eapply (TrimLeftByte_id _ _ d (z +:+ String "/" id)).
  - apply (Hmap _ ("/" +:+ id)).
    + assert (HasPrefix id "aws://" = false) as ->.
      { clear -Hp. destruct id as [|e i]; [done|]. unfold HasPrefix in *. cbn [String.prefix] in *.
        by destruct (ascii_dec "i" e) as [<-|]. }
      change (drop 6 ("aws:///" +:+ id)) with ("/" +:+ id).
      apply urlPath_plain; [apply prefix_app|]. by rewrite !all_bytes_app, (path_bytes id).
    + left. change ("/" +:+ id) with (String "/" id). cbn [TrimLeftByte]. rewrite Ascii.eqb_refl.
      destruct id as [|e i]; [done|]. cbn [all_bytes] in Hi1. apply andb_true_iff in Hi1 as [Hd _].
      apply negb_true_iff in Hd. by eapply TrimLeftByte_id.
Qed.
End ids.

(** ** The cache *)

(** Every cached instance is one of the cluster, under its own id. *)
Definition member (c : Cloud) (id : string) (i : Instance_) : Prop :=
  hasClusterTag (c_tagging c) (i_Tags i) = true ∧ ToString (i_InstanceId i) = id.
Definition snapshot_ok (c : Cloud) (snapshot : option allInstancesSnapshot) : Prop :=
  ∀ s, snapshot = Some s → map_Forall (member c) (snap_instances s).

(** The instance EC2 lists last under the id [id] among those of the cluster. *)
Definition listed (c : Cloud) (response : list Instance_) (id : string) (i : Instance_) : Prop :=
  ∃ before after, response = before ++ i :: after ∧ member c id i ∧ ∀ j, j ∈ after → ¬ member c id j.

(** The snapshot taken at [now] of an answer of EC2. *)
Definition snapshot_of (c : Cloud) (now : Z) (response : list Instance_) (s : allInstancesSnapshot) : Prop :=
  snap_timestamp s = now ∧ ∀ id i, snap_instances s !! id = Some i ↔ listed c response id i.

Lemma listed_snoc c l x id i :
  listed c (l ++ [x]) id i ↔ (i = x ∧ member c id x) ∨ (¬ member c id x ∧ listed c l id i).
Proof.
  split.
  - intros (before & after & E & Hi & Hlast). destruct after as [|y after _] using rev_ind.
    + apply app_inj_2 in E as [-> [= ->]]; [|done]. by left.
    + rewrite app_comm_cons, (assoc_L (++)) in E. apply app_inj_2 in E as [-> [= ->]]; [|done].
      right. split; [apply Hlast; set_solver|]. exists before, after. split_and!; [done..|]. set_solver.
  - intros [[-> Hx]|[Hx (before & after & -> & Hi & Hlast)]].
    + exists l, []. split_and!; [done..|]. set_solver.
    + exists before, (after ++ [x]). split_and!; [by rewrite <-(assoc_L (++))|done|].
      intros j [Hj|Hj]%elem_of_app; [by apply Hlast|]. by apply list_elem_of_singleton in Hj as ->.
Qed.

Lemma byId_listed c l id i :
  foldl (λ (m : gmap string Instance_) i, <[ToString (i_InstanceId i) := i]> m) ∅
    (filter (λ i, hasClusterTag (c_tagging c) (i_Tags i) = true) l) !! id = Some i ↔ listed c l id i.
Proof.
  induction l as [|x l IH] using rev_ind.
  { split; [done|]. by intros ([] & ? & ? & _). }
  rewrite listed_snoc, filter_app, foldl_app, filter_cons, filter_nil. unfold member at 1 2.
  destruct (decide (hasClusterTag (c_tagging c) (i_Tags x) = true)) as [Ht|Ht]; cbn [foldl].
  - destruct (decide (ToString (i_InstanceId x) = id)) as [<-|Hid].
    + rewrite lookup_insert_eq. naive_solver.
    + rewrite lookup_insert_ne, IH by done. naive_solver.
  - rewrite IH. naive_solver.
Qed.

Lemma listed_member c response id i : listed c response id i → member c id i.
Proof. by intros (? & ? & _ & H & _). Qed.

(** What the cache answers with, and what it holds afterwards: a snapshot in memory that
    will do, or one of all instances EC2 lists now. *)
Definition cache_answer (c : Cloud) (now now' : Z) (criteria : cacheCriteria)
    (snapshot : option allInstancesSnapshot) (tr : list (event awsE))
    (o : outcome (result allInstancesSnapshot * option allInstancesSnapshot)) : Prop :=
  match o with
  | Panicked _ => False
  | Done (Err _, snapshot') =>
     snapshot' = snapshot ∧ ∃ e, tr = [Ev (EC2 (DescribeInstances [] [])) (Err e)]
  | Done (Ok s, snapshot') =>
     (tr = [] ∧ snapshot = Some s ∧ snapshot' = snapshot ∧
      (0 < MaxAge criteria → now - snap_timestamp s ≤ MaxAge criteria)%Z ∧
      ∀ id, id ∈ HasInstances criteria → is_Some (snap_instances s !! id)) ∨
     (∃ response, tr = [Ev (EC2 (DescribeInstances [] [])) (Ok response)] ∧
      snapshot_of c now' response s ∧
      (snapshot' = Some s ∨ ∃ old, snapshot = Some old ∧ snapshot' = Some old ∧
         (now' < snap_timestamp old)%Z))
  end.

Lemma wp_describeAllInstancesUncached c now now' criteria snapshot :
  wp (describeAllInstancesUncached c now' snapshot) (cache_answer c now now' criteria snapshot) [].
Proof.
  unfold describeAllInstancesUncached, describeInstances. intros [response|e]; simpl; [|by eauto].
  set (new := mkSnapshot now' _). assert (snapshot_of c now' response new) as Hnew.
  { split; [done|]. intros id i. apply byId_listed. }
  destruct snapshot as [old|]; simpl; [|right; eauto].
  unfold olderThan. destruct (Z.ltb_spec (snap_timestamp new) (snap_timestamp old)); simpl; right;
    exists response; (split_and!; [done..|]); [right; by exists old|by left].
Qed.

Lemma wp_describeAllInstancesCached c now now' criteria snapshot :
  wp (describeAllInstancesCached c now now' criteria snapshot)
     (cache_answer c now now' criteria snapshot) [].
Proof.
  unfold describeAllInstancesCached. destruct snapshot as [s|]; [|apply wp_describeAllInstancesUncached].
  destruct (MeetsCriteria now s criteria) eqn:E; [|apply wp_describeAllInstancesUncached].
  simpl. left. unfold MeetsCriteria in E.
  destruct (_ && _) eqn:Ea in E; [done|]. rewrite forallb_elem_of in E.
  split_and!; [done..| |].
  - intros Hmax. apply andb_false_iff in Ea as [Ea|Ea]; apply Z.ltb_ge in Ea; lia.
  - intros id Hid. specialize (E id Hid). by apply bool_decide_eq_true in E.
Qed.

(** The instance cache answers from memory only with a snapshot that is within the
    maximum age and holds every instance asked for; otherwise it makes exactly one
    [DescribeInstances] call for all instances, answers with those of this cluster filed
    under their own ids, and keeps the newer of the old and the new snapshot; a failed call
    changes nothing. *)
Theorem describeAllInstancesCached_fresh c now now' criteria snapshot :
  wp (describeAllInstancesCached c now now' criteria snapshot)
     (cache_answer c now now' criteria snapshot) [].
Proof. apply wp_describeAllInstancesCached. Qed.

Lemma FindInstances_lookup s ids id i :
  FindInstances s ids !! id = Some i ↔ id ∈ ids ∧ snap_instances s !! id = Some i.
Proof.
  unfold FindInstances. induction ids as [|x ids IH] using rev_ind; [set_solver|].
  rewrite foldl_snoc, elem_of_app, list_elem_of_singleton.
  destruct (snap_instances s !! x) as [j|] eqn:E.
  - destruct (decide (id = x)) as [->|Hn].
    + rewrite lookup_insert_eq, E. naive_solver.
    + rewrite lookup_insert_ne, IH by done. naive_solver.
  - rewrite IH. split; [naive_solver|]. intros [[?| ->] ?]; [done|congruence].
Qed.

(** ** The nodes a service selects *)

(** The node has every label the service asks for, with the value asked for unless that is
    empty. *)
Definition selected (annotations : gmap string string) (node : Node) : Prop :=
  ∀ k v, getKeyValuePropertiesFromAnnotation annotations ServiceAnnotationLoadBalancerTargetNodeLabels !! k = Some v →
    ∃ v', node_Labels node !! k = Some v' ∧ (v = v' ∨ v = "").

(** The provider id of a selected node names the instance. *)
Definition target_instance (odd : string → bool) (nodes : list Node) (annotations : gmap string string)
    (id : string) : Prop :=
  ∃ node, node ∈ nodes ∧ selected annotations node ∧ node_ProviderID node ≠ "" ∧
    MapToAWSInstanceID odd (node_ProviderID node) = Ok id.

Section elb.
Context {GR : GoRange} (odd : string → bool).

Lemma elem_of_filterTargetNodes nodes annotations node :
  node ∈ filterTargetNodes nodes annotations ↔ node ∈ nodes ∧ selected annotations node.
Proof.
  unfold filterTargetNodes, selected. set (labels := getKeyValuePropertiesFromAnnotation _ _).
  destruct (Nat.eqb_spec (size labels) 0) as [E|E].
  { apply map_size_empty_iff in E as ->. split; [intros H; split; [done|]|tauto]. by intros ??. }
  rewrite list_elem_of_filter, andb_true_iff, negb_true_iff, Nat.eqb_neq, forallb_elem_of.
  assert (∀ k v, match node_Labels node !! k with
      | None => false | Some v' => negb (negb (String.eqb v' v) && negb (String.eqb v "")) end = true ↔
      ∃ v', node_Labels node !! k = Some v' ∧ (v = v' ∨ v = "")) as Hone.
  { intros k v. destruct (node_Labels node !! k) as [v'|]; [|split; [done|by intros (? & ? & _)]].
    rewrite negb_true_iff, andb_false_iff, !negb_false_iff, !String.eqb_eq. naive_solver. }
  split.
  - intros [[_ H] Hn]. split; [done|]. intros k v Hk. apply Hone, (H (k, v)). by apply elem_of_range_map.
  - intros [Hn H]. split; [|done]. split.
    + intros Hz. apply map_size_empty_iff in Hz. apply map_size_ne_0_lookup_1 in E as [k [v Hk]].
      destruct (H k v Hk) as (v' & Hv & _). by rewrite Hz in Hv.
    + intros [k v] Hk. apply Hone, H. by apply elem_of_range_map.
Qed.

Lemma elem_of_targets nodes annotations id :
  id ∈ mapToAWSInstanceIDsTolerant odd (filterTargetNodes nodes annotations) ↔
  target_instance odd nodes annotations id.
Proof.
  unfold mapToAWSInstanceIDsTolerant, target_instance. rewrite list_elem_of_omap.
  setoid_rewrite elem_of_filterTargetNodes. split.
  - intros (node & [? ?] & E). exists node. destruct (String.eqb_spec (node_ProviderID node) ""); [done|].
    destruct (MapToAWSInstanceID odd _) as [x|]; [|done]. injection E as ->. by split_and!.
  - intros (node & ? & ? & Hne & E). exists node. split; [done|].
    destruct (String.eqb_spec (node_ProviderID node) ""); [done|]. by rewrite E.
Qed.

(** What [findInstancesForELB] finds: with a recent snapshot in memory that holds every
    instance of a selected node, exactly those instances, and nothing is called; otherwise
    EC2 is asked once for all instances, and of those it lists exactly those of the cluster
    that belong to a selected node, and the cache is refreshed. *)
Definition found_for_elb (c : Cloud) (now now' : Z) (nodes : list Node) (annotations : gmap string string)
    (snapshot : option allInstancesSnapshot) (tr : list (event awsE))
    (m : gmap string Instance_) (snapshot' : option allInstancesSnapshot) : Prop :=
  (∃ s, snapshot = Some s ∧ snapshot' = snapshot ∧ tr = [] ∧
     (now - snap_timestamp s ≤ defaultEC2InstanceCacheMaxAge)%Z ∧
     (∀ id, target_instance odd nodes annotations id → is_Some (m !! id)) ∧
     ∀ id i, m !! id = Some i ↔ target_instance odd nodes annotations id ∧ snap_instances s !! id = Some i) ∨
  (∃ response s, tr = [Ev (EC2 (DescribeInstances [] [])) (Ok response)] ∧
     (∀ id i, m !! id = Some i ↔ target_instance odd nodes annotations id ∧ listed c response id i) ∧
     snapshot_of c now' response s ∧
     (snapshot' = Some s ∨ ∃ old, snapshot = Some old ∧ snapshot' = Some old ∧ (now' < snap_timestamp old)%Z)).

(** C35: the instances behind a load balancer are exactly the instances of this cluster,
    as EC2 lists them or as a recent snapshot of such an answer holds them, that the
    provider ids of the selected nodes name ([target_instance]): none is left out and none
    added.  The snapshot is used without a call only when it is at most ten minutes old and
    has every such instance; otherwise EC2 is asked, once, for all instances.  A failed call
    is reported and leaves the cache as it was; the cache only ever holds instances of the
    cluster under their own ids. *)
Theorem findInstancesForELB_members c now now' nodes annotations snapshot :
  snapshot_ok c snapshot →
  wp (findInstancesForELB odd c now now' nodes annotations snapshot)
     (λ tr o, match o with
      | Done (r, snapshot') =>
         snapshot_ok c snapshot' ∧
         match r with
         | Ok m => found_for_elb c now now' nodes annotations snapshot tr m snapshot'
         | Err _ => snapshot' = snapshot ∧ ∃ e, tr = [Ev (EC2 (DescribeInstances [] [])) (Err e)]
         end
      | Panicked _ => False
      end) [].
Proof.
  intros Hok. unfold findInstancesForELB. rewrite wp_bind.
  eapply wp_mono; [apply wp_describeAllInstancesCached|].
  intros tr [[[s|e] snapshot']|w] H; [|by destruct H as [-> ?]|done].
  assert (∀ id i, FindInstances s (mapToAWSInstanceIDsTolerant odd (filterTargetNodes nodes annotations)) !! id = Some i ↔
    target_instance odd nodes annotations id ∧ snap_instances s !! id = Some i) as Hfound.
  { intros id i. by rewrite FindInstances_lookup, elem_of_targets. }
  cbn [andThen wp]. destruct H as [(-> & -> & -> & Hage & Hall)|(response & -> & Hs & Hs')].
  - split; [done|]. left. exists s. split_and!; [done..| | |done].
    + by apply Hage.
    + intros id Hid. destruct (Hall id) as [i Hi]; [by apply elem_of_targets|]. exists i. by apply Hfound.
  - split.
    + destruct Hs' as [->|(old & -> & -> & _)]; [|done]. intros ? [= <-] id i Hi.
      by eapply listed_member, (proj2 Hs).
    + right. exists response, s. split_and!; [done| |done..]. intros id i. by rewrite Hfound, (proj2 Hs).
Qed.
End elb.

(** ** Examples *)
Lemma MapToAWSInstanceID_roundtrip_witness :
  MapToAWSInstanceID (λ _, false) "aws:///us-east-1a/i-0123" = Ok "i-0123".
Proof.
  apply (MapToAWSInstanceID_roundtrip (λ _, false) "us-east-1a" "i-0123"); reflexivity.
Defined.

Definition elb_nodes : list Node :=
  [mkNode "n" ∅ "i-1"; mkNode "m" {["role" := "db"]} "aws:///us-east-1a/i-2"; mkNode "o" {["role" := "web"]} "i-3"].
Definition elb_labels : gmap string string := {[ServiceAnnotationLoadBalancerTargetNodeLabels := "role=db"]}.
Definition elb_instance (id : string) : Instance_ :=
  mkInstance (Some id) "m5.large" None None None None [] [] (Some "running") None None
    [mkTag (Some (clusterTagKey (c_tagging some_cloud))) (Some "owned")].

Definition elb_listing : list Instance_ := [elb_instance "i-1"; elb_instance "i-2"; elb_instance "i-3"].

Definition lists_instances : handler awsE unit := λ R c _,
  (match c in awsE R return result R with
   | EC2 c => match c in ec2E R return result R with
              | DescribeInstances _ _ => Ok elb_listing
              | _ => Err (APIError "ValidationError" "not served")
              end
   | _ => Err (APIError "ValidationError" "not served")
   end, tt).

(** The node with the wanted label is found, by its URL, and the listing is remembered. *)
Lemma findInstancesForELB_members_witness :
  ∃ m s, run lists_instances
    (findInstancesForELB (GR := trie_order) (λ _, false) some_cloud 0 0 elb_nodes elb_labels None) tt [] =
    (Done (Ok m, s), tt, [Ev (EC2 (DescribeInstances [] [])) (Ok elb_listing)]) ∧
  found_for_elb (λ _, false) some_cloud 0 0 elb_nodes elb_labels None
    [Ev (EC2 (DescribeInstances [] [])) (Ok elb_listing)] m s ∧
  m = {["i-2" := elb_instance "i-2"]}.
Proof.
  eexists _, _. split; [vm_compute; reflexivity|]. split; [|vm_compute; reflexivity].
  refine (proj2 (wp_run lists_instances _ _ tt [] (findInstancesForELB_members (GR := trie_order) (λ _, false)
    some_cloud 0 0 elb_nodes elb_labels None (λ s E, ltac:(discriminate E))))).
Defined.
