(* ===== verification/Lookup.v ===== *)
(** * Which instance a node is

    How the name of a node leads to an instance, and what EC2 has said about it: the
    vocabulary of the theorems on routes and on the existence of nodes. *)

From S2P Require Import Prelude GoLib Effects AwsApi Tags Config Cloud Instances InstanceFacts.
From Stdlib Require Import Ascii.
Import Strings Errors.

(** ** Texts *)

(** [h] is the part of [s] before the first byte [c], or all of it. *)
Definition first_label (c : ascii) (s h : string) : Prop :=
  ∃ rest, s = h +:+ rest ∧ all_bytes (not_byte c) h = true ∧ (rest = "" ∨ ∃ r, rest = String c r).

Lemma first_label_once c s h h' : first_label c s h → first_label c s h' → h = h'.
Proof.
  revert h h'. induction s as [|d s IH]; intros h h' (r & E & Hh & Hr) (r' & E' & Hh' & Hr').
  { destruct h, h'; done. }
  assert (∀ h r, all_bytes (not_byte c) h = true → String d s = h +:+ r → d = c → h = "") as Hc.
  { intros [|x g] q Hg Eq ->; [done|]. injection Eq as <- _. cbn in Hg. unfold not_byte in Hg.
    by rewrite Ascii.eqb_refl in Hg. }
  assert (∀ r, String d s = "" +:+ r → r = "" ∨ (∃ q, r = String c q) → d = c) as H0.
  { intros q Eq. change (String d s = q) in Eq. subst q. by intros [|[q [= -> _]]]. }
  destruct h as [|x h], h' as [|x' h']; [done|..].
  - by rewrite (Hc _ _ Hh' E' (H0 _ E Hr)).
  - by rewrite (Hc _ _ Hh E (H0 _ E' Hr')).
  - change (String d s = String x (h +:+ r)) in E. change (String d s = String x' (h' +:+ r')) in E'.
    injection E as <- E. injection E' as <- E'. cbn in Hh, Hh'.
    apply andb_true_iff in Hh as [_ Hh], Hh' as [_ Hh']. f_equal. apply IH; by eexists.
Qed.

Lemma first_label_index c s :
  first_label c s (match IndexByte s c with Some i => take i s | None => s end).
Proof.
  induction s as [|d s IH]; [exists ""; by split_and!; [..|left]|]. cbn [IndexByte].
  destruct (Ascii.eqb_spec d c) as [->|Hd].
  { exists (String c s). split_and!; [done..|right; by eexists]. }
  destruct IH as (rest & E & Hh & Hr).
  assert (not_byte c d = true) as Hdc by (unfold not_byte; by destruct (Ascii.eqb_spec d c)).
  destruct (IndexByte s c) as [i|]; cbn [fmap option_fmap option_map take]; exists rest;
    (split_and!; [|cbn [all_bytes]; by rewrite Hdc, Hh|done]).
  - change (String d s = String d (take i s +:+ rest)). by rewrite <-E.
  - change (String d s = String d (s +:+ rest)). by rewrite <-E.
Qed.

Lemma first_label_Split c s : first_label c s (default "" (head (Split s c))).
Proof.
  induction s as [|d s IH]; [exists ""; by split_and!; [..|left]|]. cbn [Split].
  destruct (Ascii.eqb_spec d c) as [->|Hd].
  { exists (String c s). split_and!; [done..|right; by eexists]. }
  destruct IH as (rest & E & Hh & Hr). pose proof (Split_not_nil s c).
  destruct (Split s c) as [|h t]; [done|]. cbn in E, Hh.
  assert (not_byte c d = true) as Hdc by (unfold not_byte; by destruct (Ascii.eqb_spec d c)).
  exists rest. split_and!; [|cbn; by rewrite Hdc, Hh|done].
  change (String d s = String d (h +:+ rest)). by rewrite <-E.
Qed.

Lemma HasPrefix_split s p : HasPrefix s p = true → s = p +:+ drop (len p) s.
Proof.
  unfold HasPrefix, len. revert s. induction p as [|c p IH]; intros s; [done|].
  destruct s as [|d s]; cbn [String.prefix]; [done|]. destruct (ascii_dec c d) as [->|]; [|done].
  intros H%IH. cbn [String.length drop]. change (String d s = String d (p +:+ drop (String.length p) s)).
  by rewrite <-H.
Qed.

(** ** What EC2 said of an instance id *)

(** EC2 was asked for [id], alone or among others, and listed [i] under it. *)
Definition ec2_has (tr : list (event awsE)) (id : string) (i : Instance_) : Prop :=
  ∃ ids filters l, Ev (EC2 (DescribeInstances ids filters)) (Ok l) ∈ tr ∧ id ∈ ids ∧ i ∈ l ∧
    ToString (i_InstanceId i) = id.

(** EC2 was asked for [id], alone or among others, and listed no instance under it. *)
Definition ec2_lacks (tr : list (event awsE)) (id : string) : Prop :=
  ∃ ids filters l, Ev (EC2 (DescribeInstances ids filters)) (Ok l) ∈ tr ∧ id ∈ ids ∧
    ∀ i, i ∈ l → ToString (i_InstanceId i) ≠ id.

Lemma ec2_has_app t u id i : ec2_has t id i → ec2_has (t ++ u) id i.
Proof. intros (ids & fs & l & Hin & H). exists ids, fs, l. split; [set_solver|done]. Qed.
Lemma ec2_lacks_app t u id : ec2_lacks t id → ec2_lacks (t ++ u) id.
Proof. intros (ids & fs & l & Hin & H). exists ids, fs, l. split; [set_solver|done]. Qed.

(** A batcher of describe calls: it only reads, and what it answers for some ids is, for
    each of them, what EC2 listed under it. *)
Definition read_only (tr : list (event awsE)) : Prop := Forall (λ ev, readonly (ev_call ev) = true) tr.

Record answers_ids (ids : list string) (tr : list (event awsE)) (l : list Instance_) : Prop := {
  ai_has : ∀ i, i ∈ l → ToString (i_InstanceId i) ∈ ids → ec2_has tr (ToString (i_InstanceId i)) i;
  ai_lacks : ∀ id, id ∈ ids → (∀ i, i ∈ l → ToString (i_InstanceId i) ≠ id) → ec2_lacks tr id
}.

Definition describes (batcher : list string → prog awsE (result (list Instance_))) : Prop :=
  ∀ ids t, ids ≠ [] → wp (batcher ids) (λ t' o, ∃ u, t' = t ++ u ∧ read_only u ∧
    ∀ l, o = Done (Ok l) → answers_ids ids t' l) t.

(** The answer of a batcher that forwards one call. *)
Definition direct (ids : list string) : prog awsE (result (list Instance_)) :=
  ec2 (DescribeInstances ids []).

Lemma direct_describes : describes direct.
Proof.
  intros ids t _ r. eexists. split; [done|]. split; [by repeat constructor|]. intros l [= ->]. split.
  - intros i Hi Hid. exists ids, [], l. split; [apply snoc_elem|done].
  - intros id Hid Hl. exists ids, [], l. split; [apply snoc_elem|done].
Qed.

(** ** The map by id *)
Lemma byID_lookup (l : list Instance_) (m : gmap string Instance_) id :
  foldl (λ m instance,
    let instanceID := ToString (i_InstanceId instance) in
    if String.eqb instanceID "" then m else <[instanceID := instance]> m) m l !! id = None ↔
  m !! id = None ∧ ∀ i, i ∈ l → id ≠ "" → ToString (i_InstanceId i) ≠ id.
Proof.
  revert m. induction l as [|j l IH]; intros m; cbn [foldl]; [set_solver|]. rewrite IH. cbv zeta.
  destruct (String.eqb_spec (ToString (i_InstanceId j)) "") as [E|E]; [set_solver|].
  rewrite lookup_insert_None. setoid_rewrite elem_of_cons. naive_solver.
Qed.

Lemma byID_source (l : list Instance_) (m : gmap string Instance_) id i :
  foldl (λ m instance,
    let instanceID := ToString (i_InstanceId instance) in
    if String.eqb instanceID "" then m else <[instanceID := instance]> m) m l !! id = Some i →
  m !! id = Some i ∨ i ∈ l ∧ ToString (i_InstanceId i) = id ∧ id ≠ "".
Proof.
  revert m. induction l as [|j l IH]; intros m; cbn [foldl]; [by left|]. intros H%IH. cbv zeta in H.
  destruct (String.eqb_spec (ToString (i_InstanceId j)) "") as [E|E]; [set_solver|].
  destruct H as [H|H]; [|set_solver]. apply lookup_insert_Some in H as [[<- ->]|[_ H]]; [|by left].
  right. split_and!; [by left|done..].
Qed.

Section by_ids.
Context (batcher : list string → prog awsE (result (list Instance_))) (Hb : describes batcher).

(** What [getInstancesByIDs] finds under the ids it is given, and what it does not. *)
Lemma wp_getInstancesByIDs ids t :
  wp (getInstancesByIDs batcher ids) (λ t' o, ∃ u, t' = t ++ u ∧ read_only u ∧
    ∀ m, o = Done (Ok m) → ∀ id, id ∈ ids →
      match m !! id with Some i => ec2_has t' id i | None => id ≠ "" → ec2_lacks t' id end) t.
Proof.
  unfold getInstancesByIDs. destruct (Nat.eqb_spec (length ids) 0) as [E|E].
  { apply length_zero_iff_nil in E as ->. exists []. rewrite app_nil_r. split_and!; [done|constructor|]. set_solver. }
  rewrite wp_try. eapply wp_mono; [by apply Hb; intros ->|].
  intros t' [[l|e]|w] (u & -> & Hro & Ha); cbn [wp]; exists u; (split_and!; [done..|]); [|done..].
  intros m [= <-] id Hid. destruct (Ha l eq_refl) as [Hhas Hlacks].
  destruct (foldl _ _ _ !! id) as [i|] eqn:Em.
  - apply byID_source in Em as [?|(Hi & <- & _)]; [done|]. by apply Hhas.
  - apply byID_lookup in Em as [_ Em]. intros Hne. apply Hlacks; [done|]. intros i Hi. by apply Em.
Qed.

Lemma wp_getInstanceByID id t :
  wp (getInstanceByID batcher id) (λ t' o, (∃ u, t' = t ++ u ∧ read_only u) ∧
    ∀ i, o = Done (Ok (Some i)) → ec2_has t' id i) t.
Proof.
  unfold getInstanceByID. rewrite wp_bind.
  eapply wp_mono; [by apply (wp_getInstancesByIDs [id])|].
  intros t' [[m|e]|w] (u & -> & Hro & Hm); cbn [andThen wp]; [| |by split; [by exists u|]].
  - destruct (size m =? 0); cbn [wp]; [by split; [by exists u|]|].
    destruct (1 <? size m); cbn [wp]; (split; [by exists u|]); [done|].
    intros i [= E]. specialize (Hm m eq_refl id). rewrite E in Hm. apply Hm. set_solver.
  - by split; [by exists u|].
Qed.

End by_ids.

Section lookups.
Context (odd : string → bool) (nodeInformer : informer) (c : Cloud).

(** ** The id of a node *)

(** The id of the instance the name of a node gives: a name that is built from the id, or
    the provider id of the node the informer knows under it. *)
Inductive node_instance_id (name : string) : string → Prop :=
  | by_resource id : HasPrefix name "i-" = true → first_label "." name id → node_instance_id name id
  | by_provider_id lister node id : HasPrefix name "i-" = false → name ≠ "" →
      nodeInformer = Some lister → lister name = Ok node → node_ProviderID node ≠ "" →
      MapToAWSInstanceID odd (node_ProviderID node) = Ok id → node_instance_id name id.

Lemma nodeNameToInstanceID_spec name id :
  nodeNameToInstanceID odd nodeInformer name = Ok id ↔ node_instance_id name id.
Proof.
  unfold nodeNameToInstanceID, rbnNamePrefix. split.
  - destruct (HasPrefix name "i-") eqn:Hp.
    + intros H. apply by_resource; [done|]. pose proof (first_label_index "." name) as Hf.
      destruct (IndexByte name "."); by injection H as <-.
    + destruct (len name =? 0) eqn:Hl; [done|]. destruct nodeInformer as [lister|] eqn:Hi; [|done].
      destruct (lister name) as [node|] eqn:En; [|done].
      destruct (len (node_ProviderID node) =? 0) eqn:Hpid; [done|]. intros H.
      eapply by_provider_id; try done; intros E; [rewrite E in Hl|rewrite E in Hpid]; done.
  - destruct 1 as [id -> Hf|lister node id -> Hne Hi Hn Hpid Hm].
    + pose proof (first_label_index "." name) as Hf'. rewrite (first_label_once _ _ _ _ Hf Hf').
      by destruct (IndexByte name ".").
    + destruct (len name =? 0) eqn:Hl; [by rewrite len_zero, bool_decide_eq_true in Hl|]. rewrite Hi, Hn.
      destruct (len (node_ProviderID node) =? 0) eqn:Hl'; [by rewrite len_zero, bool_decide_eq_true in Hl'|done].
Qed.

Lemma MapToAWSInstanceID_nonempty name id : MapToAWSInstanceID odd name = Ok id → id ≠ "".
Proof.
  unfold MapToAWSInstanceID. intros H ->. destruct (urlPath _ _); [|done]. cbv zeta in H.
  destruct (String.eqb_spec (default "" (last (Split (TrimByte s "/") "/"))) "") as [E|E]; cbn [orb] in H; [done|].
  destruct (negb _); [done|]. congruence.
Qed.

Lemma node_instance_id_nonempty name id : node_instance_id name id → id ≠ "".
Proof.
  destruct 1 as [id Hp (rest & E & _ & Hr)|]; [|by eapply MapToAWSInstanceID_nonempty].
  intros ->. change (name = rest) in E. subst name. by destruct Hr as [->|[r ->]].
Qed.

(** The filters of the search by the name of a node. *)
Definition by_name (name : string) : list Filter :=
  [newEc2Filter "private-dns-name" [name];
   newEc2Filter "instance-state-name" ["pending"; "running"; "shutting-down"; "stopping"; "stopped"]].

(** EC2 has said that [i] is the instance of the node [name]: it listed it under the id the
    name gives, or, for a name that gives none, as the instance of the cluster that has not
    terminated and has the name as its private DNS name. *)
Definition instance_of_node (name : string) (tr : list (event awsE)) (i : Instance_) : Prop :=
  (∃ id, node_instance_id name id ∧ ec2_has tr id i) ∨
  (∀ id, ¬ node_instance_id name id) ∧
  ∃ l, Ev (EC2 (DescribeInstances [] (by_name name))) (Ok l) ∈ tr ∧
    i ∈ l ∧ hasClusterTag (c_tagging c) (i_Tags i) = true.

Lemma instance_of_node_app name t u i : instance_of_node name t i → instance_of_node name (t ++ u) i.
Proof.
  intros [(id & Hid & Hi)|(Hid & l & Hl & Hi)]; [left|right].
  - exists id. split; [done|by apply ec2_has_app].
  - split; [done|]. exists l. split; [set_solver|done].
Qed.

(** ** The lookups *)
Context (batcher : list string → prog awsE (result (list Instance_))) (Hb : describes batcher).

Lemma wp_findInstanceByNodeName name t :
  (∀ id, ¬ node_instance_id name id) →
  wp (findInstanceByNodeName c name) (λ t' o, (∃ u, t' = t ++ u ∧ read_only u) ∧
    ∀ i, o = Done (Ok (Some i)) → instance_of_node name t' i) t.
Proof.
  intros Hno. unfold findInstanceByNodeName, describeInstances. rewrite !wp_try. intros r. cbn [wp].
  assert (∃ u, t ++ [Ev (EC2 (DescribeInstances [] (by_name name))) r] = t ++ u ∧ read_only u) as Hu
    by (eexists; split; [done|by repeat constructor]).
  destruct r as [l|e]; cbn [wp]; [|by split].
  destruct (filter _ l) as [|j [|]] eqn:Ef; cbn [wp]; (split; [exact Hu|]); [done| |done].
  intros i [= ->]. right. split; [done|]. exists l. split; [apply snoc_elem|].
  assert (i ∈ filter (λ instance, hasClusterTag (c_tagging c) (i_Tags instance) = true) l) as Hin
    by (rewrite Ef; set_solver).
  apply list_elem_of_filter in Hin. tauto.
Qed.

(** The lookup only reads, and finds what EC2 says is the instance of the node. *)
Lemma wp_getInstanceByNodeName name t :
  wp (getInstanceByNodeName odd batcher c nodeInformer name) (λ t' o, (∃ u, t' = t ++ u ∧ read_only u) ∧
    ∀ i, o = Done (Ok i) → instance_of_node name t' i) t.
Proof.
  unfold getInstanceByNodeName. rewrite wp_try.
  assert (∀ id, nodeNameToInstanceID odd nodeInformer name = Ok id ↔ node_instance_id name id) as Hspec
    by apply nodeNameToInstanceID_spec.
  destruct (nodeNameToInstanceID odd nodeInformer name) as [id|e].
  - assert (node_instance_id name id) as Hid by by apply Hspec.
    eapply wp_mono; [by apply wp_getInstanceByID|].
    intros t' [[[i|]|e]|w] [Hu Hi]; cbn [wp]; (split; [exact Hu|]); try done.
    intros j [= <-]. left. exists id. split; [done|by apply Hi].
  - eapply wp_mono; [apply wp_findInstanceByNodeName|].
    { intros id Hid. by apply Hspec in Hid. }
    intros t' [[[i|]|e']|w] [Hu Hi]; cbn [wp]; (split; [exact Hu|]); try done.
    intros j [= <-]. by apply Hi.
Qed.
End lookups.
