(* ===== verification/Elb.v ===== *)
(** * Classic load balancers (aws_loadbalancer.go, aws.go)

    Listeners, policies, health checks, instances and attributes of a classic load
    balancer, and [ensureLoadBalancer], which creates it or brings it in line. *)

From S2P Require Import Prelude GoLib Effects AwsApi Tags Config Cloud SecurityGroups TargetGroups NlbRules Nlb.
From Stdlib Require Import Ascii.
Import Strings Errors Strconv.

Definition ProxyProtocolPolicyName := "k8s-proxyprotocol-enabled".
Definition SSLNegotiationPolicyName (policy : string) : string := "k8s-SSLNegotiationPolicy-" +:+ policy.
Definition defaultElbHCHealthyThreshold : Z := 2.
Definition defaultElbHCUnhealthyThreshold : Z := 6.
Definition defaultElbHCTimeout : Z := 5.
Definition defaultElbHCInterval : Z := 10.

(** ** Listeners *)
Definition backendProtocolMapping (protocol : string) : string :=
  match protocol with
  | "https" => "https"
  | "http" => "https"
  | "ssl" => "ssl"
  | "tcp" => "ssl"
  | _ => ""
  end.

Definition buildListener (port : ServicePort) (annotations : gmap string string)
    (sslPorts : option portSets) : result ElbListener :=
  let portName := ToLower (sp_Name port) in
  let protocol := ToLower (sp_Protocol port) in
  let certID := mapget annotations ServiceAnnotationLoadBalancerCertificate in
  let beProtocol := mapget annotations ServiceAnnotationLoadBalancerBEProtocol in
  let listener protocol instanceProtocol cert :=
    Ok (mkElbListener (Some (sp_NodePort port)) (sp_Port port) (Some protocol)
          (Some instanceProtocol) cert) in
  if negb (String.eqb certID "") &&
     match sslPorts with
     | None => true
     | Some s => bool_decide (sp_Port port ∈ ps_numbers s) || bool_decide (portName ∈ ps_names s)
     end then
    if String.eqb beProtocol "" then listener "ssl" "tcp" (Some certID) else
    let protocol := backendProtocolMapping beProtocol in
    if String.eqb protocol "" then
      Err (Errorf "Invalid backend protocol %s for %s in %s"
             [beProtocol; certID; ServiceAnnotationLoadBalancerBEProtocol])
    else listener protocol beProtocol (Some certID)
  else if String.eqb beProtocol "http" then listener "http" beProtocol None
  else listener protocol protocol None.

Definition elbProtocolsAreEqual (l r : option string) : bool :=
  match l, r with
  | Some l, Some r => EqualFold l r
  | None, None => true
  | _, _ => false
  end.
Definition awsArnEquals (l r : option string) : bool :=
  match l, r with
  | Some l, Some r => EqualFold l r
  | None, None => true
  | _, _ => false
  end.

Definition elbListenersAreEqual (actual expected : ElbListener) : bool :=
  elbProtocolsAreEqual (l_Protocol actual) (l_Protocol expected) &&
  elbProtocolsAreEqual (l_InstanceProtocol actual) (l_InstanceProtocol expected) &&
  Z.eqb (ToInt32 (l_InstancePort actual)) (ToInt32 (l_InstancePort expected)) &&
  Z.eqb (l_LoadBalancerPort actual) (l_LoadBalancerPort expected) &&
  awsArnEquals (l_SSLCertificateId actual) (l_SSLCertificateId expected).

(** The place of the first listener equal to [actual]. *)
Fixpoint findListener (actual : ElbListener) (i : nat) (listeners : list ElbListener) : option nat :=
  match listeners with
  | [] => None
  | expected :: listeners =>
     if elbListenersAreEqual actual expected then Some i else findListener actual (S i) listeners
  end.

(** The listeners to create, and the ports to close. *)
Definition syncElbListeners (listeners : list ElbListener)
    (listenerDescriptions : list (option ElbListener)) : list ElbListener * list Z :=
  let '(foundSet, removals) := foldl (λ '(foundSet, removals) actual,
    match actual with
    | None => (foundSet, removals)
    | Some actual =>
       match findListener actual 0 listeners with
       | Some i => (foundSet ∪ {[i]}, removals)
       | None => (foundSet, removals ++ [l_LoadBalancerPort actual])
       end
    end) (∅ : gset nat, []) listenerDescriptions in
  (omap (λ '(i, listener), if bool_decide (i ∈ foundSet) then None else Some listener)
     (imap pair listeners), removals).

(** ** Health checks *)
Definition ValidateHealthCheck (s : option HealthCheck) : result unit :=
  let report errors :=
    if 0 <? length errors then Err (Errorf "HealthCheck validation errors: %s" [Join errors "; "])
    else Ok tt in
  let atLeast (name : string) (v : option Z) (low : Z) : list string :=
    match v with
    | None => [name +:+ " is required"]
    | Some v => if (v <? low)%Z then [name +:+ " must be at least " +:+ Itoa low] else []
    end in
  match s with
  | None => report ["HealthCheck is nil"]
  | Some s =>
     report (atLeast "HealthyThreshold" (hck_HealthyThreshold s) 2%Z ++
             atLeast "Interval" (hck_Interval s) 5%Z ++
             (match hck_Target s with None => ["Target is required"] | Some _ => [] end) ++
             atLeast "Timeout" (hck_Timeout s) 2%Z ++
             atLeast "UnhealthyThreshold" (hck_UnhealthyThreshold s) 2%Z)
  end.

(** The number is parsed in 64 bits, then cut to 32. *)
Definition getOrDefault (annotations : gmap string string) (annotation : string) (defaultValue : Z) :
    result Z :=
  match annotations !! annotation with
  | None => Ok defaultValue
  | Some s =>
     match ParseInt s int_bits with
     | None => Err (Errorf "failed parsing health check annotation value: %v" [s])
     | Some i64 => Ok (to_int32 i64)
     end
  end.

Definition getExpectedHealthCheck (target : string) (annotations : gmap string string) :
    result HealthCheck :=
  (healthy ←? getOrDefault annotations ServiceAnnotationLoadBalancerHCHealthyThreshold
     defaultElbHCHealthyThreshold;
   unhealthy ←? getOrDefault annotations ServiceAnnotationLoadBalancerHCUnhealthyThreshold
     defaultElbHCUnhealthyThreshold;
   timeout ←? getOrDefault annotations ServiceAnnotationLoadBalancerHCTimeout defaultElbHCTimeout;
   interval ←? getOrDefault annotations ServiceAnnotationLoadBalancerHCInterval defaultElbHCInterval;
   let healthcheck := mkHealthCheck (Some healthy) (Some interval) (Some target) (Some timeout)
     (Some unhealthy) in
   match ValidateHealthCheck (Some healthcheck) with
   | Err err => Err (Errorf "some of the load balancer health check parameters are invalid: %v" [Error err])
   | Ok _ => Ok healthcheck
   end)%go.

(** The target of the health check, after the overrides of the annotations. *)
Definition healthCheckTargetOf (protocol : string) (port : Z) (path : string)
    (annotations : gmap string string) : result string :=
  let protocol := default protocol (annotations !! ServiceAnnotationLoadBalancerHealthCheckProtocol) in
  (port ←? match annotations !! ServiceAnnotationLoadBalancerHealthCheckPort with
           | Some s =>
              if String.eqb s defaultHealthCheckPort then Ok port else
              match ParseInt s int_bits with
              | None => Err (Errorf "strconv.ParseInt: parsing %q: invalid syntax" [s])
              | Some p => Ok (to_int32 p)
              end
           | None => Ok port
           end;
   let path :=
     if String.eqb (ToUpper protocol) "HTTP" || String.eqb (ToUpper protocol) "HTTPS" then
       let s := mapget annotations ServiceAnnotationLoadBalancerHealthCheckPath in
       if negb (String.eqb s "") then s
       else if String.eqb path "" then defaultHealthCheckPath else path
     else "" in
   Ok (protocol +:+ ":" +:+ Itoa port +:+ path))%go.

Definition ensureLoadBalancerHealthCheck (loadBalancer : LoadBalancerDescription) (protocol : string)
    (port : Z) (path : string) (annotations : gmap string string) : prog awsE (result unit) :=
  let name := ToString (lb_LoadBalancerName loadBalancer) in
  let? expectedTarget := Ret (healthCheckTargetOf protocol port path annotations) in
  let? expected := Ret (getExpectedHealthCheck expectedTarget annotations)
    else (λ err, Errorf "cannot update health check for load balancer %q: %q" [name; Error err]) in
  let! actual := no_panic (lb_HealthCheck loadBalancer) in
  if String.eqb (ToString (hck_Target expected)) (ToString (hck_Target actual)) &&
     Z.eqb (ToInt32 (hck_HealthyThreshold expected)) (ToInt32 (hck_HealthyThreshold actual)) &&
     Z.eqb (ToInt32 (hck_UnhealthyThreshold expected)) (ToInt32 (hck_UnhealthyThreshold actual)) &&
     Z.eqb (ToInt32 (hck_Interval expected)) (ToInt32 (hck_Interval actual)) &&
     Z.eqb (ToInt32 (hck_Timeout expected)) (ToInt32 (hck_Timeout actual)) then Ret (Ok tt)
  else
  let? _ := elb (ConfigureHealthCheck (lb_LoadBalancerName loadBalancer) expected)
    else (λ err, Errorf "error configuring load balancer health check for %q: %q" [name; Error err]) in
  Ret (Ok tt).

(** ** Instances *)
Definition ensureLoadBalancerInstances (loadBalancerName : string)
    (lbInstances : list (option string)) (instanceIDs : gset string) : prog awsE (result unit) :=
  let expected := instanceIDs in
  let actual : gset string := list_to_set (ToString <$> lbInstances) in
  let addInstances := SortStrings (elements (expected ∖ actual)) in
  let removeInstances := SortStrings (elements (actual ∖ expected)) in
  let? _ := (if 0 <? length addInstances
    then elb (RegisterInstancesWithLoadBalancer loadBalancerName addInstances)
    else Ret (Ok tt)) in
  let? _ := (if 0 <? length removeInstances
    then elb (DeregisterInstancesFromLoadBalancer loadBalancerName removeInstances)
    else Ret (Ok tt)) in
  Ret (Ok tt).

(** ** Policies *)
Definition getLoadBalancerTLSPorts (loadBalancer : LoadBalancerDescription) : option (list Z) :=
  listeners ← mapM id (lb_ListenerDescriptions loadBalancer);
  Some (l_LoadBalancerPort <$> filter (λ l,
    ToString (l_Protocol l) = "SSL" ∨ ToString (l_Protocol l) = "HTTPS") listeners).

(** A [PolicyNotFoundException] has the code below; the SDK then answers no result. *)
Definition ensureSSLNegotiationPolicy (loadBalancer : LoadBalancerDescription) (policyName : string) :
    prog awsE (result unit) :=
  let! result := elb (DescribeLoadBalancerPolicies (lb_LoadBalancerName loadBalancer)
    [SSLNegotiationPolicyName policyName]) in
  let? policies := Ret (match result with
    | Ok policies => Ok policies
    | Err err =>
       match AsAPIError err with
       | Some "PolicyNotFound" => Ok []
       | _ => Err (Errorf "error describing security policies on load balancer: %q" [Error err])
       end
    end) in
  if 0 <? length policies then Ret (Ok tt) else
  let? _ := elb (CreateLoadBalancerPolicy (lb_LoadBalancerName loadBalancer)
      (SSLNegotiationPolicyName policyName) "SSLNegotiationPolicyType"
      [("Reference-Security-Policy", policyName)])
    else (λ err, Errorf "error creating security policy on load balancer: %q" [Error err]) in
  Ret (Ok tt).

Definition setSSLNegotiationPolicy (loadBalancerName sslPolicyName : string) (port : Z) :
    prog awsE (result unit) :=
  let policyName := SSLNegotiationPolicyName sslPolicyName in
  let? _ := elb (SetLoadBalancerPoliciesOfListener loadBalancerName (to_int32 port) [policyName])
    else (λ err, Errorf "error setting SSL negotiation policy '%s' on load balancer: %q"
                   [policyName; Error err]) in
  Ret (Ok tt).

Definition createProxyProtocolPolicy (loadBalancerName : string) : prog awsE (result unit) :=
  let? _ := elb (CreateLoadBalancerPolicy (Some loadBalancerName) ProxyProtocolPolicyName
      "ProxyProtocolPolicyType" [("ProxyProtocol", "true")])
    else (λ err, Errorf "error creating proxy protocol policy on load balancer: %q" [Error err]) in
  Ret (Ok tt).

Definition setBackendPolicies (loadBalancerName : string) (instancePort : option Z)
    (policies : list string) : prog awsE (result unit) :=
  let? _ := elb (SetLoadBalancerPoliciesForBackendServer loadBalancerName instancePort policies)
    else (λ err, Errorf "error adjusting AWS loadbalancer backend policies: %q" [Error err]) in
  Ret (Ok tt).

Definition proxyProtocolEnabled (backend : BackendServerDescription) : bool :=
  bool_decide (ProxyProtocolPolicyName ∈ be_PolicyNames backend).

(** ** The load balancer *)

(** The last one, where several carry the name. *)
Definition describeLoadBalancer (name : string) : prog awsE (result (option LoadBalancerDescription)) :=
  let! response := elb (ElbDescribeLoadBalancers [name]) in
  match response with
  | Err err =>
     match AsAPIError err with
     | Some "LoadBalancerNotFound" => Ret (Ok None)
     | _ => Ret (Err err)
     end
  | Ok descriptions => Ret (Ok (last descriptions))
  end.

Section elb.
Context {GR : GoRange} {GS : GoSort}.

Definition addLoadBalancerTags (loadBalancerName : string) (requested : gmap string string) :
    prog awsE (result unit) :=
  let? _ := elb (ElbAddTags [loadBalancerName] (elbTags requested))
    else (λ err, Errorf "error adding tags to load balancer: %v" [Error err]) in
  Ret (Ok tt).

(** Creation, and the proxy protocol of the new listeners. *)
Definition createELB (c : Cloud) (namespacedName : NamespacedName) (loadBalancerName : string)
    (listeners : list ElbListener) (subnetIDs securityGroupIDs : list string)
    (internalELB proxyProtocol : bool) (annotations : gmap string string) : prog awsE (result unit) :=
  let tags := getKeyValuePropertiesFromAnnotation annotations
    ServiceAnnotationLoadBalancerAdditionalTags in
  let tags := <[TagNameKubernetesService := nn_String namespacedName]> tags in
  let tags := buildTags (c_tagging c) ResourceLifecycleOwned tags in
  let? _ := elb (ElbCreateLoadBalancer loadBalancerName listeners
    (if internalELB then Some "internal" else None) subnetIDs securityGroupIDs (elbTags tags)) in
  if proxyProtocol then
    let? _ := createProxyProtocolPolicy loadBalancerName in
    each (λ listener,
      let! instancePort := no_panic (l_InstancePort listener) in
      setBackendPolicies loadBalancerName (Some instancePort) [ProxyProtocolPolicyName]) listeners
  else Ret (Ok tt).

(** The subnets: whether they changed. *)
Definition syncSubnets (loadBalancerName : string) (subnetIDs actualSubnets : list string) :
    prog awsE (result bool) :=
  let expected : gset string := list_to_set subnetIDs in
  let actual : gset string := list_to_set actualSubnets in
  let additions := expected ∖ actual in
  let removals := actual ∖ expected in
  let? _ := (if negb (size removals =? 0) then
      let? _ := elb (DetachLoadBalancerFromSubnets loadBalancerName (range_set removals))
        else (λ err, Errorf "error detaching AWS loadbalancer from subnets: %q" [Error err]) in
      Ret (Ok tt)
    else Ret (Ok tt)) in
  let? _ := (if negb (size additions =? 0) then
      let? _ := elb (AttachLoadBalancerToSubnets loadBalancerName (range_set additions))
        else (λ err, Errorf "error attaching AWS loadbalancer to subnets: %q" [Error err]) in
      Ret (Ok tt)
    else Ret (Ok tt)) in
  Ret (Ok (negb (size removals =? 0) || negb (size additions =? 0))).

(** The security groups; the ones replaced are deleted when the cluster owns them. *)
Definition syncSecurityGroups (polls : nat) (c : Cloud) (loadBalancerName : string)
    (securityGroupIDs actualGroups : list string) : prog awsE (result bool) :=
  let expected : gset string := list_to_set securityGroupIDs in
  let actual : gset string := list_to_set actualGroups in
  if bool_decide (expected = actual) then Ret (Ok false) else
  let? _ := elb (ApplySecurityGroupsToLoadBalancer loadBalancerName securityGroupIDs)
    else (λ err, Errorf "error applying AWS loadbalancer security groups: %q" [Error err]) in
  let! errs := removeOwnedSecurityGroups polls c loadBalancerName (range_set (actual ∖ expected)) in
  if 0 <? length errs then
    Ret (Err (Errorf "error removing owned security groups: %v" [fmtErrs errs]))
  else Ret (Ok true).

Definition applyListeners (loadBalancerName : string) (listeners : list ElbListener)
    (listenerDescriptions : list (option ElbListener)) : prog awsE (result bool) :=
  let (additions, removals) := syncElbListeners listeners listenerDescriptions in
  let? _ := (if negb (length removals =? 0) then
      let? _ := elb (DeleteLoadBalancerListeners loadBalancerName removals)
        else (λ err, Errorf "error deleting AWS loadbalancer listeners: %q" [Error err]) in
      Ret (Ok tt)
    else Ret (Ok tt)) in
  let? _ := (if negb (length additions =? 0) then
      let? _ := elb (CreateLoadBalancerListeners loadBalancerName additions)
        else (λ err, Errorf "error creating AWS loadbalancer listeners: %q" [Error err]) in
      Ret (Ok tt)
    else Ret (Ok tt)) in
  Ret (Ok (negb (length removals =? 0) || negb (length additions =? 0))).

(** The proxy protocol of the backends, those without a listener included. *)
Definition syncProxyProtocol (loadBalancerName : string) (listeners : list ElbListener)
    (backends : list BackendServerDescription) (proxyProtocol : bool) : prog awsE (result bool) :=
  let? proxyPolicies := (if proxyProtocol then
      let? _ := createProxyProtocolPolicy loadBalancerName in Ret (Ok [ProxyProtocolPolicyName])
    else Ret (Ok [])) in
  let foundBackends : gmap Z bool :=
    foldl (λ m backend, <[ToInt32 (be_InstancePort backend) := false]> m) ∅ backends in
  let proxyProtocolBackends : gmap Z bool :=
    foldl (λ m backend, <[ToInt32 (be_InstancePort backend) := proxyProtocolEnabled backend]> m) ∅ backends in
  let? (foundBackends, dirty) := loop (λ '(foundBackends, dirty) listener,
    let! instancePort := no_panic (l_InstancePort listener) in
    let '(setPolicy, foundBackends) :=
      match proxyProtocolBackends !! instancePort with
      | None => (proxyProtocol, foundBackends)
      | Some currentState =>
         (negb (Bool.eqb currentState proxyProtocol), <[instancePort := true]> foundBackends)
      end in
    if (setPolicy : bool) then
      let? _ := setBackendPolicies loadBalancerName (Some instancePort) proxyPolicies in
      Ret (Ok (foundBackends, true))
    else Ret (Ok (foundBackends, dirty))) listeners (foundBackends, false) in
  loop (λ (dirty : bool) '(instancePort, found),
    if (found : bool) then Ret (Ok dirty) else
    let? _ := setBackendPolicies loadBalancerName (Some instancePort) [] in
    Ret (Ok true)) (range_map foundBackends) dirty.

(** The update of an existing load balancer: whether it changed. *)
Definition updateELB (polls : nat) (c : Cloud) (loadBalancerName : string)
    (loadBalancer : LoadBalancerDescription) (listeners : list ElbListener)
    (subnetIDs securityGroupIDs : list string) (proxyProtocol : bool)
    (annotations : gmap string string) : prog awsE (result bool) :=
  let? subnetsChanged := syncSubnets loadBalancerName subnetIDs (lb_Subnets loadBalancer) in
  let? groupsChanged := syncSecurityGroups polls c loadBalancerName securityGroupIDs
    (lb_SecurityGroups loadBalancer) in
  let? listenersChanged := applyListeners loadBalancerName listeners
    (lb_ListenerDescriptions loadBalancer) in
  let? policiesChanged := syncProxyProtocol loadBalancerName listeners
    (lb_BackendServerDescriptions loadBalancer) proxyProtocol in
  let tags := getKeyValuePropertiesFromAnnotation annotations
    ServiceAnnotationLoadBalancerAdditionalTags in
  let? _ := (if 0 <? size tags then
      let? _ := addLoadBalancerTags loadBalancerName tags
        else (λ err, Errorf "unable to create additional load balancer tags: %v" [Error err]) in
      Ret (Ok tt)
    else Ret (Ok tt)) in
  Ret (Ok (subnetsChanged || groupsChanged || listenersChanged || policiesChanged)).

(** *** The attributes *)

(** What [reflect.DeepEqual] is given: the wanted attributes behind a pointer, and the address
    of the field of the answer, which is a pointer itself. Values of two types are never
    deeply equal. *)
Inductive AttributesValue :=
  | AttributesPointer (attributes : LoadBalancerAttributes)
  | AttributesPointerPointer (attributes : LoadBalancerAttributes).
#[export] Instance AttributesValue_eq_dec : EqDecision AttributesValue.
Proof. solve_decision. Defined.
Definition DeepEqualAttributes (a b : AttributesValue) : bool := bool_decide (a = b).

(** Whether the attributes were modified. *)
Definition syncAttributes (loadBalancerName : string) (loadBalancerAttributes : LoadBalancerAttributes) :
    prog awsE (result bool) :=
  let? attributes := elb (ElbDescribeLoadBalancerAttributes loadBalancerName) in
  let foundAttributes := AttributesPointerPointer attributes in
  if negb (DeepEqualAttributes (AttributesPointer loadBalancerAttributes) foundAttributes) then
    let? _ := elb (ElbModifyLoadBalancerAttributes loadBalancerName loadBalancerAttributes)
      else (λ err, Errorf "Unable to update load balancer attributes during attribute sync: %q"
                     [Error err]) in
    Ret (Ok true)
  else Ret (Ok false).

(** The result is nil when the load balancer is gone after the update. *)
Definition ensureLoadBalancer (polls : nat) (c : Cloud) (namespacedName : NamespacedName)
    (loadBalancerName : string) (listeners : list ElbListener)
    (subnetIDs securityGroupIDs : list string) (internalELB proxyProtocol : bool)
    (loadBalancerAttributes : LoadBalancerAttributes) (annotations : gmap string string) :
    prog awsE (result (option LoadBalancerDescription)) :=
  let? loadBalancer := describeLoadBalancer loadBalancerName in
  let? dirty :=
    match loadBalancer with
    | None =>
       let? _ := createELB c namespacedName loadBalancerName listeners subnetIDs securityGroupIDs
         internalELB proxyProtocol annotations in
       Ret (Ok true)
    | Some loadBalancer => updateELB polls c loadBalancerName loadBalancer listeners subnetIDs
        securityGroupIDs proxyProtocol annotations
    end in
  let? attributesChanged := syncAttributes loadBalancerName loadBalancerAttributes in
  if dirty || attributesChanged then describeLoadBalancer loadBalancerName
  else Ret (Ok loadBalancer).

End elb.
