(* ===== verification/ElbFacts.v ===== *)
(** * Correctness of the classic load balancer operations

    Listeners and instances become exactly the desired ones; health checks sent to the
    service are within its limits. *)

From S2P Require Import Prelude GoLib Effects AwsApi Tags Config Cloud SecurityGroups TargetGroups TargetGroupFacts NlbRules Nlb Elb.
From Stdlib Require Import Ascii.
Import Strings Errors Strconv.

(** ** Instances *)

(** A successful call registers or deregisters the instances it names. *)
Definition instance_effect (S : gset string) (ev : event awsE) : gset string :=
  if is_ok (ev_answer ev) then
    match ev_call ev with
    | ELB (RegisterInstancesWithLoadBalancer _ l) => S ∪ list_to_set l
    | ELB (DeregisterInstancesFromLoadBalancer _ l) => S ∖ list_to_set l
    | _ => S
    end
  else S.
Definition registeredInstances (S : gset string) (tr : list (event awsE)) : gset string :=
  foldl instance_effect S tr.

Lemma list_to_set_sorted (s : gset string) : list_to_set (SortStrings (elements s)) = s.
Proof.
  apply set_eq. intros x. unfold SortStrings.
  rewrite elem_of_list_to_set, (merge_sort_Permutation String.le _). apply elem_of_elements.
Qed.

Lemma sorted_length (s : gset string) : (0 <? length (SortStrings (elements s))) = negb (bool_decide (s = ∅)).
Proof.
  unfold SortStrings. rewrite (Permutation_length (merge_sort_Permutation String.le _)).
  case_bool_decide as H; [by subst|]. apply Nat.ltb_lt.
  destruct (elements s) eqn:E; [|simpl; lia]. by apply elements_empty_inv, leibniz_equiv in E.
Qed.

Section plan.
Implicit Types a e : gset string.

Lemma plan_union a e : a ∪ (e ∖ a) = a ∪ e.
Proof. apply set_eq. intros x. destruct (decide (x ∈ a)); set_solver. Qed.
Lemma plan_minus a e : (a ∪ e) ∖ (a ∖ e) = e.
Proof. apply set_eq. intros x. destruct (decide (x ∈ e)); set_solver. Qed.
Lemma plan_keep a e : e ⊆ a → a ∖ (a ∖ e) = e.
Proof. intros He. apply set_eq. intros x. destruct (decide (x ∈ e)); set_solver. Qed.
Lemma plan_bounds a e x : x = a ∨ x = e ∨ x = a ∪ e → a ∩ e ⊆ x ⊆ a ∪ e.
Proof. intros [->|[->| ->]]; set_solver. Qed.
Lemma plan_sub a e : e ∖ a = ∅ → e ⊆ a.
Proof. intros H x Hx. destruct (decide (x ∈ a)); [done|]. set_solver. Qed.
Lemma plan_same a e : a ∖ e ≠ ∅ ∨ e ∖ a ≠ ∅ → a ≠ e.
Proof. intros [H|H] ->; apply H; set_solver. Qed.
End plan.

(** Instances that stay are never touched, and none but the expected are added; before a
    second call everything expected is registered; success is exact. *)
Definition exact_instances (expected actual : gset string) (tr : list (event awsE))
    (o : outcome (result unit)) : Prop :=
  actual ∩ expected ⊆ registeredInstances actual tr ⊆ actual ∪ expected ∧
  (∀ ev ev' post, tr = ev :: ev' :: post → expected ⊆ registeredInstances actual [ev]) ∧
  (actual = expected → tr = []) ∧
  match o with
  | Done (Ok _) => registeredInstances actual tr = expected
  | Done (Err _) => True
  | Panicked _ => False
  end.

(** [ensureLoadBalancerInstances] registers before it deregisters, so that the instances
    that stay serve throughout; on success exactly the instances asked for are registered,
    and when they already are it makes no call. *)
Theorem ensureLoadBalancerInstances_exact name lbInstances expected :
  wp (ensureLoadBalancerInstances name lbInstances expected)
     (exact_instances expected (list_to_set (ToString <$> lbInstances))) [].
Proof.
  set (actual := list_to_set (ToString <$> lbInstances)). unfold ensureLoadBalancerInstances. fold actual.
  rewrite !sorted_length.
  pose proof (plan_union actual expected) as Hu. pose proof (plan_minus actual expected) as Hm.
  pose proof (plan_keep actual expected) as Hk.
  pose proof (list_to_set_sorted (expected ∖ actual)) as L1.
  pose proof (list_to_set_sorted (actual ∖ expected)) as L2.
  set (l1 := SortStrings _) in *. set (l2 := SortStrings (elements (actual ∖ expected))) in *.
  clearbody l1 l2 actual.
  assert (∀ tr o, registeredInstances actual tr = actual ∨ registeredInstances actual tr = expected ∨
      registeredInstances actual tr = actual ∪ expected →
    (∀ ev ev' post, tr = ev :: ev' :: post → expected ⊆ registeredInstances actual [ev]) →
    (actual = expected → tr = []) →
    match o with Done (Ok _) => registeredInstances actual tr = expected | Done (Err _) => True | Panicked _ => False end →
    exact_instances expected actual tr o) as Hex.
  { intros tr o Ht H1 H2 H3. split_and!; [by apply plan_bounds|by apply plan_bounds|done..]. }
  assert (∀ r, instance_effect actual (Ev (ELB (RegisterInstancesWithLoadBalancer name l1)) r) =
    if is_ok r then actual ∪ expected else actual) as R1.
  { intros [[]|]; unfold instance_effect; simpl; [by rewrite L1, Hu|done]. }
  assert (∀ A r, instance_effect A (Ev (ELB (DeregisterInstancesFromLoadBalancer name l2)) r) =
    if is_ok r then A ∖ (actual ∖ expected) else A) as R2.
  { intros A [[]|]; unfold instance_effect; simpl; [by rewrite L2|done]. }
  case_bool_decide as E1; case_bool_decide as E2; cbn [negb]; unfold try; simpl.
  - assert (actual = expected) as ->.
    { apply (anti_symm (⊆)); by apply plan_sub. }
    apply Hex; by auto.
  - assert (actual ≠ expected) as Hn by (apply plan_same; auto).
    apply plan_sub in E1. intros [[]|e]; simpl; apply Hex; unfold registeredInstances; simpl;
      rewrite ?R2; simpl; rewrite ?Hk by done; auto; done.
  - assert (actual ≠ expected) as Hn by (apply plan_same; auto).
    apply plan_sub in E2. intros [[]|e]; simpl; apply Hex; unfold registeredInstances; simpl;
      rewrite ?R1; simpl; auto; try done. clear -E2. set_solver.
  - assert (actual ≠ expected) as Hn by (apply plan_same; auto).
    intros [[]|e]; simpl; [|apply Hex; unfold registeredInstances; simpl; rewrite ?R1; auto; done].
    intros [[]|e]; simpl; apply Hex; unfold registeredInstances; simpl; rewrite ?R1, ?R2; simpl;
      rewrite ?Hm; auto; try done; intros ? ? ? [= <- <- <-]; rewrite R1; simpl; clear; set_solver.
Qed.

(** ** Listeners *)
Lemma NoDup_key {A B} (f : A → B) (l : list A) x y :
  NoDup (f <$> l) → x ∈ l → y ∈ l → f x = f y → x = y.
Proof.
  induction l as [|z l IH]; [set_solver|]. rewrite fmap_cons, NoDup_cons, !elem_of_cons.
  intros [Hz Hnd] [->|Hx] [->|Hy] E; auto; exfalso; apply Hz.
  - rewrite E. by apply list_elem_of_fmap_2.
  - rewrite <-E. by apply list_elem_of_fmap_2.
Qed.

Lemma elbListenersAreEqual_refl l : elbListenersAreEqual l l = true.
Proof.
  assert (∀ p, elbProtocolsAreEqual p p = true) as Hp by (intros [s|]; [apply String.eqb_refl|done]).
  unfold elbListenersAreEqual. by rewrite !Hp, !Z.eqb_refl.
Qed.

Lemma elbListenersAreEqual_port a e :
  elbListenersAreEqual a e = true → l_LoadBalancerPort a = l_LoadBalancerPort e.
Proof. unfold elbListenersAreEqual. rewrite !andb_true_iff, !Z.eqb_eq. tauto. Qed.

Lemma findListener_Some a k l i :
  findListener a k l = Some i → ∃ e, l !! (i - k) = Some e ∧ k ≤ i ∧ elbListenersAreEqual a e = true.
Proof.
  revert k. induction l as [|e l IH]; intros k; simpl; [done|].
  destruct (elbListenersAreEqual a e) eqn:E.
  - intros [= <-]. exists e. rewrite Nat.sub_diag. auto.
  - intros (e' & Hl & Hk & He)%IH. exists e'. split_and!; [|lia|done].
    replace (i - k) with (S (i - S k)) by lia. done.
Qed.

Lemma findListener_None a k l :
  findListener a k l = None → ∀ e, e ∈ l → elbListenersAreEqual a e = false.
Proof.
  revert k. induction l as [|e l IH]; intros k; simpl; [set_solver|].
  destruct (elbListenersAreEqual a e) eqn:E; [done|]. intros H e' [->|He]%elem_of_cons; eauto.
Qed.

(** Distinct ports leave only one listener to find. *)
Lemma findListener_at a k l j e :
  NoDup (l_LoadBalancerPort <$> l) → l !! j = Some e → elbListenersAreEqual a e = true →
  findListener a k l = Some (k + j).
Proof.
  revert k j. induction l as [|x l IH]; intros k j Hnd Hj He; [done|].
  apply NoDup_cons in Hnd as [Hx Hnd]. simpl. destruct j as [|j]; simpl in Hj.
  - simplify_eq. rewrite He. f_equal. lia.
  - destruct (elbListenersAreEqual a x) eqn:Ex.
    + exfalso. apply Hx. apply list_elem_of_fmap. exists e. split; [|by eapply list_elem_of_lookup_2].
      apply elbListenersAreEqual_port in He, Ex. congruence.
    + rewrite (IH (S k) j) by done. f_equal. lia.
Qed.

Definition stalePort (listeners : list ElbListener) (d : option ElbListener) : option Z :=
  a ← d; match findListener a 0 listeners with Some _ => None | None => Some (l_LoadBalancerPort a) end.
Definition foundIndex (listeners : list ElbListener) (d : option ElbListener) : option nat :=
  a ← d; findListener a 0 listeners.

Lemma syncElbListeners_spec listeners descs :
  let found : gset nat := list_to_set (omap (foundIndex listeners) descs) in
  syncElbListeners listeners descs =
  (omap (λ '(i, listener), if bool_decide (i ∈ found) then None else Some listener)
     (imap pair listeners), omap (stalePort listeners) descs).
Proof.
  unfold syncElbListeners.
  assert (foldl (λ '(foundSet, removals) actual,
    match actual with
    | None => (foundSet, removals)
    | Some actual =>
       match findListener actual 0 listeners with
       | Some i => (foundSet ∪ {[i]}, removals)
       | None => (foundSet, removals ++ [l_LoadBalancerPort actual])
       end
    end) (∅ : gset nat, []) descs =
    (list_to_set (omap (foundIndex listeners) descs), omap (stalePort listeners) descs)) as ->; [|done].
  induction descs as [|d descs IH] using rev_ind; [done|]. rewrite foldl_snoc, IH, !omap_app.
  destruct d as [a|]; simpl; [|by rewrite !app_nil_r].
  destruct (findListener a 0 listeners) as [i|]; simpl; rewrite ?app_nil_r; [|done].
  f_equal. by rewrite list_to_set_app_L, list_to_set_singleton_L || (rewrite list_to_set_app_L; set_solver).
Qed.

Lemma elem_of_additions (listeners : list ElbListener) (found : gset nat) l :
  l ∈ omap (λ '(i, listener), if bool_decide (i ∈ found) then None else Some listener)
        (imap pair listeners) ↔
  ∃ i, listeners !! i = Some l ∧ i ∉ found.
Proof.
  rewrite list_elem_of_omap. split.
  - intros ([i l'] & Hin & E). apply elem_of_lookup_imap in Hin as (j & x & [= -> ->] & Hj).
    case_bool_decide; simplify_eq. eauto.
  - intros (i & Hi & Hn). exists (i, l). split; [|by rewrite bool_decide_eq_false_2].
    apply elem_of_lookup_imap. eauto.
Qed.

(** The listeners of the load balancer after the removals and the additions. *)
Definition listenersAfter (listeners actual : list ElbListener) : list ElbListener :=
  let (additions, removals) := syncElbListeners listeners (Some <$> actual) in
  filter (λ a, l_LoadBalancerPort a ∉ removals) actual ++ additions.

(** The plan of [syncElbListeners] makes the listeners of a classic load balancer those
    of the service: when ports are distinct, as the service enforces, after closing the
    ports to remove and creating the additions every desired listener is there, every
    listener there is a desired one, and a second plan is empty. *)
Theorem syncElbListeners_exact listeners actual :
  NoDup (l_LoadBalancerPort <$> listeners) → NoDup (l_LoadBalancerPort <$> actual) →
  let after := listenersAfter listeners actual in
  (∀ l, l ∈ listeners → ∃ a, a ∈ after ∧ elbListenersAreEqual a l = true) ∧
  (∀ a, a ∈ after → ∃ l, l ∈ listeners ∧ elbListenersAreEqual a l = true) ∧
  syncElbListeners listeners (Some <$> after) = ([], []).
Proof.
  intros Hnd Hnda. unfold listenersAfter. rewrite syncElbListeners_spec. cbv beta iota zeta.
  set (found := list_to_set _). set (removals := omap (stalePort listeners) _).
  set (additions := omap _ (imap pair listeners)). set (after := filter _ actual ++ additions).
  assert (∀ i, i ∈ found ↔ ∃ a, a ∈ actual ∧ findListener a 0 listeners = Some i) as Hfound.
  { intros i. unfold found. rewrite elem_of_list_to_set, list_elem_of_omap. split.
    - intros (d & (a & -> & Ha)%list_elem_of_fmap & E). by exists a.
    - intros (a & Ha & E). exists (Some a). split; [|done]. by apply list_elem_of_fmap_2. }
  assert (∀ a, a ∈ actual → l_LoadBalancerPort a ∈ removals ↔ findListener a 0 listeners = None) as Hrem.
  { intros a Ha. unfold removals. rewrite list_elem_of_omap. split.
    - intros (d & (b & -> & Hb)%list_elem_of_fmap & E). cbn in E.
      destruct (findListener b 0 listeners) eqn:Eb; simplify_eq.
      assert (a = b) as ->; [|done]. by eapply NoDup_key.
    - intros E. exists (Some a). split; [by apply list_elem_of_fmap_2|]. cbn. by rewrite E. }
  assert (∀ l, l ∈ listeners → ∃ a, a ∈ after ∧ elbListenersAreEqual a l = true) as H1.
  { intros l (i & Hi)%list_elem_of_lookup. destruct (decide (i ∈ found)) as [(a & Ha & E)%Hfound|Hn].
    - exists a. split.
      + apply elem_of_app. left. apply list_elem_of_filter. split; [|done]. rewrite Hrem by done. congruence.
      + apply findListener_Some in E as (e & He & _ & Heq). rewrite Nat.sub_0_r in He. by simplify_eq.
    - exists l. split; [|apply elbListenersAreEqual_refl]. apply elem_of_app. right.
      apply elem_of_additions. eauto. }
  assert (∀ a, a ∈ after → ∃ l, l ∈ listeners ∧ elbListenersAreEqual a l = true) as H2.
  { intros a [[Hr Ha]%list_elem_of_filter|(i & Hi & _)%elem_of_additions]%elem_of_app.
    - rewrite Hrem in Hr by done. destruct (findListener a 0 listeners) as [i|] eqn:E; [|done].
      apply findListener_Some in E as (e & He & _ & Heq). exists e. split; [|done].
      by eapply list_elem_of_lookup_2.
    - exists a. split; [by eapply list_elem_of_lookup_2|apply elbListenersAreEqual_refl]. }
  split_and!; [done..|]. rewrite syncElbListeners_spec. cbv zeta. f_equal.
  - apply elem_of_nil_inv. intros l (i & Hi & Hn)%elem_of_additions. apply Hn.
    destruct (H1 l) as (a & Ha & E); [by eapply list_elem_of_lookup_2|].
    rewrite elem_of_list_to_set, list_elem_of_omap. exists (Some a).
    split; [by apply list_elem_of_fmap_2|]. cbn. by apply (findListener_at a 0 _ _ _ Hnd Hi).
  - apply elem_of_nil_inv. intros p (d & (a & -> & Ha)%list_elem_of_fmap & E)%list_elem_of_omap.
    cbn in E. destruct (findListener a 0 listeners) eqn:Ef; [done|].
    destruct (H2 a Ha) as (l & Hl & Heq). eapply findListener_None in Ef; [|done]. congruence.
Qed.

(** ** Health checks *)

(** The limits [ValidateHealthCheck] enforces. *)
Definition within (low : Z) (v : option Z) : Prop := ∃ n, v = Some n ∧ (low ≤ n)%Z.
Record health_check_limits (hc : HealthCheck) : Prop := {
  hl_healthy : within 2 (hck_HealthyThreshold hc);
  hl_interval : within 5 (hck_Interval hc);
  hl_target : is_Some (hck_Target hc);
  hl_timeout : within 2 (hck_Timeout hc);
  hl_unhealthy : within 2 (hck_UnhealthyThreshold hc)
}.

Lemma ValidateHealthCheck_ok hc : ValidateHealthCheck (Some hc) = Ok tt ↔ health_check_limits hc.
Proof.
  assert (∀ (low : Z) v (name : string),
    match v with
    | None => [name +:+ " is required"]
    | Some v => if (v <? low)%Z then [name +:+ " must be at least " +:+ Itoa low] else []
    end = [] ↔ within low v) as Hw.
  { intros low [n|] name; unfold within.
    - destruct (Z.ltb_spec n low); split; try done; [intros (m & ? & ?); simplify_eq; lia|].
      intros _. by exists n.
    - split; [done|]. by intros (n & ? & _). }
  unfold ValidateHealthCheck.
  assert (∀ errors : list string, (if 0 <? length errors
    then Err (Errorf "HealthCheck validation errors: %s" [Join errors "; "]) else Ok tt) = Ok tt ↔ errors = []) as Hr.
  { intros errors. destruct (Nat.ltb_spec 0 (length errors)); split; try done; [intros ->; simpl in *; lia|].
    intros _. apply nil_length_inv. lia. }
  rewrite Hr, !app_nil, !Hw. split.
  - intros (H1 & H2 & H3 & H4 & H5). split; try done. by destruct (hck_Target hc).
  - intros [H1 H2 H3 H4 H5]. split_and!; try done. by destruct H3 as [? ->].
Qed.

Lemma getOrDefault_range annotations name d n :
  (int32_min ≤ d ≤ int32_max)%Z → getOrDefault annotations name d = Ok n →
  (int32_min ≤ n ≤ int32_max)%Z.
Proof.
  unfold getOrDefault. intros Hd H. destruct (annotations !! name); [|by simplify_eq].
  destruct (ParseInt _ _); simplify_eq. apply to_int32_range.
Qed.

(** A health check is sent to a classic load balancer only with the target asked for,
    with numbers within the limits of the API (thresholds and timeout at least 2, interval at
    least 5) and within 32 bits; without annotations the defaults pass. *)
Theorem getExpectedHealthCheck_valid target annotations :
  (∀ hc, getExpectedHealthCheck target annotations = Ok hc →
     health_check_limits hc ∧ hck_Target hc = Some target ∧
     ∀ n, Some n ∈ [hck_HealthyThreshold hc; hck_Interval hc; hck_Timeout hc; hck_UnhealthyThreshold hc] →
       (int32_min ≤ n ≤ int32_max)%Z) ∧
  getExpectedHealthCheck target ∅ = Ok (mkHealthCheck (Some 2%Z) (Some 10%Z) (Some target) (Some 5%Z) (Some 6%Z)).
Proof.
  split; [|reflexivity]. intros hc H. unfold getExpectedHealthCheck in H.
  destruct (getOrDefault annotations ServiceAnnotationLoadBalancerHCHealthyThreshold _) as [h|] eqn:E1; [|done].
  destruct (getOrDefault annotations ServiceAnnotationLoadBalancerHCUnhealthyThreshold _) as [u|] eqn:E2; [|done].
  destruct (getOrDefault annotations ServiceAnnotationLoadBalancerHCTimeout _) as [t|] eqn:E3; [|done].
  destruct (getOrDefault annotations ServiceAnnotationLoadBalancerHCInterval _) as [i|] eqn:E4; [|done].
  cbn [rbind] in H. apply getOrDefault_range in E1, E2, E3, E4; try done.
  destruct (ValidateHealthCheck _) as [[]|] eqn:Ev in H; [|done]. simplify_eq.
  apply ValidateHealthCheck_ok in Ev. split_and!; [done..|]. cbn.
  intros n. rewrite !elem_of_cons, elem_of_nil. intros [E|[E|[E|[E|[]]]]]; by simplify_eq.
Qed.

(** ** Examples *)
Definition listener_on (port node : Z) : ElbListener :=
  mkElbListener (Some node) port (Some "tcp") (Some "tcp") None.

Lemma syncElbListeners_exact_witness :
  syncElbListeners [listener_on 80 30080; listener_on 443 30443]
    (Some <$> listenersAfter [listener_on 80 30080; listener_on 443 30443]
                [listener_on 80 31000; listener_on 8080 30080]) = ([], []).
Proof.
  apply (syncElbListeners_exact [listener_on 80 30080; listener_on 443 30443]
    [listener_on 80 31000; listener_on 8080 30080]);
    apply (bool_decide_unpack _); vm_compute; exact I.
Defined.
