(* ===== verification/ElbState.v ===== *)
(** * What [ensureLoadBalancer] leaves behind

    A classic load balancer as an abstract state that the calls of the API change, and the
    contract of [ensureLoadBalancer] in terms of that state: whatever the service answers,
    success means that the load balancer has the wanted subnets, security groups and
    listeners. *)

From S2P Require Import Prelude GoLib Effects Track AwsApi Tags Config Cloud SecurityGroups SecurityGroupFacts TargetGroups NlbRules Nlb NlbFacts Elb ElbFacts.
Import Strings Errors.

(** ** A classic load balancer *)
Record Balancer := mkBalancer {
  e_subnets : gset string;
  e_groups : gset string;
  e_listeners : list ElbListener;
  e_instances : gset string
}.
(** [None]: there is none of the name. *)
Implicit Types w : option Balancer.

(** No two listeners have the same port. *)
Definition ports_distinct w : Prop := ∀ e, w = Some e → NoDup (l_LoadBalancerPort <$> e_listeners e).

Definition instances_of (d : LoadBalancerDescription) : gset string := list_to_set (ToString <$> lb_Instances d).
Definition described (name : string) w (d : LoadBalancerDescription) : Prop :=
  ∃ e, w = Some e ∧ lb_LoadBalancerName d = Some name ∧ e_instances e = instances_of d ∧ list_to_set (lb_Subnets d) = e_subnets e ∧
    list_to_set (lb_SecurityGroups d) = e_groups e ∧ lb_ListenerDescriptions d = Some <$> e_listeners e.

Definition change_subnets (f : gset string → gset string) w : option Balancer :=
  (λ e, mkBalancer (f (e_subnets e)) (e_groups e) (e_listeners e) (e_instances e)) <$> w.
Definition change_groups (f : gset string → gset string) w : option Balancer :=
  (λ e, mkBalancer (e_subnets e) (f (e_groups e)) (e_listeners e) (e_instances e)) <$> w.
Definition change_listeners (f : list ElbListener → list ElbListener) w : option Balancer :=
  (λ e, mkBalancer (e_subnets e) (e_groups e) (f (e_listeners e)) (e_instances e)) <$> w.
Definition change_instances (f : gset string → gset string) w : option Balancer :=
  (λ e, mkBalancer (e_subnets e) (e_groups e) (e_listeners e) (f (e_instances e))) <$> w.

(** What one call does to the load balancer [name]; a refused call does nothing, and a load
    balancer is only created when there is none. *)
Definition elb_serves (name : string) w (ev : event awsE) w' : Prop :=
  match ev with
  | Ev c r =>
     match c in awsE R return result R → Prop with
     | ELB c =>
        match c in elbE R return result R → Prop with
        | ElbDescribeLoadBalancers names => λ r,
           w' = w ∧ (names = [name] →
             match r with
             | Ok l => match last l with Some d => described name w d | None => w = None end
             | Err e => AsAPIError e = Some "LoadBalancerNotFound" → w = None
             end)
        | ElbCreateLoadBalancer n listeners _ subnets groups _ => λ r,
           if is_ok r && String.eqb n name then
             w = None ∧ w' = Some (mkBalancer (list_to_set subnets) (list_to_set groups) listeners ∅)
           else w' = w
        | DetachLoadBalancerFromSubnets n subnets => λ r,
           w' = if is_ok r && String.eqb n name then change_subnets (λ s, s ∖ list_to_set subnets) w else w
        | AttachLoadBalancerToSubnets n subnets => λ r,
           w' = if is_ok r && String.eqb n name then change_subnets (λ s, s ∪ list_to_set subnets) w else w
        | ApplySecurityGroupsToLoadBalancer n groups => λ r,
           w' = if is_ok r && String.eqb n name then change_groups (λ _, list_to_set groups) w else w
        | DeleteLoadBalancerListeners n ports => λ r,
           w' = if is_ok r && String.eqb n name then
                  change_listeners (filter (λ l, l_LoadBalancerPort l ∉ ports)) w else w
        | CreateLoadBalancerListeners n listeners => λ r,
           w' = if is_ok r && String.eqb n name then change_listeners (λ l, l ++ listeners) w else w
        | RegisterInstancesWithLoadBalancer n ids => λ r,
           w' = if is_ok r && String.eqb n name then change_instances (λ s, s ∪ list_to_set ids) w else w
        | DeregisterInstancesFromLoadBalancer n ids => λ r,
           w' = if is_ok r && String.eqb n name then change_instances (λ s, s ∖ list_to_set ids) w else w
        | ElbDeleteLoadBalancer n => λ r, w' = if is_ok r && bool_decide (n = Some name) then None else w
        | _ => λ _, w' = w
        end
     | _ => λ _, w' = w
     end r
  end.

(** Calls that change none of that. *)
Definition elb_quiet (ev : event awsE) : Prop :=
  match ev_call ev with
  | ELB (ElbCreateLoadBalancer _ _ _ _ _ _) | ELB (DetachLoadBalancerFromSubnets _ _)
  | ELB (AttachLoadBalancerToSubnets _ _) | ELB (ApplySecurityGroupsToLoadBalancer _ _)
  | ELB (DeleteLoadBalancerListeners _ _) | ELB (CreateLoadBalancerListeners _ _)
  | ELB (RegisterInstancesWithLoadBalancer _ _) | ELB (DeregisterInstancesFromLoadBalancer _ _)
  | ELB (ElbDeleteLoadBalancer _) => False
  | _ => True
  end.

Lemma elb_quiet_stable name P ev : elb_quiet ev → stable (elb_serves name) P P ev.
Proof.
  destruct ev as [R c r]. unfold elb_quiet. cbn [ev_call].
  intros Hq w w' Hw Hs.
  destruct c as [R c|R c|R c]; [cbn in Hs; by subst| |cbn in Hs; by subst].
  destruct c; try done; cbn in Hs; try (by subst). by destruct Hs as [-> _].
Qed.

Section elb_contract.
Context {GR : GoRange} (polls : nat) (c : Cloud) (nn : NamespacedName) (name : string)
  (listeners : list ElbListener) (subnetIDs groupIDs : list string) (w0 : option Balancer).

Abbreviation tracks := (tracked (elb_serves name) w0).
Abbreviation keeps := (stable (elb_serves name)).

Lemma tracks_quiet {A} (p : prog awsE A) P t :
  all_calls elb_quiet p → tracks P t → wp p (λ t' _, tracks P t') t.
Proof. intros H. apply wp_tracked. eapply all_calls_mono; [exact H|]. intros. by apply elb_quiet_stable. Qed.

(** A refused call. *)
Lemma elb_refused {R} (call : elbE R) P e : keeps P P (Ev (ELB call) (Err e)).
Proof.
  intros w w' Hw Hs. destruct call; cbn in Hs; try (by subst). by destruct Hs as [-> _].
Qed.

(** A call made under a condition. *)
Lemma wp_maybe {A R} (b : bool) (call : elbE R) f (k : prog awsE (result A))
    (P P' : option Balancer → Prop) (Q : list (event awsE) → outcome (result A) → Prop) t :
  tracks P t →
  (b = false → ∀ w, P w → P' w) → (∀ x, keeps P P' (Ev (ELB call) (Ok x))) →
  (∀ t e, tracks P t → Q t (Done (Err e))) → (∀ t, tracks P' t → wp k Q t) →
  wp (let? _ := (if b then let? _ := elb call else f in Ret (Ok tt) else Ret (Ok tt)) in k) Q t.
Proof.
  intros Ht Hno Hyes Herr Hk. rewrite wp_try. destruct b; [|by apply Hk; eapply tracked_mono; eauto].
  rewrite wp_try_with. intros [x|e]; cbn [wp].
  - apply Hk. by eapply tracked_snoc.
  - apply Herr. eapply tracked_snoc; [done|apply elb_refused].
Qed.

(** The same for a call whose error is returned as it is. *)
Lemma wp_when {A} (b : bool) (call : elbE unit) (k : prog awsE (result A))
    (P P' : option Balancer → Prop) (Q : list (event awsE) → outcome (result A) → Prop) t :
  tracks P t →
  (b = false → ∀ w, P w → P' w) → keeps P P' (Ev (ELB call) (Ok tt)) →
  (∀ t e, tracks P t → Q t (Done (Err e))) → (∀ t, tracks P' t → wp k Q t) →
  wp (let? _ := (if b then elb call else Ret (Ok tt)) in k) Q t.
Proof.
  intros Ht Hno Hyes Herr Hk. rewrite wp_try. destruct b; [|by apply Hk; eapply tracked_mono; eauto].
  intros [[]|e]; cbn [wp].
  - apply Hk. by eapply tracked_snoc.
  - apply Herr. eapply tracked_snoc; [done|apply elb_refused].
Qed.

(** *** How a run ends *)
Definition listeners_exact (l : list ElbListener) : Prop :=
  (∀ x, x ∈ listeners → ∃ a, a ∈ l ∧ elbListenersAreEqual a x = true) ∧
  (∀ a, a ∈ l → ∃ x, x ∈ listeners ∧ elbListenersAreEqual a x = true).
(** A load balancer that existed still does, with the listeners that are wanted. *)
Definition elb_kept w : Prop :=
  ∀ e0, w0 = Some e0 → ∃ e, w = Some e ∧ ∀ a x, a ∈ e_listeners e0 → x ∈ listeners →
    elbListenersAreEqual a x = true → a ∈ e_listeners e.
Definition elb_exact w : Prop :=
  ∃ e, w = Some e ∧ e_subnets e = list_to_set subnetIDs ∧ e_groups e = list_to_set groupIDs ∧
    listeners_exact (e_listeners e).
(** The instances of the load balancer are those of the description. *)
Definition registered (d : LoadBalancerDescription) w : Prop :=
  lb_LoadBalancerName d = Some name ∧ ∃ e, w = Some e ∧ e_instances e = instances_of d.
Definition elb_ends {A} (R : A → option Balancer → Prop) (t : list (event awsE)) (o : outcome (result A)) : Prop :=
  tracks elb_kept t ∧ match o with Done (Ok a) => tracks (λ w, elb_exact w ∧ R a w) t | _ => True end.

Context (Hports : NoDup (l_LoadBalancerPort <$> listeners))
  (Hports0 : ports_distinct w0).

(** ** The update *)
Section update.
Context (d : LoadBalancerDescription).

(** The load balancer was as described; now it has these subnets, groups and listeners. *)
Definition at_stage (S G : gset string) (L : list ElbListener → list ElbListener → Prop) w : Prop :=
  ∃ e0 e, w0 = Some e0 ∧ list_to_set (lb_Subnets d) = e_subnets e0 ∧
    list_to_set (lb_SecurityGroups d) = e_groups e0 ∧
    lb_ListenerDescriptions d = Some <$> e_listeners e0 ∧ lb_LoadBalancerName d = Some name ∧
    w = Some e ∧ e_instances e = instances_of d ∧ e_subnets e = S ∧ e_groups e = G ∧ L (e_listeners e0) (e_listeners e).

Definition L_same (l0 l : list ElbListener) : Prop := l = l0.
Definition L_pruned (l0 l : list ElbListener) : Prop :=
  l = filter (λ a, l_LoadBalancerPort a ∉ (syncElbListeners listeners (Some <$> l0)).2) l0.
Definition L_synced (l0 l : list ElbListener) : Prop := l = listenersAfter listeners l0.

Lemma kept_listener l0 a x :
  NoDup (l_LoadBalancerPort <$> l0) → a ∈ l0 → x ∈ listeners → elbListenersAreEqual a x = true →
  l_LoadBalancerPort a ∉ (syncElbListeners listeners (Some <$> l0)).2.
Proof.
  intros Hnd Ha Hx He. rewrite syncElbListeners_spec. cbv zeta. cbn [snd]. rewrite list_elem_of_omap.
  intros (o & (b & -> & Hb)%list_elem_of_fmap & E). cbn in E.
  destruct (findListener b 0 listeners) eqn:Ef; [done|]. injection E as E.
  assert (a = b) as <- by by eapply NoDup_key. eapply findListener_None in Ef; [|done]. congruence.
Qed.

Lemma at_stage_kept S G (L : list ElbListener → list ElbListener → Prop) w :
  (∀ l0 l, L l0 l → ∀ a, a ∈ l0 → l_LoadBalancerPort a ∉ (syncElbListeners listeners (Some <$> l0)).2 → a ∈ l) →
  at_stage S G L w → elb_kept w.
Proof.
  intros HL (e0 & e & Hw0 & _ & _ & _ & _ & Hw & _ & _ & _ & Hl) e0' Hw0'. assert (e0' = e0) as -> by congruence.
  exists e. split; [done|]. intros a x Ha Hx He. eapply HL; [done..|]. eapply kept_listener; eauto.
Qed.

Lemma kept_same S G w : at_stage S G L_same w → elb_kept w.
Proof. apply at_stage_kept. by intros l0 l ->. Qed.
Lemma elb_kept_pruned S G w : at_stage S G L_pruned w → elb_kept w.
Proof. apply at_stage_kept. intros l0 l -> a Ha Hn. by apply list_elem_of_filter. Qed.
Lemma kept_synced S G w : at_stage S G L_synced w → elb_kept w.
Proof.
  apply at_stage_kept. intros l0 l -> a Ha Hn. unfold listenersAfter.
  destruct (syncElbListeners _ _) as [adds rems]. apply elem_of_app. left. by apply list_elem_of_filter.
Qed.

Lemma at_stage_start w : w = w0 → described name w0 d →
  at_stage (list_to_set (lb_Subnets d)) (list_to_set (lb_SecurityGroups d)) L_same w.
Proof. intros -> (e & Hw & Hn & HI & HS & HG & HL). exists e, e. by split_and!. Qed.

Lemma at_stage_exact w :
  at_stage (list_to_set subnetIDs) (list_to_set groupIDs) L_synced w → elb_exact w.
Proof.
  intros (e0 & e & Hw0 & _ & _ & _ & _ & Hw & _ & HS & HG & HL). exists e. split_and!; [done..|].
  rewrite HL. destruct (syncElbListeners_exact listeners (e_listeners e0) Hports (Hports0 e0 Hw0)) as (H1 & H2 & _).
  by split.
Qed.

Lemma list_to_set_range (s : gset string) : list_to_set (range_set s) = s.
Proof. rewrite range_set_perm. apply list_to_set_elements_L. Qed.

Lemma wp_syncSubnets G L t :
  (∀ S w, at_stage S G L w → elb_kept w) → tracks (at_stage (list_to_set (lb_Subnets d)) G L) t →
  wp (syncSubnets name subnetIDs (lb_Subnets d))
     (λ t' o, tracks elb_kept t' ∧
        match o with Done (Ok _) => tracks (at_stage (list_to_set subnetIDs) G L) t' | _ => True end) t.
Proof.
  intros Hk Ht. unfold syncSubnets. set (E := list_to_set subnetIDs). set (A := list_to_set (lb_Subnets d)) in *.
  assert (∀ S t, tracks (at_stage S G L) t → tracks elb_kept t) as Hkept.
  { intros S t' H. eapply tracked_mono; [exact H|]. intros w. apply Hk. }
  assert (∀ (s : gset string), negb (size s =? 0) = false → s = ∅) as Hempty.
  { intros s Hs%negb_false_iff%Nat.eqb_eq%size_empty_inv. by apply leibniz_equiv. }
  apply (wp_maybe _ _ _ _ _ (at_stage (A ∖ (A ∖ E)) G L) _ _ Ht).
  - intros ->%Hempty w. by rewrite difference_empty_L.
  - intros x w w' (e0 & e & H1 & H2 & H3 & H4 & Hn & -> & HI & HS & HG & HL) Hs.
    cbn in Hs. rewrite String.eqb_refl in Hs. subst w'. eexists e0, _. split_and!; [done..| | |]; cbn; [|done..].
    by rewrite list_to_set_range, HS.
  - intros t' e Ht'. split; [by eapply Hkept|done].
  - clear t Ht. intros t Ht. assert (A ∖ (A ∖ E) ∪ (E ∖ A) = E) as HE.
    { apply set_eq. intros x. clear. rewrite elem_of_union, !elem_of_difference. destruct (decide (x ∈ A)), (decide (x ∈ E)); tauto. }
    apply (wp_maybe _ _ _ _ _ (at_stage E G L) _ _ Ht).
    + intros Hn%Hempty w. rewrite Hn, union_empty_r_L in HE. by rewrite HE.
    + intros x w w' (e0 & e & H1 & H2 & H3 & H4 & Hn & -> & HI & HS & HG & HL) Hs.
      cbn in Hs. rewrite String.eqb_refl in Hs. subst w'. eexists e0, _. split_and!; [done..| | |]; cbn; [|done..].
      by rewrite list_to_set_range, HS.
    + intros t' e Ht'. split; [by eapply Hkept|done].
    + intros t' Ht'. cbn [wp]. split; [by eapply Hkept|done].
Qed.

(** The groups that are replaced are deleted with calls to EC2. *)
Lemma dependency_cases {A} (code : option string) (x y : A) :
  match code with Some "DependencyViolation" => x | _ => y end =
  if decide (code = Some "DependencyViolation") then x else y.
Proof.
  destruct code as [s|]; [|done].
  repeat (match goal with |- context [match ?x with _ => _ end] =>
    lazymatch x with decide _ => fail | _ => destruct x end end; try done).
Qed.

Lemma quiet_deletePass l remaining : all_calls elb_quiet (deletePass l remaining).
Proof.
  revert remaining. induction l as [|id l IH]; intros remaining; cbn [deletePass]; [done|].
  intros r. split; [done|]. cbn [call bind]. destruct r as [[]|e]; [apply IH|].
  rewrite dependency_cases. case_decide; [apply IH|done].
Qed.

Lemma quiet_removeOwned ids : all_calls elb_quiet (removeOwnedSecurityGroups polls c name ids).
Proof.
  unfold removeOwnedSecurityGroups, removeOwnedStep, deleteSecurityGroupsWithBackoff,
    isOwnedSecurityGroup, revokeSecurityGroupReferences, buildSecurityGroupRuleReferences.
  calls; try done; apply quiet_deletePass.
Qed.

Lemma wp_syncSecurityGroups S L t :
  (∀ G w, at_stage S G L w → elb_kept w) →
  tracks (at_stage S (list_to_set (lb_SecurityGroups d)) L) t →
  wp (syncSecurityGroups polls c name groupIDs (lb_SecurityGroups d))
     (λ t' o, tracks elb_kept t' ∧
        match o with Done (Ok _) => tracks (at_stage S (list_to_set groupIDs) L) t' | _ => True end) t.
Proof.
  intros Hk Ht. assert (∀ G t, tracks (at_stage S G L) t → tracks elb_kept t) as Hkept.
  { intros G t' H. eapply tracked_mono; [exact H|]. intros w. apply Hk. }
  unfold syncSecurityGroups. case_bool_decide as E; [cbn [wp]; rewrite E; by eauto|].
  rewrite wp_try_with. intros [x|e]; cbn [wp].
  2: { split; [|done]. eapply tracked_snoc; [by eapply Hkept|apply elb_refused]. }
  set (ev := Ev _ _). assert (tracks (at_stage S (list_to_set groupIDs) L) (t ++ [ev])) as Ht'.
  { eapply tracked_snoc; [exact Ht|].
    intros w w' (e0 & e & H1 & H2 & H3 & H4 & Hn & -> & HI & HS & HG & HL) Hs.
    cbn in Hs. rewrite String.eqb_refl in Hs. subst w'. eexists e0, _. by split_and!. }
  rewrite wp_bind. eapply wp_mono; [eapply tracks_quiet; [apply quiet_removeOwned|exact Ht']|].
  intros t2 [errs|s] Ht2; cbn [andThen]; [|by split; [eapply Hkept|]].
  destruct (0 <? length errs); cbn [wp]; by eauto.
Qed.

Lemma wp_applyListeners S G t :
  tracks (at_stage S G L_same) t →
  wp (applyListeners name listeners (lb_ListenerDescriptions d))
     (λ t' o, tracks elb_kept t' ∧
        match o with Done (Ok _) => tracks (at_stage S G L_synced) t' | _ => True end) t.
Proof.
  intros Ht. unfold applyListeners.
  destruct (syncElbListeners listeners (lb_ListenerDescriptions d)) as [adds rems] eqn:Es.
  assert (∀ (A : Type) (l : list A), negb (length l =? 0) = false → l = []) as Hempty.
  { intros A [|y l]; [done|]. cbn. done. }
  apply (wp_maybe _ _ _ _ _ (at_stage S G L_pruned) _ _ Ht).
  - intros ->%Hempty w (e0 & e & H1 & H2 & H3 & H4 & Hn & H5 & HI & HS & HG & HL). exists e0, e. split_and!; [done..|].
    unfold L_pruned. rewrite <-H4, Es. cbn. rewrite HL. symmetry. apply filter_all, Forall_forall. set_solver.
  - intros x w w' (e0 & e & H1 & H2 & H3 & H4 & Hn & -> & HI & HS & HG & HL) Hs.
    cbn in Hs. rewrite String.eqb_refl in Hs. subst w'. eexists e0, _. split_and!; [done..|]. cbn.
    unfold L_pruned. by rewrite <-H4, Es, HL.
  - intros t' e Ht'. split; [|done]. eapply tracked_mono; [exact Ht'|apply kept_same].
  - clear t Ht. intros t Ht. apply (wp_maybe _ _ _ _ _ (at_stage S G L_synced) _ _ Ht).
    + intros ->%Hempty w (e0 & e & H1 & H2 & H3 & H4 & Hn & H5 & HI & HS & HG & HL). exists e0, e. split_and!; [done..|].
      unfold L_synced, listenersAfter, L_pruned in *. rewrite <-H4, Es in *. cbn in HL. by rewrite app_nil_r.
    + intros x w w' (e0 & e & H1 & H2 & H3 & H4 & Hn & -> & HI & HS & HG & HL) Hs.
      cbn in Hs. rewrite String.eqb_refl in Hs. subst w'. eexists e0, _. split_and!; [done..|]. cbn.
      unfold L_synced, listenersAfter, L_pruned in *. rewrite <-H4, Es in *. cbn in HL. by rewrite HL.
    + intros t' e Ht'. split; [|done]. eapply tracked_mono; [exact Ht'|apply elb_kept_pruned].
    + intros t' Ht'. cbn [wp]. split; [|done]. eapply tracked_mono; [exact Ht'|apply kept_synced].
Qed.

Lemma wp_updateELB proxyProtocol annotations t :
  tracks (λ w, w = w0 ∧ described name w0 d) t →
  wp (updateELB polls c name d listeners subnetIDs groupIDs proxyProtocol annotations) (elb_ends (λ _, registered d)) t.
Proof.
  intros Ht. unfold updateELB. rewrite wp_try.
  eapply wp_mono; [apply (wp_syncSubnets (list_to_set (lb_SecurityGroups d)) L_same)|].
  { intros S w. apply kept_same. }
  { eapply tracked_mono; [exact Ht|]. intros w [Hw Hd]. by apply at_stage_start. }
  intros t1 [[b1|e]|s] [Hk1 H1]; [|by split..]. rewrite wp_try.
  eapply wp_mono; [apply (wp_syncSecurityGroups (list_to_set subnetIDs) L_same); [|exact H1]|]. { intros G w. apply kept_same. }
  intros t2 [[b2|e]|s] [Hk2 H2]; [|by split..]. rewrite wp_try.
  eapply wp_mono; [by apply wp_applyListeners|].
  intros t3 [[b3|e]|s] [Hk3 H3]; [|by split..].
  eapply wp_mono; [eapply tracks_quiet; [|exact H3]|].
  { unfold syncProxyProtocol, createProxyProtocolPolicy, setBackendPolicies, addLoadBalancerTags. 
    calls; try done; destruct s; calls; done. }
  intros t4 o H4. split; [eapply tracked_mono; [exact H4|apply kept_synced]|].
  destruct o as [[b|e]|s]; [|done..]. eapply tracked_mono; [exact H4|].
  intros w Hw. split; [by apply at_stage_exact|]. destruct Hw as (e0 & e & H). split; [apply H|]. exists e. by split; apply H.
Qed.
End update.

(** ** The contract *)
Lemma elb_quiet_describe : all_calls elb_quiet (describeLoadBalancer name).
Proof. unfold describeLoadBalancer. calls; done. Qed.

(** The attributes, and the load balancer as it is then. *)
Lemma wp_attributes attributes dirty loadBalancer t :
  tracks elb_kept t →
  tracks (λ w, elb_exact w ∧ (dirty = true ∨ ∀ d, loadBalancer = Some d → registered d w)) t →
  wp (let? attributesChanged := syncAttributes name attributes in
      if dirty || attributesChanged then describeLoadBalancer name
      else Ret (Ok loadBalancer)) (elb_ends (λ x w, ∀ d, x = Some d → registered d w)) t.
Proof.
  intros Hk He. pose proof (tracked_and _ _ _ _ _ Hk He) as Ht. clear Hk He.
  assert (∀ t, tracks (λ w, elb_kept w ∧ elb_exact w) t →
    wp (describeLoadBalancer name) (elb_ends (λ x w, ∀ d, x = Some d → registered d w)) t) as Hdescribe.
  { clear t Ht. intros t Ht. unfold describeLoadBalancer. rewrite wp_bind. intros r.
    set (ev := Ev _ r). assert (tracks (λ w, elb_kept w ∧ elb_exact w ∧ match r with
      | Ok l => match last l with Some d => described name w d | None => w = None end
      | Err _ => True end) (t ++ [ev])) as Ht'.
    { eapply tracked_snoc; [exact Ht|]. intros w w' [Hk He] [-> Hd]. split_and!; [done..|].
      destruct r; [by apply Hd|done]. }
    assert (tracks elb_kept (t ++ [ev])) as Hk by (eapply tracked_mono; [exact Ht'|by intros w []]).
    destruct r as [l|e]; cbn [andThen app wp].
    - split; [done|]. eapply tracked_mono; [exact Ht'|]. intros w (_ & He & Hd). split; [done|].
      intros d E. rewrite E in Hd. destruct Hd as (e & -> & Hn & HI & _). split; [done|]. by exists e.
    - rewrite not_found_cases. case_decide; cbn [wp]; split; try done.
      eapply tracked_mono; [exact Ht'|]. by intros w (_ & He & _). }
  rewrite wp_try. eapply wp_mono; [eapply tracks_quiet; [|exact Ht]; unfold syncAttributes; calls; done|].
  intros t2 [[changed|e]|s] Ht2; [|split; [|done]; eapply tracked_mono; [exact Ht2|by intros w []]..].
  destruct (dirty || changed) eqn:Ed; [apply Hdescribe; eapply tracked_mono; [exact Ht2|by intros w (? & ? & _)]|].
  cbn [wp]. split; (eapply tracked_mono; [exact Ht2|]); intros w (Hk & He & Hr); [done|]. split; [done|].
  destruct Hr as [-> |Hr]; [by destruct changed|done].
Qed.

Lemma wp_createELB internal proxyProtocol annotations t :
  tracks (λ w, w = w0 ∧ w0 = None) t →
  wp (createELB c nn name listeners subnetIDs groupIDs internal proxyProtocol annotations) (elb_ends (λ _ _, True)) t.
Proof.
  intros Ht. unfold createELB. cbv zeta. rewrite wp_try. intros [x|e]; cbn [wp].
  2: { split; [|done]. eapply tracked_snoc; [|apply elb_refused]. eapply tracked_mono; [exact Ht|].
       intros w [_ E] e0 E0. congruence. }
  set (ev := Ev _ _). assert (tracks (λ w, elb_exact w ∧ w0 = None) (t ++ [ev])) as Ht'.
  { eapply tracked_snoc; [exact Ht|]. intros w w' [-> E] Hs. split; [|done].
    cbn in Hs. rewrite String.eqb_refl in Hs. destruct Hs as [_ ->]. eexists. split_and!; [done..|].
      split; intros y Hy; exists y; (split; [done|apply elbListenersAreEqual_refl]). }
  eapply wp_mono; [eapply tracks_quiet; [|exact Ht']|].
  - unfold createProxyProtocolPolicy, setBackendPolicies. calls; done.
  - intros t' o H. split.
    + eapply tracked_mono; [exact H|]. intros w [_ E] e0 E0. congruence.
    + destruct o as [[]|]; [|done..]. eapply tracked_mono; [exact H|]. by intros w [].
Qed.

(** [ensureLoadBalancer], from a load balancer that is in the state [w0] or missing. *)
Lemma wp_ensureLoadBalancer internal proxyProtocol attributes annotations t0 :
  tracks (λ w, w = w0) t0 →
  wp (ensureLoadBalancer polls c nn name listeners subnetIDs groupIDs internal proxyProtocol attributes
        annotations) (elb_ends (λ x w, ∀ d, x = Some d → registered d w)) t0.
Proof.
  intros H0.
  unfold ensureLoadBalancer, describeLoadBalancer at 1. rewrite wp_try, wp_bind. intros r. set (ev0 := Ev _ r).
  assert (tracks (λ w, w = w0 ∧ match r with
    | Ok l => match last l with Some d => described name w0 d | None => w0 = None end
    | Err e => AsAPIError e = Some "LoadBalancerNotFound" → w0 = None end) (t0 ++ [ev0])) as Ht.
  { eapply tracked_snoc; [exact H0|]. intros w w' -> [-> Hd]. split; [done|]. by apply Hd. }
  assert (tracks elb_kept (t0 ++ [ev0])) as Hk.
  { eapply tracked_mono; [exact Ht|]. intros w [-> _] e0 He0. by exists e0. }
  assert (tracks (λ w, w = w0 ∧ w0 = None) (t0 ++ [ev0]) →
    wp (let? dirty := (let? _ := createELB c nn name listeners subnetIDs groupIDs internal proxyProtocol
          annotations in Ret (Ok true)) in
        let? attributesChanged := syncAttributes name attributes in
        if dirty || attributesChanged then describeLoadBalancer name else Ret (Ok None))
      (elb_ends (λ x w, ∀ d, x = Some d → registered d w)) (t0 ++ [ev0])) as Hnew.
  { intros Hn. rewrite !wp_try. eapply wp_mono; [by apply wp_createELB|].
    intros t [[x|e]|s] [Hk' He]; [|by split..]. cbn [wp]. apply (wp_attributes _ true); [done|].
    eapply tracked_mono; [exact He|]. intros w [? _]. auto. }
  destruct r as [l|e]; cbn [andThen app wp].
  - destruct (last l) as [d|]; cbn [wp].
    + rewrite wp_try. eapply wp_mono; [by apply (wp_updateELB d)|].
      intros t [[dirty|e]|s] [Hk' He]; [|by split..]. apply wp_attributes; [done|].
      eapply tracked_mono; [exact He|]. intros w [Hx Hr]. split; [done|]. right. by intros ? [= <-].
    + apply Hnew. exact Ht.
  - rewrite not_found_cases. case_decide as He; cbn [wp]; [|by split].
    apply Hnew. eapply tracked_mono; [exact Ht|]. intros w [Hw H]. auto.
Qed.

(** The instances afterwards, for a property that does not depend on them. *)
Lemma wp_ensureInstances d expected (P : option Balancer → Prop) t :
  (∀ f w, P w → P (change_instances f w)) → tracks (λ w, P w ∧ registered d w) t →
  wp (ensureLoadBalancerInstances (ToString (lb_LoadBalancerName d)) (lb_Instances d) expected)
     (λ t' o, tracks P t' ∧
        match o with Done (Ok _) => tracks (λ w, P w ∧ ∃ e, w = Some e ∧ e_instances e = expected) t' | _ => True end) t.
Proof.
  intros HP Ht. unfold ensureLoadBalancerInstances. cbv zeta. change (list_to_set (ToString <$> lb_Instances d)) with (instances_of d).
  rewrite !sorted_length. set (I := instances_of d).
  set (stage X w := P w ∧ lb_LoadBalancerName d = Some name ∧ ∃ e, w = Some e ∧ e_instances e = X).
  assert (tracks (stage I) t) as H0 by (eapply tracked_mono; [exact Ht|]; intros w (Hp & Hn & He); by split_and!).
  assert (∀ X t, tracks (stage X) t → tracks P t) as Hp by (intros X t' H; eapply tracked_mono; [exact H|]; by intros w []).
  apply (wp_when _ _ _ (stage I) (stage (I ∪ expected))); [done| | |intros t' e Ht'; split; [by eapply Hp|done]|].
  - rewrite negb_false_iff, bool_decide_eq_true. intros Hx%plan_sub w Hw. by rewrite (comm_L (∪)), subseteq_union_1_L.
  - intros w w' (Hw & Hn & e & -> & He) Hs. cbn in Hs. rewrite Hn in Hs. cbn in Hs. rewrite String.eqb_refl in Hs. subst w'.
    split; [exact (HP (λ s, s ∪ _) _ Hw)|]. split; [done|]. eexists. split; [done|]. cbn. by rewrite He, list_to_set_sorted, plan_union.
  - clear t Ht H0. intros t H0.
    apply (wp_when _ _ _ (stage (I ∪ expected)) (stage expected)); [done| | |intros t' e Ht'; split; [by eapply Hp|done]|].
    + rewrite negb_false_iff, bool_decide_eq_true. intros Hx%plan_sub w Hw. by rewrite subseteq_union_1_L in Hw.
    + intros w w' (Hw & Hn & e & -> & He) Hs. cbn in Hs. rewrite Hn in Hs. cbn in Hs. rewrite String.eqb_refl in Hs. subst w'.
      split; [exact (HP (λ s, s ∖ _) _ Hw)|]. split; [done|]. eexists. split; [done|]. cbn. by rewrite He, list_to_set_sorted, plan_minus.
    + intros t' Ht'. cbn [wp]. split; [by eapply Hp|]. eapply tracked_mono; [exact Ht'|]. by intros w (? & _ & ?).
Qed.
End elb_contract.

(** C6: [ensureLoadBalancer] against an abstract state of the service, a classic load balancer
    with its subnets, security groups and listeners: whatever the service answers, a load
    balancer that exists keeps every listener that is wanted, even when the run fails
    half-way, and when it returns without an error there is a load balancer with exactly
    the wanted subnets, security groups and listeners. *)
Theorem ensureLoadBalancer_exact {GR : GoRange} polls c nn name listeners subnetIDs groupIDs
    internal proxyProtocol attributes annotations :
  NoDup (l_LoadBalancerPort <$> listeners) →
  wp (ensureLoadBalancer polls c nn name listeners subnetIDs groupIDs internal proxyProtocol attributes annotations)
     (λ tr o, ∀ w0 w, ports_distinct w0 →
        evolves (elb_serves name) w0 tr w →
        elb_kept listeners w0 w ∧
        ((∃ a, o = Done (Ok a)) → elb_exact listeners subnetIDs groupIDs w)) [].
Proof.
  intros Hports. apply (wp_contract _ ports_distinct _ (λ w0 o w, elb_kept listeners w0 w ∧
    ((∃ a, o = Done (Ok a)) → elb_exact listeners subnetIDs groupIDs w))).
  intros w0 H0. eapply wp_mono; [apply wp_ensureLoadBalancer; [exact Hports|exact H0|by apply tracked_start]|].
  intros tr o [Hk He] w Hev. split; [by apply Hk|]. intros [a ->]. by apply (He w Hev).
Qed.

(** ** A service that keeps one load balancer *)
Definition describe_balancer (name : string) (e : Balancer) : LoadBalancerDescription :=
  mkLoadBalancerDescription (Some name) (Some "elb.example.com") (elements (e_subnets e))
    (elements (e_groups e)) (Some <$> e_listeners e) [] (Some (mkHealthCheck None None None None None))
    (Some <$> elements (e_instances e)).
Definition no_attributes : LoadBalancerAttributes := mkLoadBalancerAttributes None None None None None.

Definition elb_service (name : string) : handler awsE (option Balancer) := λ R c w,
  let refused {R} : result R := Err (APIError "ValidationError" "not served") in
  match c in awsE R return result R * option Balancer with
  | ELB c =>
     let served (n : string) (w' : option Balancer) : result unit * option Balancer :=
       if String.eqb n name then (Ok tt, w') else (refused, w) in
     match c in elbE R return result R * option Balancer with
     | ElbDescribeLoadBalancers names =>
        (match w with
         | Some e => Ok [describe_balancer name e]
         | None => Err (APIError "LoadBalancerNotFound" "no such load balancer")
         end, w)
     | ElbCreateLoadBalancer n listeners _ subnets groups _ =>
        match w with
        | None => served n (Some (mkBalancer (list_to_set subnets) (list_to_set groups) listeners ∅))
        | Some _ => (refused, w)
        end
     | DetachLoadBalancerFromSubnets n subnets => served n (change_subnets (λ s, s ∖ list_to_set subnets) w)
     | AttachLoadBalancerToSubnets n subnets => served n (change_subnets (λ s, s ∪ list_to_set subnets) w)
     | ApplySecurityGroupsToLoadBalancer n groups => served n (change_groups (λ _, list_to_set groups) w)
     | DeleteLoadBalancerListeners n ports =>
        served n (change_listeners (filter (λ l, l_LoadBalancerPort l ∉ ports)) w)
     | CreateLoadBalancerListeners n listeners => served n (change_listeners (λ l, l ++ listeners) w)
     | RegisterInstancesWithLoadBalancer n ids => served n (change_instances (λ s, s ∪ list_to_set ids) w)
     | DeregisterInstancesFromLoadBalancer n ids => served n (change_instances (λ s, s ∖ list_to_set ids) w)
     | ElbDescribeLoadBalancerAttributes _ => (Ok no_attributes, w)
     | ElbModifyLoadBalancerAttributes _ _ => (Ok tt, w)
     | ElbDeleteLoadBalancer n => if bool_decide (n = Some name) then (Ok tt, None) else (refused, w)
     | _ => (refused, w)
     end
  | _ => (refused, w)
  end.

Lemma describe_balancer_described name e : described name (Some e) (describe_balancer name e).
Proof.
  exists e. cbn. split_and!; [done|done| |apply list_to_set_elements_L..|done].
  unfold instances_of. cbn. rewrite <-list_fmap_compose. unfold compose. cbn.
  by rewrite list_fmap_id, list_to_set_elements_L.
Qed.

(** Its answers fit its state. *)
Lemma elb_service_serves name R (c : awsE R) w :
  elb_serves name w (Ev c (elb_service name R c w).1) (elb_service name R c w).2.
Proof.
  destruct c as [R c|R c|R c]; [done| |done].
  destruct c; cbn; try done; try (by destruct (String.eqb _ name) eqn:E; cbn; rewrite ?E).
  - split; [by destruct w|]. intros _. destruct w as [e|]; [apply describe_balancer_described|done].
  - destruct w; cbn; [done|]. by destruct (String.eqb _ name) eqn:E; cbn; rewrite ?E.
  - by case_bool_decide as E; cbn; rewrite ?bool_decide_true.
Qed.

Definition listener_for (port nodePort : Z) : ElbListener :=
  mkElbListener (Some nodePort) port (Some "tcp") (Some "tcp") None.

(** A load balancer with one right listener and two wrong ones, and other subnets. *)
Definition outdated : option Balancer :=
  Some (mkBalancer {["subnet-a"; "subnet-b"]} {["sg-1"]}
    [listener_for 80 30080; listener_for 443 31000; listener_for 8080 30080] {["i-1"]}).
Definition wanted_listeners : list ElbListener := [listener_for 80 30080; listener_for 443 30443].
Definition elb_update : prog awsE (result (option LoadBalancerDescription)) :=
  ensureLoadBalancer (GR := trie_order) 0 (mkCloud empty_config "" "" prod no_instance)
    (mkNamespacedName "default" "svc") "lb" wanted_listeners ["subnet-b"; "subnet-c"] ["sg-1"] false false
    no_attributes ∅.

Lemma ensureLoadBalancer_exact_witness :
  let '(o, w, _) := run (elb_service "lb") elb_update outdated [] in
  (∃ a, o = Done (Ok a)) ∧ elb_exact wanted_listeners ["subnet-b"; "subnet-c"] ["sg-1"] w.
Proof.
  assert (NoDup (l_LoadBalancerPort <$> wanted_listeners)) as Hports
    by (apply (bool_decide_unpack _); vm_compute; exact I).
  pose proof (wp_run (elb_service "lb") elb_update _ outdated []
    (ensureLoadBalancer_exact _ _ _ "lb" wanted_listeners _ _ _ _ _ _ Hports)) as H.
  pose proof (run_evolves (elb_serves "lb") outdated (elb_service "lb") elb_update outdated []
    (elb_service_serves "lb") eq_refl) as He.
  assert (∃ a, (run (elb_service "lb") elb_update outdated []).1.1 = Done (Ok a)) as Ha
    by (eexists; vm_compute; reflexivity).
  destruct (run (elb_service "lb") elb_update outdated []) as [[o w] tr]. cbn [fst] in Ha.
  split; [exact Ha|]. apply (H outdated w); [|exact He|exact Ha].
  intros e0 [= <-]. apply (bool_decide_unpack _). vm_compute. exact I.
Defined.

(** The attributes are modified whatever they are: a load balancer that needs no change is
    changed and described again on every run. *)
Lemma syncAttributes_modifies attributes name :
  wp (syncAttributes name attributes)
     (λ tr o, (∃ e, o = Done (Err e)) ∨
        o = Done (Ok true) ∧ Ev (ELB (ElbModifyLoadBalancerAttributes name attributes)) (Ok tt) ∈ tr) [].
Proof.
  unfold syncAttributes, DeepEqualAttributes. rewrite wp_try. intros [found|e]; cbn [wp]; [|by left; eexists].
  rewrite bool_decide_false; [|done]. cbn [negb]. rewrite wp_try_with.
  intros [[]|e]; cbn [wp]; [|by left; eexists]. right. split; [done|]. apply elem_of_app. right. by left.
Qed.

(** The calls that change something, in the run on a load balancer that is as wanted. *)
Definition up_to_date : option Balancer :=
  Some (mkBalancer {["subnet-b"; "subnet-c"]} {["sg-1"]} wanted_listeners ∅).
Example up_to_date_modified :
  let '(_, w, tr) := run (elb_service "lb") elb_update up_to_date [] in
  w = up_to_date ∧
  filter (λ ev, readonly (ev_call ev) = false) tr =
    [Ev (ELB (ElbModifyLoadBalancerAttributes "lb" no_attributes)) (Ok tt)].
Proof. vm_compute. split; reflexivity. Qed.
