(* ===== verification/LoadBalancer.v ===== *)
(** * The load-balancer interface of the provider (aws.go)

    [EnsureLoadBalancer], [GetLoadBalancer], [UpdateLoadBalancer] and
    [EnsureLoadBalancerDeleted], composed from the operations of the other files.  The
    caches of the provider (instances, zones) are a state threaded through the calls. *)

From S2P Require Import Prelude GoLib Effects AwsApi IPPermissions Tags Config Cloud SecurityGroups Subnets TargetGroups NlbRules Nlb Instances Elb.
From Stdlib Require Import Ascii.
Import Strings Errors Strconv.

(** ** Programs with the caches *)
Record caches := mkCaches {
  cs_instances : option allInstancesSnapshot;
  cs_zones : zoneCache
}.

(** A method that may call AWS, use the caches and fail. *)
Definition method (A : Type) : Type := caches → prog awsE (result A * caches).

Definition mret {A} (r : result A) : method A := λ s, Ret (r, s).
Definition mlift {A} (p : prog awsE (result A)) : method A := λ s, let! r := p in Ret (r, s).
Definition mtry {A B} (p : method A) (k : A → method B) : method B := λ s,
  let! (r, s) := p s in
  match r with
  | Ok a => k a s
  | Err e => Ret (Err e, s)
  end.
Notation "'let*' x ':=' p 'in' k" := (mtry p (λ x, k))
  (at level 10, x pattern, p at level 200, k at level 200,
   format "'[v' 'let*'  x  ':='  p  'in'  '/' k ']'") : prog_scope.

(** ** Ports *)
Local Open Scope go_scope.

(** The mapping of one port of a network load balancer. *)
Definition buildNLBMapping (c : Cloud) (apiService : Service) (sslPorts : option portSets)
    (port : ServicePort) : result nlbPortMapping :=
  let annotations := svc_Annotations apiService in
  hc ←? buildNLBHealthCheckConfiguration c apiService;
  let certificateARN := mapget annotations ServiceAnnotationLoadBalancerCertificate in
  if negb (String.eqb (sp_Protocol port) "UDP") && negb (String.eqb certificateARN "") &&
     match sslPorts with
     | None => true
     | Some s => bool_decide (sp_Port port ∈ ps_numbers s) || bool_decide (sp_Name port ∈ ps_names s)
     end then
    Ok (mkNlbPortMapping (sp_Port port) ProtocolEnumTls (sp_NodePort port)
          (if String.eqb (mapget annotations ServiceAnnotationLoadBalancerBEProtocol) "ssl"
           then ProtocolEnumTls else sp_Protocol port)
          certificateARN (mapget annotations ServiceAnnotationLoadBalancerSSLNegotiationPolicy)
          (mapget annotations ServiceAnnotationLoadBalancerALPNPolicy) hc)
  else Ok (mkNlbPortMapping (sp_Port port) (sp_Protocol port) (sp_NodePort port) (sp_Protocol port)
             "" "" "" hc).

(** The loop over the ports: the classic listeners and the mappings of an NLB. *)
Fixpoint buildPorts (c : Cloud) (apiService : Service) (sslPorts : option portSets)
    (ports : list ServicePort) : result (list ElbListener * list nlbPortMapping) :=
  match ports with
  | [] => Ok ([], [])
  | port :: ports =>
     let annotations := svc_Annotations apiService in
     _ ←? checkProtocol port annotations;
     if Z.eqb (sp_NodePort port) 0 then buildPorts c apiService sslPorts ports
     else if isNLB annotations then
       portMapping ←? buildNLBMapping c apiService sslPorts port;
       rest ←? buildPorts c apiService sslPorts ports;
       Ok (rest.1, portMapping :: rest.2)
     else
       listener ←? buildListener port annotations sslPorts;
       rest ←? buildPorts c apiService sslPorts ports;
       Ok (listener :: rest.1, rest.2)
  end.

(** ** Attributes of a classic load balancer *)
Definition int32Attribute (annotations : gmap string string) (name : string) : result (option Z) :=
  let annotation := mapget annotations name in
  if negb (String.eqb annotation "") then
    match ParseInt annotation 32 with
    | None => Err (Errorf "error parsing service annotation: %s=%s" [name; annotation])
    | Some n => Ok (Some (to_int32 n))
    end
  else Ok None.

Definition boolAnnotation (annotations : gmap string string) (name : string) : result bool :=
  let annotation := mapget annotations name in
  if negb (String.eqb annotation "") then
    match ParseBool annotation with
    | None => Err (Errorf "error parsing service annotation: %s=%s" [name; annotation])
    | Some b => Ok b
    end
  else Ok false.

(** A text, or nil when it is empty. *)
Definition textAttribute (annotations : gmap string string) (name : string) : option string :=
  let annotation := mapget annotations name in
  if negb (String.eqb annotation "") then Some annotation else None.

Definition buildELBAttributes (annotations : gmap string string) : result LoadBalancerAttributes :=
  emitInterval ←? int32Attribute annotations ServiceAnnotationLoadBalancerAccessLogEmitInterval;
  logEnabled ←? boolAnnotation annotations ServiceAnnotationLoadBalancerAccessLogEnabled;
  let bucket := textAttribute annotations ServiceAnnotationLoadBalancerAccessLogS3BucketName in
  let pfx := textAttribute annotations ServiceAnnotationLoadBalancerAccessLogS3BucketPrefix in
  draining ←? boolAnnotation annotations ServiceAnnotationLoadBalancerConnectionDrainingEnabled;
  drainingTimeout ←? int32Attribute annotations
    ServiceAnnotationLoadBalancerConnectionDrainingTimeout;
  idleTimeout ←? int32Attribute annotations ServiceAnnotationLoadBalancerConnectionIdleTimeout;
  crossZone ←? boolAnnotation annotations ServiceAnnotationLoadBalancerCrossZoneLoadBalancingEnabled;
  Ok (mkLoadBalancerAttributes (Some (mkAccessLog logEnabled emitInterval bucket pfx)) None
        (Some (mkConnectionDraining draining drainingTimeout))
        (Some (Some (default 60%Z idleTimeout))) (Some crossZone)).

Definition proxyProtocolAnnotation (annotations : gmap string string) : result bool :=
  let annotation := mapget annotations ServiceAnnotationLoadBalancerProxyProtocol in
  if negb (String.eqb annotation "") then
    if negb (String.eqb annotation "*") then
      Err (Errorf "annotation %q=%q detected, but the only value supported currently is '*'"
             [ServiceAnnotationLoadBalancerProxyProtocol; annotation])
    else Ok true
  else Ok false.

(** ** Status: the hostnames of the ingress points *)
Definition toStatus (lb : LoadBalancerDescription) : list string :=
  if negb (String.eqb (ToString (lb_DNSName lb)) "") then [ToString (lb_DNSName lb)] else [].

(** [None] is a load balancer with a name and no state. *)
Definition v2toStatus (lb : LoadBalancerV2) : option (list string) :=
  if negb (String.eqb (ToString (nlb_DNSName lb)) "") then
    code ← nlb_State lb;
    Some (if String.eqb code "active" || String.eqb code "provisioning"
          then [ToString (nlb_DNSName lb)] else [])
  else Some [].

(** [contains] (aws_fakes.go) *)
Definition contains (haystack : list string) (needle : string) : bool :=
  existsb (String.eqb needle) haystack.

(** The source blocks, with the defaults. *)
Definition withDefaultRanges (apiService : Service) (cidrs : list string) : list string :=
  let cidrs := if length cidrs =? 0 then ["0.0.0.0/0"] else cidrs in
  if serviceRequestsIPv6 apiService && negb (contains cidrs "::/0") then cidrs ++ ["::/0"] else cidrs.

Definition isInternal (annotations : gmap string string) : bool :=
  let internalAnnotation := mapget annotations ServiceAnnotationLoadBalancerInternal in
  if String.eqb internalAnnotation "false" then false
  else negb (String.eqb internalAnnotation "").

Section load_balancer.
Context {GR : GoRange} {GS : GoSort}.
(** What [url.Parse] decides on rare authorities; [servicehelpers.GetLoadBalancerSourceRanges];
    how often a deletion is polled before its deadline. *)
Context (odd_authority : string → bool)
  (GetLoadBalancerSourceRanges : Service → result (gset string)) (polls : nat).

(** [findInstancesForELB] and [getLoadBalancerSubnets] on the caches; the times are those of
    the check and of a new snapshot. *)
Definition findInstances (c : Cloud) (clock : Z * Z) (nodes : list Node)
    (annotations : gmap string string) : method (gmap string Instance_) := λ s,
  let! (r, snapshot) := findInstancesForELB odd_authority c clock.1 clock.2 nodes annotations
    (cs_instances s) in
  Ret (r, mkCaches snapshot (cs_zones s)).

Definition findSubnetsOf (c : Cloud) (service : Service) (internalELB : bool) : method (list string) := λ s,
  let! (r, zones) := getLoadBalancerSubnets c (cs_zones s) service internalELB in
  Ret (r, mkCaches (cs_instances s) zones).

(** ** Network load balancers *)
Definition cleanupDetachedGroups (c : Cloud) (loadBalancerName : string)
    (existingLB : option LoadBalancerV2) (securityGroupIDs : list string) : prog awsE (result unit) :=
  match existingLB with
  | Some lb =>
     let currentSGSet : gset string := list_to_set (elems (nlb_SecurityGroups lb)) in
     let expectedSGSet : gset string := list_to_set securityGroupIDs in
     let detachedSGs := range_set (currentSGSet ∖ expectedSGSet) in
     if (0 <? length (elems (nlb_SecurityGroups lb))) && (0 <? length detachedSGs) then
       let! _ := removeOwnedSecurityGroups polls c loadBalancerName detachedSGs in Ret (Ok tt)
     else Ret (Ok tt)
  | None => Ret (Ok tt)
  end.

Definition ensureNLB (c : Cloud) (clusterName : string) (apiService : Service)
    (sourceRanges : gset string) (sourceCIDRs : list string) (v2Mappings : list nlbPortMapping)
    (instances : gmap string Instance_) (internalELB : bool) : method (list string) :=
  let annotations := svc_Annotations apiService in
  let* discoveredSubnetIDs := findSubnetsOf c apiService internalELB in
  if length discoveredSubnetIDs =? 0 then
    mret (Err (Errorf "could not find any suitable subnets for creating the ELB" []))
  else
  let loadBalancerName := GetLoadBalancerName apiService in
  let serviceName := mkNamespacedName (svc_Namespace apiService) (svc_Name apiService) in
  let instanceIDs := (range_map instances).*1 in
  mlift (
    let? existingLB := describeLoadBalancerv2 loadBalancerName
      else wrap "error describing load balancer %s: %w" [loadBalancerName] in
    let? (securityGroupIDs, isManagedSg) := ensureNLBSecurityGroup c clusterName apiService existingLB
      else wrap "error ensuring NLB security group: %w" [] in
    let? v2LoadBalancer := ensureLoadBalancerv2 c serviceName loadBalancerName v2Mappings instanceIDs
      discoveredSubnetIDs internalELB annotations securityGroupIDs apiService in
    let? _ := match securityGroupIDs with
      | sg :: _ =>
         if isManagedSg then
           let? _ := ensureNLBSecurityGroupRules sg sourceCIDRs v2Mappings
             else wrap "error ensuring NLB security group rules: %w" [] in
           Ret (Ok tt)
         else Ret (Ok tt)
      | [] => Ret (Ok tt)
      end in
    let? _ := cleanupDetachedGroups c loadBalancerName existingLB securityGroupIDs in
    let! ensuredSubnetIDs := no_panic (mapM id (nlb_AvailabilityZones v2LoadBalancer)) in
    if length ensuredSubnetIDs =? 0 then
      Ret (Err (Errorf "did not find ensured subnets on LB %s" [loadBalancerName]))
    else
    let? subnetCidrs := getSubnetCidrs ensuredSubnetIDs in
    let sourceRangeCidrs := withDefaultRanges apiService (range_set sourceRanges) in
    let? _ := updateInstanceSecurityGroupsForNLB c loadBalancerName instances subnetCidrs
      sourceRangeCidrs v2Mappings in
    let! status := no_panic (v2toStatus v2LoadBalancer) in
    Ret (Ok status)).

(** ** Classic load balancers *)

(** The SSL negotiation policy of the annotation, on every TLS port. *)
Definition applySSLPolicy (loadBalancer : LoadBalancerDescription) (loadBalancerName : string)
    (annotations : gmap string string) : prog awsE (result unit) :=
  match annotations !! ServiceAnnotationLoadBalancerSSLNegotiationPolicy with
  | None => Ret (Ok tt)
  | Some sslPolicyName =>
     let? _ := ensureSSLNegotiationPolicy loadBalancer sslPolicyName in
     let! ports := no_panic (getLoadBalancerTLSPorts loadBalancer) in
     each (λ port, setSSLNegotiationPolicy loadBalancerName sslPolicyName port) ports
  end.

(** The health check of the service, or the default one. *)
Definition applyHealthCheck (c : Cloud) (apiService : Service) (loadBalancer : LoadBalancerDescription)
    (loadBalancerName : string) (listeners : list ElbListener) : prog awsE (result unit) :=
  let annotations := svc_Annotations apiService in
  let cfg := c_cfg c in
  let tcpHealthCheckPort := default 0%Z (head (omap l_InstancePort listeners)) in
  let (path, healthCheckNodePort) := GetServiceHealthCheckPathPort apiService in
  if negb (String.eqb path "") then
    let healthCheckNodePort :=
      if String.eqb (mapget annotations ServiceAnnotationLoadBalancerHealthCheckPort)
           defaultHealthCheckPort
      then tcpHealthCheckPort else healthCheckNodePort in
    let? _ := ensureLoadBalancerHealthCheck loadBalancer "HTTP" healthCheckNodePort path annotations
      else (λ err, Errorf "Failed to ensure health check for localized service %v on node port %v: %q"
                     [loadBalancerName; Itoa healthCheckNodePort; Error err]) in
    Ret (Ok tt)
  else if String.eqb (cfg_HealthProbeMode cfg) ClusterServiceLoadBalancerHealthProbeModeShared then
    ensureLoadBalancerHealthCheck loadBalancer "HTTP"
      (if negb (Z.eqb (cfg_HealthProbePort cfg) 0) then cfg_HealthProbePort cfg
       else defaultKubeProxyHealthCheckPort)
      (if negb (String.eqb (cfg_HealthProbePath cfg) "") then cfg_HealthProbePath cfg
       else defaultKubeProxyHealthCheckPath) annotations
  else
    let annotationProtocol :=
      ToLower (mapget annotations ServiceAnnotationLoadBalancerBEProtocol) in
    ensureLoadBalancerHealthCheck loadBalancer
      (if String.eqb annotationProtocol "https" || String.eqb annotationProtocol "ssl"
       then "SSL" else "TCP") tcpHealthCheckPort "" annotations.

(** The rules of the managed group of a classic load balancer. *)
Definition elbPermissions (ports : list ServicePort) (ec2SourceRanges : slice IpRange) : IPPermissionSet :=
  foldl (λ permissions port,
    Insert permissions [mkIpPermission (Some (sp_Port port)) (Some (ToLower (sp_Protocol port)))
      ec2SourceRanges None None (Some (sp_Port port)) None]) (NewIPPermissionSet []) ports.

Definition ensureELB (c : Cloud) (apiService : Service) (sourceCIDRs : list string)
    (listeners : list ElbListener) (instances : gmap string Instance_) (internalELB : bool) :
    method (list string) :=
  let annotations := svc_Annotations apiService in
  let* proxyProtocol := mret (proxyProtocolAnnotation annotations) in
  let* loadBalancerAttributes := mret (buildELBAttributes annotations) in
  let* subnetIDs := findSubnetsOf c apiService internalELB in
  if length subnetIDs =? 0 then
    mret (Err (Errorf "could not find any suitable subnets for creating the ELB" []))
  else
  let loadBalancerName := GetLoadBalancerName apiService in
  let serviceName := mkNamespacedName (svc_Namespace apiService) (svc_Name apiService) in
  mlift (
    let? (securityGroupIDs, setupSg) :=
      buildELBSecurityGroupList c serviceName loadBalancerName annotations in
    match securityGroupIDs with
    | [] => Ret (Err (Errorf "[BUG] ELB can't have empty list of Security Groups to be assigned, this is a Kubernetes bug, please report" []))
    | sg :: _ =>
       let? _ := (if setupSg then
           let (ec2SourceRanges, ec2Ipv6SourceRanges) := separateIPv4AndIPv6CIDRs sourceCIDRs in
           createSecurityGroupRules sg (elbPermissions (svc_Ports apiService) ec2SourceRanges)
             ec2SourceRanges ec2Ipv6SourceRanges
         else Ret (Ok tt)) in
       let? loadBalancer := ensureLoadBalancer polls c serviceName loadBalancerName listeners subnetIDs
         securityGroupIDs internalELB proxyProtocol loadBalancerAttributes annotations in
       let! loadBalancer := no_panic loadBalancer in
       let? _ := applySSLPolicy loadBalancer loadBalancerName annotations in
       let? _ := applyHealthCheck c apiService loadBalancer loadBalancerName listeners in
       let? _ := updateInstanceSecurityGroupsForLoadBalancer c loadBalancer instances annotations false in
       let? _ := ensureLoadBalancerInstances (ToString (lb_LoadBalancerName loadBalancer))
         (lb_Instances loadBalancer) (dom instances) in
       Ret (Ok (toStatus loadBalancer))
    end).

(** ** The interface *)

(** The checks before anything is called. *)
Definition preflight (apiService : Service) : result unit :=
  let annotations := svc_Annotations apiService in
  _ ←? ensureLoadBalancerValidation apiService annotations;
  if negb (isNLB annotations) && negb (canFallbackToIPv4 apiService) then
    Err (Errorf "classic load balancer for service %s does not support IPv6" [svc_Name apiService])
  else if negb (String.eqb (svc_SessionAffinity apiService) "None") then
    Err (Errorf "unsupported load balancer affinity: %v" [svc_SessionAffinity apiService])
  else if length (svc_Ports apiService) =? 0 then
    Err (Errorf "requested load balancer with no ports" [])
  else checkMixedProtocol (svc_Ports apiService).

Definition EnsureLoadBalancer (c : Cloud) (clock : Z * Z) (clusterName : string) (apiService : Service)
    (nodes : list Node) : method (list string) :=
  let annotations := svc_Annotations apiService in
  if isLBExternal annotations then mret (Err ImplementedElsewhere) else
  let* _ := mret (preflight apiService) in
  let* sourceRanges := mret (GetLoadBalancerSourceRanges apiService) in
  let sourceCIDRs := withDefaultRanges apiService (range_set sourceRanges) in
  let sslPorts := getPortSets (mapget annotations ServiceAnnotationLoadBalancerSSLPorts) in
  let* (listeners, v2Mappings) := mret (buildPorts c apiService sslPorts (svc_Ports apiService)) in
  if negb (String.eqb (svc_LoadBalancerIP apiService) "") then
    mret (Err (Errorf "LoadBalancerIP cannot be specified for AWS ELB" []))
  else
  let* instances := findInstances c clock nodes annotations in
  let internalELB := isInternal annotations in
  if isNLB annotations then
    ensureNLB c clusterName apiService sourceRanges sourceCIDRs v2Mappings instances internalELB
  else ensureELB c apiService sourceCIDRs listeners instances internalELB.

(** The status, when there is a load balancer. *)
Definition GetLoadBalancer (service : Service) : prog awsE (result (option (list string))) :=
  if isLBExternal (svc_Annotations service) then Ret (Ok None) else
  let loadBalancerName := GetLoadBalancerName service in
  if isNLB (svc_Annotations service) then
    let? lb := describeLoadBalancerv2 loadBalancerName in
    match lb with
    | None => Ret (Ok None)
    | Some lb => let! status := no_panic (v2toStatus lb) in Ret (Ok (Some status))
    end
  else
    let? lb := describeLoadBalancer loadBalancerName in
    match lb with
    | None => Ret (Ok None)
    | Some lb => Ret (Ok (Some (toStatus lb)))
    end.

Definition UpdateLoadBalancer (c : Cloud) (clock clock' : Z * Z) (clusterName : string)
    (service : Service) (nodes : list Node) : method unit :=
  let annotations := svc_Annotations service in
  if isLBExternal annotations then mret (Err ImplementedElsewhere) else
  let* instances := findInstances c clock nodes annotations in
  let loadBalancerName := GetLoadBalancerName service in
  if isNLB annotations then
    let* lb := mlift (describeLoadBalancerv2 loadBalancerName) in
    match lb with
    | None => mret (Err (Errorf "Load balancer not found" []))
    | Some _ =>
       let* _ := EnsureLoadBalancer c clock' clusterName service nodes in mret (Ok tt)
    end
  else mlift (
    let? lb := describeLoadBalancer loadBalancerName in
    match lb with
    | None => Ret (Err (Errorf "Load balancer not found" []))
    | Some lb =>
       let? _ := applySSLPolicy lb loadBalancerName annotations in
       let? _ := ensureLoadBalancerInstances (ToString (lb_LoadBalancerName lb)) (lb_Instances lb)
         (dom instances) in
       updateInstanceSecurityGroupsForLoadBalancer c lb instances annotations false
    end).

(** ** Deletion *)

(** The description with its groups sorted in place. *)
Definition withGroups (lb : LoadBalancerDescription) (groups : list string) : LoadBalancerDescription :=
  mkLoadBalancerDescription (lb_LoadBalancerName lb) (lb_DNSName lb) (lb_Subnets lb) groups
    (lb_ListenerDescriptions lb) (lb_BackendServerDescriptions lb) (lb_HealthCheck lb) (lb_Instances lb).

Definition deleteNLB (c : Cloud) (service : Service) (loadBalancerName : string)
    (lb : LoadBalancerV2) : prog awsE (result unit) :=
  let? targetGroups := elbv2 (DescribeTargetGroups (nlb_LoadBalancerArn lb) [])
    else (λ err, Errorf "error listing target groups before deleting load balancer: %q" [Error err]) in
  let? (securityGroupIDs, _) :=
    (if 0 <? length (elems (nlb_SecurityGroups lb)) then
       let? r := buildSecurityGroupsToDelete c service (elems (nlb_SecurityGroups lb))
         else wrap "unable to build security group list to delete load balancer: %w" [] in
       Ret (Ok r)
     else Ret (Ok (∅, ∅))) in
  let? _ := elbv2 (DeleteLoadBalancer (nlb_LoadBalancerArn lb))
    else (λ err, Errorf "error deleting load balancer %q: %v" [loadBalancerName; Error err]) in
  let? _ := each (λ group,
    let? _ := elbv2 (DeleteTargetGroup (tg_TargetGroupArn group))
      else (λ err, Errorf "error deleting target groups after deleting load balancer: %q" [Error err]) in
    Ret (Ok tt)) targetGroups in
  let? _ := updateInstanceSecurityGroupsForNLB c loadBalancerName ∅ [] [] []
    else wrap "error deleting instance security group rules: %w" [] in
  deleteSecurityGroupsWithBackoff polls (svc_Name service) securityGroupIDs.

Definition deleteELB (c : Cloud) (service : Service) (lb : LoadBalancerDescription) :
    prog awsE (result unit) :=
  let? (securityGroupIDs, taggedLBSecurityGroups) :=
    buildSecurityGroupsToDelete c service (lb_SecurityGroups lb)
    else wrap "unable to build security groups to delete: %w" [] in
  match lb_SecurityGroups lb with
  | [] => Ret (Err (Errorf "could not determine security group for load balancer: %s"
                      [ToString (lb_LoadBalancerName lb)]))
  | _ =>
     let lbSecurityGroupIDs := sortELBSecurityGroupList (lb_SecurityGroups lb)
       (svc_Annotations service) taggedLBSecurityGroups in
     let! loadBalancerSecurityGroupID := no_panic (head lbSecurityGroupIDs) in
     let isDeletingLBSecurityGroup := bool_decide (loadBalancerSecurityGroupID ∈ securityGroupIDs) in
     let? _ := updateInstanceSecurityGroupsForLoadBalancer c (withGroups lb lbSecurityGroupIDs) ∅
       (svc_Annotations service) isDeletingLBSecurityGroup in
     let? _ := elb (ElbDeleteLoadBalancer (lb_LoadBalancerName lb)) in
     deleteSecurityGroupsWithBackoff polls (svc_Name service) securityGroupIDs
  end.

Definition EnsureLoadBalancerDeleted (c : Cloud) (service : Service) : prog awsE (result unit) :=
  if isLBExternal (svc_Annotations service) then Ret (Ok tt) else
  let loadBalancerName := GetLoadBalancerName service in
  if isNLB (svc_Annotations service) then
    let? lb := describeLoadBalancerv2 loadBalancerName in
    match lb with
    | None => Ret (Ok tt)
    | Some lb => deleteNLB c service loadBalancerName lb
    end
  else
    let? lb := describeLoadBalancer loadBalancerName in
    match lb with
    | None => Ret (Ok tt)
    | Some lb => deleteELB c service lb
    end.

End load_balancer.
