(* ===== verification/LoadBalancerFacts.v ===== *)
(** * Correctness of the load-balancer interface

    What deleting a load balancer may destroy and in which order, what its success means,
    and which services are refused before anything is called. *)

From S2P Require Import Prelude GoLib Effects AwsApi IPPermissions Tags Config Cloud SecurityGroups SecurityGroupFacts Subnets TargetGroups NlbRules Nlb NlbFacts Instances Elb LoadBalancer.
From Stdlib Require Import Ascii.
Import Strings Errors Strconv.

(** ** What deletion may do, and when *)

(** The network load balancers, classic load balancers and target groups of an answer. *)
Definition answered_v2 (ev : event awsE) : option (list LoadBalancerV2) :=
  match ev with
  | Ev c r =>
     match c in awsE R return result R → option (list LoadBalancerV2) with
     | ELBV2 c =>
        match c in elbv2E R return result R → option (list LoadBalancerV2) with
        | DescribeLoadBalancers _ _ => λ r, match r with Ok l => Some l | Err _ => None end
        | _ => λ _, None
        end
     | _ => λ _, None
     end r
  end.
Definition answered_classic (ev : event awsE) : option (list LoadBalancerDescription) :=
  match ev with
  | Ev c r =>
     match c in awsE R return result R → option (list LoadBalancerDescription) with
     | ELB c =>
        match c in elbE R return result R → option (list LoadBalancerDescription) with
        | ElbDescribeLoadBalancers _ => λ r, match r with Ok l => Some l | Err _ => None end
        | _ => λ _, None
        end
     | _ => λ _, None
     end r
  end.
Definition answered_target_groups (ev : event awsE) : option (list TargetGroup) :=
  match ev with
  | Ev c r =>
     match c in awsE R return result R → option (list TargetGroup) with
     | ELBV2 c =>
        match c in elbv2E R return result R → option (list TargetGroup) with
        | DescribeTargetGroups _ _ => λ r, match r with Ok l => Some l | Err _ => None end
        | _ => λ _, None
        end
     | _ => λ _, None
     end r
  end.

(** The names a description of load balancers asks for. *)
Definition asked_names (ev : event awsE) : list string :=
  match ev_call ev with
  | ELB (ElbDescribeLoadBalancers names) => names
  | ELBV2 (DescribeLoadBalancers names _) => names
  | _ => []
  end.

(** The load balancer whose target groups a call lists: all of them, none by its own ARN. *)
Definition asked_balancer (ev : event awsE) : option (option string) :=
  match ev_call ev with
  | ELBV2 (DescribeTargetGroups arn []) => Some arn
  | _ => None
  end.

(** [groups] are the target groups the network load balancer [arn] was reported to have. *)
Definition reported_groups (tr : list (event awsE)) (arn : option string) (groups : list TargetGroup) : Prop :=
  ∃ ev, ev ∈ tr ∧ asked_balancer ev = Some arn ∧ answered_target_groups ev = Some groups.

(** The network load balancer [arn] was deleted. *)
Definition nlb_deleted (tr : list (event awsE)) (arn : option string) : Prop :=
  ∃ r, Ev (ELBV2 (DeleteLoadBalancer arn)) r ∈ tr ∧ is_ok r = true.

(** A load balancer was deleted. *)
Definition lb_deleted (tr : list (event awsE)) : Prop :=
  ∃ ev, ev ∈ tr ∧ is_ok (ev_answer ev) = true ∧
    match ev_call ev with
    | ELBV2 (DeleteLoadBalancer _) | ELB (ElbDeleteLoadBalancer _) => True
    | _ => False
    end.

(** The load balancer [name] was reported missing. *)
Definition lb_absent (tr : list (event awsE)) (name : string) : Prop :=
  ∃ ev, ev ∈ tr ∧ asked_names ev = [name] ∧
    (answered_classic ev = Some [] ∨
     ∃ e, ev_answer ev = Err e ∧ AsAPIError e = Some "LoadBalancerNotFound").

(** What entitles [EnsureLoadBalancerDeleted] to a call after the calls [tr]: load balancers
    are deleted only after they were described under the name of the service; a target group
    only after the load balancer it was reported for has been deleted; security groups only
    after a load balancer; anything else reads, or changes rules of a group that is not the
    one of the configuration. *)
Definition may_delete (c : Cloud) (service : Service) (tr : list (event awsE)) (ev : event awsE) : Prop :=
  match ev_call ev with
  | EC2 (DeleteSecurityGroup g) => lb_deleted tr ∧ deletable c service tr g
  | ELBV2 (DeleteTargetGroup arn) =>
      ∃ lb_arn groups tg, nlb_deleted tr lb_arn ∧ reported_groups tr lb_arn groups ∧ tg ∈ groups ∧
        tg_TargetGroupArn tg = arn
  | ELBV2 (DeleteLoadBalancer arn) => isNLB (svc_Annotations service) = true ∧
      ∃ ev' lbs lb, ev' ∈ tr ∧ asked_names ev' = [GetLoadBalancerName service] ∧
        answered_v2 ev' = Some lbs ∧ lb ∈ lbs ∧ nlb_Type lb = LoadBalancerTypeEnumNetwork ∧
        nlb_LoadBalancerArn lb = arn
  | ELB (ElbDeleteLoadBalancer name) => isNLB (svc_Annotations service) = false ∧
      ∃ ev' lbs lb, ev' ∈ tr ∧ asked_names ev' = [GetLoadBalancerName service] ∧
        answered_classic ev' = Some lbs ∧ lb ∈ lbs ∧ lb_LoadBalancerName lb = name
  | EC2 (AuthorizeSecurityGroupIngress id _) | EC2 (RevokeSecurityGroupIngress id _) =>
      id ≠ Some (cfg_ElbSecurityGroup (c_cfg c))
  | call => readonly call = true
  end.

Lemma lb_deleted_app t u : lb_deleted t → lb_deleted (t ++ u).
Proof. intros (ev & Hin & H). exists ev. split; [set_solver|done]. Qed.

Lemma nlb_deleted_app t u arn : nlb_deleted t arn → nlb_deleted (t ++ u) arn.
Proof. intros (r & Hin & H). exists r. split; [set_solver|done]. Qed.

Lemma reported_groups_app t u arn groups : reported_groups t arn groups → reported_groups (t ++ u) arn groups.
Proof. intros (ev & Hin & H). exists ev. split; [set_solver|done]. Qed.

Lemma nlb_deleted_lb t arn : nlb_deleted t arn → lb_deleted t.
Proof. intros (r & Hin & H). by eexists. Qed.

Lemma may_delete_mono c service t u ev : may_delete c service t ev → may_delete c service (t ++ u) ev.
Proof.
  assert (∀ ev' : event awsE, ev' ∈ t → ev' ∈ t ++ u) as Hin by set_solver.
  unfold may_delete. destruct (ev_call ev) as [R call|R call|R call]; destruct call; try done.
  - intros [? ?]. split; [by apply lb_deleted_app|by apply deletable_app].
  - intros (? & ev' & lbs & lb & ? & ?). split; [done|]. exists ev', lbs, lb. auto.
  - intros (? & ev' & lbs & lb & ? & ?). split; [done|]. exists ev', lbs, lb. auto.
  - intros (arn' & gs & g & ? & ? & ?). exists arn', gs, g. auto using nlb_deleted_app, reported_groups_app.
Qed.

Lemma may_delete_readonly c service t ev : readonly (ev_call ev) = true → may_delete c service t ev.
Proof.
  unfold may_delete. destruct (ev_call ev) as [R call|R call|R call]; by destruct call.
Qed.

(** The target groups that were deleted. *)
Definition deleted_target_group (ev : event awsE) : option (option string) :=
  if is_ok (ev_answer ev) then group_delete_request ev else None.

(** What a success of the deletion means: the load balancer was not there, or it has been
    deleted and with it, for a network load balancer, every target group that very load
    balancer was reported to have. *)
Definition lb_gone (service : Service) (tr : list (event awsE)) : Prop :=
  lb_absent tr (GetLoadBalancerName service) ∨
  lb_deleted tr ∧
  (isNLB (svc_Annotations service) = true → ∃ arn groups, nlb_deleted tr arn ∧
     reported_groups tr arn groups ∧
     ∀ tg, tg ∈ groups → tg_TargetGroupArn tg ∈ omap deleted_target_group tr).

(** How a deletion ends. *)
Definition deletion_ends (c : Cloud) (service : Service) (tr : list (event awsE))
    (o : outcome (result unit)) : Prop :=
  justified (may_delete c service) tr ∧ (o = Done (Ok tt) → lb_gone service tr).

Lemma lb_gone_app service t u : lb_gone service t → lb_gone service (t ++ u).
Proof.
  intros [(ev & Hin & H)|[Hd Hg]]; [left; exists ev; split; [set_solver|done]|].
  right. split; [by apply lb_deleted_app|]. intros Hn. destruct (Hg Hn) as (arn & gs & Hin & Ha & Hgs).
  exists arn, gs. split; [by apply nlb_deleted_app|]. split; [by apply reported_groups_app|]. intros tg Htg. rewrite omap_app. set_solver.
Qed.

Lemma deletion_fails c service t (o : outcome (result unit)) :
  justified (may_delete c service) t → o ≠ Done (Ok tt) → deletion_ends c service t o.
Proof. by split. Qed.

Lemma reads_justified c service t : only_reads t → justified (may_delete c service) t.
Proof.
  intros Ht pre ev post ->. apply may_delete_readonly.
  apply Forall_app in Ht as [_ Ht]. by apply Forall_cons in Ht as [Ht _].
Qed.

Section deletion.
Context {GR : GoRange} {GS : GoSort} (polls : nat) (c : Cloud) (service : Service).

(** The security groups come last. *)
Lemma wp_deleteGroupsLast ids t :
  justified (may_delete c service) t → lb_gone service t → lb_deleted t →
  (∀ g, g ∈ ids → deletable c service t g) →
  wp (deleteSecurityGroupsWithBackoff polls (svc_Name service) ids) (deletion_ends c service) t.
Proof.
  intros Hj Hgone Hdel Hids. apply wp_start.
  eapply wp_mono; [apply wp_deleteSecurityGroups|].
  intros u o (r & -> & Hu & _ & _). split.
  - apply justified_app; [apply may_delete_mono|done|].
    eapply Forall_impl; [exact Hu|]. intros ev (g & Hg & Hev). cbv beta.
    unfold may_delete, delete_target in *.
    destruct (ev_call ev) as [R call|R call|R call]; destruct call; try done.
    injection Hev as ->. auto.
  - intros _. by apply lb_gone_app.
Qed.

(** The calls of the middle part of a deletion. *)
Lemma wp_then_justified {A} (p : prog awsE (result A)) (k : result A → prog awsE (result unit)) t :
  all_calls (spares_global c) p → justified (may_delete c service) t →
  (∀ r u, justified (may_delete c service) (t ++ u) →
     wp (k r) (deletion_ends c service) (t ++ u)) →
  wp (bind p k) (deletion_ends c service) t.
Proof.
  intros Hp Ht Hk. rewrite wp_bind. eapply wp_mono.
  - apply (wp_justified (may_delete c service)); [apply may_delete_mono| |done].
    eapply all_calls_mono; [exact Hp|]. intros ev. unfold spares_global, may_delete.
    destruct (ev_call ev) as [R call|R call|R call]; destruct call; done.
  - intros t' [r|w] [[u ->] Hj]; [by apply Hk|]. by apply deletion_fails.
Qed.

(** Target groups are deleted in turn. *)
Lemma wp_deleteTargetGroups (groups : list TargetGroup) w arn (k : unit → prog awsE (result unit)) t :
  nlb_deleted t arn → reported_groups t arn groups →
  justified (may_delete c service) t →
  (∀ u, justified (may_delete c service) (t ++ u) →
     (∀ tg, tg ∈ groups → tg_TargetGroupArn tg ∈ omap deleted_target_group (t ++ u)) →
     wp (k tt) (deletion_ends c service) (t ++ u)) →
  wp (try (each (λ group, try_with w (elbv2 (DeleteTargetGroup (tg_TargetGroupArn group)))
                  (λ _, Ret (Ok tt))) groups) k) (deletion_ends c service) t.
Proof.
  intros Hdel Hrep Hj Hk. rewrite wp_try.
  apply (wp_each_done _ _ (λ past t', ∃ u, t' = t ++ u ∧ justified (may_delete c service) t' ∧
    ∀ tg, tg ∈ past → tg_TargetGroupArn tg ∈ omap deleted_target_group t')).
  - exists []. rewrite app_nil_r. split_and!; [done..|]. set_solver.
  - intros past tg rest t' Hg (u & -> & Hju & Hpast). simpl. intros r.
    assert (justified (may_delete c service)
      ((t ++ u) ++ [Ev (ELBV2 (DeleteTargetGroup (tg_TargetGroupArn tg))) r])) as Hju'.
    { apply justified_snoc; [done|]. exists arn, groups, tg.
      split_and!; [by apply nlb_deleted_app|by apply reported_groups_app|set_solver|done]. }
    destruct r as [[]|e]; simpl; [|by apply deletion_fails].
    eexists. split; [by rewrite <-(assoc_L (++))|]. split; [done|].
    intros x. rewrite omap_app, !elem_of_app, list_elem_of_singleton.
    intros [Hx| ->]; [left; by apply Hpast|right; set_solver].
  - intros t' (u & -> & Hju & Hall). by apply Hk.
Qed.

Lemma marked_spares marks ev : marked_change c marks ev → spares_global c ev.
Proof.
  unfold marked_change, spares_global.
  destruct (ev_call ev) as [R call|R call|R call]; destruct call; try done; by intros [? _].
Qed.

Lemma wp_deleteNLB lb t :
  isNLB (svc_Annotations service) = true → only_reads t →
  (∃ ev lbs, ev ∈ t ∧ asked_names ev = [GetLoadBalancerName service] ∧
     answered_v2 ev = Some lbs ∧ lb ∈ lbs ∧ nlb_Type lb = LoadBalancerTypeEnumNetwork) →
  wp (deleteNLB polls c service (GetLoadBalancerName service) lb) (deletion_ends c service) t.
Proof.
  intros Hnlb Hro (ev & lbs & Hev & Hask & Hans & Hlb & Htype). unfold deleteNLB.
  rewrite wp_try_with. intros r. set (t1 := t ++ _).
  assert (only_reads t1) as Hro1 by by apply only_reads_snoc.
  destruct r as [groups|e]; cbn [wp]; [|by apply deletion_fails; [apply reads_justified|]].
  assert (reported_groups t1 (nlb_LoadBalancerArn lb) groups) as Hrep
    by (eexists; split; [apply snoc_elem|done]).
  assert (ev ∈ t1) as Hev1 by (apply elem_of_app; by left).
  clearbody t1. rewrite wp_try.
  assert (wp (if 0 <? length (elems (nlb_SecurityGroups lb))
     then try_with (wrap "unable to build security group list to delete load balancer: %w" [])
       (buildSecurityGroupsToDelete c service (elems (nlb_SecurityGroups lb))) (λ r, Ret (Ok r))
     else Ret (Ok (∅, ∅))) (λ t' o, (∃ u, t' = t1 ++ u) ∧ only_reads t' ∧ match o with
       | Done (Ok (ids, _)) => ∀ g, g ∈ ids → deletable c service t' g | _ => True end) t1) as Hbuild.
  { apply wp_extends. destruct (0 <? _); [|by cbn; split; [|set_solver]].
    rewrite wp_try_with. eapply wp_mono; [by apply wp_buildSecurityGroupsToDelete|].
    intros t' [[[ids tg]|e]|w]; cbn; tauto. }
  eapply wp_mono; [exact Hbuild|]. clear Hbuild.
  intros t' o ([u ->] & Hro2 & Hids). set (t2 := t1 ++ u) in *.
  assert (ev ∈ t2) as Hev2 by (apply elem_of_app; by left).
  assert (reported_groups t2 (nlb_LoadBalancerArn lb) groups) as Hrep2 by by apply reported_groups_app.
  assert (justified (may_delete c service) t2) as Hj2 by by apply reads_justified.
  clearbody t2. destruct o as [[[ids tagged]|e]|w]; [|by apply deletion_fails..].
  rewrite wp_try_with. intros r. set (t3 := t2 ++ _).
  assert (justified (may_delete c service) t3) as Hj3.
  { apply justified_snoc; [done|]. split; [done|]. by exists ev, lbs, lb. }
  destruct r as [[]|e]; cbn [wp]; [|by apply deletion_fails].
  assert (nlb_deleted t3 (nlb_LoadBalancerArn lb)) as Hdel by (eexists; split; [apply snoc_elem|done]).
  assert (reported_groups t3 (nlb_LoadBalancerArn lb) groups) as Hrep3 by by apply reported_groups_app.
  assert (∀ g, g ∈ ids → deletable c service t3 g) as Hids3 by (intros; apply deletable_app; auto).
  clearbody t3. apply (wp_deleteTargetGroups groups _ (nlb_LoadBalancerArn lb)); [done..|].
  intros u4 Hj4 Hall. apply wp_then_justified; [|done|].
  - eapply all_calls_mono; [apply updateInstanceSecurityGroupsForNLB_calls|]. apply marked_spares.
  - intros [[]|e] u5 Hj5; [|by apply deletion_fails].
    apply wp_deleteGroupsLast; [done| |by do 2 apply lb_deleted_app; eapply nlb_deleted_lb|].
    + apply lb_gone_app. right. split; [by apply lb_deleted_app; eapply nlb_deleted_lb|]. intros _.
      eexists _, groups. split_and!; [by apply nlb_deleted_app|by apply reported_groups_app|done].
    + intros g Hg. by do 2 apply deletable_app; apply Hids3.
Qed.

Lemma wp_deleteELB lb t :
  isNLB (svc_Annotations service) = false → only_reads t →
  (∃ ev lbs, ev ∈ t ∧ asked_names ev = [GetLoadBalancerName service] ∧
     answered_classic ev = Some lbs ∧ lb ∈ lbs) →
  wp (deleteELB polls c service lb) (deletion_ends c service) t.
Proof.
  intros Hnlb Hro (ev & lbs & Hev & Hask & Hans & Hlb). unfold deleteELB.
  rewrite wp_try_with. eapply wp_mono; [by apply wp_extends, wp_buildSecurityGroupsToDelete|].
  intros t' o ([u ->] & Hro2 & Hids). set (t2 := t ++ u) in *.
  assert (ev ∈ t2) as Hev2 by (apply elem_of_app; by left).
  assert (justified (may_delete c service) t2) as Hj2 by by apply reads_justified.
  clearbody t2. destruct o as [[[ids tagged]|e]|w]; [|by apply deletion_fails..].
  destruct (lb_SecurityGroups lb) eqn:Esg; [by apply deletion_fails|].
  rewrite wp_bind. destruct (head _) as [sg|]; [|by apply deletion_fails]. cbn [no_panic wp andThen].
  apply wp_then_justified; [apply updateInstanceSecurityGroups_calls|done|].
  intros [[]|e] u3 Hj3; [|by apply deletion_fails].
  rewrite wp_try. intros r.
  assert (justified (may_delete c service)
    ((t2 ++ u3) ++ [Ev (ELB (ElbDeleteLoadBalancer (lb_LoadBalancerName lb))) r])) as Hj4.
  { apply justified_snoc; [done|]. split; [done|]. exists ev, lbs, lb.
    split_and!; try done. apply elem_of_app; by left. }
  destruct r as [[]|e]; cbn [wp]; [|by apply deletion_fails].
  apply wp_deleteGroupsLast; [done| | |].
  - right. split; [|by rewrite Hnlb]. eexists; split; [apply snoc_elem|done].
  - eexists; split; [apply snoc_elem|done].
  - intros g Hg. by do 2 apply deletable_app; apply Hids.
Qed.

(** C1: [EnsureLoadBalancerDeleted] deletes only a load balancer that was described under
    the name of the service, and of its kind; target groups and security groups only after
    that deletion succeeded, target groups only those in the listing asked for by the ARN of
    the load balancer deleted, and security groups only those the cluster is entitled to ([deletable]: tagged, not the
    configured one, none of the annotations, owned for an NLB).  It does nothing for a
    service of another controller, and returns nil otherwise only when the load balancer was
    absent, or it and its target groups are deleted. *)
Theorem EnsureLoadBalancerDeleted_safe :
  wp (EnsureLoadBalancerDeleted polls c service) (λ tr o,
    if isLBExternal (svc_Annotations service) then tr = [] ∧ o = Done (Ok tt)
    else deletion_ends c service tr o) [].
Proof.
  unfold EnsureLoadBalancerDeleted. destruct (isLBExternal _); [done|].
  destruct (isNLB _) eqn:Hnlb; cbv zeta; rewrite wp_try.
  - unfold describeLoadBalancerv2. rewrite wp_bind. intros r. cbn [app andThen wp].
    assert (∀ r, justified (may_delete c service)
      [Ev (ELBV2 (DescribeLoadBalancers [GetLoadBalancerName service] [])) r]) as Hj.
    { intros. apply reads_justified. by constructor. }
    destruct r as [lbs|e].
    + destruct (filter _ lbs) as [|lb rest] eqn:Ef; cbn [wp]; [by apply deletion_fails|].
      apply wp_deleteNLB; [done|by constructor|]. eexists _, lbs. split; [by apply list_elem_of_singleton|].
      assert (lb ∈ filter (λ lb, nlb_Type lb = LoadBalancerTypeEnumNetwork) lbs) as [? ?]%list_elem_of_filter
        by (rewrite Ef; set_solver). done.
    + assert (AsAPIError e = Some "LoadBalancerNotFound" → deletion_ends c service
        [Ev (ELBV2 (DescribeLoadBalancers [GetLoadBalancerName service] [])) (Err e)] (Done (Ok tt))) as Habs.
      { intros He. split; [done|]. intros _. left. eexists. split; [by apply list_elem_of_singleton|].
        split; [done|]. right. by exists e. }
      rewrite not_found_cases. case_decide; [by apply Habs|by apply deletion_fails].
  - unfold describeLoadBalancer. rewrite wp_bind. intros r. cbn [app andThen wp].
    assert (∀ r, justified (may_delete c service)
      [Ev (ELB (ElbDescribeLoadBalancers [GetLoadBalancerName service])) r]) as Hj.
    { intros. apply reads_justified. by constructor. }
    destruct r as [lbs|e].
    + destruct (last lbs) as [lb|] eqn:El; cbn [wp].
      * apply wp_deleteELB; [done|by constructor|]. eexists _, lbs. split; [by apply list_elem_of_singleton|].
        split_and!; [done..|]. by apply last_Some_elem_of.
      * apply last_None in El as ->. split; [done|]. intros _. left. eexists.
        split; [by apply list_elem_of_singleton|]. split; [done|]. by left.
    + assert (AsAPIError e = Some "LoadBalancerNotFound" → deletion_ends c service
        [Ev (ELB (ElbDescribeLoadBalancers [GetLoadBalancerName service])) (Err e)] (Done (Ok tt))) as Habs.
      { intros He. split; [done|]. intros _. left. eexists. split; [by apply list_elem_of_singleton|].
        split; [done|]. right. by exists e. }
      rewrite not_found_cases. case_decide; [by apply Habs|by apply deletion_fails].
Qed.
End deletion.

(** ** Which services are served *)

(** What a service must satisfy before AWS is called for it. *)
Record admissible (ranges : Service → result (gset string)) (service : Service) : Prop := {
  adm_own : isLBExternal (svc_Annotations service) = false;
  adm_affinity : svc_SessionAffinity service = "None";
  adm_ports : svc_Ports service ≠ [];
  adm_ip : svc_LoadBalancerIP service = "";
  adm_protocol : ∃ protocol,
    (protocol = "TCP" ∨ protocol = "UDP" ∧ isNLB (svc_Annotations service) = true) ∧
    Forall (λ port, sp_Protocol port = protocol) (svc_Ports service);
  adm_classic : isNLB (svc_Annotations service) = false → canFallbackToIPv4 service = true;
  adm_ranges : ∃ l, ranges service = Ok l
}.

(** The ports that get a listener: those with a node port. *)
Definition served (ports : list ServicePort) : list ServicePort :=
  filter (λ port, sp_NodePort port ≠ 0%Z) ports.

(** TLS ends at the load balancer: there is a certificate, and the port is one of the
    [ssl-ports] by number or by the name the code looks up. *)
Definition ends_tls (annotations : gmap string string) (sslPorts : option portSets)
    (port : ServicePort) (name : string) : Prop :=
  mapget annotations ServiceAnnotationLoadBalancerCertificate ≠ "" ∧
  ∀ s, sslPorts = Some s → sp_Port port ∈ ps_numbers s ∨ name ∈ ps_names s.

Record mapping_of (service : Service) (sslPorts : option portSets) (port : ServicePort)
    (m : nlbPortMapping) : Prop := {
  mo_front : FrontendPort m = sp_Port port;
  mo_traffic : TrafficPort m = sp_NodePort port;
  mo_tls : FrontendProtocol m = ProtocolEnumTls ∧
      SSLCertificateARN m = mapget (svc_Annotations service) ServiceAnnotationLoadBalancerCertificate ∧
      sp_Protocol port ≠ "UDP" ∧ ends_tls (svc_Annotations service) sslPorts port (sp_Name port)
    ∨ FrontendProtocol m = sp_Protocol port ∧ TrafficProtocol m = sp_Protocol port ∧
      SSLCertificateARN m = "" ∧
      (sp_Protocol port = "UDP" ∨ ¬ ends_tls (svc_Annotations service) sslPorts port (sp_Name port))
}.

Record listener_of (service : Service) (sslPorts : option portSets) (port : ServicePort)
    (l : ElbListener) : Prop := {
  lo_front : l_LoadBalancerPort l = sp_Port port;
  lo_node : l_InstancePort l = Some (sp_NodePort port);
  lo_cert : l_SSLCertificateId l =
      Some (mapget (svc_Annotations service) ServiceAnnotationLoadBalancerCertificate) ∧
      ends_tls (svc_Annotations service) sslPorts port (ToLower (sp_Name port))
    ∨ l_SSLCertificateId l = None ∧
      ¬ ends_tls (svc_Annotations service) sslPorts port (ToLower (sp_Name port))
}.

Lemma ends_tls_dec annotations sslPorts port name :
  (negb (String.eqb (mapget annotations ServiceAnnotationLoadBalancerCertificate) "") &&
   match sslPorts with
   | None => true
   | Some s => bool_decide (sp_Port port ∈ ps_numbers s) || bool_decide (name ∈ ps_names s)
   end) = true ↔ ends_tls annotations sslPorts port name.
Proof.
  unfold ends_tls. rewrite andb_true_iff, negb_true_iff, String.eqb_neq.
  apply and_iff_compat_l. destruct sslPorts as [s|]; [|by split].
  rewrite orb_true_iff, !bool_decide_eq_true. split; [by intros H ? [= <-]|by intros H; apply H].
Qed.

Lemma buildNLBMapping_ok c service sslPorts port m :
  buildNLBMapping c service sslPorts port = Ok m → mapping_of service sslPorts port m.
Proof.
  unfold buildNLBMapping. destruct (buildNLBHealthCheckConfiguration c service) as [hc|]; [|done].
  cbn [rbind]. rewrite <-andb_assoc.
  pose proof (ends_tls_dec (svc_Annotations service) sslPorts port (sp_Name port)) as Ht.
  destruct (_ && match sslPorts with _ => _ end) eqn:E in *.
  - rewrite andb_true_r. destruct (String.eqb_spec (sp_Protocol port) "UDP") as [Eu|Eu]; cbn [negb];
      intros [= <-]; split; try done; cbn; [right; auto|left]. by split_and!; [..|apply Ht].
  - rewrite andb_false_r. intros [= <-]. split; try done; cbn. right.
    split_and!; [done..|]. right. by rewrite <-Ht.
Qed.

Lemma buildListener_ok service sslPorts port l :
  buildListener port (svc_Annotations service) sslPorts = Ok l → listener_of service sslPorts port l.
Proof.
  unfold buildListener. cbv zeta.
  pose proof (ends_tls_dec (svc_Annotations service) sslPorts port (ToLower (sp_Name port))) as Ht.
  destruct (_ && match sslPorts with _ => _ end) eqn:E in *.
  - destruct (String.eqb (mapget _ ServiceAnnotationLoadBalancerBEProtocol) ""); [|destruct (String.eqb (backendProtocolMapping _) ""); [discriminate|]];
      intros [= <-]; (split; [done|done|]); cbn; left; (split; [done|by apply Ht]).
  - destruct (String.eqb (mapget _ _) "http"); intros [= <-]; (split; [done|done|]); cbn; right;
      (split; [done|]); by rewrite <-Ht.
Qed.

Lemma checkProtocol_ok port annotations :
  checkProtocol port annotations = Ok tt →
  sp_Protocol port = "TCP" ∨ sp_Protocol port = "UDP" ∧ isNLB annotations = true.
Proof.
  unfold checkProtocol. destruct (isNLB _); cbn [andb negb];
    destruct (String.eqb_spec (sp_Protocol port) "TCP"), (String.eqb_spec (sp_Protocol port) "UDP"); auto; done.
Qed.

(** Every port with a node port is built once, in order. *)
Lemma buildPorts_built c service sslPorts ports :
  match buildPorts c service sslPorts ports with
  | Ok (listeners, mappings) =>
      Forall (λ port, sp_Protocol port = "TCP" ∨
        sp_Protocol port = "UDP" ∧ isNLB (svc_Annotations service) = true) ports ∧
      if isNLB (svc_Annotations service)
      then listeners = [] ∧ Forall2 (λ port m, buildNLBMapping c service sslPorts port = Ok m) (served ports) mappings
      else mappings = [] ∧
        Forall2 (λ port l, buildListener port (svc_Annotations service) sslPorts = Ok l) (served ports) listeners
  | Err _ => True
  end.
Proof.
  induction ports as [|port ports IH]; cbn [buildPorts].
  { split; [done|]. destruct (isNLB _); by split. }
  unfold served. rewrite filter_cons. fold (served ports).
  destruct (checkProtocol port _) as [[]|] eqn:Hp; cbn [rbind]; [|done].
  apply checkProtocol_ok in Hp.
  destruct (Z.eqb_spec (sp_NodePort port) 0) as [Hz|Hz].
  { rewrite decide_False by auto. destruct (buildPorts c service sslPorts ports) as [[ls ms]|]; [|done].
    destruct IH. by split; [constructor|]. }
  rewrite decide_True by auto. destruct (isNLB _) eqn:En.
  - destruct (buildNLBMapping _ _ _ _) as [m|] eqn:Em; cbn [rbind]; [|done].
    destruct (buildPorts c service sslPorts ports) as [[ls ms]|]; cbn [rbind]; [|done].
    destruct IH as [IH1 [-> IH2]]. split; [by constructor|]. split; [done|]. by constructor.
  - destruct (buildListener _ _ _) as [l|] eqn:El; cbn [rbind]; [|done].
    destruct (buildPorts c service sslPorts ports) as [[ls ms]|]; cbn [rbind]; [|done].
    destruct IH as [IH1 [-> IH2]]. split; [by constructor|]. split; [done|]. by constructor.
Qed.

Lemma buildPorts_served c service sslPorts ports :
  match buildPorts c service sslPorts ports with
  | Ok (listeners, mappings) =>
      Forall (λ port, sp_Protocol port = "TCP" ∨
        sp_Protocol port = "UDP" ∧ isNLB (svc_Annotations service) = true) ports ∧
      if isNLB (svc_Annotations service)
      then listeners = [] ∧ Forall2 (mapping_of service sslPorts) (served ports) mappings
      else mappings = [] ∧ Forall2 (listener_of service sslPorts) (served ports) listeners
  | Err _ => True
  end.
Proof.
  pose proof (buildPorts_built c service sslPorts ports) as H.
  destruct (buildPorts _ _ _ _) as [[listeners mappings]|]; [|done]. destruct H as [Hp H]. split; [done|].
  destruct (isNLB _); destruct H as [-> H]; (split; [done|]); (eapply Forall2_impl; [exact H|]); cbn.
  - intros port m. apply buildNLBMapping_ok.
  - intros port l. apply buildListener_ok.
Qed.

(** The loop over the ports accepts only protocols the load balancer speaks and gives
    every port with a node port, in order, exactly one listener or mapping: its front port
    is the port of the service, it forwards to the node port, and it carries the certificate
    exactly when the annotations select the port for TLS; the list of the other kind of load
    balancer stays empty. *)
Theorem buildPorts_exact c service sslPorts ports :
  match buildPorts c service sslPorts ports with
  | Ok (listeners, mappings) =>
      Forall (λ port, sp_Protocol port = "TCP" ∨
        sp_Protocol port = "UDP" ∧ isNLB (svc_Annotations service) = true) ports ∧
      if isNLB (svc_Annotations service)
      then listeners = [] ∧ Forall2 (mapping_of service sslPorts) (served ports) mappings
      else mappings = [] ∧ Forall2 (listener_of service sslPorts) (served ports) listeners
  | Err _ => True
  end.
Proof. apply buildPorts_served. Qed.

Lemma checkMixedProtocol_ok ports :
  checkMixedProtocol ports = Ok tt → ∃ protocol, Forall (λ port, sp_Protocol port = protocol) ports.
Proof.
  destruct ports as [|p ports]; [by exists ""|]. cbn [checkMixedProtocol].
  destruct (forallb _ ports) eqn:E; [|done]. intros _. exists (sp_Protocol p).
  constructor; [done|]. rewrite Forall_forall. intros q Hq.
  rewrite forallb_forall in E. apply String.eqb_eq, E. by apply list_elem_of_In.
Qed.

Lemma preflight_ok {GR : GoRange} service :
  preflight service = Ok tt →
  svc_SessionAffinity service = "None" ∧ svc_Ports service ≠ [] ∧
  checkMixedProtocol (svc_Ports service) = Ok tt ∧
  (isNLB (svc_Annotations service) = false → canFallbackToIPv4 service = true).
Proof.
  unfold preflight. destruct (ensureLoadBalancerValidation _ _) as [[]|]; cbn [rbind]; [|done].
  destruct (isNLB _), (canFallbackToIPv4 _); cbn [andb negb]; try done.
  all: destruct (String.eqb_spec (svc_SessionAffinity service) "None"); cbn [negb]; [|done].
  all: destruct (svc_Ports service) eqn:E; [done|]; cbn [length Nat.eqb]; intros; by split_and!.
Qed.

Section ensure.
Context {GR : GoRange} {GS : GoSort} (odd_authority : string → bool)
  (ranges : Service → result (gset string)) (polls : nat).

(** C13: [EnsureLoadBalancer] calls AWS, and succeeds, only for an admissible service: one of
    this controller, without session affinity or a requested address, with ports of one
    protocol that the load balancer speaks, of a family it can serve, with source ranges
    that parse.  Any other is refused with an error before any call, and the caches stay as
    they are. *)
Theorem EnsureLoadBalancer_admits c clock clusterName service nodes s :
  wp (EnsureLoadBalancer odd_authority ranges polls c clock clusterName service nodes s)
    (λ tr o, admissible ranges service ∨ tr = [] ∧ ∃ e, o = Done (Err e, s)) [].
Proof.
  unfold EnsureLoadBalancer. destruct (isLBExternal _) eqn:Hx; [by right; eauto|].
  unfold mtry at 1. cbn [mret bind]. destruct (preflight service) as [[]|] eqn:Hp; [|by right; eauto].
  apply preflight_ok in Hp as (Ha & Hne & Hm & Hc).
  unfold mtry at 1. cbn [mret bind]. destruct (ranges service) as [rs|] eqn:Hr; [|by right; eauto].
  unfold mtry at 1. cbn [mret bind].
  pose proof (buildPorts_served c service (getPortSets (mapget (svc_Annotations service)
    ServiceAnnotationLoadBalancerSSLPorts)) (svc_Ports service)) as Hports.
  destruct (buildPorts _ _ _ _) as [[ls ms]|]; [|by right; eauto].
  destruct Hports as [Hproto _].
  destruct (String.eqb_spec (svc_LoadBalancerIP service) ""); cbn [negb]; [|by right; eauto].
  apply wp_always. intros t o. left. split; try done; [|by exists rs].
  apply checkMixedProtocol_ok in Hm as [protocol Hm]. exists protocol. split; [|done].
  destruct (svc_Ports service) as [|p ports]; [done|].
  apply Forall_cons in Hm as [<- _]. by apply Forall_cons in Hproto as [? _].
Qed.
End ensure.
