(* ===== verification/EnsureState.v ===== *)
(** * What [EnsureLoadBalancer] leaves behind

    The contracts of [NlbListeners] and [ElbState] for the operation of the interface: a
    Service whose load balancer is ensured without an error has exactly the listeners of its
    ports, and a classic load balancer exactly the instances of its nodes. *)

From S2P Require Import Prelude GoLib Effects Track AwsApi IPPermissions Tags Config Cloud SecurityGroups SecurityGroupFacts Subnets TargetGroups NlbRules Nlb NlbFacts NlbListeners Instances InstanceFacts Elb ElbFacts ElbState LoadBalancer LoadBalancerFacts.
Import Strings Errors.

(** ** Calls that leave load balancers alone *)
Definition harmless (ev : event awsE) : Prop :=
  match ev_call ev with EC2 _ => True | call => readonly call = true end.

Lemma harmless_quiet ev : harmless ev → quiet ev.
Proof. unfold harmless, quiet. destruct ev as [R c r]. by destruct c as [R c|R c|R c]; destruct c. Qed.
Lemma harmless_elb_quiet ev : harmless ev → elb_quiet ev.
Proof. unfold harmless, elb_quiet. destruct ev as [R c r]. by destruct c as [R c|R c|R c]; destruct c. Qed.
Lemma spares_global_harmless c ev : spares_global c ev → harmless ev.
Proof. unfold harmless, spares_global. destruct ev as [R cl r]. by destruct cl as [R cl|R cl|R cl]; destruct cl. Qed.
Lemma marked_change_harmless c marks ev : marked_change c marks ev → harmless ev.
Proof. unfold harmless, marked_change. destruct ev as [R cl r]. by destruct cl as [R cl|R cl|R cl]; destruct cl. Qed.

Section harmless.
Context {GR : GoRange} {GS : GoSort} (c : Cloud).

Lemma harmless_deletePass l remaining : all_calls harmless (deletePass l remaining).
Proof.
  revert remaining. induction l as [|id l IH]; intros remaining; cbn [deletePass]; [done|].
  intros r. split; [done|]. cbn [call bind]. destruct r as [[]|e]; [apply IH|].
  rewrite dependency_cases. case_decide; [apply IH|done].
Qed.

Lemma harmless_removeOwned polls name ids : all_calls harmless (removeOwnedSecurityGroups polls c name ids).
Proof.
  unfold removeOwnedSecurityGroups, removeOwnedStep, deleteSecurityGroupsWithBackoff,
    isOwnedSecurityGroup, revokeSecurityGroupReferences, buildSecurityGroupRuleReferences.
  calls; try done; apply harmless_deletePass.
Qed.

Lemma harmless_createSecurityGroup name description add : all_calls harmless (createSecurityGroup c name description add).
Proof.
  unfold createSecurityGroup, ensureSecurityGroup. destruct (len name =? 0); [done|].
  induction (MaxReadThenCreateRetries - 1) as [|n IH]; cbn [ensureSecurityGroupLoop].
  all: unfold readRepairClusterTags, createTags.
  all: apply all_calls_try; [done|]; intros [|group groups]; [|calls; done].
  all: apply all_calls_bind; [done|]; intros [id|e]; [calls; done|].
  all: repeat (match goal with |- all_calls _ (match ?x with _ => _ end) => destruct x end; try done); apply IH.
Qed.

Lemma harmless_rules id rules ranges ranges6 : all_calls harmless (createSecurityGroupRules id rules ranges ranges6).
Proof. unfold createSecurityGroupRules, setSecurityGroupIngress, findSecurityGroup. calls; done. Qed.

Lemma harmless_elbGroups nn name annotations : all_calls harmless (buildELBSecurityGroupList c nn name annotations).
Proof. unfold buildELBSecurityGroupList. calls; try done; apply harmless_createSecurityGroup. Qed.

Lemma harmless_nlbGroups cluster service lb : all_calls harmless (ensureNLBSecurityGroup c cluster service lb).
Proof. unfold ensureNLBSecurityGroup. calls; try done; apply harmless_createSecurityGroup. Qed.

Lemma harmless_cleanup polls name lb ids : all_calls harmless (cleanupDetachedGroups polls c name lb ids).
Proof. unfold cleanupDetachedGroups. calls; try done; apply harmless_removeOwned. Qed.

Lemma harmless_subnets z service internal : all_calls harmless (getLoadBalancerSubnets c z service internal).
Proof.
  unfold getLoadBalancerSubnets, resolveSubnetNameOrIDs, findELBSubnets, findSubnets, getZoneDetailsByNames, populate.
  calls; done.
Qed.

Lemma harmless_cidrs ids : all_calls harmless (getSubnetCidrs ids).
Proof. unfold getSubnetCidrs. calls; done. Qed.

Lemma harmless_instances odd now now' nodes annotations snapshot :
  all_calls harmless (findInstancesForELB odd c now now' nodes annotations snapshot).
Proof. unfold findInstancesForELB, describeAllInstancesCached, describeAllInstancesUncached, describeInstances. calls; done. Qed.
End harmless.

(** ** Methods: the outcome without the caches *)
Definition returned {A} (o : outcome (result A * caches)) : outcome (result A) :=
  match o with Done (r, _) => Done r | Panicked s => Panicked s end.
Definition ending {A} (Q : list (event awsE) → outcome (result A) → Prop) (t : list (event awsE))
    (o : outcome (result A * caches)) : Prop := Q t (returned o).

Lemma wp_mlift {A} (p : prog awsE (result A)) Q s t : wp p Q t → wp (mlift p s) (ending Q) t.
Proof. intros H. unfold mlift. rewrite wp_bind. eapply wp_mono; [exact H|]. by intros t' [r|w]. Qed.

Lemma wp_mtry {A B} (p : method A) (k : A → method B) Q s t :
  wp (p s) (λ t' o, match o with
                    | Done (Ok a, s') => wp (k a s') (ending Q) t'
                    | Done (Err e, _) => Q t' (Done (Err e))
                    | Panicked w => Q t' (Panicked w)
                    end) t →
  wp (mtry p k s) (ending Q) t.
Proof. intros H. unfold mtry. rewrite wp_bind. eapply wp_mono; [exact H|]. by intros t' [[[a|e] s']|w]. Qed.

Lemma wp_mtry_ret {A B} (r : result A) (k : A → method B) Q s t :
  match r with Ok a => wp (k a s) (ending Q) t | Err e => Q t (Done (Err e)) end →
  wp (mtry (mret r) k s) (ending Q) t.
Proof. intros H. apply wp_mtry. cbn. by destruct r. Qed.

(** ** Network load balancers *)
Section network.
Context {GR : GoRange} {GS : GoSort} (polls : nat) (c : Cloud) (cluster : string) (service : Service)
  (mappings : list nlbPortMapping) (W0 : network).
Abbreviation name := (GetLoadBalancerName service).
Abbreviation before := (tracked (nlb_serves name) W0 (λ W, W = W0)).

Lemma nlb_fails {A} t (o : outcome (result A)) :
  before t → (∀ a, o ≠ Done (Ok a)) → nlb_ends name mappings W0 t o.
Proof.
  intros Ht Ho. split; [eapply tracked_mono; [exact Ht|intros W ->; apply nlb_kept_same]|].
  destruct o as [[a|]|]; [by destruct (Ho a)|done..].
Qed.

Lemma before_harmless {A} (p : prog awsE A) t : all_calls harmless p → before t → wp p (λ t' _, before t') t.
Proof. intros Hp. apply wp_quiet. eapply all_calls_mono; [exact Hp|apply harmless_quiet]. Qed.

Lemma wp_ensureNLB ranges cidrs instances internal s t :
  nlb_distinct W0 → before t →
  wp (ensureNLB polls c cluster service ranges cidrs mappings instances internal s)
     (ending (nlb_ends name mappings W0)) t.
Proof.
  intros Hd Ht. unfold ensureNLB. apply wp_mtry. unfold findSubnetsOf. rewrite wp_bind.
  eapply wp_mono; [apply before_harmless; [apply harmless_subnets|exact Ht]|].
  intros t1 [[[subnets|e] z]|w] H1; cbn [andThen wp]; [|by apply nlb_fails..].
  destruct (length subnets =? 0); [by apply nlb_fails|]. apply wp_mlift. rewrite wp_try_with.
  eapply wp_mono; [eapply wp_quiet; [apply quiet_describe|exact H1]|].
  intros t2 [[existing|e]|w] H2; [|by apply nlb_fails..]. rewrite wp_try_with.
  eapply wp_mono; [apply before_harmless; [apply harmless_nlbGroups|exact H2]|].
  intros t3 [[[groups managed]|e]|w] H3; [|by apply nlb_fails..]. rewrite wp_try.
  eapply wp_mono; [by apply wp_ensureLoadBalancerv2|].
  intros t4 [[lb|e]|w] [Hk He]; [|by split..].
  eapply wp_mono; [eapply wp_quiet; [|exact (tracked_and _ _ _ _ _ Hk He)]|].
  - eapply all_calls_mono; [|apply harmless_quiet]. unfold ensureNLBSecurityGroupRules.
    calls; try done; try apply harmless_rules; try apply harmless_cleanup; try apply harmless_cidrs.
    eapply all_calls_mono; [apply updateInstanceSecurityGroupsForNLB_calls|apply marked_change_harmless].
  - intros t5 o H5. split; [eapply tracked_mono; [exact H5|by intros W []]|].
    destruct o as [[a|e]|w]; [|done..]. eapply tracked_mono; [exact H5|by intros W []].
Qed.
End network.

(** ** Classic load balancers *)
Section classic.
Context {GR : GoRange} {GS : GoSort} (polls : nat) (c : Cloud) (service : Service)
  (listeners : list ElbListener) (w0 : option Balancer).
Abbreviation name := (GetLoadBalancerName service).
Abbreviation before := (tracked (elb_serves name) w0 (λ w, w = w0)).

(** The load balancer has exactly the wanted listeners and these instances. *)
Definition elb_settled (ids : gset string) (w : option Balancer) : Prop :=
  ∃ e, w = Some e ∧ listeners_exact listeners (e_listeners e) ∧ e_instances e = ids.

Definition classic_ends {A} (ids : gset string) (t : list (event awsE)) (o : outcome (result A)) : Prop :=
  tracked (elb_serves name) w0 (elb_kept listeners w0) t ∧
  match o with Done (Ok _) => tracked (elb_serves name) w0 (elb_settled ids) t | _ => True end.

Lemma elb_fails {A} ids t (o : outcome (result A)) :
  tracked (elb_serves name) w0 (elb_kept listeners w0) t → (∀ a, o ≠ Done (Ok a)) → classic_ends ids t o.
Proof. intros Ht Ho. split; [done|]. destruct o as [[a|]|]; [by destruct (Ho a)|done..]. Qed.

Lemma before_kept t : before t → tracked (elb_serves name) w0 (elb_kept listeners w0) t.
Proof. intros Ht. eapply tracked_mono; [exact Ht|]. intros w -> e0 ->. by exists e0. Qed.

Lemma before_harmless_elb {A} (p : prog awsE A) t : all_calls harmless p → before t → wp p (λ t' _, before t') t.
Proof. intros Hp. apply tracks_quiet. eapply all_calls_mono; [exact Hp|apply harmless_elb_quiet]. Qed.

Lemma quiet_applySSLPolicy lb annotations : all_calls elb_quiet (applySSLPolicy lb name annotations).
Proof. unfold applySSLPolicy, ensureSSLNegotiationPolicy, setSSLNegotiationPolicy. calls; done. Qed.

Lemma quiet_applyHealthCheck lb : all_calls elb_quiet (applyHealthCheck c service lb name listeners).
Proof. unfold applyHealthCheck, ensureLoadBalancerHealthCheck. calls; done. Qed.

Lemma quiet_instanceGroups lb instances annotations deleting :
  all_calls elb_quiet (updateInstanceSecurityGroupsForLoadBalancer c lb instances annotations deleting).
Proof.
  eapply all_calls_mono; [apply updateInstanceSecurityGroups_calls|].
  intros ev H. eapply harmless_elb_quiet, spares_global_harmless, H.
Qed.

(** What follows [ensureLoadBalancer]. *)
Lemma wp_finishELB subnets groups lb instances annotations t :
  tracked (elb_serves name) w0 (λ w, (elb_kept listeners w0 w ∧ elb_exact listeners subnets groups w) ∧ registered name lb w) t →
  wp (let? _ := applySSLPolicy lb name annotations in
      let? _ := applyHealthCheck c service lb name listeners in
      let? _ := updateInstanceSecurityGroupsForLoadBalancer c lb instances annotations false in
      let? _ := ensureLoadBalancerInstances (ToString (lb_LoadBalancerName lb)) (lb_Instances lb) (dom instances) in
      Ret (Ok (toStatus lb))) (classic_ends (dom instances)) t.
Proof.
  set (P w := elb_kept listeners w0 w ∧ elb_exact listeners subnets groups w). intros Ht.
  assert (∀ (Q : option Balancer → Prop) t, tracked (elb_serves name) w0 (λ w, P w ∧ Q w) t →
    tracked (elb_serves name) w0 (elb_kept listeners w0) t) as Hkept.
  { intros Q t' H. eapply tracked_mono; [exact H|]. by intros w [[? _] _]. }
  rewrite wp_try. eapply wp_mono; [apply tracks_quiet; [apply quiet_applySSLPolicy|exact Ht]|].
  intros t1 [[[]|e]|w] H1; [|by apply elb_fails; [eapply Hkept|]..].
  rewrite wp_try. eapply wp_mono; [apply tracks_quiet; [apply quiet_applyHealthCheck|exact H1]|].
  intros t2 [[[]|e]|w] H2; [|by apply elb_fails; [eapply Hkept|]..].
  rewrite wp_try. eapply wp_mono; [apply tracks_quiet; [apply quiet_instanceGroups|exact H2]|].
  intros t3 [[[]|e]|w] H3; [|by apply elb_fails; [eapply Hkept|]..].
  rewrite wp_try. eapply wp_mono; [apply (wp_ensureInstances name w0 lb (dom instances) P); [|exact H3]|].
  - intros f w [Hk (e & -> & He)]. split; [|by eexists].
    intros e0 He0. destruct (Hk e0 He0) as (e' & [= <-] & Hl). by eexists.
  - intros t4 o [Hk He]. assert (tracked (elb_serves name) w0 (elb_kept listeners w0) t4) as Hk'
      by (eapply tracked_mono; [exact Hk|by intros w []]).
    destruct o as [[[]|e]|w]; [|by apply elb_fails..]. cbn [wp]. split; [done|].
    eapply tracked_mono; [exact He|]. intros w ([_ (e & -> & _ & _ & Hl)] & e' & [= <-] & Hi). by exists e.
Qed.

Lemma wp_ensureELB cidrs instances internal s t :
  NoDup (l_LoadBalancerPort <$> listeners) → ports_distinct w0 → before t →
  wp (ensureELB polls c service cidrs listeners instances internal s) (ending (classic_ends (dom instances))) t.
Proof.
  intros Hports Hd Ht. unfold ensureELB.
  apply wp_mtry_ret. destruct (proxyProtocolAnnotation _) as [proxy|e]; [|by apply elb_fails; [apply before_kept|]].
  apply wp_mtry_ret. destruct (buildELBAttributes _) as [attributes|e]; [|by apply elb_fails; [apply before_kept|]].
  apply wp_mtry. unfold findSubnetsOf. rewrite wp_bind.
  eapply wp_mono; [apply before_harmless_elb; [apply harmless_subnets|exact Ht]|].
  intros t1 [[[subnets|e] z]|w] H1; cbn [andThen wp]; [|by apply elb_fails; [apply before_kept|]..].
  destruct (length subnets =? 0); [by apply elb_fails; [apply before_kept|]|]. apply wp_mlift. rewrite wp_try.
  eapply wp_mono; [apply before_harmless_elb; [apply harmless_elbGroups|exact H1]|].
  intros t2 [[[groups managed]|e]|w] H2; [|by apply elb_fails; [apply before_kept|]..].
  destruct groups as [|sg groups]; [by apply elb_fails; [apply before_kept|]|]. rewrite wp_try.
  eapply wp_mono; [apply before_harmless_elb; [|exact H2]|].
  { destruct managed; [|done]. destruct (separateIPv4AndIPv6CIDRs cidrs). apply harmless_rules. }
  intros t3 [[[]|e]|w] H3; [|by apply elb_fails; [apply before_kept|]..]. rewrite wp_try.
  eapply wp_mono; [by apply wp_ensureLoadBalancer|].
  intros t4 [[lb|e]|w] [Hk He]; [|by apply elb_fails..].
  destruct lb as [lb|]; [|by apply elb_fails]. cbn [no_panic bind].
  eapply wp_finishELB. eapply tracked_mono; [exact (tracked_and _ _ _ _ _ Hk He)|].
  intros w (Hkw & Hew & Hr). split; [by split|]. by apply Hr.
Qed.
End classic.

(** ** The operation of the interface *)
Section ensure.
Context {GR : GoRange} {GS : GoSort} (odd_authority : string → bool)
  (ranges : Service → result (gset string)) (polls : nat).
Context (service : Service) (nodes : list Node).
Abbreviation name := (GetLoadBalancerName service).
Abbreviation annotations := (svc_Annotations service).
Abbreviation certificate := (mapget annotations ServiceAnnotationLoadBalancerCertificate).
Abbreviation backend := (mapget annotations ServiceAnnotationLoadBalancerBEProtocol).
Definition sslPortsOf : option portSets := getPortSets (mapget annotations ServiceAnnotationLoadBalancerSSLPorts).

(** The port and protocol at which a network load balancer is to serve a port. *)
Definition fronts (port : ServicePort) (f : Z * string) : Prop :=
  f.1 = sp_Port port ∧
  (f.2 = ProtocolEnumTls ∧ sp_Protocol port ≠ "UDP" ∧ ends_tls annotations sslPortsOf port (sp_Name port) ∨
   f.2 = sp_Protocol port ∧
     (sp_Protocol port = "UDP" ∨ ¬ ends_tls annotations sslPortsOf port (sp_Name port))).
Definition wanted_front (f : Z * string) : Prop :=
  ∃ port, port ∈ served (svc_Ports service) ∧ fronts port f.

(** What a port of a classic load balancer is to speak: with the certificate, to the client
    and to the instance.  A port that ends TLS speaks HTTPS or SSL, by the backend protocol
    of the annotation, which is also what is spoken behind; any other speaks what the
    annotation says when it says http, else its own protocol. *)
Inductive speaks (port : ServicePort) : option string → string → string → Prop :=
  | speaks_tls_default :
      ends_tls annotations sslPortsOf port (ToLower (sp_Name port)) → backend = "" →
      speaks port (Some certificate) "ssl" "tcp"
  | speaks_https :
      ends_tls annotations sslPortsOf port (ToLower (sp_Name port)) → backend = "http" ∨ backend = "https" →
      speaks port (Some certificate) "https" backend
  | speaks_ssl :
      ends_tls annotations sslPortsOf port (ToLower (sp_Name port)) → backend = "tcp" ∨ backend = "ssl" →
      speaks port (Some certificate) "ssl" backend
  | speaks_http :
      ¬ ends_tls annotations sslPortsOf port (ToLower (sp_Name port)) → backend = "http" →
      speaks port None "http" "http"
  | speaks_plain :
      ¬ ends_tls annotations sslPortsOf port (ToLower (sp_Name port)) → backend ≠ "http" →
      speaks port None (ToLower (sp_Protocol port)) (ToLower (sp_Protocol port)).

(** The text, up to the case of its letters. *)
Definition reads (x : option string) (s : string) : Prop := ∃ v, x = Some v ∧ EqualFold v s = true.

(** A listener of a classic load balancer is the one a port is to have: it listens at the
    port of the service, forwards to the node port, and speaks what the port is to speak. *)
Record listens (port : ServicePort) (a : ElbListener) : Prop := {
  li_front : l_LoadBalancerPort a = sp_Port port;
  li_node : ToInt32 (l_InstancePort a) = sp_NodePort port;
  li_speaks : ∃ cert outside inside, speaks port cert outside inside ∧
    reads (l_Protocol a) outside ∧ reads (l_InstanceProtocol a) inside ∧
    match cert with
    | Some arn => reads (l_SSLCertificateId a) arn
    | None => l_SSLCertificateId a = None
    end
}.

(** How a network load balancer ends up that was in the state [W0]. *)
Definition network_kept (W0 W : network) : Prop :=
  ∀ arn l0, W0 = Some (arn, l0) → ∃ l, W = Some (arn, l) ∧ ∀ f, wanted_front f → has l0 f → has l f.
Definition network_serves (W : network) : Prop := ∃ arn l, W = Some (arn, l) ∧ ∀ f, has l f ↔ wanted_front f.

(** How a classic load balancer ends up that was in the state [w0]. *)
Definition classic_kept (w0 w : option Balancer) : Prop :=
  ∀ e0, w0 = Some e0 → ∃ e, w = Some e ∧ ∀ port a, port ∈ served (svc_Ports service) →
    a ∈ e_listeners e0 → listens port a → a ∈ e_listeners e.
Definition classic_serves (w : option Balancer) : Prop :=
  ∃ e, w = Some e ∧
    (∀ port, port ∈ served (svc_Ports service) → ∃ a, a ∈ e_listeners e ∧ listens port a) ∧
    (∀ a, a ∈ e_listeners e → ∃ port, port ∈ served (svc_Ports service) ∧ listens port a) ∧
    ∀ id, id ∈ e_instances e → target_instance odd_authority nodes annotations id.

(** *** The listeners that are built are those of the ports *)
Lemma fronts_mapping port m f : mapping_of service sslPortsOf port m → fronts port f ↔ f = frontend m.
Proof.
  intros [H1 _ H2]. unfold fronts, frontend. destruct f as [n p]. cbn. rewrite H1. split.
  - intros [-> Hp]. f_equal. destruct Hp as [(-> & Hu & Ht)|[-> Ht]], H2 as [(-> & _ & Hu' & Ht')|(-> & _ & _ & Ht')]; tauto.
  - intros [= -> ->]. split; [done|]. tauto.
Qed.

Lemma wanted_front_mappings ports mappings f :
  Forall2 (mapping_of service sslPortsOf) ports mappings →
  (∃ port, port ∈ ports ∧ fronts port f) ↔ f ∈ frontend <$> mappings.
Proof.
  induction 1 as [|port m ports mappings Hm _ IH]; [set_solver|].
  rewrite fmap_cons, elem_of_cons, <-IH, <-(fronts_mapping port m f Hm). set_solver.
Qed.

Lemma reads_equal x s : elbProtocolsAreEqual x (Some s) = true ↔ reads x s.
Proof.
  unfold reads. destruct x as [v|]; cbn; [|split; [done|by intros (? & ? & _)]].
  split; [eauto|by intros (? & [= <-] & ?)].
Qed.

Lemma backend_cases b :
  backendProtocolMapping b ≠ "" →
  backendProtocolMapping b = "https" ∧ (b = "http" ∨ b = "https") ∨
  backendProtocolMapping b = "ssl" ∧ (b = "tcp" ∨ b = "ssl").
Proof. intros Hb. unfold backendProtocolMapping in *. repeat (case_match; try done); auto. Qed.

Lemma speaks_listener port l :
  buildListener port annotations sslPortsOf = Ok l → ∃ cert outside inside, speaks port cert outside inside ∧
    l = mkElbListener (Some (sp_NodePort port)) (sp_Port port) (Some outside) (Some inside) cert.
Proof.
  unfold buildListener. cbv zeta.
  pose proof (ends_tls_dec annotations sslPortsOf port (ToLower (sp_Name port))) as Ht.
  destruct (_ && match sslPortsOf with _ => _ end) eqn:E in *.
  - destruct (String.eqb_spec backend "") as [Eb|Eb].
    { intros [= <-]. eexists _, _, _. split; [|done]. apply speaks_tls_default; [by apply Ht|done]. }
    destruct (String.eqb_spec (backendProtocolMapping backend) "") as [|Hm]; [discriminate|].
    intros [= <-]. eexists _, _, _. split; [|done].
    destruct (backend_cases _ Hm) as [[-> Hb]|[-> Hb]]; [apply speaks_https|apply speaks_ssl]; try done; by apply Ht.
  - assert (¬ ends_tls annotations sslPortsOf port (ToLower (sp_Name port))) as Htls by by rewrite <-Ht.
    destruct (String.eqb_spec backend "http") as [Eb|Eb]; intros [= <-]; eexists _, _, _; (split; [|done]).
    + rewrite Eb. by apply speaks_http.
    + by apply speaks_plain.
Qed.

Lemma speaks_once port c o i c' o' i' :
  speaks port c o i → speaks port c' o' i' → c = c' ∧ o = o' ∧ i = i'.
Proof. destruct 1, 1; intuition congruence. Qed.

Lemma listens_equal port l a :
  buildListener port annotations sslPortsOf = Ok l → listens port a ↔ elbListenersAreEqual a l = true.
Proof.
  intros (cert & outside & inside & Hs & ->)%speaks_listener. unfold elbListenersAreEqual. cbn.
  rewrite !andb_true_iff, !reads_equal, !Z.eqb_eq.
  assert (awsArnEquals (l_SSLCertificateId a) cert = true ↔
    match cert with Some arn => reads (l_SSLCertificateId a) arn | None => l_SSLCertificateId a = None end) as ->.
  { destruct cert; [apply reads_equal|]. by destruct (l_SSLCertificateId a). }
  split.
  - intros [Hf Hn (c & o & i & Hs' & Hp)]. destruct (speaks_once _ _ _ _ _ _ _ Hs Hs') as (-> & -> & ->). tauto.
  - intros [[[[Ho Hi] Hn] Hf] Hc]. split; [done..|]. by eexists _, _, _.
Qed.

Lemma listens_built ports listeners a :
  Forall2 (λ port l, buildListener port annotations sslPortsOf = Ok l) ports listeners →
  (∃ port, port ∈ ports ∧ listens port a) ↔ ∃ l, l ∈ listeners ∧ elbListenersAreEqual a l = true.
Proof.
  induction 1 as [|port l ports listeners Hl _ IH]; [set_solver|].
  setoid_rewrite elem_of_cons. pose proof (listens_equal port l a Hl). naive_solver.
Qed.

Lemma built_ports ports listeners :
  Forall2 (λ port l, buildListener port annotations sslPortsOf = Ok l) ports listeners →
  l_LoadBalancerPort <$> listeners = sp_Port <$> ports.
Proof.
  induction 1 as [|port l ports listeners Hl _ IH]; [done|].
  rewrite !fmap_cons, IH. f_equal. by eapply lo_front, buildListener_ok.
Qed.

Lemma classic_kept_built listeners w0 w :
  Forall2 (λ port l, buildListener port annotations sslPortsOf = Ok l) (served (svc_Ports service)) listeners →
  elb_kept listeners w0 w → classic_kept w0 w.
Proof.
  intros Hb Hk e0 E0. destruct (Hk e0 E0) as (e & -> & Hl). exists e. split; [done|].
  intros port a Hp Ha Hpa. destruct (proj1 (listens_built _ _ a Hb)) as (l & Hin & He); [by eauto|]. by eapply Hl.
Qed.

Lemma classic_serves_built listeners ids w :
  Forall2 (λ port l, buildListener port annotations sslPortsOf = Ok l) (served (svc_Ports service)) listeners →
  (∀ id, id ∈ ids → target_instance odd_authority nodes annotations id) → elb_settled listeners ids w → classic_serves w.
Proof.
  intros Hb Hids (e & -> & [Hl1 Hl2] & <-). exists e. split_and!; [done| | |done].
  - intros port Hp. apply list_elem_of_lookup in Hp as [i Hi].
    destruct (Forall2_lookup_l _ _ _ _ _ Hb Hi) as (l & Hil & Hl). destruct (Hl1 l) as (a & Ha & He); [by eapply list_elem_of_lookup_2|].
    exists a. split; [done|]. by apply (listens_equal _ l).
  - intros a Ha. apply (listens_built _ _ a Hb). by apply Hl2.
Qed.

(** *** The contract *)
Lemma wp_findInstances {W} (serves : W → event awsE → W → Prop) c clock s (W0 : W) t :
  (∀ P ev, harmless ev → stable serves P P ev) → tracked serves W0 (λ W, W = W0) t →
  wp (findInstances odd_authority c clock nodes annotations s)
     (λ t' o, tracked serves W0 (λ W, W = W0) t' ∧
        match o with Done (Ok instances, _) => ∀ id, id ∈ dom instances → target_instance odd_authority nodes annotations id | _ => True end) t.
Proof.
  intros Hs Ht. unfold findInstances, findInstancesForELB. rewrite !wp_bind.
  eapply wp_mono; [eapply (wp_tracked serves W0); [|exact Ht]|].
  - eapply all_calls_mono; [|intros; by apply Hs]. unfold describeAllInstancesCached, describeAllInstancesUncached, describeInstances.
    calls; done.
  - intros t1 [[[snapshot|e] z]|w] H1; cbn [andThen wp]; (split; [done|]); try done.
    intros id Hid. apply elem_of_dom in Hid as [i Hi]. by apply FindInstances_lookup in Hi as [?%elem_of_targets _].
Qed.

Lemma wp_EnsureLoadBalancer_network c clock cluster s W0 t :
  isNLB annotations = true → nlb_distinct W0 → tracked (nlb_serves name) W0 (λ W, W = W0) t →
  wp (EnsureLoadBalancer odd_authority ranges polls c clock cluster service nodes s)
     (ending (λ t o, tracked (nlb_serves name) W0 (network_kept W0) t ∧
        match o with Done (Ok _) => tracked (nlb_serves name) W0 network_serves t | _ => True end)) t.
Proof.
  intros Hn Hd Ht. set (Q := λ t o, _).
  assert (∀ A t (o : outcome (result A)), tracked (nlb_serves name) W0 (λ W, W = W0) t → (∀ a, o ≠ Done (Ok a)) →
    tracked (nlb_serves name) W0 (network_kept W0) t ∧
    match o with Done (Ok _) => tracked (nlb_serves name) W0 network_serves t | _ => True end) as Hfail.
  { intros A t' o H Ho. split; [|by destruct o as [[a|]|]; [destruct (Ho a)|..]].
    eapply tracked_mono; [exact H|]. intros W -> arn l ->. by exists l. }
  unfold EnsureLoadBalancer. destruct (isLBExternal _); [by apply Hfail|].
  apply wp_mtry_ret. destruct (preflight service) as [[]|]; [|by apply Hfail].
  apply wp_mtry_ret. destruct (ranges service) as [rs|]; [|by apply Hfail].
  apply wp_mtry_ret. fold sslPortsOf. pose proof (buildPorts_served c service sslPortsOf (svc_Ports service)) as Hb.
  destruct (buildPorts _ _ _ _) as [[listeners mappings]|]; [|by apply Hfail].
  rewrite Hn in Hb. destruct Hb as (_ & -> & Hb).
  destruct (negb _); [by apply Hfail|]. apply wp_mtry.
  eapply wp_mono; [apply (wp_findInstances (nlb_serves name)); [|exact Ht]|].
  { intros P ev He. by apply quiet_stable, harmless_quiet. }
  intros t1 [[[instances|e] s1]|w] [H1 _]; [|by apply Hfail..]. rewrite Hn.
  eapply wp_mono; [by apply wp_ensureNLB|]. intros t2 o [Hk He]. unfold ending, Q. cbv beta.
  split.
  - eapply tracked_mono; [exact Hk|]. intros W HW arn l0 E. destruct (HW arn l0 E) as (l & -> & Hl).
    exists l. split; [done|]. intros f Hf. apply Hl. by apply (wanted_front_mappings _ _ f Hb).
  - destruct (returned o) as [[status|e]|w]; [|done..]. eapply tracked_mono; [exact He|].
    intros W (arn & l & -> & Hl). exists arn, l. split; [done|]. intros f. rewrite Hl.
    symmetry. by apply wanted_front_mappings.
Qed.

Lemma wp_EnsureLoadBalancer_classic c clock cluster s w0 t :
  isNLB annotations = false → NoDup (sp_Port <$> served (svc_Ports service)) → ports_distinct w0 →
  tracked (elb_serves name) w0 (λ w, w = w0) t →
  wp (EnsureLoadBalancer odd_authority ranges polls c clock cluster service nodes s)
     (ending (λ t o, tracked (elb_serves name) w0 (classic_kept w0) t ∧
        match o with Done (Ok _) => tracked (elb_serves name) w0 classic_serves t | _ => True end)) t.
Proof.
  intros Hn Hports Hd Ht. set (Q := λ t o, _).
  assert (∀ A t (o : outcome (result A)), tracked (elb_serves name) w0 (λ w, w = w0) t → (∀ a, o ≠ Done (Ok a)) →
    tracked (elb_serves name) w0 (classic_kept w0) t ∧
    match o with Done (Ok _) => tracked (elb_serves name) w0 classic_serves t | _ => True end) as Hfail.
  { intros A t' o H Ho. split; [|by destruct o as [[a|]|]; [destruct (Ho a)|..]].
    eapply tracked_mono; [exact H|]. intros w -> e0 ->. by exists e0. }
  unfold EnsureLoadBalancer. destruct (isLBExternal _); [by apply Hfail|].
  apply wp_mtry_ret. destruct (preflight service) as [[]|]; [|by apply Hfail].
  apply wp_mtry_ret. destruct (ranges service) as [rs|]; [|by apply Hfail].
  apply wp_mtry_ret. fold sslPortsOf. pose proof (buildPorts_built c service sslPortsOf (svc_Ports service)) as Hb.
  destruct (buildPorts _ _ _ _) as [[listeners mappings]|]; [|by apply Hfail].
  rewrite Hn in Hb. destruct Hb as (_ & -> & Hb).
  destruct (negb _); [by apply Hfail|]. apply wp_mtry.
  eapply wp_mono; [apply (wp_findInstances (elb_serves name)); [|exact Ht]|].
  { intros P ev He. by apply elb_quiet_stable, harmless_elb_quiet. }
  intros t1 [[[instances|e] s1]|w] [H1 Hids]; [|by apply Hfail..]. rewrite Hn.
  eapply wp_mono; [apply wp_ensureELB; [|done..]; by rewrite (built_ports _ _ Hb)|].
  intros t2 o [Hk He]. unfold ending, Q. cbv beta. split.
  - eapply tracked_mono; [exact Hk|]. intros w. by apply classic_kept_built.
  - destruct (returned o) as [[status|e]|w]; [|done..]. eapply tracked_mono; [exact He|].
    intros w. by apply classic_serves_built.
Qed.

End ensure.

(** ** A cluster with two nodes and an outdated load balancer *)
Definition node_instance (id : string) : Instance_ :=
  mkInstance (Some id) "m5.large" None None None None [] [] (Some "running") None None [mkTag (Some (clusterTagKey prod)) (Some "owned")].

Definition cluster_service (name : string) : handler awsE (option Balancer) := λ R c w,
  match c in awsE R return result R * option Balancer with
  | EC2 c =>
     (match c in ec2E R return result R with
      | DescribeInstances _ _ => Ok [node_instance "i-1"; node_instance "i-2"]
      | DescribeSubnets _ _ => Ok [mkSubnet (Some "subnet-b") (Some "us-east-1a") (Some "10.0.0.0/24") [] []]
      | _ => Err (APIError "ValidationError" "not served")
      end, w)
  | ELB c =>
     match c in elbE R return result R * option Balancer with
     | ConfigureHealthCheck _ _ | ElbModifyLoadBalancerAttributes _ _ => (Ok tt, w)
     | c => elb_service name _ (ELB c) w
     end
  | ELBV2 _ => (Err (APIError "ValidationError" "not served"), w)
  end.

Lemma cluster_service_serves name R (c : awsE R) w :
  elb_serves name w (Ev c (cluster_service name R c w).1) (cluster_service name R c w).2.
Proof.
  destruct c as [R c|R c|R c]; [done| |done].
  pose proof (elb_service_serves name R (ELB c) w) as H. by destruct c.
Qed.

Definition open_config : CloudConfig := mkCloudConfig "" "" "" "" "" "" "" "" "" true "" [] "" 0%Z "" "" "" ∅.

Definition web_service : Service :=
  mkService "default" "web" "0a1b"
    {[ServiceAnnotationLoadBalancerSubnets := "subnet-b"; ServiceAnnotationLoadBalancerSecurityGroups := "sg-1"]}
    [mkServicePort "http" "TCP" 80 30080; mkServicePort "https" "TCP" 443 30443; mkServicePort "internal" "TCP" 9090 0]
    "LoadBalancer" "None" "" [] ["IPv4"] None "Cluster" 0 [].

Definition web_nodes : list Node := [mkNode "n1" ∅ "aws:///us-east-1a/i-1"; mkNode "n2" ∅ "aws:///us-east-1a/i-2"].

Definition web_ensure : prog awsE (result (list string) * caches) :=
  EnsureLoadBalancer (GR := trie_order) (GS := insertion_sort) (λ _, false) (λ _, Ok ∅) 0
    (mkCloud open_config "us-east-1" "vpc-1" prod no_instance) (0%Z, 0%Z) "prod" web_service web_nodes
    (mkCaches None ∅).
Abbreviation web_answers := (cluster_service (GetLoadBalancerName web_service)).


(** The port without a node port gets no listener; both nodes are registered. *)
Example EnsureLoadBalancer_updates :
  (λ e, (l_LoadBalancerPort <$> e_listeners e, elements (e_instances e))) <$> (run web_answers web_ensure outdated []).1.2 =
  Some ([80%Z; 443%Z], ["i-1"; "i-2"]).
Proof. vm_compute. reflexivity. Qed.
