(* ===== verification/UpdateState.v ===== *)
(** * What [UpdateLoadBalancer] and [EnsureLoadBalancerDeleted] leave behind

    The contracts of [ElbState] and [NlbListeners] for the other two operations of the
    interface that change load balancers. *)

From S2P Require Import Prelude GoLib Effects Track AwsApi IPPermissions Tags Config Cloud SecurityGroups SecurityGroupFacts Subnets TargetGroups NlbRules Nlb NlbFacts NlbListeners Instances InstanceFacts Elb ElbFacts ElbState LoadBalancer LoadBalancerFacts EnsureState.
Import Strings Errors.

Section update.
Context {GR : GoRange} {GS : GoSort} (odd_authority : string → bool)
  (ranges : Service → result (gset string)) (polls : nat).
Context (service : Service) (nodes : list Node).
Abbreviation name := (GetLoadBalancerName service).
Abbreviation annotations := (svc_Annotations service).

(** *** Update and deletion *)
Lemma wp_UpdateLoadBalancer_network c clock clock' cluster s W0 t :
  isNLB annotations = true → nlb_distinct W0 → tracked (nlb_serves name) W0 (λ W, W = W0) t →
  wp (UpdateLoadBalancer odd_authority ranges polls c clock clock' cluster service nodes s)
     (ending (λ t o, tracked (nlb_serves name) W0 (network_kept service W0) t ∧
        match o with Done (Ok _) => tracked (nlb_serves name) W0 (network_serves service) t | _ => True end)) t.
Proof.
  intros Hn Hd Ht. set (Q := λ t o, _).
  assert (∀ A t (o : outcome (result A)), tracked (nlb_serves name) W0 (λ W, W = W0) t → (∀ a, o ≠ Done (Ok a)) →
    tracked (nlb_serves name) W0 (network_kept service W0) t ∧
    match o with Done (Ok _) => tracked (nlb_serves name) W0 (network_serves service) t | _ => True end) as Hfail.
  { intros A t' o H Ho. split; [|by destruct o as [[a|]|]; [destruct (Ho a)|..]].
    eapply tracked_mono; [exact H|]. intros W -> arn l ->. by exists l. }
  unfold UpdateLoadBalancer. destruct (isLBExternal _); [by apply Hfail|]. rewrite Hn. apply wp_mtry.
  eapply wp_mono; [apply (wp_findInstances odd_authority service nodes (nlb_serves name)); [|exact Ht]|].
  { intros P ev He. by apply quiet_stable, harmless_quiet. }
  intros t1 [[[instances|e] s1]|w] [H1 _]; [|by apply Hfail..]. apply wp_mtry. unfold mlift. rewrite wp_bind.
  eapply wp_mono; [eapply wp_quiet; [apply quiet_describe|exact H1]|].
  intros t2 [[[lb|]|e]|w] H2; cbn [andThen wp]; [|by apply Hfail..]. apply wp_mtry.
  eapply wp_mono; [by apply wp_EnsureLoadBalancer_network|].
  intros t3 [[[status|e] s2]|w] [Hk He]; cbn; by split.
Qed.

(** A classic load balancer keeps all but its instances. *)
Definition classic_updated (w0 w : option Balancer) : Prop :=
  ∃ e0 ids, w0 = Some e0 ∧ w = change_instances (λ _, ids) w0 ∧ ∀ id, id ∈ ids → target_instance odd_authority nodes annotations id.
Definition same_but_instances (w0 w : option Balancer) : Prop := ∃ f, w = change_instances f w0.

Lemma wp_UpdateLoadBalancer_classic c clock clock' cluster s w0 t :
  isNLB annotations = false → tracked (elb_serves name) w0 (λ w, w = w0) t →
  wp (UpdateLoadBalancer odd_authority ranges polls c clock clock' cluster service nodes s)
     (ending (λ t o, tracked (elb_serves name) w0 (same_but_instances w0) t ∧
        match o with Done (Ok _) => tracked (elb_serves name) w0 (classic_updated w0) t | _ => True end)) t.
Proof.
  intros Hn Ht. set (Q := λ t o, _).
  assert (∀ A t (o : outcome (result A)), tracked (elb_serves name) w0 (λ w, w = w0) t → (∀ a, o ≠ Done (Ok a)) →
    tracked (elb_serves name) w0 (same_but_instances w0) t ∧
    match o with Done (Ok _) => tracked (elb_serves name) w0 (classic_updated w0) t | _ => True end) as Hfail.
  { intros A t' o H Ho. split; [|by destruct o as [[a|]|]; [destruct (Ho a)|..]].
    eapply tracked_mono; [exact H|]. intros w ->. exists id. by destruct w0 as [[]|]. }
  unfold UpdateLoadBalancer. destruct (isLBExternal _); [by apply Hfail|]. rewrite Hn. apply wp_mtry.
  eapply wp_mono; [apply (wp_findInstances odd_authority service nodes (elb_serves name)); [|exact Ht]|].
  { intros P ev He. by apply elb_quiet_stable, harmless_elb_quiet. }
  intros t1 [[[instances|e] s1]|w] [H1 Hids]; [|by apply Hfail..]. apply wp_mlift.
  unfold describeLoadBalancer. rewrite wp_try, wp_bind. intros r. set (ev := Ev _ r).
  assert (tracked (elb_serves name) w0 (λ w, w = w0 ∧
    match r with Ok l => ∀ d, last l = Some d → described name w0 d | Err _ => True end) (t1 ++ [ev])) as H2.
  { eapply tracked_snoc; [exact H1|]. intros w w' -> [-> Hd]. split; [done|]. destruct r as [l|]; [|done].
    specialize (Hd eq_refl). intros d E. by rewrite E in Hd. }
  assert (tracked (elb_serves name) w0 (λ w, w = w0) (t1 ++ [ev])) as H2' by (eapply tracked_mono; [exact H2|by intros w []]).
  destruct r as [l|e]; cbn [andThen wp]; [|rewrite not_found_cases; case_decide; by apply Hfail].
  destruct (last l) as [d|]; [|by apply Hfail].
  set (P := same_but_instances w0).
  assert (tracked (elb_serves name) w0 (λ w, P w ∧ registered name d w) (t1 ++ [ev])) as H3.
  { eapply tracked_mono; [exact H2|]. intros w [-> Hd]. destruct (Hd d eq_refl) as (e & E & Hname & Hi & _).
    split; [exists id; rewrite E; by destruct e|]. split; [done|]. by exists e. }
  assert (∀ A t (o : outcome (result A)), tracked (elb_serves name) w0 P t → (∀ a, o ≠ Done (Ok a)) →
    tracked (elb_serves name) w0 P t ∧
    match o with Done (Ok _) => tracked (elb_serves name) w0 (classic_updated w0) t | _ => True end) as Hfail'.
  { intros A t' o H Ho. split; [done|]. by destruct o as [[a|]|]; [destruct (Ho a)|..]. }
  assert (∀ (R : option Balancer → Prop) t, tracked (elb_serves name) w0 (λ w, P w ∧ R w) t → tracked (elb_serves name) w0 P t) as HP.
  { intros R t' H. eapply tracked_mono; [exact H|]. by intros w []. }
  clear H2 H2'. rewrite wp_try.
  eapply wp_mono; [apply tracks_quiet; [apply quiet_applySSLPolicy|exact H3]|].
  intros t2 [[[]|e]|w] H4; [|by apply Hfail'; [eapply HP|]..]. rewrite wp_try.
  eapply wp_mono; [apply (wp_ensureInstances name w0 d (dom instances) P); [|exact H4]|].
  { intros f w [g ->]. exists (f ∘ g). by destruct w0. }
  intros t3 [[[]|e]|w] [Hk He]; [|by apply Hfail'..].
  eapply wp_mono; [apply tracks_quiet; [apply quiet_instanceGroups|exact He]|].
  intros t4 o H5. split; [eapply tracked_mono; [exact H5|by intros w []]|].
  destruct o as [[[]|e]|w]; [|done..]. eapply tracked_mono; [exact H5|].
  intros w [[f ->] (e & E & Hi)]. destruct w0 as [e0|]; [|done]. exists e0, (dom instances).
  split; [done|]. split; [|exact Hids]. cbn in *. injection E as <-. by rewrite <-Hi.
Qed.


(** ** Deletion *)
Lemma harmless_deleteGroups n groups : all_calls harmless (deleteSecurityGroupsWithBackoff polls n groups).
Proof.
  unfold deleteSecurityGroupsWithBackoff. calls; try done; apply harmless_deletePass.
Qed.

Lemma harmless_groupsToDelete c groups : all_calls harmless (buildSecurityGroupsToDelete c service groups).
Proof.
  unfold buildSecurityGroupsToDelete. calls; try done. destruct s; cbv zeta beta iota. calls; try done.
  unfold isOwnedSecurityGroup. calls; done.
Qed.

(** Either nothing changed or the load balancer is gone. *)
Definition same_or_gone {W} (w0 w : option W) : Prop := w = w0 ∨ w = None.

Definition gone_after {W} (serves : option W → event awsE → option W → Prop) w0
    (t : list (event awsE)) (o : outcome (result unit)) : Prop :=
  tracked serves w0 (same_or_gone w0) t ∧
  match o with Done (Ok _) => tracked serves w0 (λ w, w = None) t | _ => True end.

Lemma not_deleted {W A} (serves : option W → event awsE → option W → Prop) w0 t (o : outcome (result A)) :
  tracked serves w0 (λ w, w = w0) t → (∀ a, o ≠ Done (Ok a)) →
  tracked serves w0 (same_or_gone w0) t ∧
  match o with Done (Ok _) => tracked serves w0 (λ w, w = None) t | _ => True end.
Proof.
  intros Ht Ho. split; [eapply tracked_mono; [exact Ht|by left]|]. by destruct o as [[a|]|]; [destruct (Ho a)|..].
Qed.

Lemma is_deleted {W} (serves : option W → event awsE → option W → Prop) w0 t (o : outcome (result unit)) :
  tracked serves w0 (λ w, w = None) t → gone_after serves w0 t o.
Proof. intros Ht. split; [eapply tracked_mono; [exact Ht|by right]|]. by destruct o as [[]|]. Qed.

Lemma wp_deleteNLB_state c lb W0 t :
  tracked (nlb_serves name) W0 (λ W, W = W0 ∧ ∃ l, W0 = Some (nlb_LoadBalancerArn lb, l)) t →
  wp (deleteNLB polls c service name lb) (gone_after (nlb_serves name) W0) t.
Proof.
  set (P W := W = W0 ∧ ∃ l, W0 = Some (nlb_LoadBalancerArn lb, l)). intros Ht.
  assert (∀ t, tracked (nlb_serves name) W0 P t → tracked (nlb_serves name) W0 (λ W, W = W0) t) as Hs.
  { intros t' H. eapply tracked_mono; [exact H|]. by intros W []. }
  unfold deleteNLB. rewrite wp_try_with. intros r. set (ev := Ev _ r).
  assert (tracked (nlb_serves name) W0 P (t ++ [ev])) as H1 by (eapply tracked_snoc; [exact Ht|by apply quiet_stable]).
  destruct r as [groups|e]; cbn [wp]; [|by apply not_deleted; [apply Hs|]]. rewrite wp_try.
  eapply wp_mono; [apply wp_quiet; [|exact H1]|].
  { eapply all_calls_mono; [|apply harmless_quiet]. destruct (_ <? _); [|done].
    apply all_calls_try_with; [apply harmless_groupsToDelete|done]. }
  intros t2 [[[ids tagged]|e]|w] H2; [|by apply not_deleted; [apply Hs|]..]. rewrite wp_try_with.
  intros r'. set (ev' := Ev _ r'). destruct r' as [[]|e]; cbn [wp].
  2: { apply not_deleted; [|done]. eapply tracked_snoc; [exact H2|]. intros W W' [-> [l E]] Hd.
       rewrite E in Hd. cbn in Hd. by rewrite E. }
  assert (tracked (nlb_serves name) W0 (λ W, W = None) (t2 ++ [ev'])) as H3.
  { eapply tracked_snoc; [exact H2|]. intros W W' [-> [l E]] Hd. rewrite E in Hd. cbn in Hd.
    by rewrite bool_decide_true in Hd. }
  eapply wp_mono; [apply wp_quiet; [|exact H3]|intros t4 o H4; by apply is_deleted].
  apply all_calls_try; [apply all_calls_each; intros; calls; done|]. intros _. apply all_calls_try_with.
  - eapply all_calls_mono; [apply updateInstanceSecurityGroupsForNLB_calls|].
    intros x Hx. eapply harmless_quiet, marked_change_harmless, Hx.
  - intros _. eapply all_calls_mono; [apply harmless_deleteGroups|apply harmless_quiet].
Qed.

Lemma wp_deleteELB_state c d w0 t :
  tracked (elb_serves name) w0 (λ w, w = w0 ∧ lb_LoadBalancerName d = Some name) t →
  wp (deleteELB polls c service d) (gone_after (elb_serves name) w0) t.
Proof.
  set (P w := w = w0 ∧ lb_LoadBalancerName d = Some name). intros Ht.
  assert (∀ t, tracked (elb_serves name) w0 P t → tracked (elb_serves name) w0 (λ w, w = w0) t) as Hs.
  { intros t' H. eapply tracked_mono; [exact H|]. by intros w []. }
  unfold deleteELB. rewrite wp_try_with. eapply wp_mono; [apply tracks_quiet; [|exact Ht]|].
  { eapply all_calls_mono; [apply harmless_groupsToDelete|apply harmless_elb_quiet]. }
  intros t1 [[[ids tagged]|e]|w] H1; [|by apply not_deleted; [apply Hs|]..].
  destruct (lb_SecurityGroups d) as [|g gs]; [by apply not_deleted; [apply Hs|]|]. cbv zeta.
  destruct (head _) as [g'|]; [|by apply not_deleted; [apply Hs|]]. cbn [no_panic bind]. rewrite wp_try.
  eapply wp_mono; [apply tracks_quiet; [apply quiet_instanceGroups|exact H1]|].
  intros t2 [[[]|e]|w] H2; [|by apply not_deleted; [apply Hs|]..]. rewrite wp_try.
  intros r. set (ev := Ev _ r). destruct r as [[]|e]; cbn [wp].
  2: { apply not_deleted; [|done]. eapply tracked_snoc; [exact H2|]. intros w w' [-> _] Hd. by cbn in Hd. }
  assert (tracked (elb_serves name) w0 (λ w, w = None) (t2 ++ [ev])) as H3.
  { eapply tracked_snoc; [exact H2|]. intros w w' [-> Hn] Hd. cbn in Hd. by rewrite Hn, bool_decide_true in Hd. }
  eapply wp_mono; [apply tracks_quiet; [|exact H3]|intros t4 o H4; by apply is_deleted].
  eapply all_calls_mono; [apply harmless_deleteGroups|apply harmless_elb_quiet].
Qed.

Definition deletion_outcome {W} (serves : option W → event awsE → option W → Prop) w0
    (t : list (event awsE)) (o : outcome (result unit)) : Prop :=
  tracked serves w0 (same_or_gone w0) t ∧
  match o with Done (Ok _) => isLBExternal annotations = false → tracked serves w0 (λ w, w = None) t | _ => True end.

Lemma deletion_outcome_deleted {W} (serves : option W → event awsE → option W → Prop) w0 t o :
  gone_after serves w0 t o → deletion_outcome serves w0 t o.
Proof. intros [Hk He]. split; [done|]. by destruct o as [[]|]. Qed.

Lemma wp_deletion_network c W0 t :
  isNLB annotations = true → tracked (nlb_serves name) W0 (λ W, W = W0) t →
  wp (EnsureLoadBalancerDeleted polls c service) (deletion_outcome (nlb_serves name) W0) t.
Proof.
  intros Hn Ht. unfold EnsureLoadBalancerDeleted. destruct (isLBExternal annotations) eqn:Hx.
  { split; [|by rewrite Hx]. eapply tracked_mono; [exact Ht|by left]. }
  rewrite Hn. eapply wp_mono; [|by intros t' o; apply deletion_outcome_deleted].
  rewrite wp_try. unfold describeLoadBalancerv2. rewrite wp_bind. intros r. set (ev := Ev _ r).
  assert (tracked (nlb_serves name) W0 (λ W, W = W0 ∧ match r with
     | Ok l => ∀ lb, head (filter (λ lb, nlb_Type lb = LoadBalancerTypeEnumNetwork) l) = Some lb →
         ∃ w, W0 = Some (nlb_LoadBalancerArn lb, w)
     | Err e => AsAPIError e = Some "LoadBalancerNotFound" → W0 = None
     end) (t ++ [ev])) as H1.
  { eapply tracked_snoc; [exact Ht|]. intros W W' -> [-> Hd]. split; [done|]. by apply Hd. }
  assert (tracked (nlb_serves name) W0 (λ W, W = W0) (t ++ [ev])) as Hs by (eapply tracked_mono; [exact H1|by intros W []]).
  destruct r as [l|e]; cbn [andThen app wp].
  - destruct (filter _ l) as [|lb lbs]; [by apply not_deleted|]. apply wp_deleteNLB_state.
    eapply tracked_mono; [exact H1|]. intros W [-> Hd]. split; [done|]. by apply Hd.
  - rewrite not_found_cases. case_decide as Hf; [|by apply not_deleted]. apply is_deleted.
    eapply tracked_mono; [exact H1|]. intros W [-> Hd]. by apply Hd.
Qed.

Lemma wp_deletion_classic c w0 t :
  isNLB annotations = false → tracked (elb_serves name) w0 (λ w, w = w0) t →
  wp (EnsureLoadBalancerDeleted polls c service) (deletion_outcome (elb_serves name) w0) t.
Proof.
  intros Hn Ht. unfold EnsureLoadBalancerDeleted. destruct (isLBExternal annotations) eqn:Hx.
  { split; [|by rewrite Hx]. eapply tracked_mono; [exact Ht|by left]. }
  rewrite Hn. eapply wp_mono; [|by intros t' o; apply deletion_outcome_deleted].
  rewrite wp_try. unfold describeLoadBalancer. rewrite wp_bind. intros r. set (ev := Ev _ r).
  assert (tracked (elb_serves name) w0 (λ w, w = w0 ∧ match r with
     | Ok l => match last l with Some d => described name w0 d | None => w0 = None end
     | Err e => AsAPIError e = Some "LoadBalancerNotFound" → w0 = None
     end) (t ++ [ev])) as H1.
  { eapply tracked_snoc; [exact Ht|]. intros w w' -> [-> Hd]. split; [done|]. by apply Hd. }
  assert (tracked (elb_serves name) w0 (λ w, w = w0) (t ++ [ev])) as Hs by (eapply tracked_mono; [exact H1|by intros w []]).
  destruct r as [l|e]; cbn [andThen app wp].
  - destruct (last l) as [d|] eqn:E; cbn [wp].
    + apply wp_deleteELB_state. eapply tracked_mono; [exact H1|]. by intros w [-> (e & _ & Hname & _)].
    + apply is_deleted. eapply tracked_mono; [exact H1|]. by intros w [-> Hd].
  - rewrite not_found_cases. case_decide as Hf; [|by apply not_deleted]. apply is_deleted.
    eapply tracked_mono; [exact H1|]. intros w [-> Hd]. by apply Hd.
Qed.

(** C3: [UpdateLoadBalancer] against an abstract state of the load balancers: whatever the
    services answer, a network load balancer keeps every listener a port of the service
    wants, and has exactly those when the operation returns without an error; of a classic
    load balancer nothing changes but the instances, also when the operation fails half-way,
    and without an error it existed before and has only instances of the nodes selected for
    the service. *)
Theorem UpdateLoadBalancer_exact c clock clock' cluster s :
  wp (UpdateLoadBalancer odd_authority ranges polls c clock clock' cluster service nodes s)
     (λ tr o,
        let succeeded := ∃ s', o = Done (Ok tt, s') in
        if isNLB annotations then
          ∀ W0 W, nlb_distinct W0 → evolves (nlb_serves name) W0 tr W →
            network_kept service W0 W ∧ (succeeded → network_serves service W)
        else
          ∀ w0 w, evolves (elb_serves name) w0 tr w →
            same_but_instances w0 w ∧ (succeeded → classic_updated w0 w)) [].
Proof.
  cbv zeta. destruct (isNLB annotations) eqn:Hn.
  - apply (wp_contract _ nlb_distinct _ (λ W0 o W, network_kept service W0 W ∧
      ((∃ s', o = Done (Ok tt, s')) → network_serves service W))).
    intros W0 Hd. eapply wp_mono; [apply wp_UpdateLoadBalancer_network; [done|exact Hd|by apply tracked_start]|].
    intros tr o [Hk He] W Hev. split; [by apply Hk|]. intros (s' & ->). by apply He.
  - eapply wp_mono; [apply (wp_contract (elb_serves name) (λ _, True) _ (λ w0 o w, same_but_instances w0 w ∧
      ((∃ s', o = Done (Ok tt, s')) → classic_updated w0 w)))|by intros tr o H w0 w Hev; apply H].
    intros w0 _. eapply wp_mono; [apply wp_UpdateLoadBalancer_classic; [done|by apply tracked_start]|].
    intros tr o [Hk He] w Hev. split; [by apply Hk|]. intros (s' & ->). by apply He.
Qed.

(** C4: [EnsureLoadBalancerDeleted] against an abstract state of the load balancers: whatever
    the services answer, the load balancer of the service is as it was or gone, and unless
    the service is left to another controller it is gone when the operation returns without
    an error; a deletion of what does not exist succeeds. *)
Theorem EnsureLoadBalancerDeleted_exact c :
  wp (EnsureLoadBalancerDeleted polls c service)
     (λ tr o,
        let succeeded := isLBExternal annotations = false ∧ o = Done (Ok tt) in
        if isNLB annotations then
          ∀ W0 W, evolves (nlb_serves name) W0 tr W → same_or_gone W0 W ∧ (succeeded → W = None)
        else
          ∀ w0 w, evolves (elb_serves name) w0 tr w → same_or_gone w0 w ∧ (succeeded → w = None)) [].
Proof.
  cbv zeta. destruct (isNLB annotations) eqn:Hn.
  - eapply wp_mono; [apply (wp_contract (nlb_serves name) (λ _, True) _ (λ W0 o W, same_or_gone W0 W ∧
      (isLBExternal annotations = false ∧ o = Done (Ok tt) → W = None)))|by intros tr o H W0 W Hev; apply H].
    intros W0 _. eapply wp_mono; [apply (wp_deletion_network c W0 []); [done|by apply tracked_start]|].
    intros tr o [Hk He] W Hev. split; [by apply Hk|]. intros [Hx ->]. by apply He.
  - eapply wp_mono; [apply (wp_contract (elb_serves name) (λ _, True) _ (λ w0 o w, same_or_gone w0 w ∧
      (isLBExternal annotations = false ∧ o = Done (Ok tt) → w = None)))|by intros tr o H w0 w Hev; apply H].
    intros w0 _. eapply wp_mono; [apply (wp_deletion_classic c w0 []); [done|by apply tracked_start]|].
    intros tr o [Hk He] w Hev. split; [by apply Hk|]. intros [Hx ->]. by apply He.
Qed.

End update.

(** ** The service and the nodes of [EnsureState] *)
Definition web_update : prog awsE (result unit * caches) :=
  UpdateLoadBalancer (GR := trie_order) (GS := insertion_sort) (λ _, false) (λ _, Ok ∅) 0
    (mkCloud open_config "us-east-1" "vpc-1" prod no_instance) (0%Z, 0%Z) (0%Z, 0%Z) "prod" web_service web_nodes
    (mkCaches None ∅).

(** The listeners stay as they are, the second node is registered. *)
Example UpdateLoadBalancer_registers :
  let '(o, w, _) := run web_answers web_update outdated [] in
  (∃ s', o = Done (Ok tt, s')) ∧ w = change_instances (λ _, {["i-1"; "i-2"]}) outdated.
Proof. vm_compute. split; [eexists; reflexivity|reflexivity]. Qed.

(** Without a load balancer there is nothing to update. *)
Example UpdateLoadBalancer_missing :
  let '(o, w, _) := run web_answers web_update None [] in
  ∃ e s', o = Done (Err e, s') ∧ w = None.
Proof. vm_compute. do 2 eexists. split; reflexivity. Qed.

(** With the security groups of the load balancer reported, it is deleted. *)
Definition deleting_service (name : string) : handler awsE (option Balancer) := λ R c w,
  match c in awsE R return result R * option Balancer with
  | EC2 c =>
     match c in ec2E R return result R * option Balancer with
     | DescribeSecurityGroups _ _ => (Ok [], w)
     | c => cluster_service name _ (EC2 c) w
     end
  | c => cluster_service name _ c w
  end.
Definition web_delete : prog awsE (result unit) :=
  EnsureLoadBalancerDeleted (GR := trie_order) (GS := insertion_sort) 0
    (mkCloud open_config "us-east-1" "vpc-1" prod no_instance) web_service.

Example EnsureLoadBalancerDeleted_deletes :
  let '(o, w, _) := run (deleting_service (GetLoadBalancerName web_service)) web_delete outdated [] in
  o = Done (Ok tt) ∧ w = None.
Proof. vm_compute. split; reflexivity. Qed.

(** Refused before the deletion: nothing has changed. *)
Example EnsureLoadBalancerDeleted_refused :
  let '(o, w, _) := run web_answers web_delete outdated [] in
  (∃ e, o = Done (Err e)) ∧ w = outdated.
Proof. vm_compute. split; [eexists; reflexivity|reflexivity]. Qed.
