(* ===== verification/Routes.v ===== *)
(** * Routes (aws_routes.go)

    The route table of the cluster: which table it is, its routes to nodes, and the calls
    that create and delete a route. *)

From S2P Require Import Prelude GoLib Effects AwsApi Tags Config Cloud Instances InstanceFacts Lookup.
From Stdlib Require Import Ascii.
Import Strings Errors.

Definition RouteStateBlackhole := "blackhole".

(** [cloudprovider.Route] (k8s.io/cloud-provider) *)
Record NodeRoute := mkNodeRoute {
  nr_Name : string;
  nr_TargetNode : string;
  nr_DestinationCIDR : string;
  nr_Blackhole : bool
}.

(** The table of the configuration, or the one that carries the cluster tag. *)
Definition findRouteTable (c : Cloud) (clusterName : string) : prog awsE (result RouteTable) :=
  let? tables :=
    (if negb (String.eqb (cfg_RouteTableID (c_cfg c)) "") then
       ec2 (DescribeRouteTables [newEc2Filter "route-table-id" [cfg_RouteTableID (c_cfg c)]])
     else
       let? response := ec2 (DescribeRouteTables []) in
       Ret (Ok (filter (λ table, hasClusterTag (c_tagging c) (rtb_Tags table) = true) response))) in
  match tables with
  | [] => Ret (Err (Errorf "unable to find route table for AWS cluster: %s" [clusterName]))
  | [table] => Ret (Ok table)
  | _ => Ret (Err (Errorf "found multiple matching AWS route tables for AWS cluster: %s" [clusterName]))
  end.

Definition configureInstanceSourceDestCheck (instanceID : string) (sourceDestCheck : bool) :
    prog awsE (result unit) :=
  let? _ := ec2 (ModifyInstanceAttribute instanceID sourceDestCheck)
    else (λ err, Errorf "error configuring source-dest-check on instance %s: %q"
                   [instanceID; Error err]) in
  Ret (Ok tt).

(** The loop of [CreateRoute]: the last blackholed route to the same block. *)
Definition blackholed (destinationCIDR : string) (routes : list Route) : option Route :=
  foldl (λ deleteRoute r,
    if negb (String.eqb (ToString (rt_DestinationCidrBlock r)) destinationCIDR) then deleteRoute
    else if String.eqb (rt_State r) RouteStateBlackhole then Some r else deleteRoute) None routes.

(** The instances the routes lead to. *)
Definition routedInstances (routes : list Route) : list string :=
  omap (λ r, let instanceID := ToString (rt_InstanceId r) in
             if String.eqb instanceID "" then None else Some instanceID) routes.

Section routes.
(** The rest of [Cloud]: see [Instances]. *)
Context (odd_authority : string → bool)
  (describeInstanceBatcher : list string → prog awsE (result (list Instance_)))
  (nodeInformer : informer) (index : option (string → result (list string))).

(** The second loop of [ListRoutes]. *)
Fixpoint nodeRoutes (clusterName : string) (instances : gmap string Instance_) (table : list Route) :
    result (list NodeRoute) :=
  match table with
  | [] => Ok []
  | r :: table =>
     let destinationCIDR := ToString (rt_DestinationCidrBlock r) in
     if String.eqb destinationCIDR "" then nodeRoutes clusterName instances table else
     let name := clusterName +:+ "-" +:+ destinationCIDR in
     let instanceID := ToString (rt_InstanceId r) in
     if String.eqb (rt_State r) RouteStateBlackhole then
       (routes ←? nodeRoutes clusterName instances table;
        Ok (mkNodeRoute name "" destinationCIDR true :: routes))%go
     else if negb (String.eqb instanceID "") && bool_decide (is_Some (instances !! instanceID)) then
       (node ←? instanceIDToNodeName index instanceID;
        routes ←? nodeRoutes clusterName instances table;
        Ok (mkNodeRoute name node destinationCIDR false :: routes))%go
     else nodeRoutes clusterName instances table
  end.

Definition ListRoutes (c : Cloud) (clusterName : string) : prog awsE (result (list NodeRoute)) :=
  let? table := findRouteTable c clusterName in
  let? instances := getInstancesByIDs describeInstanceBatcher (routedInstances (rtb_Routes table)) in
  Ret (nodeRoutes clusterName instances (rtb_Routes table)).

(** [nameHint] is not used. *)
Definition CreateRoute (c : Cloud) (clusterName : string) (route : NodeRoute) : prog awsE (result unit) :=
  let? instance := getInstanceByNodeName odd_authority describeInstanceBatcher c nodeInformer
    (nr_TargetNode route) in
  let? _ := configureInstanceSourceDestCheck (ToString (i_InstanceId instance)) false in
  let? table := findRouteTable c clusterName in
  let? _ :=
    match blackholed (nr_DestinationCIDR route) (rtb_Routes table) with
    | Some deleteRoute =>
       let? _ := ec2 (DeleteRoute (rtb_RouteTableId table) (rt_DestinationCidrBlock deleteRoute))
         else (λ err, Errorf "error deleting blackholed AWS route (%s): %q"
                        [ToString (rt_DestinationCidrBlock deleteRoute); Error err]) in
       Ret (Ok tt)
    | None => Ret (Ok tt)
    end in
  let? _ := ec2 (AwsApi.CreateRoute (rtb_RouteTableId table) (nr_DestinationCIDR route)
                   (i_InstanceId instance))
    else (λ err, Errorf "error creating AWS route (%s): %q" [nr_DestinationCIDR route; Error err]) in
  Ret (Ok tt).

Definition DeleteRoute (c : Cloud) (clusterName : string) (route : NodeRoute) : prog awsE (result unit) :=
  let? table := findRouteTable c clusterName in
  let? _ := ec2 (AwsApi.DeleteRoute (rtb_RouteTableId table) (Some (nr_DestinationCIDR route)))
    else (λ err, Errorf "error deleting AWS route (%s): %q" [nr_DestinationCIDR route; Error err]) in
  Ret (Ok tt).

End routes.

(** ** Which table, and what is changed *)

(** The route table of the cluster, by what EC2 said: the only table with the id of the
    configuration, or without one the only table that carries the tag of the cluster. *)
Definition cluster_table (c : Cloud) (tr : list (event awsE)) (table : RouteTable) : Prop :=
  if decide (cfg_RouteTableID (c_cfg c) = "") then
    ∃ tables, Ev (EC2 (DescribeRouteTables [])) (Ok tables) ∈ tr ∧ table ∈ tables ∧
      ∀ table', table' ∈ tables → hasClusterTag (c_tagging c) (rtb_Tags table') = true ↔ table' = table
  else Ev (EC2 (DescribeRouteTables [newEc2Filter "route-table-id" [cfg_RouteTableID (c_cfg c)]])) (Ok [table]) ∈ tr.

Lemma cluster_table_app c t u table : cluster_table c t table → cluster_table c (t ++ u) table.
Proof.
  unfold cluster_table. case_decide as Hd; [|set_solver]. intros (l & Hin & Hl). exists l. split; [set_solver|done].
Qed.

Section entitled.
Context (odd_authority : string → bool) (nodeInformer : informer).

(** What entitles the operations on [route] to a call: the check is turned off for the
    instance EC2 gave for the target of the route, and the route leads to that instance. *)
Definition may_route (c : Cloud) (route : NodeRoute) (tr : list (event awsE)) (ev : event awsE) : Prop :=
  match ev_call ev with
  | EC2 (ModifyInstanceAttribute id check) => check = false ∧
      ∃ i, instance_of_node odd_authority nodeInformer c (nr_TargetNode route) tr i ∧ id = ToString (i_InstanceId i)
  | EC2 (AwsApi.DeleteRoute table cidr) => ∃ t r, cluster_table c tr t ∧ table = rtb_RouteTableId t ∧
      r ∈ rtb_Routes t ∧ rt_State r = RouteStateBlackhole ∧
      cidr = rt_DestinationCidrBlock r ∧ ToString cidr = nr_DestinationCIDR route
  | EC2 (AwsApi.CreateRoute table cidr instance) => cidr = nr_DestinationCIDR route ∧
      (∃ t, cluster_table c tr t ∧ table = rtb_RouteTableId t) ∧
      (∃ i, instance_of_node odd_authority nodeInformer c (nr_TargetNode route) tr i ∧ instance = i_InstanceId i) ∧
      Ev (EC2 (ModifyInstanceAttribute (ToString instance) false)) (Ok tt) ∈ tr
  | call => readonly call = true
  end.

Lemma may_route_mono c route t u ev : may_route c route t ev → may_route c route (t ++ u) ev.
Proof.
  unfold may_route. destruct (ev_call ev) as [R call|R call|R call]; destruct call; try done.
  - intros (? & (tb & ? & ?) & (i & ? & ?) & ?). split_and!; [done| | |apply elem_of_app; by left].
    + exists tb. split; [by apply cluster_table_app|done].
    + exists i. split; [by apply instance_of_node_app|done].
  - intros (tb & r & ? & ?). exists tb, r. split; [by apply cluster_table_app|done].
  - intros (? & i & ? & ?). split; [done|]. exists i. split; [by apply instance_of_node_app|done].
Qed.

Lemma may_route_readonly c route t ev : readonly (ev_call ev) = true → may_route c route t ev.
Proof. unfold may_route. destruct (ev_call ev) as [R call|R call|R call]; by destruct call. Qed.
End entitled.

Lemma blackholed_spec cidr routes r :
  blackholed cidr routes = Some r →
  r ∈ routes ∧ rt_State r = RouteStateBlackhole ∧ ToString (rt_DestinationCidrBlock r) = cidr.
Proof.
  unfold blackholed. induction routes as [|x l IH] using rev_ind; [done|].
  rewrite foldl_app. cbn [foldl].
  destruct (String.eqb_spec (ToString (rt_DestinationCidrBlock x)) cidr) as [E|]; cbn [negb];
    [|intros H; destruct (IH H); set_solver].
  destruct (String.eqb_spec (rt_State x) RouteStateBlackhole) as [Es|];
    [|intros H; destruct (IH H); set_solver].
  intros [= <-]. set_solver.
Qed.

(** How [findRouteTable] ends: it only reads, and finds the table of the cluster. *)
Lemma wp_findRouteTable c clusterName t Q :
  (∀ ev r, readonly (ev_call ev) = true →
     (∀ table, r = Ok table → cluster_table c (t ++ [ev]) table) → Q (t ++ [ev]) (Done r)) →
  wp (findRouteTable c clusterName) Q t.
Proof.
  intros HQ. unfold findRouteTable. rewrite wp_try.
  destruct (String.eqb_spec (cfg_RouteTableID (c_cfg c)) "") as [Ec|Ec]; cbn [negb].
  - rewrite wp_try. intros [response|e]; cbn [wp]; [|apply HQ; done].
    destruct (filter _ response) as [|table [|? ?]] eqn:Ef; cbn [wp]; apply HQ; try done.
    intros ? [= <-]. unfold cluster_table. rewrite decide_True by done.
    exists response. split; [apply snoc_elem|]. assert (∀ table', table' ∈ filter (λ table, hasClusterTag (c_tagging c) (rtb_Tags table) = true) response ↔
      table' = table) as Hin by (intros table'; rewrite Ef; set_solver).
    setoid_rewrite list_elem_of_filter in Hin. split; [by apply Hin|]. intros table' Ht'. rewrite <-Hin. tauto.
  - intros [[|table [|? ?]]|e]; cbn [wp]; apply HQ; try done.
    intros ? [= <-]. unfold cluster_table. rewrite decide_False by done. apply snoc_elem.
Qed.

Section facts.
Context (odd_authority : string → bool)
  (describeInstanceBatcher : list string → prog awsE (result (list Instance_)))
  (nodeInformer : informer).
Context (Hb : describes describeInstanceBatcher).
Abbreviation entitled := (may_route odd_authority nodeInformer).

(** Ends of [CreateRoute]: the last call created the route, from the table of the cluster to
    the instance of the target. *)
Definition route_created (c : Cloud) (route : NodeRoute) (tr : list (event awsE))
    (o : outcome (result unit)) : Prop :=
  justified (entitled c route) tr ∧
  (o = Done (Ok tt) → ∃ table instance,
     last tr = Some (Ev (EC2 (AwsApi.CreateRoute table (nr_DestinationCIDR route) instance)) (Ok tt))).

Lemma wp_replaceRoute c route t table i :
  justified (entitled c route) t → cluster_table c t table →
  instance_of_node odd_authority nodeInformer c (nr_TargetNode route) t i →
  Ev (EC2 (ModifyInstanceAttribute (ToString (i_InstanceId i)) false)) (Ok tt) ∈ t →
  ∀ w, wp (try_with w (ec2 (AwsApi.CreateRoute (rtb_RouteTableId table) (nr_DestinationCIDR route) (i_InstanceId i)))
    (λ _, Ret (Ok tt))) (route_created c route) t.
Proof.
  intros Hj Ht Hi Hm w. rewrite wp_try_with. intros r.
  assert (justified (entitled c route)
    (t ++ [Ev (EC2 (AwsApi.CreateRoute (rtb_RouteTableId table) (nr_DestinationCIDR route) (i_InstanceId i))) r])) as Hj'.
  { apply justified_snoc; [done|]. split_and!; [done|by exists table|by exists i|done]. }
  destruct r as [[]|e]; cbn [wp]; (split; [done|]); [|done].
  intros _. exists (rtb_RouteTableId table), (i_InstanceId i). apply last_snoc.
Qed.

(** C16: [CreateRoute] changes only what the route needs, in order: it turns the source and
    destination check off before the route exists, and only for the instance that EC2 listed
    for the target node of the route; it adds the route, to that instance, only to the table
    of the cluster (the one of the configuration, or else the only one with the tag of the
    cluster), and deletes only a blackholed route of that table to the same block; it
    returns nil only when its last call created the route. *)
Theorem CreateRoute_safe c clusterName route :
  wp (CreateRoute odd_authority describeInstanceBatcher nodeInformer c clusterName route)
    (route_created c route) [].
Proof.
  unfold CreateRoute. rewrite wp_try. eapply wp_mono; [by apply (wp_getInstanceByNodeName odd_authority)|].
  intros t1 o [(u & -> & Hro) Hi]. cbn [app] in *.
  assert (justified (entitled c route) u) as Hj1.
  { apply (justified_app _ (may_route_mono _ _ c route) []); [apply justified_nil|].
    eapply Forall_impl; [exact Hro|]. intros ev. apply may_route_readonly. }
  destruct o as [[instance|e]|w]; [|by split..]. specialize (Hi instance eq_refl).
  unfold configureInstanceSourceDestCheck. rewrite wp_try, wp_try_with. intros r. set (t2 := u ++ _).
  assert (justified (entitled c route) t2) as Hj2
    by (apply justified_snoc; [done|]; split; [done|]; by exists instance).
  destruct r as [[]|e]; cbn [wp]; [|by split].
  assert (Ev (EC2 (ModifyInstanceAttribute (ToString (i_InstanceId instance)) false)) (Ok tt) ∈ t2)
    as Hm by apply snoc_elem. apply (instance_of_node_app _ _ _ _ _ [Ev (EC2
      (ModifyInstanceAttribute (ToString (i_InstanceId instance)) false)) (Ok tt)]) in Hi.
  fold t2 in Hi. clearbody t2. rewrite wp_try.
  apply wp_findRouteTable. intros ev [table|e] Hrd Htable;
    (assert (justified (entitled c route) (t2 ++ [ev])) as Hj3
       by (apply justified_snoc; [done|by apply may_route_readonly])); [|by split].
  specialize (Htable table eq_refl). apply (instance_of_node_app _ _ _ _ _ [ev]) in Hi.
  assert (Ev (EC2 (ModifyInstanceAttribute (ToString (i_InstanceId instance)) false)) (Ok tt) ∈ t2 ++ [ev])
    as Hm3 by (apply elem_of_app; by left).
  set (t3 := t2 ++ [ev]) in *. clearbody t3. rewrite wp_try.
  destruct (blackholed _ _) as [r|] eqn:Eb; [|by apply wp_replaceRoute].
  apply blackholed_spec in Eb as (Hin & Hs & Hc). rewrite wp_try_with. intros a.
  assert (justified (entitled c route)
    (t3 ++ [Ev (EC2 (AwsApi.DeleteRoute (rtb_RouteTableId table) (rt_DestinationCidrBlock r))) a])) as Hj4.
  { apply justified_snoc; [done|]. by exists table, r. }
  destruct a as [[]|e]; cbn [wp]; [|by split].
  apply wp_replaceRoute; [done|by apply cluster_table_app|by apply instance_of_node_app|apply elem_of_app; by left].
Qed.

End facts.

(** ** Listing *)
Section listing.
Context (describeInstanceBatcher : list string → prog awsE (result (list Instance_)))
  (index : option (string → result (list string))).
Context (Hb : describes describeInstanceBatcher).

(** A route that is listed: to a block, and blackholed or to one of the instances [found]. *)
Definition listed_route (found : gset string) (r : Route) : Prop :=
  ToString (rt_DestinationCidrBlock r) ≠ "" ∧
  (rt_State r = RouteStateBlackhole ∨ ToString (rt_InstanceId r) ∈ found).

#[local] Instance listed_route_dec found r : Decision (listed_route found r).
Proof. unfold listed_route. apply _. Defined.

(** EC2 decides which instances of the routes are found: each was asked for, and the found
    ones are those it listed. *)
Record found_by_ec2 (tr : list (event awsE)) (routes : list Route) (found : gset string) : Prop := {
  fd_routed : ∀ id, id ∈ found → ∃ i, ec2_has tr id i;
  fd_missing : ∀ r, r ∈ routes → ToString (rt_InstanceId r) ≠ "" → ToString (rt_InstanceId r) ∉ found →
    ec2_lacks tr (ToString (rt_InstanceId r))
}.

(** How it is listed. *)
Record listed_as (clusterName : string) (r : Route) (nr : NodeRoute) : Prop := {
  la_cidr : nr_DestinationCIDR nr = ToString (rt_DestinationCidrBlock r);
  la_name : nr_Name nr = clusterName +:+ "-" +:+ nr_DestinationCIDR nr;
  la_target :
    if nr_Blackhole nr then rt_State r = RouteStateBlackhole ∧ nr_TargetNode nr = ""
    else rt_State r ≠ RouteStateBlackhole ∧
         instanceIDToNodeName index (ToString (rt_InstanceId r)) = Ok (nr_TargetNode nr)
}.

Lemma nodeRoutes_listed clusterName instances table routes found :
  (∀ r, r ∈ table → ToString (rt_InstanceId r) ∈ found ↔
     ToString (rt_InstanceId r) ≠ "" ∧ is_Some (instances !! ToString (rt_InstanceId r))) →
  nodeRoutes index clusterName instances table = Ok routes →
  Forall2 (listed_as clusterName) (filter (listed_route found) table) routes.
Proof.
  revert routes. induction table as [|r table IH]; intros routes Hf; cbn [nodeRoutes].
  { intros [= <-]. constructor. }
  rewrite filter_cons. pose proof (Hf r (list_elem_of_here _ _)) as Hr.
  specialize (λ routes, IH routes (λ r' Hr', Hf r' (list_elem_of_further _ _ _ Hr'))) as IH'. clear IH. rename IH' into IH.
  destruct (String.eqb_spec (ToString (rt_DestinationCidrBlock r)) "") as [E|E].
  { rewrite decide_False by (by intros [? _]). apply IH. }
  destruct (String.eqb_spec (rt_State r) RouteStateBlackhole) as [Es|Es].
  { rewrite decide_True by (split; auto).
    destruct (nodeRoutes _ _ _ _) as [rs|]; cbn [rbind]; [|done]. intros [= <-].
    constructor; [by split|]. by apply IH. }
  destruct (String.eqb_spec (ToString (rt_InstanceId r)) "") as [Ei|Ei]; cbn [negb andb].
  { rewrite decide_False by (intros [_ [?|?]]; naive_solver). apply IH. }
  case_bool_decide as Hi.
  - rewrite decide_True by (split; [done|right; by apply Hr]).
    destruct (instanceIDToNodeName index _) as [node|] eqn:En; cbn [rbind]; [|done].
    destruct (nodeRoutes _ _ _ _) as [rs|]; cbn [rbind]; [|done]. intros [= <-].
    constructor; [by split|]. by apply IH.
  - rewrite decide_False by (intros [_ [?|?]]; naive_solver). apply IH.
Qed.

Lemma elem_of_routedInstances routes id :
  id ∈ routedInstances routes ↔ id ≠ "" ∧ ∃ r, r ∈ routes ∧ ToString (rt_InstanceId r) = id.
Proof.
  unfold routedInstances. rewrite list_elem_of_omap. split.
  - intros (r & Hr & E). cbv zeta in E. destruct (String.eqb_spec (ToString (rt_InstanceId r)) ""); [done|].
    injection E as <-. split; [done|]. by exists r.
  - intros (Hne & r & Hr & <-). exists r. split; [done|]. cbv zeta.
    by destruct (String.eqb_spec (ToString (rt_InstanceId r)) "").
Qed.

(** The instances of the routes that a map of instances has. *)
Definition found_in (instances : gmap string Instance_) (routes : list Route) : gset string :=
  list_to_set (filter (λ id, is_Some (instances !! id)) (routedInstances routes)).

(** C37: [ListRoutes] only reads, and lists exactly the routes of the table of the cluster
    that are blackholed or lead to an instance that EC2 listed when it was asked for it, in
    the order of the table, each under its block and the node of its instance; EC2 is asked
    for the instance of every route, and only a route whose instance it did not list is left
    out. *)
Theorem ListRoutes_exact c clusterName :
  wp (ListRoutes describeInstanceBatcher index c clusterName) (λ tr o,
    read_only tr ∧
    match o with
    | Done (Ok routes) => ∃ table found, cluster_table c tr table ∧
        found_by_ec2 tr (rtb_Routes table) found ∧
        Forall2 (listed_as clusterName) (filter (listed_route found) (rtb_Routes table)) routes
    | _ => True
    end) [].
Proof.
  unfold ListRoutes. rewrite wp_try. apply wp_findRouteTable.
  intros ev [table|e] Hro Ht; [|by repeat constructor]. specialize (Ht table eq_refl).
  rewrite wp_try. eapply wp_mono; [by apply wp_getInstancesByIDs|].
  intros t o (u & -> & Hu & Hm).
  assert (read_only (([] ++ [ev]) ++ u)) as Hall by (apply Forall_app; split; [by repeat constructor|done]).
  destruct o as [[instances|e]|w]; [|done..]. cbn [wp]. split; [done|]. specialize (Hm instances eq_refl).
  destruct (nodeRoutes _ _ _ _) as [routes|] eqn:E; [|done].
  exists table, (found_in instances (rtb_Routes table)). split; [by apply cluster_table_app|].
  assert (∀ id, id ∈ found_in instances (rtb_Routes table) ↔
    id ∈ routedInstances (rtb_Routes table) ∧ is_Some (instances !! id)) as Hfound.
  { intros id. unfold found_in. rewrite elem_of_list_to_set, list_elem_of_filter. tauto. }
  assert (∀ r, r ∈ rtb_Routes table → ToString (rt_InstanceId r) ≠ "" →
    ToString (rt_InstanceId r) ∈ routedInstances (rtb_Routes table)) as Hrouted.
  { intros r Hr Hne. apply elem_of_routedInstances. eauto. }
  split; [split|].
  - intros id [Hid [i Hi]]%Hfound. pose proof (Hm id Hid) as H. rewrite Hi in H. by exists i.
  - intros r Hr Hne Hn. pose proof (Hm _ (Hrouted r Hr Hne)) as H.
    destruct (instances !! _) as [i|] eqn:Ei; [|by apply H]. destruct Hn. apply Hfound. split; [by apply Hrouted|by eexists].
  - eapply nodeRoutes_listed; [|done]. intros r Hr. rewrite Hfound. split.
    + intros [[? _]%elem_of_routedInstances ?]. done.
    + intros [? ?]. split; [by apply Hrouted|done].
Qed.
End listing.

(** ** A cluster with one route *)
Definition route_cloud : Cloud :=
  mkCloud empty_config "us-east-1" "vpc-1" (mkTagging "c1" false) no_instance.
Definition route_instance (id : string) : Instance_ :=
  mkInstance (Some id) "m5.large" None None None None [] [] (Some "running") None None [].
Definition route_table : RouteTable :=
  mkRouteTable (Some "rtb-1") []
    [mkRoute (Some "10.0.0.0/24") None (Some "i-0") RouteStateBlackhole;
     mkRoute (Some "10.0.1.0/24") None (Some "i-1") "active"; mkRoute (Some "10.0.2.0/24") None (Some "i-2") "active"]
    [mkTag (Some (clusterTagKey (mkTagging "c1" false))) (Some "owned")].

(** EC2 with one instance of the two the table leads to. *)
Definition route_service : handler awsE unit := λ R c s,
  (match c in awsE R return result R with
   | EC2 c =>
      match c in ec2E R return result R with
      | DescribeInstances _ _ => Ok [route_instance "i-1"]
      | DescribeRouteTables _ => Ok [route_table]
      | ModifyInstanceAttribute _ _ | AwsApi.CreateRoute _ _ _ | AwsApi.DeleteRoute _ _ => Ok tt
      | _ => Err (Errorf "unexpected call" [])
      end
   | _ => Err (Errorf "unexpected call" [])
   end, s).

Definition create_one : prog awsE (result unit) :=
  CreateRoute (λ _, false) direct None route_cloud "c1" (mkNodeRoute "" "i-1.ec2.internal" "10.0.0.0/24" false).

(** The blackholed route to the block is replaced by one to the instance. *)
Lemma CreateRoute_safe_witness :
  let '(o, _, tr) := run route_service create_one tt [] in
  o = Done (Ok tt) ∧ length tr = 5 ∧
  route_created (λ _, false) None route_cloud (mkNodeRoute "" "i-1.ec2.internal" "10.0.0.0/24" false) tr o.
Proof.
  pose proof (wp_run route_service create_one _ tt []
    (CreateRoute_safe (λ _, false) direct None direct_describes route_cloud "c1"
       (mkNodeRoute "" "i-1.ec2.internal" "10.0.0.0/24" false))) as H.
  assert ((run route_service create_one tt []).1.1 = Done (Ok tt) ∧
    length (run route_service create_one tt []).2 = 5) as [Ho Hl] by (split; vm_compute; reflexivity).
  destruct (run route_service create_one tt []) as [[o s] tr]. split; [exact Ho|]. split; [exact Hl|exact H].
Defined.

Definition list_all : prog awsE (result (list NodeRoute)) :=
  ListRoutes direct (Some (λ id, Ok ["node-" +:+ id])) route_cloud "c1".

(** The route to the instance EC2 does not list is left out. *)
Lemma ListRoutes_exact_witness :
  let '(o, _, tr) := run route_service list_all tt [] in
  let routes := [mkNodeRoute "c1-10.0.0.0/24" "" "10.0.0.0/24" true;
                 mkNodeRoute "c1-10.0.1.0/24" "node-i-1" "10.0.1.0/24" false] in
  o = Done (Ok routes) ∧
  ∃ table found, cluster_table route_cloud tr table ∧ found_by_ec2 tr (rtb_Routes table) found ∧
    Forall2 (listed_as (Some (λ id, Ok ["node-" +:+ id])) "c1") (filter (listed_route found) (rtb_Routes table)) routes.
Proof.
  pose proof (wp_run route_service list_all _ tt []
    (ListRoutes_exact direct (Some (λ id, Ok ["node-" +:+ id])) direct_describes route_cloud "c1")) as H.
  assert ((run route_service list_all tt []).1.1 = Done (Ok
    [mkNodeRoute "c1-10.0.0.0/24" "" "10.0.0.0/24" true;
     mkNodeRoute "c1-10.0.1.0/24" "node-i-1" "10.0.1.0/24" false])) as Ho by (vm_compute; reflexivity).
  destruct (run route_service list_all tt []) as [[o s] tr]. cbn [fst] in Ho. subst o. split; [reflexivity|apply H].
Defined.
