(* ===== verification/Batcher.v ===== *)
(** * Batching of requests (batcher/batcher.go)

    Callers of [Add] register a request, wake the batcher through a channel of capacity one
    and wait for their answer.  The batcher collects until it is idle, takes the requests
    registered so far, and hands the requests of each hash to a worker, which calls the
    executor once and answers every request.  The goroutines are the steps of a relation on
    the shared state; the executor is any relation between inputs and results. *)

From S2P Require Import Prelude GoLib Effects.
Import Errors.

(** [Result[U]]: the output pointer and the error. *)
Record Result (U : Type) := mkResult { Output : option U; Err_ : option error }.
Arguments mkResult {U} _ _.
Arguments Output {U} _.
Arguments Err_ {U} _.

Record request (T : Type) := mkRequest {
  req_id : nat;  (** stands for the channel [requestor] *)
  req_hash : Z;
  req_input : T
}.
Arguments mkRequest {T} _ _ _.
Arguments req_id {T} _.
Arguments req_hash {T} _.
Arguments req_input {T} _.

(** The options that decide what the batcher does; the timeouts only decide when. *)
Record Options (T : Type) := mkOptions {
  MaxItems : nat;
  MaxRequestWorkers : nat;
  RequestHasher : T → Z
}.
Arguments mkOptions {T} _ _ _.
Arguments MaxItems {T} _.
Arguments MaxRequestWorkers {T} _.
Arguments RequestHasher {T} _.

(** The limit of the worker group. *)
Definition workerLimit {T} (options : Options T) : nat :=
  if MaxRequestWorkers options =? 0 then 100 else MaxRequestWorkers options.

(** What [runCalls] sends to the requestors, from the results of the executor; [None] is an
    index out of range. *)
Definition runCalls {T U} (requests : list (request T)) (results : list (Result U)) :
    option (list (nat * Result U)) :=
  if length requests <? length results then None
  else Some (zip (req_id <$> requests)
    (results ++ replicate (length requests - length results)
                  (mkResult None (Some (Errorf "error making call" []))))).

(** Where the goroutine [run] is. *)
Inductive phase (T : Type) :=
  | Idle
  | Collecting (count : nat)
  | Flushing
  | Dispatching (batches : list (list (request T)))
  | Stopped.
Arguments Idle {T}.
Arguments Collecting {T} count.
Arguments Flushing {T}.
Arguments Dispatching {T} batches.
Arguments Stopped {T}.

Record Batcher (T U : Type) := mkBatcher {
  b_cancelled : bool;                       (** the context is done *)
  b_requests : gmap Z (list (request T));
  b_trigger : bool;                         (** the channel [trigger] holds a value *)
  b_run : phase T;
  b_workers : list (list (request T));      (** batches handed to [runCalls] *)
  b_triggering : gset nat;                  (** callers at [b.trigger <- struct{}{}] *)
  b_requestors : gmap nat (Result U);       (** answers in the channels [requestor] *)
  b_returned : gmap nat (Result U);         (** what [Add] returned *)
  b_next : nat;                             (** the number of requests so far *)
  b_executed : list (list (request T) * list (Result U))  (** calls of the executor so far *)
}.
Arguments mkBatcher {T U} _ _ _ _ _ _ _ _ _ _.
Arguments b_cancelled {T U} _.
Arguments b_requests {T U} _.
Arguments b_trigger {T U} _.
Arguments b_run {T U} _.
Arguments b_workers {T U} _.
Arguments b_triggering {T U} _.
Arguments b_requestors {T U} _.
Arguments b_returned {T U} _.
Arguments b_next {T U} _.
Arguments b_executed {T U} _.

Definition NewBatcher {T U} : Batcher T U :=
  mkBatcher false ∅ false Idle [] ∅ ∅ ∅ 0 [].

Section batcher.
Context {T U : Type} (options : Options T)
  (BatchExecutor : list T → list (Result U) → Prop).
Implicit Types b : Batcher T U.

(** The collection goes on while there is room. *)
Definition collecting (count : nat) : bool :=
  (MaxItems options =? 0) || (count <? MaxItems options).

(** The first half of [Add]: the request is registered under its hash. *)
Definition register (input : T) b : Batcher T U :=
  let r := mkRequest (b_next b) (RequestHasher options input) input in
  mkBatcher (b_cancelled b)
    (<[req_hash r := default [] (b_requests b !! req_hash r) ++ [r]]> (b_requests b))
    (b_trigger b) (b_run b) (b_workers b) ({[b_next b]} ∪ b_triggering b)
    (b_requestors b) (b_returned b) (S (b_next b)) (b_executed b).

(** The goroutine [run] moves on, with a new content of [trigger]. *)
Definition set_run (p : phase T) (trigger : bool) b : Batcher T U :=
  mkBatcher (b_cancelled b) (b_requests b) trigger p (b_workers b) (b_triggering b)
    (b_requestors b) (b_returned b) (b_next b) (b_executed b).

(** The requests taken, in some order of their hashes. *)
Definition flush (batches : list (list (request T))) b : Batcher T U :=
  mkBatcher (b_cancelled b) ∅ (b_trigger b) (Dispatching batches) (b_workers b) (b_triggering b)
    (b_requestors b) (b_returned b) (b_next b) (b_executed b).

(** Steps of the goroutines other than a new call of [Add]. *)
Inductive step : Batcher T U → Batcher T U → Prop :=
  | step_trigger b i :
      i ∈ b_triggering b → b_trigger b = false →
      step b (mkBatcher (b_cancelled b) (b_requests b) true (b_run b) (b_workers b)
                (b_triggering b ∖ {[i]}) (b_requestors b) (b_returned b) (b_next b) (b_executed b))
  | step_receive b i result :
      i ∉ b_triggering b → b_requestors b !! i = Some result →
      step b (mkBatcher (b_cancelled b) (b_requests b) (b_trigger b) (b_run b) (b_workers b)
                (b_triggering b) (delete i (b_requestors b)) (<[i := result]> (b_returned b))
                (b_next b) (b_executed b))
  | step_wake b :
      b_run b = Idle → b_trigger b = true → step b (set_run (Collecting 1) false b)
  | step_stop b :
      b_run b = Idle → b_cancelled b = true → step b (set_run Stopped (b_trigger b) b)
  | step_more b count :
      b_run b = Collecting count → collecting count = true → b_trigger b = true →
      step b (set_run (Collecting (S count)) false b)
  | step_timer b count :  (** a timer fires, or the context is done *)
      b_run b = Collecting count → collecting count = true →
      step b (set_run Flushing (b_trigger b) b)
  | step_full b count :
      b_run b = Collecting count → collecting count = false →
      step b (set_run Flushing (b_trigger b) b)
  | step_flush b batches :
      b_run b = Flushing → batches ≡ₚ (map_to_list (b_requests b)).*2 →
      step b (flush batches b)
  | step_dispatch b batch batches :
      b_run b = Dispatching (batch :: batches) → length (b_workers b) < workerLimit options →
      step b (mkBatcher (b_cancelled b) (b_requests b) (b_trigger b) (Dispatching batches)
                (b_workers b ++ [batch]) (b_triggering b) (b_requestors b) (b_returned b)
                (b_next b) (b_executed b))
  | step_dispatched b :
      b_run b = Dispatching [] → step b (set_run Idle (b_trigger b) b)
  | step_work b before batch after results answers :
      b_workers b = before ++ batch :: after →
      BatchExecutor (req_input <$> batch) results → runCalls batch results = Some answers →
      step b (mkBatcher (b_cancelled b) (b_requests b) (b_trigger b) (b_run b) (before ++ after)
                (b_triggering b) (list_to_map answers ∪ b_requestors b) (b_returned b)
                (b_next b) (b_executed b ++ [(batch, results)])).

(** The states the batcher can be in: new calls of [Add] and the end of the context come
    from outside. *)
Inductive reachable : Batcher T U → Prop :=
  | reachable_new : reachable NewBatcher
  | reachable_add b input : reachable b → reachable (register input b)
  | reachable_cancel b : reachable b →
      reachable (mkBatcher true (b_requests b) (b_trigger b) (b_run b) (b_workers b)
        (b_triggering b) (b_requestors b) (b_returned b) (b_next b) (b_executed b))
  | reachable_step b b' : reachable b → step b b' → reachable b'.
End batcher.

(** ** Where a request is *)
Section invariant.
Context {T U : Type} (options : Options T)
  (BatchExecutor : list T → list (Result U) → Prop).
Implicit Types (b : Batcher T U) (r : request T).

Definition dispatching (p : phase T) : list (list (request T)) :=
  match p with Dispatching batches => batches | _ => [] end.
Definition pending b : list (request T) := concat (map_to_list (b_requests b)).*2.
(** Registered and not yet answered. *)
Definition inflight b : list (request T) :=
  pending b ++ concat (dispatching (b_run b)) ++ concat (b_workers b).

(** Each of the first [n] requests is at exactly one place: in flight, answered, or
    returned to its caller. *)
Record placed (l : list (request T)) (requestors returned : gmap nat (Result U)) (n : nat) : Prop := {
  pl_once : NoDup (req_id <$> l);
  pl_all : ∀ i, i < n ↔ i ∈ req_id <$> l ∨ is_Some (requestors !! i) ∨ is_Some (returned !! i);
  pl_flight : ∀ i, i ∈ req_id <$> l → requestors !! i = None ∧ returned !! i = None;
  pl_answered : ∀ i, is_Some (requestors !! i) → returned !! i = None
}.

Lemma placed_perm l l' q ret n : l ≡ₚ l' → placed l q ret n → placed l' q ret n.
Proof.
  intros Hp [H1 H2 H3 H4]. assert (req_id <$> l ≡ₚ req_id <$> l') as E by by rewrite Hp.
  split; [by rewrite <-E| |  |done].
  - intros i. by rewrite H2, E.
  - intros i. rewrite <-E. apply H3.
Qed.

Lemma placed_register l q ret n r :
  placed l q ret n → req_id r = n → placed (r :: l) q ret (S n).
Proof.
  intros [H1 H2 H3 H4] Hr.
  assert (n ∉ req_id <$> l ∧ q !! n = None ∧ ret !! n = None) as (Hn1 & Hn2 & Hn3).
  { split_and!; [intros Hn|destruct (q !! n) eqn:E; [exfalso|done]|destruct (ret !! n) eqn:E; [exfalso|done]].
    all: assert (n < n) by (apply H2; eauto); lia. }
  split; rewrite ?fmap_cons, ?Hr.
  - by constructor.
  - intros i. rewrite elem_of_cons. split.
    + intros Hi. destruct (decide (i = n)) as [->|]; [auto|].
      assert (i < n) as [?|?]%H2 by lia; auto.
    + intros Hi. destruct (decide (i = n)) as [->|]; [lia|].
      assert (i < n) by (apply H2; naive_solver). lia.
  - intros i [->|Hi]%elem_of_cons; [done|auto].
  - done.
Qed.

Lemma placed_receive l q ret n i R :
  placed l q ret n → q !! i = Some R → placed l (delete i q) (<[i := R]> ret) n.
Proof.
  intros [H1 H2 H3 H4] Hi. split; [done| | |].
  - intros j. rewrite H2. destruct (decide (i = j)) as [<-|Hj].
    + rewrite lookup_delete_eq, lookup_insert_eq, Hi. naive_solver.
    + by rewrite lookup_delete_ne, lookup_insert_ne.
  - intros j Hj. destruct (decide (i = j)) as [<-|Hne]; [apply H3 in Hj as [? _]; congruence|].
    rewrite lookup_delete_ne, lookup_insert_ne by done. auto.
  - intros j. destruct (decide (i = j)) as [<-|Hne].
    + rewrite lookup_delete_eq. by intros [? ?].
    + rewrite lookup_delete_ne, lookup_insert_ne by done. auto.
Qed.

Lemma placed_work batch l (answers : list (nat * Result U)) q ret n :
  placed (batch ++ l) q ret n → answers.*1 = req_id <$> batch →
  placed l (list_to_map answers ∪ q) ret n.
Proof.
  intros [H1 H2 H3 H4] Ha. rewrite fmap_app in *. apply NoDup_app in H1 as (Hn1 & Hd & Hn2).
  assert (∀ i, is_Some ((list_to_map answers : gmap nat (Result U)) !! i) ↔ i ∈ req_id <$> batch) as Hm.
  { intros i. rewrite <-Ha. split.
    - intros [R E%elem_of_list_to_map_2]. apply list_elem_of_fmap. by exists (i, R).
    - intros Hi. destruct (_ !! i) eqn:E; [by eauto|]. by apply not_elem_of_list_to_map in E. }
  assert (∀ i, is_Some ((list_to_map answers ∪ q) !! i) ↔ i ∈ req_id <$> batch ∨ is_Some (q !! i)) as Hu.
  { intros i. rewrite lookup_union, <-Hm. destruct (_ !! i), (q !! i); naive_solver. }
  split; [done| | |].
  - intros i. rewrite H2, Hu, elem_of_app. naive_solver.
  - intros i Hi. assert (i ∉ req_id <$> batch) by (intros ?; by eapply Hd).
    destruct (H3 i) as [Hq Hr]; [apply elem_of_app; auto|]. split; [|done].
    apply eq_None_not_Some. rewrite Hu, Hq. intros [?|[? ?]]; done.
  - intros i [Hi|Hi]%Hu; [apply H3, elem_of_app; auto|auto].
Qed.

(** The answer [R] to the request [i] is what one call of the executor gave for it. *)
Definition genuine b (i : nat) (R : Result U) : Prop :=
  ∃ batch results k r, (batch, results) ∈ b_executed b ∧
    BatchExecutor (req_input <$> batch) results ∧ batch !! k = Some r ∧ req_id r = i ∧
    R = default (mkResult None (Some (Errorf "error making call" []))) (results !! k).

Definition uniform (l : list (request T)) : Prop :=
  l ≠ [] ∧ ∃ h, Forall (λ r, req_hash r = h ∧ RequestHasher options (req_input r) = h) l.

(** The invariant of the batcher. *)
Record batcher_inv b : Prop := {
  bi_placed : placed (inflight b) (b_requestors b) (b_returned b) (b_next b);
  bi_buckets : ∀ h l, b_requests b !! h = Some l →
    l ≠ [] ∧ Forall (λ r, req_hash r = h ∧ RequestHasher options (req_input r) = h) l;
  bi_batches : Forall uniform (dispatching (b_run b) ++ b_workers b);
  bi_executed : Forall (λ e, uniform e.1 ∧ BatchExecutor (req_input <$> e.1) e.2) (b_executed b);
  bi_genuine : ∀ i R, b_requestors b !! i = Some R ∨ b_returned b !! i = Some R → genuine b i R;
  bi_triggering : ∀ i, i ∈ b_triggering b → i < b_next b ∧ b_returned b !! i = None;
  bi_wake : match b_run b with
    | Idle | Dispatching _ => ∀ r, r ∈ pending b → req_id r ∉ b_triggering b → b_trigger b = true
    | _ => True
    end;
  bi_stopped : b_run b = Stopped → b_cancelled b = true
}.

(** ** Every step keeps the invariant *)
Lemma concat_perm {A} (l l' : list (list A)) : l ≡ₚ l' → concat l ≡ₚ concat l'.
Proof.
  induction 1 as [|x l l' _ IH|x y l|l1 l2 l3 _ IH1 _ IH2]; cbn [concat]; [done|by rewrite IH| |].
  - rewrite !(assoc_L (++)). by rewrite (Permutation_app_comm y x).
  - by rewrite IH1.
Qed.

Lemma bucket_perm (m : gmap Z (list (request T))) h r :
  concat (map_to_list (<[h := default [] (m !! h) ++ [r]]> m)).*2 ≡ₚ r :: concat (map_to_list m).*2.
Proof.
  destruct (m !! h) as [l|] eqn:E; cbn [default].
  - assert (map_to_list m ≡ₚ (h, l) :: map_to_list (delete h m)) as E1
      by (symmetry; by apply map_to_list_delete).
    assert (map_to_list (<[h := l ++ [r]]> m) ≡ₚ (h, l ++ [r]) :: map_to_list (delete h m)) as E2
      by (rewrite <-insert_delete_eq; apply map_to_list_insert, lookup_delete_eq).
    rewrite (concat_perm _ _ (fmap_Permutation snd _ _ E1)), (concat_perm _ _ (fmap_Permutation snd _ _ E2)).
    rewrite !fmap_cons. cbn [concat snd]. rewrite <-(assoc_L (++)). symmetry. apply Permutation_middle.
  - assert (map_to_list (<[h := [r]]> m) ≡ₚ (h, [r]) :: map_to_list m) as E2
      by by apply map_to_list_insert.
    by rewrite (concat_perm _ _ (fmap_Permutation snd _ _ E2)).
Qed.

Lemma inflight_register b input :
  inflight (register options input b) ≡ₚ
  mkRequest (b_next b) (RequestHasher options input) input :: inflight b.
Proof. unfold inflight, pending. cbn. by rewrite bucket_perm. Qed.

Lemma elem_of_bucket b r : r ∈ pending b ↔ ∃ h l, b_requests b !! h = Some l ∧ r ∈ l.
Proof.
  unfold pending. rewrite list_elem_of_In, in_concat. setoid_rewrite <-list_elem_of_In.
  setoid_rewrite list_elem_of_fmap. split.
  - intros (l & ([h l'] & -> & H%elem_of_map_to_list) & Hr). by exists h, l'.
  - intros (h & l & H & Hr). exists l. split; [|done]. exists (h, l). by rewrite elem_of_map_to_list.
Qed.

Lemma inv_new : batcher_inv NewBatcher.
Proof.
  split; cbn; try done; try set_solver.
  split; cbn; [constructor|intros i; split; [lia|]|set_solver|].
  - intros [?|[[? ?]|[? ?]]]; set_solver.
  - intros i [? ?]. set_solver.
Qed.

Lemma inv_register b input :
  batcher_inv b → batcher_inv (register options input b).
Proof.
  intros [H1 H2 H3 H4 H5 H6 H7 H8]. split; try done.
  - eapply placed_perm; [symmetry; apply inflight_register|]. by apply placed_register.
  - intros h l. cbn. destruct (decide (RequestHasher options input = h)) as [<-|Hne].
    + rewrite lookup_insert_eq. intros [= <-]. split; [by destruct (default _ _)|].
      apply Forall_app. split; [|by repeat constructor].
      destruct (b_requests b !! _) eqn:E; [by eapply H2|constructor].
    + rewrite lookup_insert_ne by done. apply H2.
  - intros i. cbn. rewrite elem_of_union, elem_of_singleton. intros [->|Hi].
    + split; [lia|]. destruct (b_returned b !! b_next b) eqn:E; [|done].
      assert (b_next b < b_next b); [|lia]. apply (pl_all _ _ _ _ H1). eauto.
    + destruct (H6 i Hi). split; [lia|done].
  - change (match b_run b with
      | Idle | Dispatching _ => ∀ r, r ∈ pending (register options input b) →
          req_id r ∉ {[b_next b]} ∪ b_triggering b → b_trigger b = true
      | _ => True end).
    assert (∀ r, r ∈ pending (register options input b) →
      r = mkRequest (b_next b) (RequestHasher options input) input ∨ r ∈ pending b) as Hp.
    { intros r. unfold pending at 1. cbn. rewrite bucket_perm. apply elem_of_cons. }
    destruct (b_run b); try done; intros r [->|Hr]%Hp Hn; cbn in Hn; try set_solver;
      (eapply H7; [exact Hr|set_solver]).
Qed.

Lemma inv_cancel b :
  batcher_inv b →
  batcher_inv (mkBatcher true (b_requests b) (b_trigger b) (b_run b) (b_workers b)
    (b_triggering b) (b_requestors b) (b_returned b) (b_next b) (b_executed b)).
Proof. by intros []. Qed.

(** A move of [run] that hands out nothing. *)
Lemma inv_set_run b p trigger :
  dispatching p = dispatching (b_run b) →
  match p with
  | Idle | Dispatching _ => ∀ r, r ∈ pending b → req_id r ∉ b_triggering b → trigger = true
  | Stopped => b_cancelled b = true
  | _ => True
  end →
  batcher_inv b → batcher_inv (set_run p trigger b).
Proof.
  intros Hd Hp [H1 H2 H3 H4 H5 H6 H7 H8]. split; try done.
  - unfold inflight in *. cbn. by rewrite Hd.
  - cbn. by rewrite Hd.
  - cbn. by destruct p.
  - cbn. by intros ->.
Qed.

Lemma runCalls_ids (batch : list (request T)) (results : list (Result U)) answers :
  runCalls batch results = Some answers → answers.*1 = req_id <$> batch.
Proof.
  unfold runCalls. destruct (Nat.ltb_spec (length batch) (length results)); [done|]. intros [= <-].
  rewrite fst_zip; [done|]. rewrite length_fmap, length_app, length_replicate. lia.
Qed.

Lemma runCalls_lookup (batch : list (request T)) (results : list (Result U)) answers i R :
  runCalls batch results = Some answers → (i, R) ∈ answers →
  ∃ k r, batch !! k = Some r ∧ req_id r = i ∧
    R = default (mkResult None (Some (Errorf "error making call" []))) (results !! k).
Proof.
  unfold runCalls. destruct (Nat.ltb_spec (length batch) (length results)); [done|]. intros [= <-].
  rewrite list_elem_of_lookup. intros (k & Hk). apply lookup_zip_Some in Hk as [Hi HR].
  rewrite list_lookup_fmap in Hi. destruct (batch !! k) as [r|] eqn:Er; cbn in Hi; [|done].
  injection Hi as <-. exists k, r. split_and!; [done..|].
  apply lookup_app_Some in HR as [HR|[Hl HR]]; [by rewrite HR|].
  apply lookup_replicate in HR as [-> _]. by rewrite (lookup_ge_None_2 results k).
Qed.

Lemma genuine_grows b e i R :
  genuine b i R → ∀ b', b_executed b' = b_executed b ++ e → genuine b' i R.
Proof.
  intros (batch & results & k & r & Hin & H) b' E. exists batch, results, k, r.
  split; [rewrite E; apply elem_of_app; by left|done].
Qed.

Lemma inv_trigger b i :
  i ∈ b_triggering b → batcher_inv b →
  batcher_inv (mkBatcher (b_cancelled b) (b_requests b) true (b_run b) (b_workers b)
    (b_triggering b ∖ {[i]}) (b_requestors b) (b_returned b) (b_next b) (b_executed b)).
Proof.
  intros Hi [H1 H2 H3 H4 H5 H6 H7 H8]. split; try done; cbn.
  - intros j [Hj _]%elem_of_difference. auto.
  - by destruct (b_run b).
Qed.

Lemma inv_receive b i R :
  i ∉ b_triggering b → b_requestors b !! i = Some R → batcher_inv b →
  batcher_inv (mkBatcher (b_cancelled b) (b_requests b) (b_trigger b) (b_run b) (b_workers b)
    (b_triggering b) (delete i (b_requestors b)) (<[i := R]> (b_returned b)) (b_next b) (b_executed b)).
Proof.
  intros Hi HR [H1 H2 H3 H4 H5 H6 H7 H8]. split; try done; cbn.
  - by apply placed_receive.
  - intros j S [[_ ?]%lookup_delete_Some|[[<- <-]|[_ ?]]%lookup_insert_Some]; apply H5; auto.
  - intros j Hj. destruct (H6 j Hj). rewrite lookup_insert_ne; [done|]. by intros ->.
Qed.

Lemma inv_flush b batches :
  b_run b = Flushing → batches ≡ₚ (map_to_list (b_requests b)).*2 → batcher_inv b →
  batcher_inv (flush batches b).
Proof.
  intros Hr Hb [H1 H2 H3 H4 H5 H6 H7 H8]. rewrite Hr in *. split; try done.
  - eapply placed_perm; [|exact H1]. unfold inflight, pending. rewrite Hr. cbn.
    rewrite map_to_list_empty. cbn. by rewrite (concat_perm _ _ Hb).
  - cbn. rewrite Hb. apply Forall_app. split; [|done].
    rewrite Forall_forall. intros l ([h l'] & -> & Hl%elem_of_map_to_list)%list_elem_of_fmap.
    destruct (H2 h l' Hl). split; [done|]. by exists h.
  - cbn. intros r Hr'. apply elem_of_bucket in Hr' as (h & l & Hl & _). cbn in Hl. set_solver.
Qed.

Lemma inv_dispatch b batch batches :
  b_run b = Dispatching (batch :: batches) → batcher_inv b →
  batcher_inv (mkBatcher (b_cancelled b) (b_requests b) (b_trigger b) (Dispatching batches)
    (b_workers b ++ [batch]) (b_triggering b) (b_requestors b) (b_returned b) (b_next b) (b_executed b)).
Proof.
  intros Hr [H1 H2 H3 H4 H5 H6 H7 H8]. rewrite Hr in *. split; try done.
  - eapply placed_perm; [|exact H1]. unfold inflight. rewrite Hr. cbn. rewrite concat_app. cbn.
    apply Permutation_app_head. rewrite app_nil_r, <-(assoc_L (++)).
    rewrite (Permutation_app_comm batch). by rewrite <-(assoc_L (++)).
  - cbn in *. rewrite (assoc_L (++)). apply Forall_app.
    apply Forall_cons in H3 as [Hb H3]. split; [done|by constructor].
Qed.

Lemma inv_work b before batch after results answers :
  b_workers b = before ++ batch :: after → BatchExecutor (req_input <$> batch) results →
  runCalls batch results = Some answers → batcher_inv b →
  batcher_inv (mkBatcher (b_cancelled b) (b_requests b) (b_trigger b) (b_run b) (before ++ after)
    (b_triggering b) (list_to_map answers ∪ b_requestors b) (b_returned b) (b_next b)
    (b_executed b ++ [(batch, results)])).
Proof.
  intros Hw He Hrun [H1 H2 H3 H4 H5 H6 H7 H8]. rewrite Hw in H3.
  apply Forall_app in H3 as [H3d H3w]. apply Forall_app in H3w as [H3b H3a].
  apply Forall_cons in H3a as [Hbatch H3a]. split; try done; cbn.
  - apply placed_work with batch; [|by eapply runCalls_ids].
    eapply placed_perm; [|exact H1]. unfold inflight. rewrite Hw. cbn. rewrite !concat_app. cbn.
    symmetry. do 3 (rewrite Permutation_app_swap_app; apply Permutation_app_head). done.
  - apply Forall_app. split; [done|by apply Forall_app].
  - apply Forall_app. split; [done|]. by apply Forall_singleton.
  - intros i R [[HR|[_ HR]]%lookup_union_Some_raw|HR].
    + apply elem_of_list_to_map_2 in HR.
      destruct (runCalls_lookup _ _ _ _ _ Hrun HR) as (k & r & Hk & Hid & HRk).
      exists batch, results, k, r. split; [apply snoc_elem|done].
    + eapply genuine_grows; [apply H5; by left|done].
    + eapply genuine_grows; [apply H5; by right|done].
Qed.

Lemma batcher_inv_step b b' : step options BatchExecutor b b' → batcher_inv b → batcher_inv b'.
Proof.
  intros Hs Hi. destruct Hs as [b i ? ?|b i R ? ?|b Hr ?|b Hr ?|b n Hr ? ?|b n Hr ?|b n Hr ?|b bs Hr ?
    |b bt bs Hr ?|b Hr|b before bt after rs ans Hw ? ?].
  - by apply inv_trigger.
  - by apply inv_receive.
  - apply inv_set_run; [by rewrite Hr|done|done].
  - apply inv_set_run; [by rewrite Hr|done|done].
  - apply inv_set_run; [by rewrite Hr|done|done].
  - apply inv_set_run; [by rewrite Hr|done|done].
  - apply inv_set_run; [by rewrite Hr|done|done].
  - by apply inv_flush.
  - by apply inv_dispatch.
  - apply inv_set_run; [by rewrite Hr| |done]. pose proof (bi_wake _ Hi) as Hwk. by rewrite Hr in Hwk.
  - by eapply inv_work.
Qed.

Lemma reachable_inv b : reachable options BatchExecutor b → batcher_inv b.
Proof.
  induction 1 as [|b input _ IH|b _ IH|b b' _ IH Hs].
  - apply inv_new.
  - by apply inv_register.
  - by apply inv_cancel.
  - by eapply batcher_inv_step.
Qed.

(** C9: whatever the interleaving of callers, timers and workers, every request is at
    exactly one place and none is lost or answered twice; requests reach the executor in
    non-empty batches of one hash; every answer is what one call of the executor gave at the
    position of the request, or an error where it gave too few; and no wake-up is lost:
    when the batcher sleeps, a registered request has its trigger in the channel or still to
    be sent. *)
Theorem batcher_exactly_once b : reachable options BatchExecutor b → batcher_inv b.
Proof. apply reachable_inv. Qed.

(** ** Every request is answered *)

(** Every run of steps from [b] is finite and ends, when no step is left, in a state with
    [P]. *)
Inductive inevitable (P : Batcher T U → Prop) b : Prop :=
  | inevitable_intro :
      (∀ b', step options BatchExecutor b b' → inevitable P b') →
      ((¬ ∃ b', step options BatchExecutor b b') → P b) → inevitable P b.

(** The work left: what a request, a trigger and the goroutine [run] still have to do. *)
Definition run_work (p : phase T) : nat :=
  match p with Stopped => 0 | Idle => 1 | Dispatching _ => 2 | Flushing => 3 | Collecting _ => 4 end.
Definition work_left b : nat :=
  6 * size (b_triggering b) + (if b_trigger b then 5 else 0) + run_work (b_run b) +
  4 * length (pending b) + 3 * length (concat (dispatching (b_run b))) +
  2 * length (concat (b_workers b)) + size (b_requestors b).

Lemma size_union_le (answers : list (nat * Result U)) (m : gmap nat (Result U)) :
  size (list_to_map answers ∪ m) ≤ length answers + size m.
Proof.
  induction answers as [|[i R] l IH]; cbn [list_to_map foldr length]; [by rewrite (left_id_L ∅ (∪))|].
  change (foldr _ ∅ l) with (list_to_map (M := gmap nat (Result U)) l). rewrite <-insert_union_l.
  rewrite map_size_insert. case_match; unfold id; lia.
Qed.

Lemma step_works b b' : batcher_inv b → step options BatchExecutor b b' → work_left b' < work_left b.
Proof.
  intros Hi Hs. destruct Hs as [b i Hin Ht|b i R Hn HR|b Hr Ht|b Hr ?|b n Hr ? Ht|b n Hr ?|b n Hr ?|b bs Hr Hb
    |b bt bs Hr ?|b Hr|b before bt after rs ans Hw He Hrun]; unfold work_left, set_run, flush;
    cbn [b_triggering b_trigger b_run b_workers b_requestors]; rewrite ?Hr; cbn [run_work dispatching concat];
    try change (pending (mkBatcher _ (b_requests b) _ _ _ _ _ _ _ _)) with (pending b).
  - rewrite Ht, size_difference by set_solver. rewrite size_singleton.
    assert (size (b_triggering b) ≠ 0) by (intros E%size_empty_inv; set_solver).
    lia.
  - rewrite map_size_delete, HR. assert (size (b_requestors b) ≠ 0); [|lia].
    intros E%map_size_empty_inv. rewrite E in HR. done.
  - rewrite Ht. lia.
  - lia.
  - rewrite Ht. lia.
  - lia.
  - lia.
  - unfold pending. cbn [b_requests]. rewrite map_to_list_empty, (concat_perm _ _ Hb). cbn. lia.
  - pose proof (bi_batches _ Hi) as Hu. rewrite Hr in Hu. cbn in Hu. apply Forall_cons in Hu as [[Hne _] _].
    rewrite concat_app, !length_app. cbn. rewrite app_nil_r. destruct bt; [done|]. cbn. lia.
  - lia.
  - pose proof (bi_batches _ Hi) as Hu. rewrite Hw in Hu. apply Forall_app in Hu as [_ Hu].
    apply Forall_app in Hu as [_ Hu]. apply Forall_cons in Hu as [[Hne _] _].
    pose proof (size_union_le ans (b_requestors b)) as Hsz.
    apply runCalls_ids, (f_equal length) in Hrun. rewrite !length_fmap in Hrun.
    rewrite Hw, !concat_app, !length_app. cbn [concat]. rewrite length_app.
    destruct bt; [done|]. cbn in *. lia.
Qed.

Lemma step_frame b b' : step options BatchExecutor b b' →
  b_next b' = b_next b ∧ b_cancelled b' = b_cancelled b.
Proof. by destruct 1. Qed.

Context (exec_total : ∀ inputs, inputs ≠ [] → ∃ results, BatchExecutor inputs results)
  (exec_short : ∀ inputs results, BatchExecutor inputs results → length results ≤ length inputs).

Lemma worker_steps b batch rest : b_workers b = batch :: rest → batch ≠ [] →
  ∃ b', step options BatchExecutor b b'.
Proof.
  intros Hw Hne. destruct (exec_total (req_input <$> batch)) as [results He]; [by destruct batch|].
  assert (∃ answers, runCalls batch results = Some answers) as [answers Ha].
  { unfold runCalls. apply exec_short in He. rewrite length_fmap in He.
    destruct (Nat.ltb_spec (length batch) (length results)); [lia|by eexists]. }
  eexists. by apply (step_work _ _ b [] batch rest results answers).
Qed.

Lemma quiescent_answered b :
  batcher_inv b → b_cancelled b = false → (¬ ∃ b', step options BatchExecutor b b') →
  ∀ i, i < b_next b → is_Some (b_returned b !! i).
Proof.
  intros Hi Hc Hq.
  assert (b_workers b = []) as Hw.
  { destruct (b_workers b) as [|bt rest] eqn:E; [done|]. exfalso. apply Hq.
    eapply worker_steps; [done|]. pose proof (bi_batches _ Hi) as Hu. rewrite E in Hu.
    apply Forall_app in Hu as [_ Hu]. by apply Forall_cons in Hu as [[? _] _]. }
  assert (b_run b = Idle) as Hr.
  { destruct (b_run b) as [|n| |[|bt bs]|] eqn:E; [done|exfalso; apply Hq..|].
    - destruct (collecting options n) eqn:Ec; eexists; [by eapply step_timer|by eapply step_full].
    - eexists. by eapply step_flush.
    - eexists. by eapply step_dispatched.
    - eexists. eapply step_dispatch; [done|]. rewrite Hw. unfold workerLimit. cbn.
      destruct (Nat.eqb_spec (MaxRequestWorkers options) 0); lia.
    - apply (bi_stopped _ Hi) in E. congruence. }
  assert (b_trigger b = false) as Ht.
  { destruct (b_trigger b) eqn:E; [|done]. exfalso. apply Hq. eexists. by eapply step_wake. }
  assert (b_triggering b = ∅) as Hg.
  { apply elem_of_equiv_empty_L. intros i Hin. apply Hq. eexists. by eapply step_trigger. }
  assert (pending b = []) as Hp.
  { pose proof (bi_wake _ Hi) as Hwk. rewrite Hr in Hwk. destruct (pending b) as [|r l] eqn:E; [done|].
    rewrite (Hwk r) in Ht; [done|rewrite ?E; set_solver|rewrite Hg; set_solver]. }
  intros i Hlt. apply (pl_all _ _ _ _ (bi_placed _ Hi)) in Hlt as [Hin|[[R HR]|?]]; [|exfalso|done].
  - unfold inflight in Hin. rewrite Hp, Hr, Hw in Hin. cbn in Hin. set_solver.
  - apply Hq. eexists. eapply step_receive; [|exact HR]. rewrite Hg. set_solver.
Qed.

(** C10: when the executor answers and never gives more results than inputs, every request is
    answered: from any reachable state of a batcher whose context is not done, whatever the
    schedule, the goroutines come to rest after finitely many steps, and then every call of
    [Add] made so far has returned. *)
Theorem batcher_live b :
  reachable options BatchExecutor b → b_cancelled b = false →
  inevitable (λ b', ∀ i, i < b_next b → is_Some (b_returned b' !! i)) b.
Proof.
  intros Hi%reachable_inv Hc.
  assert (∀ n b', work_left b' < n → b_next b' = b_next b → b_cancelled b' = false → batcher_inv b' →
    inevitable (λ b', ∀ i, i < b_next b → is_Some (b_returned b' !! i)) b') as H.
  { induction n as [|n IH]; intros b' Hn Hnx Hc' Hi'; [lia|]. constructor.
    - intros b'' Hs. destruct (step_frame _ _ Hs) as [E1 E2].
      apply IH; [|congruence|congruence|by eapply batcher_inv_step]. apply (step_works _ _ Hi') in Hs. lia.
    - intros Hq. rewrite <-Hnx. by apply quiescent_answered. }
  apply (H (S (work_left b))); [lia|done..].
Qed.
End invariant.

(** ** An executor that echoes its inputs *)
Definition echo_options : Options nat := mkOptions 50 0 (λ _, 0%Z).
Definition echo (inputs : list nat) (results : list (Result nat)) : Prop :=
  results = (λ i, mkResult (Some i) None) <$> inputs.
Definition two_requests : Batcher nat nat :=
  register echo_options 7 (register echo_options 3 NewBatcher).

Lemma two_requests_reachable : reachable echo_options echo two_requests.
Proof. do 2 apply reachable_add. apply reachable_new. Qed.

Lemma batcher_exactly_once_witness : batcher_inv echo_options echo two_requests.
Proof. apply (batcher_exactly_once echo_options echo), two_requests_reachable. Defined.

Lemma batcher_live_witness :
  inevitable echo_options echo (λ b', ∀ i, i < b_next two_requests → is_Some (b_returned b' !! i))
    two_requests.
Proof.
  apply (batcher_live echo_options echo).
  - intros inputs _. by eexists.
  - intros inputs results ->. by rewrite length_fmap.
  - apply two_requests_reachable.
  - reflexivity.
Defined.
