(* ===== verification/Batches.v ===== *)
(** * The batches of tag and describe requests

    The executors of create_tags_batch.go, delete_tags_batch.go and
    describe_instance_batch.go, and the methods that hand requests to a batcher. *)

From S2P Require Import Prelude GoLib Effects AwsApi Batcher.
Import Strconv Errors.

(** ** Goroutines

    A loop that starts a goroutine per element makes the calls of the elements in an order
    the language leaves open; each goroutine here makes one call. *)
Class GoSched := {
  schedule : ∀ {A : Type}, list A → list A;
  schedule_perm : ∀ {A : Type} (l : list A), schedule l ≡ₚ l
}.
Definition in_order : GoSched := {| schedule A l := l; schedule_perm A l := reflexivity l |}.

(** A pointer to the output, or the error. *)
Definition resultOf {U} (r : result U) : Result U :=
  match r with
  | Ok output => mkResult (Some output) None
  | Err err => mkResult None (Some err)
  end.

(** What a caller of [Add] reads of the answer: the error first. *)
Definition answerOf {U} (r : Result U) : result (option U) :=
  match Err_ r with
  | Some err => Err err
  | None => Ok (Output r)
  end.

(** ** Tags *)
Record TagsInput := mkTagsInput { ti_Resources : list string; ti_Tags : list Tag }.

(** The inputs after the loop that collects the resources in the first one, which is the
    caller's: it keeps them. *)
Definition collectResources (inputs : list TagsInput) : list TagsInput :=
  match inputs with
  | [] => []
  | firstInput :: rest =>
     mkTagsInput (foldl (λ resources input, resources ++ ti_Resources input)
       (ti_Resources firstInput) rest) (ti_Tags firstInput) :: rest
  end.

Section executors.
Context {GS : GoSched}.

(** The body both executors share, with the call they send. *)
Definition execTagsBatch (send : list string → list Tag → ec2E unit) (inputs : list TagsInput) :
    prog awsE (list (Result unit)) :=
  match collectResources inputs with
  | [] => Panic "index out of range"
  | firstInput :: rest =>
     let! output := ec2 (send (ti_Resources firstInput) (ti_Tags firstInput)) in
     match output with
     | Err _ =>
        loop_all (λ results '(idx, input),
          let! out := ec2 (send (ti_Resources input) (ti_Tags input)) in
          Ret (<[idx := resultOf out]> results))
          (schedule (imap pair (firstInput :: rest)))
          (replicate (length inputs) (mkResult None None))
     | Ok output => Ret (replicate (length inputs) (mkResult (Some output) None))
     end
  end.

Definition execCreateTagsBatch : list TagsInput → prog awsE (list (Result unit)) :=
  execTagsBatch CreateTags.
Definition execDeleteTagsBatch : list TagsInput → prog awsE (list (Result unit)) :=
  execTagsBatch DeleteTags.

(** The methods of the batchers, with [Add] of the batcher. *)
Definition createTags (Add : TagsInput → prog awsE (Result unit)) (resources : list string)
    (tags : list Tag) : prog awsE (result (option unit)) :=
  if negb (length resources =? 1) then
    Ret (Err (Errorf "expected to receive a single instance only, found %d"
                [Itoa (Z.of_nat (length resources))]))
  else let! result := Add (mkTagsInput resources tags) in Ret (answerOf result).

Definition deleteTags (Add : TagsInput → prog awsE (Result unit)) (resources : list string)
    (tags : list Tag) : prog awsE (result (option unit)) :=
  if negb (length resources =? 1) then
    Ret (Err (Errorf "expected to receive a single instance only, found %d"
                [Itoa (Z.of_nat (length resources))]))
  else let! result := Add (mkTagsInput resources tags) in Ret (answerOf result).

(** ** Instances *)
Record DescribeInput := mkDescribeInput { di_InstanceIds : list string; di_Filters : list Filter }.

(** What one answer holds for the request of one goroutine. *)
Definition firstInstance (out : result (list Instance_)) : Result Instance_ :=
  match out with
  | Err err => mkResult None (Some err)
  | Ok [] => mkResult None None
  | Ok (o :: _) => mkResult (Some o) None
  end.

Definition execDescribeInstanceBatch (inputs : list DescribeInput) :
    prog awsE (list (Result Instance_)) :=
  match inputs with
  | [] => Panic "index out of range"
  | firstInput :: rest =>
     let instanceIds := foldl (λ ids input, ids ++ di_InstanceIds input)
       (di_InstanceIds firstInput) rest in
     let! output := ec2 (DescribeInstances instanceIds []) in
     match output with
     | Err _ =>
        loop_all (λ results '(idx, input),
          let! out := ec2 (DescribeInstances (di_InstanceIds input) (di_Filters input)) in
          Ret (<[idx := firstInstance out]> results))
          (schedule (imap pair inputs))
          (replicate (length inputs) (mkResult None None))
     | Ok output =>
        let instanceIDToOutputMap := foldl (λ (m : gmap string Instance_) o,
          <[ToString (i_InstanceId o) := o]> m) ∅ output in
        no_panic (mapM (λ input,
          id ← head (di_InstanceIds input);
          Some (mkResult (instanceIDToOutputMap !! id) None)) inputs)
     end
  end.

(** [DescribeInstances] of the batcher: a submission for each id. *)
Definition DescribeInstances (Add : DescribeInput → prog awsE (Result Instance_))
    (input : DescribeInput) : prog awsE (result (list Instance_)) :=
  match di_InstanceIds input with
  | [] => Ret (Err (Errorf "expected at least one instance ID, found 0" []))
  | [_] =>
     let! result := Add input in
     Ret (match Err_ result with
          | Some err => Err err
          | None => Ok (option_list (Output result))
          end)
  | ids =>
     let! (instances, errs) := loop_all (λ '(instances, errs) id,
       let! result := Add (mkDescribeInput [id] (di_Filters input)) in
       Ret (instances ++ option_list (Output result), errs ++ option_list (Err_ result)))
       (schedule ids) ([], []) in
     Ret (if 0 <? length errs then Err (Joined errs) else Ok instances)
  end.
End executors.

(** ** Answers of the executors *)
Section answers.
Context {GS : GoSched}.

(** The loop over goroutines fills the slot of every element with what its call gave. *)
Lemma wp_goroutines {X A U} (call : X → ec2E A) (res : result A → Result U) (xs : list X)
    (results : list (Result U)) (ok : X → Result U → list (event awsE) → Prop) t Q :
  length results = length xs →
  (∀ x R t u, ok x R t → ok x R (t ++ u)) →
  (∀ x t r, ok x (res r) (t ++ [Ev (EC2 (call x)) r])) →
  (∀ results' u, length results' = length xs → length u = length xs →
     (∀ idx x, xs !! idx = Some x → ∃ R, results' !! idx = Some R ∧ ok x R (t ++ u)) →
     Q (t ++ u) (Done results')) →
  wp (loop_all (λ results '(idx, x), let! out := ec2 (call x) in Ret (<[idx := res out]> results))
        (schedule (imap pair xs)) results) Q t.
Proof.
  intros Hlen Hmono Hcall HQ.
  apply (wp_loop_all_done _ _ _ (λ past results' t', ∃ u, t' = t ++ u ∧ length u = length past ∧
    length results' = length xs ∧
    ∀ idx x, (idx, x) ∈ past → ∃ R, results' !! idx = Some R ∧ ok x R t')).
  - exists []. rewrite app_nil_r. split_and!; [done..|]. set_solver.
  - intros past [idx x] rest rs t' Hl (u & -> & Hu & Hr & Hpast).
    assert (∀ j y, (j, y) ∈ past ++ [(idx, x)] → xs !! j = Some y) as Hin.
    { intros j y Hj. assert ((j, y) ∈ imap pair xs) as Hj'.
      { rewrite <-(schedule_perm (imap pair xs)), Hl. rewrite (cons_middle (idx, x)).
        rewrite (assoc_L (++)). apply elem_of_app. by left. }
      apply elem_of_lookup_imap in Hj' as (k & z & E & Hk). by injection E as -> ->. }
    intros r. simpl. exists (u ++ [Ev (EC2 (call x)) r]).
    rewrite (assoc_L (++)), !length_app, length_insert. split_and!; [done|cbn; lia|done|].
    intros j y Hj. pose proof (Hin j y Hj) as Hy.
    destruct (decide (j = idx)) as [->|Hne].
    + assert (xs !! idx = Some x) as Hx by (apply Hin; set_solver). assert (y = x) as -> by congruence.
      exists (res r). split; [|apply Hcall].
      apply list_lookup_insert_eq. rewrite Hr. by eapply lookup_lt_Some.
    + apply elem_of_app in Hj as [Hj|Hj]; [|set_solver].
      destruct (Hpast j y Hj) as (R & HR & Hok). exists R. rewrite list_lookup_insert_ne by done.
      split; [done|]. by apply Hmono.
  - intros rs t' (u & -> & Hu & Hr & Hpast). apply HQ; [done| |].
    + by rewrite Hu, (schedule_perm (imap pair xs)), length_imap.
    + intros idx x Hx. apply Hpast. rewrite (schedule_perm (imap pair xs)).
      apply elem_of_lookup_imap. by exists idx, x.
Qed.

Lemma collect_first inputs first rest :
  collectResources inputs = first :: rest →
  ∃ input, inputs = input :: rest ∧ ti_Tags first = ti_Tags input ∧
    ∀ x r, x ∈ inputs → r ∈ ti_Resources x → r ∈ ti_Resources first.
Proof.
  destruct inputs as [|input l]; [done|]. cbn. intros [= <- <-]. exists input. split_and!; [done..|].
  intros x r Hx Hr. cbn [ti_Resources].
  assert (∀ l acc, (r ∈ acc ∨ ∃ x, x ∈ l ∧ r ∈ ti_Resources x) →
    r ∈ foldl (λ res i, res ++ ti_Resources i) acc l) as H.
  { clear. induction l as [|y l IH]; intros acc H; cbn; [set_solver|]. apply IH. set_solver. }
  apply H. apply elem_of_cons in Hx as [->|Hx]; eauto.
Qed.

(** A successful call that covers the resources of the input, with its tags or those of the
    first input of its batch. *)
Definition sent (send : list string → list Tag → ec2E unit) (inputs : list TagsInput)
    (input : TagsInput) (tr : list (event awsE)) : Prop :=
  ∃ resources tags, Ev (EC2 (send resources tags)) (Ok tt) ∈ tr ∧
    (∀ r, r ∈ ti_Resources input → r ∈ resources) ∧
    (tags = ti_Tags input ∨ ti_Tags <$> head inputs = Some tags).

(** The call of the input itself, which carries its resources and its tags, failed. *)
Definition failed (send : list string → list Tag → ec2E unit) (input : TagsInput) (e : error)
    (tr : list (event awsE)) : Prop :=
  ∃ resources, Ev (EC2 (send resources (ti_Tags input))) (Err e) ∈ tr ∧
    ∀ r, r ∈ ti_Resources input → r ∈ resources.

Lemma wp_execTagsBatch send inputs :
  inputs ≠ [] →
  wp (execTagsBatch send inputs) (λ tr o, ∃ results, o = Done results ∧
    length results = length inputs ∧
    (length tr = 1 ∨ length tr = S (length inputs)) ∧
    ∀ idx input R, inputs !! idx = Some input → results !! idx = Some R →
      match Err_ R with
      | None => sent send inputs input tr
      | Some e => length tr ≠ 1 ∧ failed send input e tr
      end) [].
Proof.
  intros Hne. unfold execTagsBatch. destruct (collectResources inputs) as [|first rest] eqn:E.
  { by destruct inputs. }
  apply collect_first in E as (input0 & Hin & Htags & Hcov). rewrite wp_bind. intros r. cbn [app andThen wp].
  destruct r as [[]|e0].
  { eexists. split; [done|]. rewrite length_replicate. split_and!; [done|by left|].
    intros idx input R Hi HR. apply lookup_replicate in HR as [-> _]. cbn.
    exists (ti_Resources first), (ti_Tags first). split_and!; [by apply list_elem_of_singleton| |].
    - intros x Hx. eapply Hcov; [|exact Hx]. by eapply list_elem_of_lookup_2.
    - right. rewrite Hin, Htags. done. }
  eapply (wp_goroutines (λ input, send (ti_Resources input) (ti_Tags input)) resultOf (first :: rest)
    _ (λ input R t, match Err_ R with
       | None => Ev (EC2 (send (ti_Resources input) (ti_Tags input))) (Ok tt) ∈ t
       | Some e => Ev (EC2 (send (ti_Resources input) (ti_Tags input))) (Err e) ∈ t end)).
  - by rewrite length_replicate, Hin.
  - intros x R t u. destruct (Err_ R); set_solver.
  - intros x t [[]|e]; cbn; apply snoc_elem.
  - intros results u Hr Hu Hall. exists results. cbn [length] in *. rewrite Hin. cbn [length].
    split_and!; [done|done|right; rewrite length_app; cbn; lia|].
    intros idx input R Hi HR.
    assert (∃ input', (first :: rest) !! idx = Some input' ∧
      (∀ r, r ∈ ti_Resources input → r ∈ ti_Resources input') ∧ ti_Tags input' = ti_Tags input)
      as (input' & Hi' & Hres & Ht').
    { destruct idx as [|idx]; cbn in Hi |- *; [|by exists input].
      injection Hi as <-. exists first. split_and!; [done| |done].
      intros x Hx. eapply Hcov; [|exact Hx]. rewrite Hin. set_solver. }
    destruct (Hall idx input' Hi') as (R' & HR' & Hok). assert (R' = R) as -> by congruence.
    destruct (Err_ R) as [e|].
    { split; [rewrite length_app; cbn; lia|]. exists (ti_Resources input'). by rewrite <-Ht'. }
    exists (ti_Resources input'), (ti_Tags input'). split_and!; [done..|]. by left.
Qed.

(** The executor of a batch of tag requests answers each of them, with one call when it
    succeeds and one more for each request when it fails: a request is answered without an
    error only when a call that covers its resources, with its tags or those of the first
    request, succeeded, and with an error only after its own call failed. *)
Theorem execTagsBatch_answers inputs :
  inputs ≠ [] →
  wp (execCreateTagsBatch inputs) (λ tr o, ∃ results, o = Done results ∧
    length results = length inputs ∧
    (length tr = 1 ∨ length tr = S (length inputs)) ∧
    ∀ idx input R, inputs !! idx = Some input → results !! idx = Some R →
      match Err_ R with
      | None => sent CreateTags inputs input tr
      | Some e => length tr ≠ 1 ∧ failed CreateTags input e tr
      end) [].
Proof. apply wp_execTagsBatch. Qed.

(** ** Answers for instances *)
Definition answered_instances (ev : event awsE) : option (list Instance_) :=
  match ev with
  | Ev c r =>
     match c in awsE R return result R → option (list Instance_) with
     | EC2 c =>
        match c in ec2E R return result R → option (list Instance_) with
        | AwsApi.DescribeInstances _ _ => λ r, match r with Ok l => Some l | Err _ => None end
        | _ => λ _, None
        end
     | _ => λ _, None
     end r
  end.
Definition asked_instances (ev : event awsE) : list string :=
  match ev_call ev with EC2 (AwsApi.DescribeInstances ids _) => ids | _ => [] end.

(** An instance given for [id]: an answer has it under that id, or it is the first one of an
    answer to a request for [id] alone. *)
Definition found_as (id : string) (i : Instance_) (tr : list (event awsE)) : Prop :=
  ∃ ev l, ev ∈ tr ∧ answered_instances ev = Some l ∧ i ∈ l ∧
    (ToString (i_InstanceId i) = id ∨ asked_instances ev = [id] ∧ head l = Some i).

Lemma found_as_app id i t u : found_as id i t → found_as id i (t ++ u).
Proof. intros (ev & l & Hin & H). exists ev, l. split; [set_solver|done]. Qed.

(** The map from ids to instances holds the last instance with each id. *)
Lemma outputMap_lookup (output : list Instance_) id :
  let m := foldl (λ (m : gmap string Instance_) o, <[ToString (i_InstanceId o) := o]> m) ∅ output in
  (∀ i, m !! id = Some i → i ∈ output ∧ ToString (i_InstanceId i) = id) ∧
  (∀ i, i ∈ output → ToString (i_InstanceId i) = id → is_Some (m !! id)).
Proof.
  induction output as [|o l IH] using rev_ind; [split; set_solver|].
  rewrite foldl_app. cbn [foldl]. cbv zeta in *. destruct IH as [IH1 IH2]. split.
  - intros i. rewrite lookup_insert_Some. intros [[<- <-]|[_ Hi]]; [set_solver|].
    destruct (IH1 i Hi). set_solver.
  - intros i Hi <-. destruct (decide (ToString (i_InstanceId o) = ToString (i_InstanceId i))) as [E|E].
    + rewrite E, lookup_insert_eq. by eexists.
    + rewrite lookup_insert_ne by done. apply elem_of_app in Hi as [Hi|Hi]; [by eapply IH2|set_solver].
Qed.

Lemma mapM_single {U} (f : string → Result U) (inputs : list DescribeInput) :
  Forall (λ input, ∃ id, di_InstanceIds input = [id]) inputs →
  ∃ results, mapM (λ input, id ← head (di_InstanceIds input); Some (f id)) inputs = Some results ∧
    length results = length inputs ∧
    ∀ idx input id, inputs !! idx = Some input → di_InstanceIds input = [id] →
      results !! idx = Some (f id).
Proof.
  induction 1 as [|input l [id Hid] _ (rs & E & Hl & Hr)]; [by exists []|].
  exists (f id :: rs). cbn [mapM]. rewrite Hid. cbn. rewrite E. cbn. split_and!; [done|by rewrite Hl|].
  intros [|idx] inp id' Hi Hid'; cbn in *; [|by eapply Hr]. congruence.
Qed.

Lemma wp_execDescribeInstanceBatch inputs :
  inputs ≠ [] → Forall (λ input, ∃ id, di_InstanceIds input = [id]) inputs →
  wp (execDescribeInstanceBatch inputs) (λ tr o, ∃ results, o = Done results ∧
    length results = length inputs ∧
    ∀ idx input id R, inputs !! idx = Some input → di_InstanceIds input = [id] →
      results !! idx = Some R →
      (∀ i, Output R = Some i → found_as id i tr) ∧
      (∀ output, head tr ≫= answered_instances = Some output →
         Err_ R = None ∧ (is_Some (Output R) ↔ ∃ i, i ∈ output ∧ ToString (i_InstanceId i) = id))) [].
Proof.
  intros Hne Hids. unfold execDescribeInstanceBatch. destruct inputs as [|first rest] eqn:Ein; [done|].
  rewrite <-Ein in *. rewrite wp_bind. intros r. cbn [app wp andThen].
  destruct r as [output|e0].
  - destruct (mapM_single (λ id, mkResult (foldl (λ (m : gmap string Instance_) o,
      <[ToString (i_InstanceId o) := o]> m) ∅ output !! id) None) inputs Hids) as (rs & E & Hl & Hr).
    rewrite E. cbn [no_panic wp]. exists rs. split_and!; [done..|].
    intros idx input id R Hi Hid HR. rewrite (Hr _ _ _ Hi Hid) in HR. injection HR as <-. cbn [Output Err_].
    destruct (outputMap_lookup output id) as [Hm1 Hm2]. split.
    + intros i Hi'. destruct (Hm1 i Hi'). eexists _, output.
      split_and!; [by apply list_elem_of_singleton|done|done|by left].
    + intros ? [= <-]. split; [done|]. split.
      * intros [i Hi']. exists i. by apply Hm1.
      * intros (i & ? & ?). by eapply Hm2.
  - eapply (wp_goroutines (λ input, AwsApi.DescribeInstances (di_InstanceIds input) (di_Filters input))
      firstInstance inputs _ (λ input R t, ∀ id i, di_InstanceIds input = [id] → Output R = Some i →
        found_as id i t)).
    + by rewrite length_replicate.
    + intros x R t u H id i Hid HR. by apply found_as_app, H.
    + intros x t r id i Hid HR. destruct r as [[|o l]|e]; cbn in HR; try done. injection HR as <-.
      eexists _, (o :: l). split; [apply snoc_elem|]. split; [done|]. split; [set_solver|].
      right. cbn. by rewrite Hid.
    + intros rs u Hl _ Hall. exists rs. split_and!; [done..|].
      intros idx input id R Hi Hid HR. destruct (Hall idx input Hi) as (R' & HR' & Hok).
      assert (R' = R) as -> by congruence. split; [intros i; by apply Hok|]. done.
Qed.

(** A batch of requests for one instance each is answered position by position, without
    a panic: an instance given for an id is one that EC2 reported under that id, or the
    first one of its answer to a request for that id alone; and when the one call for the
    whole batch succeeds, every id it reported an instance for gets one. *)
Theorem execDescribeInstanceBatch_matches inputs :
  inputs ≠ [] → Forall (λ input, ∃ id, di_InstanceIds input = [id]) inputs →
  wp (execDescribeInstanceBatch inputs) (λ tr o, ∃ results, o = Done results ∧
    length results = length inputs ∧
    ∀ idx input id R, inputs !! idx = Some input → di_InstanceIds input = [id] →
      results !! idx = Some R →
      (∀ i, Output R = Some i → found_as id i tr) ∧
      (∀ output, head tr ≫= answered_instances = Some output →
         Err_ R = None ∧ (is_Some (Output R) ↔ ∃ i, i ∈ output ∧ ToString (i_InstanceId i) = id))) [].
Proof. apply wp_execDescribeInstanceBatch. Qed.
End answers.

(** ** Examples *)

(** A batcher that meets no other request: the batch of one. *)
Definition aloneTags (exec : list TagsInput → prog awsE (list (Result unit))) (input : TagsInput) :
    prog awsE (Result unit) :=
  let! results := exec [input] in no_panic (head results).
Definition aloneInstance {GS : GoSched} (input : DescribeInput) : prog awsE (Result Instance_) :=
  let! results := execDescribeInstanceBatch [input] in no_panic (head results).

Definition two_inputs : list TagsInput :=
  [mkTagsInput ["i-1"] [mkTag (Some "k") (Some "v")]; mkTagsInput ["i-2"] [mkTag (Some "k") (Some "v")]].

Lemma execTagsBatch_answers_witness :
  wp (execCreateTagsBatch (GS := in_order) two_inputs) (λ tr o, ∃ results, o = Done results ∧
    length results = length two_inputs ∧
    (length tr = 1 ∨ length tr = S (length two_inputs)) ∧
    ∀ idx input R, two_inputs !! idx = Some input → results !! idx = Some R →
      match Err_ R with
      | None => sent CreateTags two_inputs input tr
      | Some e => length tr ≠ 1 ∧ failed CreateTags input e tr
      end) [].
Proof. apply (execTagsBatch_answers (GS := in_order) two_inputs). discriminate. Defined.

Definition two_ids : list DescribeInput := [mkDescribeInput ["i-1"] []; mkDescribeInput ["i-2"] []].

Lemma execDescribeInstanceBatch_matches_witness :
  wp (execDescribeInstanceBatch (GS := in_order) two_ids) (λ tr o, ∃ results, o = Done results ∧
    length results = length two_ids ∧
    ∀ idx input id R, two_ids !! idx = Some input → di_InstanceIds input = [id] →
      results !! idx = Some R →
      (∀ i, Output R = Some i → found_as id i tr) ∧
      (∀ output, head tr ≫= answered_instances = Some output →
         Err_ R = None ∧ (is_Some (Output R) ↔ ∃ i, i ∈ output ∧ ToString (i_InstanceId i) = id))) [].
Proof.
  apply (execDescribeInstanceBatch_matches (GS := in_order) two_ids); [discriminate|].
  repeat constructor; by eexists.
Defined.

(** The retry of the first request carries the resources of the whole batch: with a service
    that rejects "i-2", the request for "i-1" fails too. *)
Definition rejects_i2 : handler awsE unit := λ R c s,
  match c in awsE R return result R * unit with
  | EC2 c =>
     match c in ec2E R return result R * unit with
     | CreateTags resources _ =>
        ((if bool_decide ("i-2" ∈ resources) then Err (APIError "InvalidInstanceID.NotFound" "i-2")
          else Ok tt), s)
     | _ => (Err (Errorf "not used" []), s)
     end
  | _ => (Err (Errorf "not used" []), s)
  end.

Example execCreateTagsBatch_retries_all :
  let '(o, _, tr) := run rejects_i2 (execCreateTagsBatch (GS := in_order) two_inputs) tt [] in
  match o with
  | Done results => (λ R, bool_decide (Err_ R = None)) <$> results
  | Panicked _ => []
  end = [false; false].
Proof. vm_compute. reflexivity. Qed.
