(* ===== verification/TagBatches.v ===== *)
(** * Batched tagging: the batcher with its executor

    The batchers the provider creates (create_tags_batch.go, delete_tags_batch.go,
    describe_instance_batch.go), and what a caller of [createTags] and [deleteTags] can rely
    on: the transition system of [Batcher] runs the executors of [Batches]. *)

From S2P Require Import Prelude GoLib Effects AwsApi Batcher Batches.
Import Errors.

(** ** The batchers of the provider

    The hash functions are third-party code (hashstructure, with slices as sets). *)
Section options.
Context (hashTags : list Tag → Z) (hashFilters : list Filter → Z).

Definition createTagsHasher (input : TagsInput) : Z := hashTags (ti_Tags input).
Definition deleteTagsHasher (input : TagsInput) : Z := hashTags (ti_Tags input).
Definition describeInstanceHasher (input : DescribeInput) : Z := hashFilters (di_Filters input).

Definition newCreateTagsBatcher : Options TagsInput := mkOptions 50 0 createTagsHasher.
Definition newDeleteTagsBatcher : Options TagsInput := mkOptions 50 0 deleteTagsHasher.
Definition newdescribeInstanceBatcher : Options DescribeInput := mkOptions 500 0 describeInstanceHasher.
End options.

(** ** The calls of a program that ended *)
Inductive may_end {E A} : prog E A → list (event E) → A → Prop :=
  | may_end_ret a : may_end (Ret a) [] a
  | may_end_vis R (c : E R) k r tr a : may_end (k r) tr a → may_end (Vis c k) (Ev c r :: tr) a.

Lemma wp_may_end {E A} (p : prog E A) Q t tr a : wp p Q t → may_end p tr a → Q (t ++ tr) (Done a).
Proof.
  intros Hp He. revert t Hp. induction He as [a|R c k r tr a _ IH]; intros t Hp.
  - by rewrite app_nil_r.
  - specialize (IH (t ++ [Ev c r]) (Hp r)). by rewrite <-(assoc_L (++)) in IH.
Qed.

(** The executor of a batcher, when [made] are the calls the process has made. *)
Definition executes {T U} (exec : list T → prog awsE (list (Result U))) (made : event awsE → Prop)
    (inputs : list T) (results : list (Result U)) : Prop :=
  ∃ tr, may_end (exec inputs) tr results ∧ Forall made tr.

(** ** The requests of a batcher are those of its callers *)
Section asked.
Context {T U : Type} (options : Options T) (BatchExecutor : list T → list (Result U) → Prop).
Implicit Types (b : Batcher T U) (r : request T).

(** The batcher after calls of [Add] with the inputs [asked], in this order. *)
Inductive serves_calls : list T → Batcher T U → Prop :=
  | serves_new : serves_calls [] NewBatcher
  | serves_add asked b input : serves_calls asked b → serves_calls (asked ++ [input]) (register options input b)
  | serves_cancel asked b : serves_calls asked b →
      serves_calls asked (mkBatcher true (b_requests b) (b_trigger b) (b_run b) (b_workers b)
        (b_triggering b) (b_requestors b) (b_returned b) (b_next b) (b_executed b))
  | serves_step asked b b' : serves_calls asked b → step options BatchExecutor b b' → serves_calls asked b'.

Lemma serves_reachable asked b : serves_calls asked b → reachable options BatchExecutor b.
Proof. induction 1; eauto using reachable. Qed.

(** A request in flight or already executed. *)
Definition known b r : Prop := r ∈ inflight b ∨ ∃ batch results, (batch, results) ∈ b_executed b ∧ r ∈ batch.

(** Where nothing but the place of the goroutines changes. *)
Lemma known_same b b' r :
  inflight b' ≡ₚ inflight b → b_executed b' = b_executed b → known b' r → known b r.
Proof. intros Hi He. unfold known. by rewrite Hi, He. Qed.

Lemma inflight_set_run p trigger b :
  dispatching p = dispatching (b_run b) → inflight (set_run p trigger b) = inflight b.
Proof. intros E. unfold inflight. cbn [set_run b_run b_workers]. by rewrite E. Qed.

Lemma known_step b b' r : step options BatchExecutor b b' → known b' r → known b r.
Proof.
  intros Hs. destruct Hs as [b i|b i R|b Hr|b Hr|b n Hr|b n Hr|b n Hr|b bs Hr Hb|b bt bs Hr|b Hr
    |b before bt after rs ans Hw];
    try (apply known_same; [|done]; rewrite inflight_set_run; [done|by rewrite Hr]).
  - by apply known_same.
  - by apply known_same.
  - apply known_same; [|done]. unfold inflight, flush, pending. cbn. rewrite Hr. cbn.
    rewrite map_to_list_empty. cbn. by rewrite (concat_perm _ _ Hb).
  - apply known_same; [|done]. unfold inflight, pending. cbn. rewrite Hr. cbn. rewrite concat_app. cbn.
    apply Permutation_app_head. rewrite app_nil_r.
    rewrite (assoc_L (++)). by rewrite Permutation_app_comm, (assoc_L (++)).
  - unfold known, inflight. cbn [b_run b_workers b_executed pending b_requests]. rewrite Hw, !concat_app. cbn [concat].
    intros [Hin|(batch & results & Hin & Hr)]; [left; set_solver|].
    apply elem_of_app in Hin as [Hin|Hin%list_elem_of_singleton]; [right; by eauto|].
    injection Hin as -> _. left. set_solver.
Qed.

Lemma known_register input b r :
  known (register options input b) r → known b r ∨ r = mkRequest (b_next b) (RequestHasher options input) input.
Proof.
  unfold known, inflight, pending. cbn [register b_run b_workers b_executed b_requests].
  rewrite bucket_perm. set_solver.
Qed.

(** Request [i] has the input of call [i]. *)
Lemma known_asked asked b r :
  serves_calls asked b → known b r → b_next b = length asked ∧ asked !! req_id r = Some (req_input r).
Proof.
  intros Hs. assert (b_next b = length asked ∧ ∀ r, known b r → asked !! req_id r = Some (req_input r)) as [Hn H];
    [|by auto].
  clear r. induction Hs as [|asked b input _ [Hn IH]|asked b _ [Hn IH]|asked b b' _ [Hn IH] Hs].
  - split; [done|]. intros r [Hin|(? & ? & Hin & _)]; [|by apply not_elem_of_nil in Hin].
    unfold inflight, pending in Hin. cbn in Hin. rewrite map_to_list_empty in Hin. by apply not_elem_of_nil in Hin.
  - split; [cbn; rewrite length_app; cbn; lia|]. intros r [Hr | ->]%known_register.
    + apply IH in Hr. by rewrite lookup_app_l by (by eapply lookup_lt_Some).
    + cbn [req_id req_input]. rewrite Hn. by rewrite lookup_app_r, Nat.sub_diag by done.
  - split; [done|]. intros r. apply IH.
  - split; [|intros r Hr; eapply IH, known_step; eauto].
    rewrite <-Hn. by destruct Hs.
Qed.

(** What was returned to call [i] is what one call of the executor gave for its input. *)
Lemma returned_genuine asked b i R :
  serves_calls asked b → b_returned b !! i = Some R →
  ∃ (inputs : list T) results k input, BatchExecutor inputs results ∧
    inputs !! k = Some input ∧ asked !! i = Some input ∧ (∀ x, x ∈ inputs → x ∈ asked) ∧
    (∃ h, Forall (λ x, RequestHasher options x = h) inputs) ∧
    R = default (mkResult None (Some (Errorf "error making call" []))) (results !! k).
Proof.
  intros Hs HR. pose proof (reachable_inv _ _ _ (serves_reachable _ _ Hs)) as Hi.
  destruct (bi_genuine _ _ _ Hi i R) as (batch & results & k & r & Hin & Hx & Hk & Hid & ->); [by right|].
  exists (req_input <$> batch), results, k, (req_input r). split_and!; [done| | | | |done].
  - by rewrite list_lookup_fmap, Hk.
  - rewrite <-Hid. eapply known_asked; [done|]. right. exists batch, results. split; [done|].
    by eapply list_elem_of_lookup_2.
  - intros x (y & -> & Hy)%list_elem_of_fmap. apply list_elem_of_lookup_2 with (req_id y).
    eapply known_asked; [done|]. right. by exists batch, results.
  - pose proof (bi_executed _ _ _ Hi) as He. rewrite Forall_forall in He.
    destruct (He _ Hin) as [ [_ [h Hh] ] _]. exists h. rewrite Forall_fmap.
    eapply Forall_impl; [exact Hh|]. by intros x [_ ?].
Qed.
End asked.

(** ** Tags *)
Section tags.
Context {GS : GoSched} (send : list string → list Tag → ec2E unit) (hashTags : list Tag → Z)
  (options : Options TagsInput) (made : event awsE → Prop).

(** What the answer to a call tells: EC2 accepted tags of the same hash for the resources,
    or refused a call that carried them with the tags of the input. *)
Definition told (input : TagsInput) (answer : result (option unit)) : Prop :=
  match answer with
  | Ok _ => ∃ resources tags, made (Ev (EC2 (send resources tags)) (Ok tt)) ∧
      (∀ x, x ∈ ti_Resources input → x ∈ resources) ∧ hashTags tags = hashTags (ti_Tags input)
  | Err e => ∃ resources, made (Ev (EC2 (send resources (ti_Tags input))) (Err e)) ∧
      ∀ x, x ∈ ti_Resources input → x ∈ resources
  end.

Lemma batched_tags asked b i R :
  (∀ x, RequestHasher options x = hashTags (ti_Tags x)) →
  serves_calls options (executes (execTagsBatch send) made) asked b →
  b_returned b !! i = Some R → ∃ input, asked !! i = Some input ∧ told input (answerOf R).
Proof.
  intros Hh Hs HR.
  destruct (returned_genuine _ _ _ _ _ _ Hs HR) as (inputs & results & k & input & (tr & He & Hm) & Hk & Ha & _ & [h Hhash] & ->).
  exists input. split; [done|]. assert (inputs ≠ []) as Hne by (by destruct inputs).
  pose proof (wp_may_end _ _ _ _ _ (wp_execTagsBatch send inputs Hne) He) as Hx.
  destruct Hx as (rs & [= <-] & Hlen & _ & Hall). cbn [app] in *. rewrite Forall_forall in Hm.
  assert (k < length results) as Hlt by (rewrite Hlen; by eapply lookup_lt_Some).
  apply lookup_lt_is_Some_2 in Hlt as [R' HR']. rewrite HR'. cbn [default id].
  specialize (Hall k input R' Hk HR'). unfold answerOf, told. destruct (Err_ R') as [e|].
  - destruct Hall as (_ & resources & Hin & Hres). exists resources. split; [by apply Hm|done].
  - destruct Hall as (resources & tags & Hin & Hres & Htags). exists resources, tags.
    split_and!; [by apply Hm|done|]. destruct Htags as [-> |Hfirst]; [done|].
    destruct inputs as [|first rest]; [done|]. cbn in Hfirst. injection Hfirst as <-.
    rewrite <-!Hh. rewrite Forall_forall in Hhash.
    rewrite (Hhash first), (Hhash input); [done|by eapply list_elem_of_lookup_2|set_solver].
Qed.
End tags.

(** C11: tagging through the batcher, whatever the interleaving of its callers and goroutines
    and whatever EC2 answers: a call of [createTags] returns without an error only when EC2
    accepted for its instance tags with the hash of its own, and with an error only when EC2
    refused with it a call that carried its instance and its tags. *)
Theorem batched_createTags {GS : GoSched} (hashTags : list Tag → Z) (made : event awsE → Prop) asked b i R :
  serves_calls (newCreateTagsBatcher hashTags) (executes execCreateTagsBatch made) asked b →
  b_returned b !! i = Some R →
  ∃ input, asked !! i = Some input ∧ told CreateTags hashTags made input (answerOf R).
Proof. by apply batched_tags. Qed.

Lemma batched_deleteTags {GS : GoSched} (hashTags : list Tag → Z) (made : event awsE → Prop) asked b i R :
  serves_calls (newDeleteTagsBatcher hashTags) (executes execDeleteTagsBatch made) asked b →
  b_returned b !! i = Some R →
  ∃ input, asked !! i = Some input ∧ told DeleteTags hashTags made input (answerOf R).
Proof. by apply batched_tags. Qed.

(** An instance that a call of [DescribeInstances] with one id gets was in an answer of EC2:
    under that id, or alone asked for. *)
Lemma batched_DescribeInstances {GS : GoSched} (hashFilters : list Filter → Z)
    (made : event awsE → Prop) asked b i R instance :
  Forall (λ input, ∃ id, di_InstanceIds input = [id]) asked →
  serves_calls (newdescribeInstanceBatcher hashFilters) (executes execDescribeInstanceBatch made) asked b →
  b_returned b !! i = Some R → Output R = Some instance →
  ∃ input id tr, asked !! i = Some input ∧ di_InstanceIds input = [id] ∧
    Forall made tr ∧ found_as id instance tr.
Proof.
  intros Hids Hs HR HO. rewrite Forall_forall in Hids.
  destruct (returned_genuine _ _ _ _ _ _ Hs HR)
    as (inputs & results & k & input & (tr & He & Hm) & Hk & Ha & Hall & _ & ->).
  assert (inputs ≠ []) as Hne by (by destruct inputs).
  assert (Forall (λ input, ∃ id, di_InstanceIds input = [id]) inputs) as Hone
    by (apply Forall_forall; intros x Hx; by apply Hids, Hall).
  pose proof (wp_may_end _ _ _ _ _ (wp_execDescribeInstanceBatch inputs Hne Hone) He) as Hx.
  destruct Hx as (rs & [= <-] & Hlen & Hres).
  destruct (results !! k) as [R|] eqn:E; [|done]. cbn in HO.
  destruct (Hids input) as [id Hid]; [by eapply list_elem_of_lookup_2|].
  exists input, id, tr. split_and!; [done..|]. by eapply (Hres k).
Qed.

(** ** Example: one call, from the registration to its answer *)
Definition one_input : TagsInput := mkTagsInput ["i-1"] [mkTag (Some "k") (Some "v")].
Definition one_request : request TagsInput := mkRequest 0 0 one_input.
Definition one_result : Result unit := mkResult (Some tt) None.
Definition one_made (ev : event awsE) : Prop :=
  ev = Ev (EC2 (CreateTags ["i-1"] [mkTag (Some "k") (Some "v")])) (Ok tt).
Definition tagged_once : Batcher TagsInput unit :=
  mkBatcher false ∅ false (Dispatching []) [] ∅ ∅ {[0 := one_result]} 1 [([one_request], [one_result])].

Lemma tagged_once_served :
  serves_calls (newCreateTagsBatcher (λ _, 0%Z)) (executes (execCreateTagsBatch (GS := in_order)) one_made)
    [one_input] tagged_once.
Proof.
  set (opts := newCreateTagsBatcher (λ _, 0%Z)). set (exec := executes _ _).
  change [one_input] with ([] ++ [one_input]).
  assert (executes (execCreateTagsBatch (GS := in_order)) one_made [one_input] [one_result]) as Hexec.
  { eexists. split; [apply (may_end_vis _ _ _ (Ok tt)), may_end_ret|by repeat constructor]. }
  pose (b0 := register opts one_input (@NewBatcher TagsInput unit)).
  assert (serves_calls opts exec ([] ++ [one_input]) b0) as H by apply serves_add, serves_new.
  assert (∀ p t, serves_calls opts exec ([] ++ [one_input]) p → step opts exec p t →
    serves_calls opts exec ([] ++ [one_input]) t) as next by (intros; by eapply serves_step).
  eapply next in H; [|apply (step_trigger _ _ _ 0); vm_compute; done].
  eapply next in H; [|by apply step_wake].
  eapply next in H; [|by eapply (step_timer _ _ _ 1)].
  eapply next in H; [|by apply (step_flush _ _ _ [[one_request]])].
  eapply next in H; [|eapply (step_dispatch _ _ _ [one_request] []); [done|cbn; lia]].
  eapply next in H; [|by apply (step_work _ _ _ [] [one_request] [] [one_result] [(0, one_result)])].
  eapply next in H; [|by apply (step_receive _ _ _ 0 one_result)].
  exact H.
Qed.

Lemma batched_createTags_witness :
  b_returned tagged_once !! 0 = Some one_result ∧
  ∃ input, [one_input] !! 0 = Some input ∧
    told CreateTags (λ _, 0%Z) one_made input (answerOf one_result).
Proof.
  split; [reflexivity|].
  apply (batched_createTags (GS := in_order) (λ _, 0%Z) one_made [one_input] tagged_once);
    [apply tagged_once_served|reflexivity].
Defined.
