(* ===== verification/Topology.v ===== *)
(** * Network topology of instances (topology.go)

    The topology manager asks EC2 where an instance is in the network.  It remembers for
    a day the regions, instances and instance types that gave no answer: its store drops
    an entry when it is read after that time.  The store is a state the operations
    thread; times are nanoseconds. *)

From S2P Require Import Prelude GoLib Effects AwsApi Tags Config Cloud Regex.
From Stdlib Require Import Ascii.
Import Strings Errors.

Definition instanceTopologyManagerCacheTimeout : Z := 24 * 3600 * 10 ^ 9.

Definition lower_or_digit (c : ascii) : bool := is_lower c || is_digit c.

Definition defaultSupportedTopologyInstanceTypePattern : re :=
  Cat (Group 1 (Alt (Lit "hpc") (Alt (Lit "trn") (Lit "p"))))
  (Cat (Plus (Cls is_digit))
  (Cat (Star (Cls is_lower))
  (Cat (Opt (Group 2 (Cat (Lit "-") (Plus (Cls lower_or_digit)))))
       (Group 3 (Cat (Lit ".") (Star (Cls lower_or_digit))))))).

(** [cache.NewTTLStore] (k8s.io/client-go): the time each key was added at. *)
Abbreviation ttlStore := (gmap string Z).

Definition GetByKey (timeout now : Z) (store : ttlStore) (key : string) : bool * ttlStore :=
  match store !! key with
  | None => (false, store)
  | Some added =>
     if (0 <? timeout)%Z && (timeout <? now - added)%Z then (false, delete key store)
     else (true, store)
  end.

(** ** The interface [InstanceTopologyManager]

    The operations, over a state [T] of the manager that they thread; [now] is the time
    its store is read at and [now'] the time it is written at. *)
Class InstanceTopologyManager (T : Type) := {
  GetNodeTopology : ∀ (now now' : Z) (t : T) (instanceType region instanceID : string),
    prog awsE (result (option InstanceTopology) * T);
  DoesInstanceTypeRequireResponse : T → string → bool
}.

Record instanceTopologyManager := mkTopologyManager {
  unsupportedKeyStore : ttlStore;
  supportedTopologyInstanceTypePattern : string → bool  (** its [MatchString] *)
}.

(** [compile] is [regexp.MustCompile] on the pattern of the configuration: what the
    pattern matches, [None] where the text is no pattern and the function panics. *)
Definition NewInstanceTopologyManager (compile : string → option (string → bool))
    (cfg : CloudConfig) : option instanceTopologyManager :=
  if negb (String.eqb (cfg_SupportedTopologyInstanceTypePattern cfg) "") then
    pattern ← compile (cfg_SupportedTopologyInstanceTypePattern cfg);
    Some (mkTopologyManager ∅ pattern)
  else Some (mkTopologyManager ∅ (MatchString defaultSupportedTopologyInstanceTypePattern)).

Definition with_store (t : instanceTopologyManager) (store : ttlStore) : instanceTopologyManager :=
  mkTopologyManager store (supportedTopologyInstanceTypePattern t).

(** The key is its own key, so adding does not fail. *)
Definition addUnsupported (now : Z) (t : instanceTopologyManager) (key : string) :
    instanceTopologyManager :=
  with_store t (<[key := now]> (unsupportedKeyStore t)).

Definition mightSupportTopology (now : Z) (t : instanceTopologyManager)
    (instanceID instanceType region : string) : bool * instanceTopologyManager :=
  if len instanceType =? 0 then (false, t) else
  let '(found1, store) := GetByKey instanceTopologyManagerCacheTimeout now (unsupportedKeyStore t) region in
  if found1 then (false, with_store t store) else
  let '(found2, store) := GetByKey instanceTopologyManagerCacheTimeout now store instanceID in
  if found2 then (false, with_store t store) else
  let '(found3, store) := GetByKey instanceTopologyManagerCacheTimeout now store instanceType in
  if found3 then (false, with_store t store) else
  (true, with_store t store).

Definition requiresResponse (t : instanceTopologyManager) (instanceType : string) : bool :=
  supportedTopologyInstanceTypePattern t instanceType.

(** An error of EC2 that marks the region. *)
Definition regionUnsupported (err : error) : bool :=
  match AsAPIError err with
  | Some code => String.eqb code "UnsupportedOperation" || String.eqb code "UnauthorizedOperation"
  | None => false
  end.

Definition getNodeTopology (now now' : Z) (t : instanceTopologyManager)
    (instanceType region instanceID : string) :
    prog awsE (result (option InstanceTopology) * instanceTopologyManager) :=
  let '(might, t) := mightSupportTopology now t instanceID instanceType region in
  if negb might then Ret (Ok None, t) else
  let! r := ec2 (DescribeInstanceTopology [instanceID]) in
  match r with
  | Err err =>
     if regionUnsupported err then Ret (Ok None, addUnsupported now' t region)
     else Ret (Err err, t)
  | Ok [] =>
     if requiresResponse t instanceType then Ret (Ok None, addUnsupported now' t instanceID)
     else Ret (Ok None, addUnsupported now' t instanceType)
  | Ok (topology :: _) => Ret (Ok (Some topology), t)
  end.

#[export] Instance topology_manager : InstanceTopologyManager instanceTopologyManager := {|
  GetNodeTopology := getNodeTopology;
  DoesInstanceTypeRequireResponse := requiresResponse
|}.

(** ** Requests over time *)
Record topologyRequest := mkTopologyRequest {
  tr_now : Z;
  tr_now' : Z;
  tr_type : string;
  tr_region : string;
  tr_instance : string
}.

Definition serve {T} `{InstanceTopologyManager T} (t : T) (q : topologyRequest) : prog awsE T :=
  let! (_, t) := GetNodeTopology (tr_now q) (tr_now' q) t (tr_type q) (tr_region q) (tr_instance q) in
  Ret t.

(** The key was added at [added] or later. *)
Definition remembered (added : Z) (key : string) (t : instanceTopologyManager) : Prop :=
  ∃ ts, unsupportedKeyStore t !! key = Some ts ∧ (added ≤ ts)%Z.

(** The request is for a node that is remembered to have no topology. *)
Definition concerns (key : string) (q : topologyRequest) : Prop :=
  key = tr_region q ∨ key = tr_instance q ∨ key = tr_type q.

Definition asks_for (id : string) (ev : event awsE) : Prop :=
  ∃ r, ev = Ev (EC2 (DescribeInstanceTopology [id])) r.

(** A key that is looked up within the day is kept; a remembered one is found. *)
Lemma GetByKey_keeps now added key k store ts :
  store !! key = Some ts → (added ≤ ts)%Z → (now ≤ added + instanceTopologyManagerCacheTimeout)%Z →
  (GetByKey instanceTopologyManagerCacheTimeout now store k).2 !! key = Some ts ∧
  (k = key → (GetByKey instanceTopologyManagerCacheTimeout now store k).1 = true).
Proof.
  intros Hk Ht Hn. unfold GetByKey. destruct (decide (k = key)) as [->|Hne].
  - rewrite Hk. destruct (instanceTopologyManagerCacheTimeout <? now - ts)%Z eqn:E; [lia|].
    by rewrite andb_false_r.
  - destruct (store !! k); [|done]. case_match; cbn [fst snd]; [|done]. by rewrite lookup_delete_ne.
Qed.

Lemma mightSupport_remembered now added key t id ty region :
  remembered added key t → (now ≤ added + instanceTopologyManagerCacheTimeout)%Z →
  remembered added key (mightSupportTopology now t id ty region).2 ∧
  (key = region ∨ key = id ∨ key = ty → (mightSupportTopology now t id ty region).1 = false).
Proof.
  intros (ts & Hk & Ht) Hn. unfold mightSupportTopology, remembered.
  destruct (len ty =? 0); [by eauto|].
  pose proof (GetByKey_keeps now added key region _ ts Hk Ht Hn) as [H1 E1].
  destruct (GetByKey _ now _ region) as [e1 s1]. destruct e1; [by eauto|].
  pose proof (GetByKey_keeps now added key id _ ts H1 Ht Hn) as [H2 E2].
  destruct (GetByKey _ now _ id) as [e2 s2]. destruct e2; [by eauto|].
  pose proof (GetByKey_keeps now added key ty _ ts H2 Ht Hn) as [H3 E3].
  destruct (GetByKey _ now _ ty) as [e3 s3]. destruct e3; [by eauto|].
  split; [by eauto|]. naive_solver.
Qed.

Lemma addUnsupported_remembers now added key k t :
  remembered added key t ∨ key = k → (added ≤ now)%Z → remembered added key (addUnsupported now t k).
Proof.
  intros H Hn. unfold remembered. cbn. destruct (decide (k = key)) as [->|Hne].
  - exists now. by rewrite lookup_insert_eq.
  - rewrite lookup_insert_ne by done. destruct H as [(ts & ? & ?)|]; [by eauto|congruence].
Qed.

(** One request while a key is remembered. *)
Lemma getNodeTopology_remembered added key q t tr :
  remembered added key t → (tr_now q ≤ added + instanceTopologyManagerCacheTimeout)%Z →
  (added ≤ tr_now' q)%Z →
  wp (serve t q) (λ tr' o, match o with
    | Done t' => remembered added key t' ∧
        ∃ u, tr' = tr ++ u ∧ ∀ ev, ev ∈ u → asks_for (tr_instance q) ev ∧ ¬ concerns key q
    | Panicked _ => False
    end) tr.
Proof.
  intros Hk Hn Hn'. unfold serve. cbn [GetNodeTopology topology_manager]. rewrite wp_bind.
  unfold getNodeTopology.
  destruct (mightSupport_remembered (tr_now q) added key t (tr_instance q) (tr_type q) (tr_region q)
              Hk Hn) as [Hk' Hm].
  destruct (mightSupportTopology _ _ _ _ _) as [might t']. cbn [fst snd] in *.
  destruct might; cbn [negb andThen wp].
  2:{ split; [done|]. exists []. rewrite app_nil_r. split; [done|]. intros ev Hev. by apply not_elem_of_nil in Hev. }
  assert (¬ concerns key q) as Hc by (intros Hc; by specialize (Hm Hc)).
  assert (∀ t'' r, remembered added key t'' → remembered added key t'' ∧
    ∃ u, tr ++ [Ev (EC2 (DescribeInstanceTopology [tr_instance q])) r] = tr ++ u ∧
      ∀ ev, ev ∈ u → asks_for (tr_instance q) ev ∧ ¬ concerns key q) as Hend.
  { intros t'' r Hr. split; [done|]. exists [Ev (EC2 (DescribeInstanceTopology [tr_instance q])) r].
    split; [done|]. intros ev ->%list_elem_of_singleton. split; [by eexists|done]. }
  unfold ec2, call. cbn [bind wp andThen].
  intros [[|topo l]|err]; cbn [wp andThen].
  - destruct (requiresResponse _ _); cbn [wp andThen]; apply Hend, addUnsupported_remembers; auto.
  - by apply Hend.
  - destruct (regionUnsupported err); cbn [wp andThen]; [apply Hend, addUnsupported_remembers; auto|by apply Hend].
Qed.

(** What EC2 answered to [DescribeInstanceTopology]. *)
Definition answered_topology (ev : event awsE) : option (result (list InstanceTopology)) :=
  match ev with
  | Ev c r =>
     match c in awsE R return result R → option (result (list InstanceTopology)) with
     | EC2 c =>
        match c in ec2E R return result R → option (result (list InstanceTopology)) with
        | DescribeInstanceTopology _ => Some
        | _ => λ _, None
        end
     | _ => λ _, None
     end r
  end.

(** The answer [ev] to the request [q] marks [key]. *)
Definition marks (t : instanceTopologyManager) (q : topologyRequest) (ev : event awsE) (key : string) : Prop :=
  match answered_topology ev with
  | Some (Err err) => regionUnsupported err = true ∧ key = tr_region q
  | Some (Ok []) => key = if requiresResponse t (tr_type q) then tr_instance q else tr_type q
  | _ => False
  end.

(** The key is in the store and not older than a day. *)
Definition fresh (now : Z) (key : string) (store : ttlStore) : Prop :=
  ∃ ts, store !! key = Some ts ∧ (now - ts ≤ instanceTopologyManagerCacheTimeout)%Z.

Lemma GetByKey_fresh now store key :
  ((GetByKey instanceTopologyManagerCacheTimeout now store key).1 = true ↔ fresh now key store) ∧
  ∀ k, fresh now k (GetByKey instanceTopologyManagerCacheTimeout now store key).2 ↔ fresh now k store.
Proof.
  unfold GetByKey, fresh. destruct (store !! key) as [ts|] eqn:E; [|by naive_solver].
  change (0 <? instanceTopologyManagerCacheTimeout)%Z with true. cbn [andb].
  destruct (Z.ltb_spec instanceTopologyManagerCacheTimeout (now - ts)); cbn [fst snd].
  - split; [split; [done|]; intros (? & ? & ?); simplify_eq; lia|].
    intros k. destruct (decide (k = key)) as [->|].
    + rewrite lookup_delete_eq. split; intros (? & ? & ?); simplify_eq; lia.
    + by rewrite lookup_delete_ne.
  - split; [|done]. split; [|done]. intros _. eexists; split; [done|lia].
Qed.

Lemma mightSupport_fresh now t id ty region :
  (mightSupportTopology now t id ty region).1 = false ↔
  ty = "" ∨ ∃ key, (key = region ∨ key = id ∨ key = ty) ∧ fresh now key (unsupportedKeyStore t).
Proof.
  unfold mightSupportTopology. destruct ty as [|c ty]; [by naive_solver|].
  set (ty' := String c ty). change (len ty' =? 0) with false. cbn [negb].
  destruct (GetByKey_fresh now (unsupportedKeyStore t) region) as [H1 K1].
  destruct (GetByKey _ now _ region) as [e1 s1]. cbn [fst snd] in *.
  destruct e1; [split; [|done]; intros _; right; exists region; split; [by left|by apply H1]|].
  destruct (GetByKey_fresh now s1 id) as [H2 K2]. rewrite (K1 id) in H2.
  destruct (GetByKey _ now s1 id) as [e2 s2]. cbn [fst snd] in *.
  destruct e2; [split; [|done]; intros _; right; exists id; split; [by right; left|by apply H2]|].
  destruct (GetByKey_fresh now s2 ty') as [H3 K3]. rewrite (K2 ty'), (K1 ty') in H3.
  destruct (GetByKey _ now s2 ty') as [e3 s3]. cbn [fst snd] in *.
  destruct e3; [split; [|done]; intros _; right; exists ty'; split; [by right; right|by apply H3]|].
  split; [done|]. intros [?|(key & Hk & Hf)]; [done|].
  by destruct Hk as [-> | [-> | ->] ]; [apply H1 in Hf|apply H2 in Hf|apply H3 in Hf].
Qed.

Lemma mightSupport_pattern now t id ty region :
  requiresResponse (mightSupportTopology now t id ty region).2 = requiresResponse t.
Proof.
  unfold mightSupportTopology. destruct (len ty =? 0); [done|].
  destruct (GetByKey _ now _ region) as [[] s1]; [done|].
  destruct (GetByKey _ now _ id) as [[] s2]; [done|].
  by destruct (GetByKey _ now _ ty) as [[] s3].
Qed.

(** Any number of requests while a key is remembered. *)
Lemma serve_all_remembered added key reqs t tr :
  remembered added key t →
  Forall (λ q, (tr_now q ≤ added + instanceTopologyManagerCacheTimeout)%Z ∧ (added ≤ tr_now' q)%Z) reqs →
  wp (loop_all serve reqs t) (λ tr' _, ∃ u, tr' = tr ++ u ∧
    ∀ ev, ev ∈ u → ∃ q, q ∈ reqs ∧ asks_for (tr_instance q) ev ∧ ¬ concerns key q) tr.
Proof.
  intros Hk Hr. rewrite Forall_forall in Hr.
  apply (wp_loop_all _ _ _ (λ t' tr', remembered added key t' ∧ ∃ u, tr' = tr ++ u ∧
    ∀ ev, ev ∈ u → ∃ q, q ∈ reqs ∧ asks_for (tr_instance q) ev ∧ ¬ concerns key q)).
  - split; [done|]. exists []. rewrite app_nil_r. split; [done|]. intros ev Hev. by apply not_elem_of_nil in Hev.
  - intros q t1 tr1 Hq (Hk1 & u & -> & Hu). destruct (Hr q Hq) as [Hn Hn'].
    eapply wp_mono; [by apply (getNodeTopology_remembered added key)|].
    intros tr2 [t2|w] H; [|done]. destruct H as (Hk2 & v & -> & Hv). split; [done|].
    exists (u ++ v). rewrite (assoc_L (++)). split; [done|].
    intros ev [Hev|Hev]%elem_of_app; [by auto|]. destruct (Hv ev Hev). eauto.
  - intros t1 tr1 (_ & H). done.
Qed.

(** C38: the topology manager asks EC2 about an instance exactly when the type is known and
    none of the region, the instance and the type has been remembered within the last day,
    and then once; when the answer shows that a region, an instance or a type has no
    topology, none of the requests of the following day that concern it asks again. *)
Theorem GetNodeTopology_backs_off (t : instanceTopologyManager) (q : topologyRequest)
    (later : list topologyRequest) :
  Forall (λ q', (tr_now' q ≤ tr_now' q')%Z ∧
    (tr_now q' ≤ tr_now' q + instanceTopologyManagerCacheTimeout)%Z) later →
  wp (serve t q) (λ tr o, match o with
    | Panicked _ => False
    | Done t' =>
       length tr ≤ 1 ∧
       (tr = [] ↔ tr_type q = "" ∨
          ∃ key, concerns key q ∧ fresh (tr_now q) key (unsupportedKeyStore t)) ∧
       ∀ ev key, ev ∈ tr → marks t q ev key →
         wp (loop_all serve later t') (λ u _,
           ∀ ev', ev' ∈ u → ∃ q', q' ∈ later ∧ asks_for (tr_instance q') ev' ∧ ¬ concerns key q') []
    end) [].
Proof.
  intros Hl.
  assert (∀ key t', remembered (tr_now' q) key t' →
    wp (loop_all serve later t') (λ u _,
      ∀ ev', ev' ∈ u → ∃ q', q' ∈ later ∧ asks_for (tr_instance q') ev' ∧ ¬ concerns key q') []) as Hlater.
  { intros key t' Hk. eapply wp_mono; [apply (serve_all_remembered (tr_now' q) key); [done|]|].
    - eapply Forall_impl; [exact Hl|]. naive_solver.
    - intros tr o (u & -> & Hu). exact Hu. }
  unfold serve at 1. cbn [GetNodeTopology topology_manager]. rewrite wp_bind. unfold getNodeTopology.
  pose proof (mightSupport_fresh (tr_now q) t (tr_instance q) (tr_type q) (tr_region q)) as Hm.
  pose proof (mightSupport_pattern (tr_now q) t (tr_instance q) (tr_type q) (tr_region q)) as Hp.
  destruct (mightSupportTopology _ _ _ _ _) as [might t1]. cbn [fst snd] in *.
  destruct might; cbn [negb andThen wp].
  2:{ split_and!; [simpl; lia| |].
      - split; [intros _; by apply Hm|done].
      - intros ev key Hev. by apply not_elem_of_nil in Hev. }
  assert (∀ r (t2 : instanceTopologyManager),
    (∀ key, marks t q (Ev (EC2 (DescribeInstanceTopology [tr_instance q])) r) key → remembered (tr_now' q) key t2) →
    let tr := [Ev (EC2 (DescribeInstanceTopology [tr_instance q])) r] in
    length tr ≤ 1 ∧ (tr = [] ↔ tr_type q = "" ∨
      ∃ key, concerns key q ∧ fresh (tr_now q) key (unsupportedKeyStore t)) ∧
    ∀ ev key, ev ∈ tr → marks t q ev key → wp (loop_all serve later t2) (λ u _,
      ∀ ev', ev' ∈ u → ∃ q', q' ∈ later ∧ asks_for (tr_instance q') ev' ∧ ¬ concerns key q') []) as Hend.
  { intros r t2 H tr. split_and!; [done| |].
    - split; [done|]. intros Hf. by apply Hm in Hf.
    - intros ev key ->%list_elem_of_singleton Hmk. by apply Hlater, H. }
  unfold ec2, call. cbn [bind wp andThen app].
  intros [[|topo l]|err]; cbn [wp andThen].
  - rewrite Hp. destruct (requiresResponse t _) eqn:E; cbn [wp andThen]; apply Hend; intros key Hmk;
      cbn in Hmk; rewrite E in Hmk; apply addUnsupported_remembers; auto; lia.
  - apply Hend. by intros key [].
  - destruct (regionUnsupported err) eqn:E; cbn [wp andThen]; apply Hend; intros key [Hu ->]; [|congruence].
    apply addUnsupported_remembers; [by right|lia].
Qed.

Lemma GetNodeTopology_backs_off_witness :
  let t := mkTopologyManager ∅ (MatchString defaultSupportedTopologyInstanceTypePattern) in
  let q := mkTopologyRequest 0 1 "p4d.24xlarge" "us-east-1" "i-1" in
  let later := [mkTopologyRequest 5 6 "m5.large" "us-east-1" "i-2";
                mkTopologyRequest 7 8 "p4d.24xlarge" "eu-west-1" "i-3"] in
  wp (serve t q) (λ tr o, match o with
    | Panicked _ => False
    | Done t' =>
       length tr ≤ 1 ∧
       (tr = [] ↔ tr_type q = "" ∨
          ∃ key, concerns key q ∧ fresh (tr_now q) key (unsupportedKeyStore t)) ∧
       ∀ ev key, ev ∈ tr → marks t q ev key →
         wp (loop_all serve later t') (λ u _,
           ∀ ev', ev' ∈ u → ∃ q', q' ∈ later ∧ asks_for (tr_instance q') ev' ∧ ¬ concerns key q') []
    end) [].
Proof. apply GetNodeTopology_backs_off. repeat apply Forall_cons_2; [by vm_compute..|constructor]. Defined.

(** The default pattern on instance types. *)
Example topology_types :
  MatchString defaultSupportedTopologyInstanceTypePattern <$>
    ["p4d.24xlarge"; "hpc6a.48xlarge"; "trn1n.32xlarge"; "p6-b200.48xlarge"; "p5."; "m5.large"; "p4d"; "p.large"]
  = [true; true; true; true; true; false; false; false].
Proof. reflexivity. Qed.

(** A run: the region is unsupported at first, and is asked again after the day. *)
Example topology_expires :
  let h := (λ R (c : awsE R) (n : nat), (Err (APIError "UnsupportedOperation" "no"), S n)) in
  let day := instanceTopologyManagerCacheTimeout in
  let q now := mkTopologyRequest now (now + 1) "p4d.24xlarge" "us-east-1" "i-1" in
  let t := mkTopologyManager ∅ (MatchString defaultSupportedTopologyInstanceTypePattern) in
  (run h (loop_all serve [q 0; q 1; q (day + 1)]%Z t) 0 []).1.2 = 1 ∧
  (run h (loop_all serve [q 0; q 1; q (day + 2)]%Z t) 0 []).1.2 = 2.
Proof. by vm_compute. Qed.
