(* ===== verification/NodeAddresses.v ===== *)
(** * Node addresses and compute variants (aws.go, variant.go, fargate.go)

    The addresses of a node from what EC2 reports of its instance, and the operations of
    the Fargate variant, whose nodes are network interfaces instead of instances. *)

From S2P Require Import Prelude GoLib Effects AwsApi Tags Config Cloud NetIP Instances.
From Stdlib Require Import Ascii.
Import Strings Errors Strconv.

(** ** Text of addresses ([net] and k8s.io/utils/net)

    A [net.IP] is a list of sixteen bytes: IPv4 addresses are mapped into IPv6. *)
Definition v4InV6Prefix : list Z := replicate 10 0%Z ++ [255; 255]%Z.

Definition ParseIP (s : string) : option (list Z) :=
  match ParseAddr s with
  | Some (Addr4 bytes) => Some (v4InV6Prefix ++ bytes)
  | Some (Addr6 bytes zone) => if String.eqb zone "" then Some bytes else None
  | None => None
  end.

(** The forked parser of [ParseIPSloppy] accepts leading zeros. *)
Definition sloppyOctet (s : string) : option Z :=
  if String.eqb s "" then None else
  x ← digits 0 s; if (x <=? 255)%Z then Some x else None.

Definition sloppyIPv4 (s : string) : option (list Z) :=
  match Split s "."%char with
  | [a; b; c; d] =>
     a ← sloppyOctet a; b ← sloppyOctet b; c ← sloppyOctet c; d ← sloppyOctet d; Some [a; b; c; d]
  | _ => None
  end.

Fixpoint sloppyFamily (s : string) : option bool :=
  match s with
  | EmptyString => None
  | String "."%char _ => Some false
  | String ":"%char _ => Some true
  | String _ s => sloppyFamily s
  end.

Definition ParseIPSloppy (s : string) : option (list Z) :=
  match sloppyFamily s with
  | Some false => app v4InV6Prefix <$> sloppyIPv4 s
  | Some true => bytes6 (λ _ value, (65535 <? value)%Z) sloppyIPv4 s
  | None => None
  end.

(** The eight groups of an IPv6 address. *)
Fixpoint groups (bytes : list Z) : list Z :=
  match bytes with
  | hi :: lo :: rest => (hi * 256 + lo)%Z :: groups rest
  | _ => []
  end.

Definition hexText (x : Z) : string :=
  let d n := String (hex_digit (Z.to_nat n)) "" in
  let shifted k := (x / 16 ^ k)%Z in
  (if (4096 <=? x)%Z then d (shifted 3 mod 16)%Z else "") +:+
  (if (256 <=? x)%Z then d (shifted 2 mod 16)%Z else "") +:+
  (if (16 <=? x)%Z then d (shifted 1 mod 16)%Z else "") +:+ d (x mod 16)%Z.

(** The number of zero groups at the front. *)
Fixpoint zeroRun (words : list Z) : nat :=
  match words with
  | w :: words => if (w =? 0)%Z then S (zeroRun words) else 0
  | [] => 0
  end.

(** The first longest run of at least two zero groups: where it starts and its length. *)
Definition longestRun (words : list Z) : option (nat * nat) :=
  foldl (λ best i,
    let l := zeroRun (skipn i words) in
    if (2 <=? l) && (match best with Some (_, b) => b <? l | None => true end)
    then Some (i, l) else best) None (seq 0 (length words)).

(** [IP.String] *)
Definition IP_String (ip : list Z) : string :=
  if bool_decide (firstn 12 ip = v4InV6Prefix) then Join (Itoa <$> skipn 12 ip) "."
  else
  let words := groups ip in
  match longestRun words with
  | Some (start, l) =>
     Join (hexText <$> firstn start words) ":" +:+ "::" +:+
     Join (hexText <$> skipn (start + l) words) ":"
  | None => Join (hexText <$> words) ":"
  end.

(** ** Addresses of an instance (aws.go) *)
Record NodeAddress := mkNodeAddress { na_Type : string; na_Address : string }.
#[export] Instance NodeAddress_eq_dec : EqDecision NodeAddress.
Proof. solve_decision. Defined.

Definition NodeInternalIP := "InternalIP".
Definition NodeExternalIP := "ExternalIP".
Definition NodeInternalDNS := "InternalDNS".
Definition NodeExternalDNS := "ExternalDNS".
Definition NodeHostName := "Hostname".
Definition NetworkInterfaceStatusInUse := "in-use".

(** The comparison of the sort: interfaces without an attachment come last. *)
Definition deviceLess (x y : InstanceNetworkInterface) : bool :=
  match eni_DeviceIndex x, eni_DeviceIndex y with
  | None, _ => false
  | Some _, None => true
  | Some i, Some j => (ToInt32 i <? ToInt32 j)%Z
  end.

Definition with_interfaces (i : Instance_) (l : list InstanceNetworkInterface) : Instance_ :=
  mkInstance (i_InstanceId i) (i_InstanceType i) (i_AvailabilityZone i) (i_PrivateDnsName i)
    (i_PublicDnsName i) (i_PublicIpAddress i) l (i_SecurityGroups i) (i_State i) (i_SubnetId i)
    (i_VpcId i) (i_Tags i).

(** The inner loop: the private addresses of one interface. *)
Fixpoint privateAddresses (instanceID : string) (ips : list (option string)) : result (list NodeAddress) :=
  match ips with
  | [] => Ok []
  | internalIP :: ips =>
     let ipAddress := ToString internalIP in
     if String.eqb ipAddress "" then privateAddresses instanceID ips else
     match ParseIPSloppy ipAddress with
     | None => Err (Errorf "EC2 instance had invalid private address: %s (%q)" [instanceID; ipAddress])
     | Some ip =>
        (addresses ←? privateAddresses instanceID ips;
         Ok (mkNodeAddress NodeInternalIP (IP_String ip) :: addresses))%go
     end
  end.

Fixpoint internalAddresses (instanceID : string) (enis : list InstanceNetworkInterface) :
    result (list NodeAddress) :=
  match enis with
  | [] => Ok []
  | eni :: enis =>
     if negb (String.eqb (eni_Status eni) NetworkInterfaceStatusInUse)
     then internalAddresses instanceID enis else
     (here ←? privateAddresses instanceID (eni_PrivateIpAddresses eni);
      rest ←? internalAddresses instanceID enis;
      Ok (here ++ rest))%go
  end.

(** The addresses, and the instance with the interfaces sorted in place. *)
Definition extractIPv4NodeAddresses {GS : GoSort} (instance : option Instance_) :
    result (list NodeAddress) * option Instance_ :=
  match instance with
  | None => (Err (Errorf "nil instance passed to extractNodeAddresses" []), None)
  | Some instance =>
     let instance := with_interfaces instance (sortSlice deviceLess (i_NetworkInterfaces instance)) in
     let instanceID := ToString (i_InstanceId instance) in
     let r :=
       (internal ←? internalAddresses instanceID (i_NetworkInterfaces instance);
        external ←?
          (let publicIPAddress := ToString (i_PublicIpAddress instance) in
           if String.eqb publicIPAddress "" then Ok [] else
           match ParseIPSloppy publicIPAddress with
           | None => Err (Errorf "EC2 instance had invalid public address: %s (%s)"
                            [instanceID; publicIPAddress])
           | Some ip => Ok [mkNodeAddress NodeExternalIP (IP_String ip)]
           end);
        let privateDNSName := ToString (i_PrivateDnsName instance) in
        let publicDNSName := ToString (i_PublicDnsName instance) in
        Ok (internal ++ external ++
            (if String.eqb privateDNSName "" then []
             else [mkNodeAddress NodeInternalDNS privateDNSName; mkNodeAddress NodeHostName privateDNSName]) ++
            (if String.eqb publicDNSName "" then [] else [mkNodeAddress NodeExternalDNS publicDNSName])))%go in
     (r, Some instance)
  end.

(** The first IPv6 address of every interface in use. *)
Fixpoint ipv6Addresses (instanceID : string) (enis : list InstanceNetworkInterface) :
    result (list NodeAddress) :=
  match enis with
  | [] => Ok []
  | eni :: enis =>
     if negb (String.eqb (eni_Status eni) NetworkInterfaceStatusInUse)
     then ipv6Addresses instanceID enis else
     match eni_Ipv6Addresses eni with
     | [] => ipv6Addresses instanceID enis
     | first :: _ =>
        let internalIPv6 := ToString first in
        match ParseIP internalIPv6 with
        | None => Err (Errorf "EC2 instance had invalid IPv6 address: %s (%q)" [instanceID; internalIPv6])
        | Some ip =>
           (addresses ←? ipv6Addresses instanceID enis;
            Ok (mkNodeAddress NodeInternalIP (IP_String ip) :: addresses))%go
        end
     end
  end.

Definition extractIPv6NodeAddresses (instance : option Instance_) : result (list NodeAddress) :=
  match instance with
  | None => Err (Errorf "nil instance passed to extractNodeAddresses" [])
  | Some instance => ipv6Addresses (ToString (i_InstanceId instance)) (i_NetworkInterfaces instance)
  end.

(** The loop over the families; the sort for IPv4 is visible to the families after it. *)
Fixpoint familyAddresses {GS : GoSort} (families : list string) (instance : option Instance_) :
    result (list NodeAddress) :=
  match families with
  | [] => Ok []
  | family :: families =>
     if String.eqb family "ipv4" then
       let '(r, instance) := extractIPv4NodeAddresses instance in
       (ipv4addr ←? r; rest ←? familyAddresses families instance; Ok (ipv4addr ++ rest))%go
     else if String.eqb family "ipv6" then
       (ipv6addr ←? extractIPv6NodeAddresses instance;
        rest ←? familyAddresses families instance; Ok (ipv6addr ++ rest))%go
     else familyAddresses families instance
  end.

Definition getInstanceNodeAddress {GS : GoSort} (c : Cloud) (instance : option Instance_) :
    result (list NodeAddress) :=
  familyAddresses (cfg_NodeIPFamilies (c_cfg c)) instance.

(** ** The interface [Variant] (variant.go) *)
Record ProviderZone := mkProviderZone { z_FailureDomain : string; z_Region : string }.

Record Variant := mkVariant {
  IsSupportedNode : string → bool;
  v_NodeAddresses : string → string → prog awsE (result (list NodeAddress));
  v_GetZone : string → string → string → prog awsE (result ProviderZone);
  v_InstanceExists : string → string → prog awsE (result bool);
  v_InstanceShutdown : string → string → prog awsE (result bool);
  v_InstanceTypeByProviderID : string → result string
}.

(** The registered variants, by name. *)
Definition RegisterVariant (variants : list (string * Variant)) (name : string) (variant : Variant) :
    option (list (string * Variant)) :=
  if existsb (λ v, String.eqb v.1 name) variants then None else Some (variants ++ [(name, variant)]).

(** A loop over the map, in an order [variants] lists it. *)
Definition GetVariant (variants : list (string * Variant)) (instanceID : string) : option Variant :=
  snd <$> find (λ v, IsSupportedNode v.2 instanceID) variants.

Definition NodeType (variants : list (string * Variant)) (instanceID : string) : string :=
  default "" (fst <$> find (λ v, IsSupportedNode v.2 instanceID) variants).

Definition GetVariants (variants : list (string * Variant)) : list Variant := snd <$> variants.

(** ** Fargate (fargate.go) *)
Definition fargateSupportedNode (nodeName : string) : bool := HasPrefix nodeName fargateNodeNamePrefix.

(** The text of the last error does not list the interfaces. *)
Definition fargateDescribeNetworkInterfaces (instanceID vpcID : string) :
    prog awsE (result (option NetworkInterface)) :=
  let eniEndpoint := TrimPrefix instanceID fargateNodeNamePrefix in
  let eniEndpoint :=
    if HasPrefix eniEndpoint privateDNSNamePrefix then nodeNameToIPAddress eniEndpoint else eniEndpoint in
  let? interfaces := ec2 (DescribeNetworkInterfaces
    [newEc2Filter "attachment.status" ["attached"]; newEc2Filter "vpc-id" [vpcID];
     newEc2Filter "private-ip-address" [eniEndpoint]]) in
  match interfaces with
  | [] => Ret (Ok None)
  | [eni] => Ret (Ok (Some eni))
  | _ => Ret (Err (Errorf "multiple interfaces found with same id" []))
  end.

Definition getNodeAddressesForFargateNode (privateDNSName privateIP : string) : list NodeAddress :=
  mkNodeAddress NodeInternalIP privateIP ::
  (if String.eqb privateDNSName "" then [] else [mkNodeAddress NodeInternalDNS privateDNSName]).

Definition fargateFamily (eni : NetworkInterface) (family : string) : list NodeAddress :=
  let privateDNSName := ToString (ni_PrivateDnsName eni) in
  if String.eqb family "ipv4" then
    getNodeAddressesForFargateNode privateDNSName (ToString (ni_PrivateIpAddress eni))
  else if String.eqb family "ipv6" then
    match ni_Ipv6Addresses eni with
    | [] => []
    | internalIPv6Address :: _ =>
       getNodeAddressesForFargateNode privateDNSName (ToString internalIPv6Address)
    end
  else [].

Definition fargateNodeAddresses (cloudConfig : CloudConfig) (instanceID vpcID : string) :
    prog awsE (result (list NodeAddress)) :=
  let? eni := fargateDescribeNetworkInterfaces instanceID vpcID in
  match eni with
  | None => Ret (Ok [])
  | Some eni => Ret (Ok (cfg_NodeIPFamilies cloudConfig ≫= fargateFamily eni))
  end.

Definition fargateGetZone (instanceID vpcID region : string) : prog awsE (result ProviderZone) :=
  let? eni := fargateDescribeNetworkInterfaces instanceID vpcID in
  match eni with
  | None => Ret (Ok (mkProviderZone "" ""))
  | Some eni =>
     let! zone := no_panic (ni_AvailabilityZone eni) in
     Ret (Ok (mkProviderZone zone region))
  end.

Definition fargateInstanceExists (instanceID vpcID : string) : prog awsE (result bool) :=
  let? eni := fargateDescribeNetworkInterfaces instanceID vpcID in
  Ret (Ok (bool_decide (is_Some eni))).

Definition fargateInstanceShutdown (instanceID vpcID : string) : prog awsE (result bool) :=
  let? eni := fargateDescribeNetworkInterfaces instanceID vpcID in
  Ret (Ok (bool_decide (is_Some eni))).

Definition fargateInstanceTypeByProviderID (instanceID : string) : result string := Ok "".

(** The variant after [Initialize] with the configuration. *)
Definition fargateVariant (cloudConfig : CloudConfig) : Variant :=
  mkVariant fargateSupportedNode (fargateNodeAddresses cloudConfig) fargateGetZone
    fargateInstanceExists fargateInstanceShutdown fargateInstanceTypeByProviderID.

(** What the [init] functions of the program register. *)
Definition registeredVariants (cloudConfig : CloudConfig) : list (string * Variant) :=
  default [] (RegisterVariant [] "fargate" (fargateVariant cloudConfig)).

(** ** The primary interface comes first *)
Lemma deviceLess_asym x y : deviceLess x y = true → deviceLess y x = false.
Proof.
  unfold deviceLess. destruct (eni_DeviceIndex x), (eni_DeviceIndex y); try done.
  rewrite Z.ltb_lt, Z.ltb_ge. lia.
Qed.

Lemma deviceLess_trans x y z :
  deviceLess x y = false → deviceLess y z = false → deviceLess x z = false.
Proof.
  unfold deviceLess. destruct (eni_DeviceIndex x), (eni_DeviceIndex y), (eni_DeviceIndex z); try done.
  rewrite !Z.ltb_ge. lia.
Qed.

Section addresses.
Context {GS : GoSort}.

(** An element below all others is first after the sort. *)
Lemma sortSlice_head {A} (less : A → A → bool) (l others : list A) p :
  (∀ x y, less x y = true → less y x = false) →
  (∀ x y z, less x y = false → less y z = false → less x z = false) →
  l ≡ₚ p :: others → (∀ q, q ∈ others → less p q = true) →
  ∃ rest, sortSlice less l = p :: rest ∧ rest ≡ₚ others.
Proof.
  intros Ha Ht Hl Hp.
  assert (sortSlice less l ≡ₚ p :: others) as Hperm by (etrans; [apply sortSlice_perm|done]).
  assert (StronglySorted (λ a b, less b a = false) (sortSlice less l)) as Hs.
  { apply sortSlice_sorted; intros; [by apply Ha|by eapply Ht]. }
  destruct (sortSlice less l) as [|x rest]; [by apply Permutation_nil_l in Hperm|].
  apply StronglySorted_cons in Hs as [Hx _].
  assert (x ∈ p :: others) as [->|Hin]%elem_of_cons by (rewrite <-Hperm; set_solver).
  - exists rest. split; [done|]. by apply Permutation_cons_inv in Hperm.
  - assert (p ∈ x :: rest) as [->|Hin']%elem_of_cons by (rewrite Hperm; set_solver).
    + specialize (Hp x Hin). specialize (Ha _ _ Hp). congruence.
    + rewrite Forall_forall in Hx. specialize (Hx p Hin'). specialize (Hp x Hin). congruence.
Qed.

(** [p] is the primary interface of [instance]: attached and with a device index below
    that of all [others]. *)
Definition primary (instance : Instance_) (p : InstanceNetworkInterface)
    (others : list InstanceNetworkInterface) : Prop :=
  i_NetworkInterfaces instance ≡ₚ p :: others ∧ ∀ q, q ∈ others → deviceLess p q = true.

(** The address [a] is one of an interface in use. *)
Definition in_use_address (enis : list InstanceNetworkInterface) (a : string) : Prop :=
  ∃ eni text ip, eni ∈ enis ∧ eni_Status eni = NetworkInterfaceStatusInUse ∧
    (Some text ∈ eni_PrivateIpAddresses eni ∧ ParseIPSloppy text = Some ip ∨
     head (eni_Ipv6Addresses eni) = Some (Some text) ∧ ParseIP text = Some ip) ∧
    a = IP_String ip.

Lemma privateAddresses_from id ips l a :
  privateAddresses id ips = Ok l → a ∈ l →
  na_Type a = NodeInternalIP ∧
  ∃ text ip, Some text ∈ ips ∧ ParseIPSloppy text = Some ip ∧ na_Address a = IP_String ip.
Proof.
  revert l. induction ips as [|[text|] ips IH]; intros l H Ha; cbn [privateAddresses] in H.
  - injection H as <-. by apply not_elem_of_nil in Ha.
  - assert (∀ l', privateAddresses id ips = Ok l' → a ∈ l' → na_Type a = NodeInternalIP ∧
      ∃ t ip, Some t ∈ Some text :: ips ∧ ParseIPSloppy t = Some ip ∧ na_Address a = IP_String ip) as IH'.
    { intros l' Hl' Hin. destruct (IH l' Hl' Hin) as (? & t & ip & ? & ?). split; [done|].
      exists t, ip. split; [by right|done]. }
    change (ToString (Some text)) with text in H. destruct (String.eqb text ""); [by eapply IH'|].
    destruct (ParseIPSloppy text) as [ip|] eqn:E; [|done].
    destruct (privateAddresses id ips) as [l'|]; [|done]. injection H as <-.
    apply elem_of_cons in Ha as [-> |Ha]; [|by eapply IH'].
    split; [done|]. exists text, ip. split; [by left|done].
  - destruct (IH l H Ha) as (? & t & ip & ? & ?). split; [done|]. exists t, ip. split; [by right|done].
Qed.

Lemma in_use_mono enis enis' a : enis ⊆ enis' → in_use_address enis a → in_use_address enis' a.
Proof. intros Hs (eni & text & ip & He & H). exists eni, text, ip. auto. Qed.

Lemma internalAddresses_from id enis l a :
  internalAddresses id enis = Ok l → a ∈ l →
  na_Type a = NodeInternalIP ∧ in_use_address enis (na_Address a).
Proof.
  revert l. induction enis as [|eni enis IH]; intros l H Ha; cbn [internalAddresses] in H.
  - injection H as <-. by apply not_elem_of_nil in Ha.
  - destruct (String.eqb_spec (eni_Status eni) NetworkInterfaceStatusInUse) as [Hs|_]; cbn [negb] in H.
    + destruct (privateAddresses _ _) as [here|] eqn:Hh; [|done].
      destruct (internalAddresses id enis) as [rest|] eqn:Hr; [|done]. injection H as <-.
      apply elem_of_app in Ha as [Ha|Ha].
      * destruct (privateAddresses_from _ _ _ _ Hh Ha) as (Ht & text & ip & Hin & Hp & Hadr).
        split; [done|]. exists eni, text, ip. split_and!; [by left|done|by left|done].
      * destruct (IH _ eq_refl Ha). split; [done|]. eapply in_use_mono; [|done]. set_solver.
    + destruct (IH _ H Ha). split; [done|]. eapply in_use_mono; [|done]. set_solver.
Qed.

Lemma ipv6Addresses_from id enis l a :
  ipv6Addresses id enis = Ok l → a ∈ l →
  na_Type a = NodeInternalIP ∧ in_use_address enis (na_Address a).
Proof.
  revert l. induction enis as [|eni enis IH]; intros l H Ha; cbn [ipv6Addresses] in H.
  - injection H as <-. by apply not_elem_of_nil in Ha.
  - assert (∀ l', ipv6Addresses id enis = Ok l' → a ∈ l' →
      na_Type a = NodeInternalIP ∧ in_use_address (eni :: enis) (na_Address a)) as IH'.
    { intros l' Hl' Hin. destruct (IH l' Hl' Hin). split; [done|]. eapply in_use_mono; [|done]. set_solver. }
    destruct (String.eqb_spec (eni_Status eni) NetworkInterfaceStatusInUse) as [Hs|_]; cbn [negb] in H;
      [|by eapply IH'].
    destruct (eni_Ipv6Addresses eni) as [|first more] eqn:E6; [by eapply IH'|].
    destruct (ParseIP (ToString first)) as [ip|] eqn:Ep; [|done].
    destruct (ipv6Addresses id enis) as [rest|]; [|done]. injection H as <-.
    apply elem_of_cons in Ha as [-> |Ha]; [|by eapply IH']. split; [done|].
    destruct first as [text|]; [|by vm_compute in Ep].
    exists eni, text, ip. split_and!; [by left|done|right; by rewrite E6|done].
Qed.

(** The internal addresses of the IPv4 part. *)
Lemma extractIPv4_from instance r instance' l a :
  extractIPv4NodeAddresses (Some instance) = (r, instance') → r = Ok l → a ∈ l →
  na_Type a = NodeInternalIP → in_use_address (i_NetworkInterfaces instance) (na_Address a).
Proof.
  intros [= <- <-] H Ha Ht. cbn [with_interfaces i_NetworkInterfaces i_InstanceId] in H.
  destruct (internalAddresses _ _) as [internal|] eqn:Hi; cbn [rbind] in H; [|done].
  destruct (if String.eqb _ "" then _ else _) as [external|] eqn:Hx; cbn [rbind] in H; [|done].
  injection H as <-. apply elem_of_app in Ha as [Ha|Ha].
  { destruct (internalAddresses_from _ _ _ _ Hi Ha) as [_ Hu]. eapply in_use_mono; [|exact Hu].
    intros eni. by rewrite sortSlice_perm. }
  exfalso. apply elem_of_app in Ha as [Ha|Ha].
  { destruct (String.eqb _ "") in Hx; [|destruct (ParseIPSloppy _) in Hx; [|done]]; injection Hx as <-;
      [by apply not_elem_of_nil in Ha|]. by apply list_elem_of_singleton in Ha as ->. }
  apply elem_of_app in Ha as [Ha|Ha]; destruct (String.eqb _ "") in Ha;
    repeat (apply elem_of_cons in Ha as [-> |Ha]); try done; by apply not_elem_of_nil in Ha.
Qed.

(** Sorting keeps the interfaces. *)
Lemma extractIPv4_interfaces instance :
  ∃ instance', (extractIPv4NodeAddresses (Some instance)).2 = Some instance' ∧
    ∀ eni, eni ∈ i_NetworkInterfaces instance' → eni ∈ i_NetworkInterfaces instance.
Proof. eexists. split; [done|]. intros eni. cbn. by rewrite sortSlice_perm. Qed.

Lemma familyAddresses_from families instance l a :
  familyAddresses families (Some instance) = Ok l → a ∈ l →
  na_Type a = NodeInternalIP → in_use_address (i_NetworkInterfaces instance) (na_Address a).
Proof.
  revert instance l. induction families as [|family families IH]; intros instance l H Ha Ht;
    cbn [familyAddresses] in H; [injection H as <-; by apply not_elem_of_nil in Ha|].
  destruct (String.eqb family "ipv4").
  - destruct (extractIPv4_interfaces instance) as (instance' & Hi & Hsub).
    destruct (extractIPv4NodeAddresses (Some instance)) as [r i2] eqn:E. cbn [snd] in Hi. subst i2.
    destruct r as [here|]; [|done]. cbn [rbind] in H.
    destruct (familyAddresses families (Some instance')) as [rest|] eqn:Hr; [|done]. injection H as <-.
    apply elem_of_app in Ha as [Ha|Ha]; [by eapply extractIPv4_from|].
    eapply in_use_mono; [|by eapply IH]. exact Hsub.
  - destruct (String.eqb family "ipv6"); [|by eapply IH].
    destruct (extractIPv6NodeAddresses _) as [here|] eqn:E; [|done]. cbn [rbind] in H.
    destruct (familyAddresses families _) as [rest|] eqn:Hr; [|done]. injection H as <-.
    apply elem_of_app in Ha as [Ha|Ha]; [|by eapply IH].
    by eapply ipv6Addresses_from.
Qed.

(** C39: the internal addresses of a node are addresses of interfaces in use, in canonical
    form, never of a detached interface; and in whatever order EC2 lists the interfaces,
    when IPv4 is the first family the first address of the node is the first private
    address of its primary interface. *)
Theorem getInstanceNodeAddress_primary (c : Cloud) (instance : Instance_) addresses :
  getInstanceNodeAddress c (Some instance) = Ok addresses →
  (∀ a, a ∈ addresses → na_Type a = NodeInternalIP →
     in_use_address (i_NetworkInterfaces instance) (na_Address a)) ∧
  ∀ p others ip ips families,
    cfg_NodeIPFamilies (c_cfg c) = "ipv4" :: families →
    primary instance p others → eni_Status p = NetworkInterfaceStatusInUse →
    eni_PrivateIpAddresses p = Some ip :: ips → ip ≠ "" →
    ∃ bytes, ParseIPSloppy ip = Some bytes ∧
      head addresses = Some (mkNodeAddress NodeInternalIP (IP_String bytes)).
Proof.
  intros H. split; [intros a; by eapply familyAddresses_from|].
  intros p others ip ips families Hf [Hp Hless] Hin Hips Hne.
  unfold getInstanceNodeAddress in H. rewrite Hf in H. cbn [familyAddresses] in H.
  destruct (sortSlice_head deviceLess (i_NetworkInterfaces instance) others p
    deviceLess_asym deviceLess_trans Hp Hless) as (rest & Hs & _).
  change (String.eqb "ipv4" "ipv4") with true in H.
  cbn [extractIPv4NodeAddresses with_interfaces i_NetworkInterfaces i_InstanceId] in H.
  rewrite Hs in H. cbn [internalAddresses] in H. rewrite Hin, Hips in H.
  change (String.eqb NetworkInterfaceStatusInUse NetworkInterfaceStatusInUse) with true in H.
  cbn [negb privateAddresses] in H. change (ToString (Some ip)) with ip in H.
  destruct (String.eqb_spec ip ""); [done|].
  destruct (ParseIPSloppy ip) as [bytes|]; [|done]. cbn [rbind] in H.
  exists bytes. split; [done|].
  destruct (privateAddresses _ ips) as [here|]; cbn [rbind] in H; [|done].
  destruct (internalAddresses _ rest) as [more|]; cbn [rbind] in H; [|done].
  destruct (if String.eqb _ "" then _ else _) as [external|]; cbn [rbind] in H; [|done].
  destruct (familyAddresses _ _) as [after|]; cbn [rbind] in H; [|done].
  by injection H as <-.
Qed.
End addresses.

(** ** Examples *)
Example ip_texts :
  (λ s, IP_String <$> ParseIPSloppy s) <$>
    ["010.0.0.01"; "2001:db8:0:0:1:0:0:1"; "::ffff:1.2.3.4"; "::"; "fe80::1%eth0"; "1::"; "1.2.3"; "1:2:3:4:5:6:7:0"]
  = [Some "10.0.0.1"; Some "2001:db8::1:0:0:1"; Some "1.2.3.4"; Some "::"; None; Some "1::"; None; Some "1:2:3:4:5:6:7:0"].
Proof. vm_compute. reflexivity. Qed.

Definition eni_at (index : Z) (status : string) (ips ips6 : list (option string)) :=
  mkInstanceNetworkInterface (Some (Some index)) status ips ips6.
Definition two_interfaces : Instance_ :=
  mkInstance (Some "i-1") "m5.large" (Some (Some "us-east-1a")) (Some "ip-10-0-0-1.ec2.internal") None
    (Some "54.0.0.1")
    [eni_at 1 "in-use" [Some "10.0.1.7"] [Some "2001:db8::7"];
     mkInstanceNetworkInterface None "in-use" [Some "10.0.2.9"] [];
     eni_at 0 "in-use" [Some "10.0.0.1"; Some "10.0.0.2"] [Some "2001:db8::1"];
     eni_at 2 "available" [Some "10.0.3.1"] []] [] (Some "running") None None [].
Definition dual_cloud (families : list string) : Cloud :=
  mkCloud (mkCloudConfig "" "" "" "" "" "" "" "" "" false "" families "" 0 "" "" "" ∅) "us-east-1" "vpc-1"
    (mkTagging "prod" false) no_instance.

(** The order of the IPv6 addresses follows the device index only when IPv4 comes first. *)
Example addresses_by_family :
  let at_ families :=
    match getInstanceNodeAddress (GS := insertion_sort) (dual_cloud families) (Some two_interfaces) with
    | Ok l => Some (na_Address <$> l)
    | Err _ => None
    end in
  at_ ["ipv4"; "ipv6"] = Some ["10.0.0.1"; "10.0.0.2"; "10.0.1.7"; "10.0.2.9"; "54.0.0.1";
    "ip-10-0-0-1.ec2.internal"; "ip-10-0-0-1.ec2.internal"; "2001:db8::1"; "2001:db8::7"] ∧
  at_ ["ipv6"] = Some ["2001:db8::7"; "2001:db8::1"].
Proof. by vm_compute. Qed.

Lemma getInstanceNodeAddress_primary_witness :
  let c := dual_cloud ["ipv4"] in
  let p := eni_at 0 "in-use" [Some "10.0.0.1"; Some "10.0.0.2"] [Some "2001:db8::1"] in
  let others := [eni_at 1 "in-use" [Some "10.0.1.7"] [Some "2001:db8::7"];
     mkInstanceNetworkInterface None "in-use" [Some "10.0.2.9"] []; eni_at 2 "available" [Some "10.0.3.1"] []] in
  primary two_interfaces p others ∧
  ∃ bytes, ParseIPSloppy "10.0.0.1" = Some bytes ∧
    Some (mkNodeAddress NodeInternalIP "10.0.0.1") = Some (mkNodeAddress NodeInternalIP (IP_String bytes)).
Proof.
  intros c p others. assert (primary two_interfaces p others) as Hp.
  { split; [|intros q Hq; repeat (apply elem_of_cons in Hq as [-> |Hq]; [done|]); by apply not_elem_of_nil in Hq].
    by vm_compute; solve_Permutation. }
  split; [done|]. unshelve edestruct (getInstanceNodeAddress_primary (GS := insertion_sort) c two_interfaces) as [_ H];
    [|by vm_compute|]. destruct (H p others "10.0.0.1" [Some "10.0.0.2"] []) as (bytes & Hb & Hh); [done..|].
  exists bytes. split; [done|]. exact Hh.
Defined.
