(* ===== verification/InstancesV2.v ===== *)
(** * The instances interface (aws.go, instances_v2.go)

    What the node controllers ask of the provider: whether the instance of a node exists
    or is shut down, its id, type, zone and addresses, and the labels of its place in the
    network.  A wrong "does not exist" makes the controllers delete the node. *)

From S2P Require Import Prelude GoLib Effects AwsApi Tags Config Cloud Subnets NetIP Instances InstanceFacts Lookup Topology NodeAddresses.
From Stdlib Require Import Ascii.
Import Strings Errors Strconv.

Definition ProviderName := "aws".
Definition LabelZoneID := "topology.k8s.aws/zone-id".
Definition LabelNetworkNodePrefix := "topology.k8s.aws/network-node-layer-".
Definition InstanceStateNameTerminated := "terminated".
Definition InstanceStateNameStopped := "stopped".

(** [newAWSInstance] (aws_instance.go) *)
Definition newAWSInstance (instance : Instance_) : awsInstance :=
  mkAwsInstance (ToString (i_InstanceId instance)) (mapInstanceToNodeName instance)
    (match i_AvailabilityZone instance with Some zone => ToString zone | None => "" end)
    (ToString (i_VpcId instance)) (ToString (i_SubnetId instance)) (i_InstanceType instance).

(** [cloudprovider.InstanceMetadata] *)
Record InstanceMetadata := mkInstanceMetadata {
  im_ProviderID : string;
  im_InstanceType : string;
  im_NodeAddresses : list NodeAddress;
  im_Zone : string;
  im_Region : string;
  im_AdditionalLabels : gmap string string
}.

(** [err == cloudprovider.InstanceNotFound] *)
Definition isInstanceNotFound (err : error) : bool :=
  match err with Sentinel t => String.eqb t "instance not found" | _ => false end.

Section instances.
(** The rest of [Cloud]: see [Instances]; [variants] are the registered ones. *)
Context {GS : GoSort} (odd_authority : string → bool)
  (describeInstanceBatcher : list string → prog awsE (result (list Instance_)))
  (nodeInformer : informer) (variants : list (string * Variant)) (c : Cloud).

Definition HasClusterID : bool := 0 <? len (clusterID (c_tagging c)).

Definition getInstanceZone (instance : Instance_) : option ProviderZone :=
  placement ← i_AvailabilityZone instance; zone ← placement;
  Some (mkProviderZone zone (c_region c)).

Definition getInstanceType (instance : Instance_) : string := i_InstanceType instance.

Definition InstanceID (nodeName : string) : prog awsE (result string) :=
  let self := c_selfAWSInstance c in
  if String.eqb (aw_nodeName self) nodeName then
    Ret (Ok ("/" +:+ aw_availabilityZone self +:+ "/" +:+ aw_awsID self))
  else
  let! r := getInstanceByNodeName odd_authority describeInstanceBatcher c nodeInformer nodeName in
  match r with
  | Err err =>
     if isInstanceNotFound err then Ret (Err err)
     else Ret (Err (Errorf "getInstanceByNodeName failed for %q with %q" [nodeName; Error err]))
  | Ok inst =>
     let! zone := no_panic (i_AvailabilityZone inst) in
     Ret (Ok ("/" +:+ ToString zone +:+ "/" +:+ ToString (i_InstanceId inst)))
  end.

Definition getProviderID (node : Node) : prog awsE (result string) :=
  if negb (String.eqb (node_ProviderID node) "") then Ret (Ok (node_ProviderID node)) else
  let? instanceID := InstanceID (node_Name node) in
  Ret (Ok (ProviderName +:+ "://" +:+ instanceID)).

(** The decision on what the batcher answers. *)
Definition existsOf (instanceID : string) (r : result (list Instance_)) : result bool :=
  match r with
  | Err err => if IsAWSErrorInstanceNotFound err then Ok false else Err err
  | Ok [] => Ok false
  | Ok [instance] =>
     match i_State instance with
     | None => Ok false
     | Some state => if String.eqb state InstanceStateNameTerminated then Ok false else Ok true
     end
  | Ok _ => Err (Errorf "multiple instances found for instance: %s" [instanceID])
  end.

Definition InstanceExistsByProviderID (providerID : string) : prog awsE (result bool) :=
  match MapToAWSInstanceID odd_authority providerID with
  | Err err => Ret (Err err)
  | Ok instanceID =>
     match GetVariant variants instanceID with
     | Some v => v_InstanceExists v instanceID (c_vpcID c)
     | None =>
        let! r := describeInstanceBatcher [instanceID] in
        Ret (existsOf instanceID r)
     end
  end.

Definition shutdownOf (instanceID : string) (r : result (list Instance_)) : result bool :=
  match r with
  | Err err => Err err
  | Ok [] => Ok false
  | Ok [instance] =>
     match i_State instance with
     | Some state => Ok (String.eqb state InstanceStateNameStopped)
     | None => Ok false
     end
  | Ok _ => Err (Errorf "multiple instances found for instance: %s" [instanceID])
  end.

Definition InstanceShutdownByProviderID (providerID : string) : prog awsE (result bool) :=
  match MapToAWSInstanceID odd_authority providerID with
  | Err err => Ret (Err err)
  | Ok instanceID =>
     match GetVariant variants instanceID with
     | Some v => v_InstanceShutdown v instanceID (c_vpcID c)
     | None =>
        let! r := describeInstanceBatcher [instanceID] in
        Ret (shutdownOf instanceID r)
     end
  end.

Definition InstanceExists (node : Node) : prog awsE (result bool) :=
  let! r := getProviderID node in
  match r with
  | Err err => if IsSentinel "instance not found" err then Ret (Ok false) else Ret (Err err)
  | Ok providerID => InstanceExistsByProviderID providerID
  end.

Definition InstanceShutdown (node : Node) : prog awsE (result bool) :=
  let! r := getProviderID node in
  match r with
  | Err err => if IsSentinel "instance not found" err then Ret (Ok false) else Ret (Err err)
  | Ok providerID => InstanceShutdownByProviderID providerID
  end.

Definition InstanceTypeByProviderID (providerID : string) : prog awsE (result string) :=
  match MapToAWSInstanceID odd_authority providerID with
  | Err err => Ret (Err err)
  | Ok instanceID =>
     match GetVariant variants instanceID with
     | Some v => Ret (v_InstanceTypeByProviderID v instanceID)
     | None =>
        let? instance := describeInstance instanceID in
        Ret (Ok (getInstanceType instance))
     end
  end.

Definition InstanceType (nodeName : string) : prog awsE (result string) :=
  if String.eqb (aw_nodeName (c_selfAWSInstance c)) nodeName then
    Ret (Ok (aw_instanceType (c_selfAWSInstance c)))
  else
  let? inst := getInstanceByNodeName odd_authority describeInstanceBatcher c nodeInformer nodeName
    else (λ err, Errorf "getInstanceByNodeName failed for %q with %q" [nodeName; Error err]) in
  Ret (Ok (i_InstanceType inst)).

Definition NodeAddressesByProviderID (providerID : string) : prog awsE (result (list NodeAddress)) :=
  match MapToAWSInstanceID odd_authority providerID with
  | Err err => Ret (Err err)
  | Ok instanceID =>
     match GetVariant variants instanceID with
     | Some v => v_NodeAddresses v instanceID (c_vpcID c)
     | None =>
        let? instance := describeInstance instanceID in
        Ret (getInstanceNodeAddress c (Some instance))
     end
  end.

Definition NodeAddresses (name : string) : prog awsE (result (list NodeAddress)) :=
  match nodeNameToInstanceID odd_authority nodeInformer name with
  | Err err => Ret (Err (Errorf "could not look up instance ID for node %q: %v" [name; Error err]))
  | Ok instanceID => NodeAddressesByProviderID instanceID
  end.

Definition GetZone : ProviderZone :=
  mkProviderZone (aw_availabilityZone (c_selfAWSInstance c)) (c_region c).

(** A nil instance or zone is dereferenced. *)
Definition GetZoneByProviderID (providerID : string) : prog awsE (result ProviderZone) :=
  match MapToAWSInstanceID odd_authority providerID with
  | Err err => Ret (Err err)
  | Ok instanceID =>
     match GetVariant variants instanceID with
     | Some v => v_GetZone v instanceID (c_vpcID c) (c_region c)
     | None =>
        let? instance := getInstanceByID describeInstanceBatcher instanceID in
        let! zone := no_panic (instance ≫= getInstanceZone) in
        Ret (Ok zone)
     end
  end.

Definition GetZoneByNodeName (nodeName : string) : prog awsE (result ProviderZone) :=
  let? instance := getInstanceByNodeName odd_authority describeInstanceBatcher c nodeInformer nodeName in
  let! zone := no_panic (getInstanceZone instance) in
  Ret (Ok zone).

(** ** Metadata (instances_v2.go) *)
Context {T : Type} {TM : InstanceTopologyManager T} (now now' : Z).

(** The labels of the network nodes, from layer 1 on. *)
Definition layerLabels (labels : gmap string string) (networkNodes : list string) : gmap string string :=
  foldl (λ labels '(index, networkNode),
    <[LabelNetworkNodePrefix +:+ Itoa (Z.of_nat index + 1) := networkNode]> labels)
    labels (imap pair networkNodes).

(** The zone cache and the topology manager are threaded. *)
Definition getAdditionalLabels (zoneCache_ : zoneCache) (t : T)
    (zoneName instanceID instanceType region : string) (existingLabels : gmap string string) :
    prog awsE (result (gmap string string) * (zoneCache * T)) :=
  let! (r, zc) :=
    match existingLabels !! LabelZoneID with
    | Some _ => Ret (Ok ∅, zoneCache_)
    | None =>
       let! (r, zc) := getZoneIDByZoneName zoneCache_ zoneName in
       match r with
       | Err err => Ret (Err err, zc)
       | Ok zoneID => Ret (Ok {[LabelZoneID := zoneID]}, zc)
       end
    end in
  match r with
  | Err err => Ret (Err err, (zc, t))
  | Ok additionalLabels =>
     match existingLabels !! (LabelNetworkNodePrefix +:+ "1") with
     | Some _ => Ret (Ok additionalLabels, (zc, t))
     | None =>
        let! (nodeTopology, t) := GetNodeTopology now now' t instanceType region instanceID in
        match nodeTopology with
        | Err err =>
           if DoesInstanceTypeRequireResponse t instanceType then Ret (Err err, (zc, t))
           else Ret (Ok additionalLabels, (zc, t))
        | Ok (Some nodeTopology) =>
           Ret (Ok (layerLabels additionalLabels (it_NetworkNodes nodeTopology)), (zc, t))
        | Ok None => Ret (Ok additionalLabels, (zc, t))
        end
     end
  end.

(** What [InstanceMetadata] reads of the instance: type, zone and addresses. *)
Definition instanceFacts (providerID instanceID : string) :
    prog awsE (result (string * ProviderZone * list NodeAddress)) :=
  if existsb (λ v, IsSupportedNode v.2 instanceID) variants then
    let? instanceType := InstanceTypeByProviderID providerID in
    let? zone := GetZoneByProviderID providerID in
    let? nodeAddresses := NodeAddressesByProviderID providerID in
    Ret (Ok (instanceType, zone, nodeAddresses))
  else
    let? instance := getInstanceByID describeInstanceBatcher instanceID
      else wrap "failed to get instance by ID %s: %w" [instanceID] in
    let! instance := no_panic instance in
    let! zone := no_panic (getInstanceZone instance) in
    let? nodeAddresses := Ret (getInstanceNodeAddress c (Some instance))
      else wrap "failed to get node addresses for instance %s: %w" [instanceID] in
    Ret (Ok (getInstanceType instance, zone, nodeAddresses)).

Definition instanceMetadata (zc : zoneCache) (t : T) (node : Node) :
    prog awsE (result InstanceMetadata * (zoneCache * T)) :=
  let! providerID := getProviderID node in
  match providerID with
  | Err err => Ret (Err err, (zc, t))
  | Ok providerID =>
  match MapToAWSInstanceID odd_authority providerID with
  | Err err =>
     Ret (Err (wrap "failed to map provider ID to AWS instance ID for node %s: %w" [node_Name node] err),
          (zc, t))
  | Ok instanceID =>
     let! facts := instanceFacts providerID instanceID in
     match facts with
     | Err err => Ret (Err err, (zc, t))
     | Ok (instanceType, zone, nodeAddresses) =>
        let! (labels, state) := getAdditionalLabels zc t (z_FailureDomain zone) instanceID instanceType
          (z_Region zone) (node_Labels node) in
        match labels with
        | Err err => Ret (Err err, state)
        | Ok additionalLabels =>
           Ret (Ok (mkInstanceMetadata providerID instanceType nodeAddresses (z_FailureDomain zone)
                      (z_Region zone) additionalLabels), state)
        end
     end
  end
  end.

End instances.

(** ** When a node is reported as gone *)

Definition dead (i : Instance_) : Prop := i_State i = None ∨ i_State i = Some InstanceStateNameTerminated.

(** The address of the interface of a Fargate node: the rest of the id, or, when that is
    built from the address, the address. *)
Definition fargate_address (id ip : string) : Prop :=
  id = "fargate-" +:+ ip ∧ HasPrefix ip "ip-" = false ∨
  ∃ name host, id = "fargate-ip-" +:+ name ∧ first_label "." name host ∧ ip = ReplaceByte host "-" ".".

(** An answer of EC2, asked for [id] alone, that means that there is no such live instance. *)
Definition says_gone (id : string) (r : result (list Instance_)) : Prop :=
  match r with
  | Err err => IsAWSErrorInstanceNotFound err = true ∨ isInstanceNotFound err = true
  | Ok l => ∀ i, i ∈ l → ToString (i_InstanceId i) = id → dead i
  end.

Section gone.
Context {GS : GoSort} (odd : string → bool) (nodeInformer : informer) (cfg : CloudConfig) (c : Cloud).

(** The provider id of a node: its own, or the one of the instance the provider runs on, or
    of the instance EC2 gave for its name. *)
Inductive provider_id_of (node : Node) (tr : list (event awsE)) : string → Prop :=
  | pid_own : node_ProviderID node ≠ "" → provider_id_of node tr (node_ProviderID node)
  | pid_self : node_ProviderID node = "" → aw_nodeName (c_selfAWSInstance c) = node_Name node →
      provider_id_of node tr
        ("aws:///" +:+ aw_availabilityZone (c_selfAWSInstance c) +:+ "/" +:+ aw_awsID (c_selfAWSInstance c))
  | pid_found i zone : node_ProviderID node = "" → aw_nodeName (c_selfAWSInstance c) ≠ node_Name node →
      instance_of_node odd nodeInformer c (node_Name node) tr i → i_AvailabilityZone i = Some zone →
      provider_id_of node tr ("aws:///" +:+ ToString zone +:+ "/" +:+ ToString (i_InstanceId i)).

(** The id of the instance of a node. *)
Definition instance_id_of (node : Node) (tr : list (event awsE)) (id : string) : Prop :=
  ∃ pid, provider_id_of node tr pid ∧ MapToAWSInstanceID odd pid = Ok id.

(** EC2 listed these interfaces for the Fargate node [id]. *)
Definition fargate_listed (tr : list (event awsE)) (id : string) (enis : list NetworkInterface) : Prop :=
  ∃ ip, fargate_address id ip ∧
    Ev (EC2 (DescribeNetworkInterfaces
      [newEc2Filter "attachment.status" ["attached"]; newEc2Filter "vpc-id" [c_vpcID c];
       newEc2Filter "private-ip-address" [ip]])) (Ok enis) ∈ tr.

(** EC2 said that the instance [id], or the interface of the Fargate node, is not there. *)
Definition absent (tr : list (event awsE)) (id : string) : Prop :=
  if HasPrefix id "fargate-" then fargate_listed tr id []
  else ∃ r, Ev (EC2 (DescribeInstances [id] [])) r ∈ tr ∧ says_gone id r.

(** EC2 listed it, and alive. *)
Definition present (tr : list (event awsE)) (id : string) : Prop :=
  if HasPrefix id "fargate-" then ∃ eni, fargate_listed tr id [eni]
  else ∃ i, Ev (EC2 (DescribeInstances [id] [])) (Ok [i]) ∈ tr ∧ ¬ dead i.

(** EC2 said that there is no instance of the cluster for the name of a node. *)
Definition absent_name (tr : list (event awsE)) (name : string) : Prop :=
  (∃ id r, node_instance_id odd nodeInformer name id ∧ Ev (EC2 (DescribeInstances [id] [])) r ∈ tr ∧ says_gone id r) ∨
  (∀ id, ¬ node_instance_id odd nodeInformer name id) ∧
  ∃ r, Ev (EC2 (DescribeInstances [] (by_name name))) r ∈ tr ∧
    match r with
    | Err err => isInstanceNotFound err = true
    | Ok l => ∀ i, i ∈ l → hasClusterTag (c_tagging c) (i_Tags i) = false
    end.

(** What entitles the provider to report that the node is gone, or there. *)
Definition node_absent (node : Node) (tr : list (event awsE)) : Prop :=
  (∃ id, instance_id_of node tr id ∧ absent tr id) ∨
  node_ProviderID node = "" ∧ aw_nodeName (c_selfAWSInstance c) ≠ node_Name node ∧ absent_name tr (node_Name node).
Definition node_present (node : Node) (tr : list (event awsE)) : Prop :=
  ∃ id, instance_id_of node tr id ∧ present tr id.

Lemma provider_id_of_app node t u pid : provider_id_of node t pid → provider_id_of node (t ++ u) pid.
Proof. destruct 1; [by apply pid_own|by apply pid_self|apply pid_found; try done; by apply instance_of_node_app]. Qed.

Definition evidence (id : string) (t : list (event awsE)) (o : outcome (result bool)) : Prop :=
  (o = Done (Ok false) → absent t id) ∧ (o = Done (Ok true) → present t id).

Lemma evidence_err id t e : evidence id t (Done (Err e)).
Proof. by split. Qed.
Lemma evidence_panic id t w : evidence id t (Panicked w).
Proof. by split. Qed.

Lemma fargate_endpoint id :
  fargateSupportedNode id = true →
  let endpoint := TrimPrefix id fargateNodeNamePrefix in
  fargate_address id (if HasPrefix endpoint privateDNSNamePrefix then nodeNameToIPAddress endpoint else endpoint).
Proof.
  intros Hid. cbv zeta. unfold fargateSupportedNode in Hid. unfold TrimPrefix at 1 2 3. rewrite Hid.
  apply HasPrefix_split in Hid. set (e := drop _ id) in *. unfold fargate_address, privateDNSNamePrefix.
  destruct (HasPrefix e "ip-") eqn:He; [right|by left].
  pose proof (HasPrefix_split _ _ He) as E. exists (drop 3 e), (default "" (head (Split (drop 3 e) "."))).
  split_and!; [by rewrite Hid at 1; rewrite E at 1|apply first_label_Split|].
  unfold nodeNameToIPAddress, TrimPrefix, privateDNSNamePrefix. by rewrite He.
Qed.

Lemma wp_fargateExists t id :
  fargateSupportedNode id = true → wp (fargateInstanceExists id (c_vpcID c)) (evidence id) t.
Proof.
  intros Hid. unfold fargateInstanceExists, fargateDescribeNetworkInterfaces, evidence, absent, present. rewrite !wp_try.
  pose proof (fargate_endpoint id Hid) as He. unfold fargateSupportedNode, fargateNodeNamePrefix in *. rewrite Hid.
  cbv zeta in *. intros [[|eni [|]]|e]; cbn [wp]; try done.
  - split; [|done]. intros _. eexists. split; [exact He|apply snoc_elem].
  - split; [done|]. intros _. exists eni. eexists. split; [exact He|apply snoc_elem].
Qed.

Lemma wp_existsByProviderID t pid :
  wp (InstanceExistsByProviderID odd direct (registeredVariants cfg) c pid) (λ t' o, (∃ u, t' = t ++ u) ∧
    (o = Done (Ok false) → ∃ id, MapToAWSInstanceID odd pid = Ok id ∧ absent t' id) ∧
    (o = Done (Ok true) → ∃ id, MapToAWSInstanceID odd pid = Ok id ∧ present t' id)) t.
Proof.
  apply wp_extends. unfold InstanceExistsByProviderID. destruct (MapToAWSInstanceID odd pid) as [id|e]; [|done].
  enough (wp (match GetVariant (registeredVariants cfg) id with
     | Some v => v_InstanceExists v id (c_vpcID c)
     | None => let! r := direct [id] in Ret (existsOf id r) end) (evidence id) t) as H.
  { eapply wp_mono; [exact H|]. intros t' o [H0 H1]. split; intros E; exists id; auto. }
  destruct (GetVariant _ id) as [v|] eqn:Hv; unfold GetVariant in Hv; cbn in Hv;
    destruct (fargateSupportedNode id) eqn:Hf; try done.
  { injection Hv as <-. by apply wp_fargateExists. }
  unfold evidence, absent, present. unfold fargateSupportedNode, fargateNodeNamePrefix in Hf. rewrite Hf.
  rewrite wp_bind. unfold direct, ec2, call. cbn [wp andThen].
  intros [[|i [|j l]]|e]; cbn [existsOf]; [| |done|].
  + split; [|done]. intros _. eexists. split; [apply snoc_elem|]. cbn. set_solver.
  + assert (∀ b, (b = false → dead i) → (b = true → ¬ dead i) →
      evidence id (t ++ [Ev (EC2 (DescribeInstances [id] [])) (Ok [i])]) (Done (Ok b))) as Hd.
    { intros b H0 H1. unfold evidence, absent, present. rewrite Hf. split; intros [= ->].
      - eexists. split; [apply snoc_elem|]. intros i' ->%list_elem_of_singleton _. auto.
      - exists i. split; [apply snoc_elem|auto]. }
    unfold evidence, absent, present in Hd. rewrite Hf in Hd.
    destruct (i_State i) as [state|] eqn:E; [|apply Hd; [by left|done]].
    destruct (String.eqb_spec state InstanceStateNameTerminated) as [->|Hne]; apply Hd; try done.
    * by right.
    * intros _ [?|?]; congruence.
  + destruct (IsAWSErrorInstanceNotFound e) eqn:E; [|done].
    split; [|done]. intros _. eexists. split; [apply snoc_elem|]. by left.
Qed.

(** A lookup that finds nothing. *)
Definition nothing_found {A} (P : list (event awsE) → Prop) (t : list (event awsE)) (o : outcome (result (option A))) : Prop :=
  match o with
  | Done (Ok None) => P t
  | Done (Err e) => isInstanceNotFound e = true → P t
  | _ => True
  end.

Lemma wp_getInstanceByID_absent t id :
  id ≠ "" →
  wp (getInstanceByID direct id)
    (nothing_found (λ t', ∃ r, Ev (EC2 (DescribeInstances [id] [])) r ∈ t' ∧ says_gone id r)) t.
Proof.
  intros Hne. unfold getInstanceByID, getInstancesByIDs. cbn [length Nat.eqb]. rewrite wp_bind, wp_try.
  unfold direct, ec2, call. cbn [wp andThen]. intros [l|e]; cbn [wp andThen].
  - set (m := foldl _ _ _).
    assert (m !! id = None → ∃ r, Ev (EC2 (DescribeInstances [id] [])) r ∈
      t ++ [Ev (EC2 (DescribeInstances [id] [])) (Ok l)] ∧ says_gone id r) as Hn.
    { intros [_ Hm]%byID_lookup. eexists. split; [apply snoc_elem|]. intros i Hi Hid. by destruct (Hm i Hi Hne). }
    destruct (Nat.eqb_spec (size m) 0) as [Hs|Hs].
    + cbn [wp]. intros _. apply Hn. apply map_size_empty_inv in Hs. by rewrite Hs, lookup_empty.
    + destruct (1 <? size m); cbn [wp]; [done|]. destruct (m !! id) eqn:E; cbn; [done|]. by apply Hn.
  - destruct (IsAWSErrorInstanceNotFound e) eqn:E; cbn [wp]; intros He;
      eexists; (split; [apply snoc_elem|]); cbn; auto.
Qed.

Lemma wp_getInstanceByNodeName_absent t name :
  wp (getInstanceByNodeName odd direct c nodeInformer name) (λ t' o,
    ∀ e, o = Done (Err e) → isInstanceNotFound e = true → absent_name t' name) t.
Proof.
  unfold getInstanceByNodeName. rewrite wp_try.
  assert (∀ p : prog awsE (result (option Instance_)), wp p (nothing_found (λ t', absent_name t' name)) t →
    wp p (λ t' o, match o with
       | Done (Ok instance) => wp (match instance with Some i => Ret (Ok i) | None => Ret (Err InstanceNotFound) end)
           (λ t' o, ∀ e, o = Done (Err e) → isInstanceNotFound e = true → absent_name t' name) t'
       | Done (Err e) => ∀ e', Done (Err (A := Instance_) e) = Done (Err e') → isInstanceNotFound e' = true → absent_name t' name
       | Panicked w => ∀ e', Panicked (A := result Instance_) w = Done (Err e') → isInstanceNotFound e' = true → absent_name t' name
       end) t) as Hend.
  { intros p Hp. eapply wp_mono; [exact Hp|]. intros t' [[[i|]|e]|w] H; cbn [wp]; intros e' [= <-] He; by auto. }
  pose proof (nodeNameToInstanceID_spec odd nodeInformer name) as Hspec.
  destruct (nodeNameToInstanceID odd nodeInformer name) as [id|err]; apply Hend.
  - assert (node_instance_id odd nodeInformer name id) as Hid by by apply Hspec.
    eapply wp_mono; [by apply wp_getInstanceByID_absent, (node_instance_id_nonempty odd nodeInformer name)|].
    assert (∀ t', (∃ r, Ev (EC2 (DescribeInstances [id] [])) r ∈ t' ∧ says_gone id r) → absent_name t' name) as Ha
      by (intros t' (r & Hr); left; by exists id, r).
    intros t' [[[i|]|e]|w]; cbn; auto.
  - assert (∀ id, ¬ node_instance_id odd nodeInformer name id) as Hno by (intros id Hid%Hspec; done).
    unfold findInstanceByNodeName, describeInstances. rewrite !wp_try.
    unfold ec2, call. cbn [wp]. intros [l|e]; cbn [wp].
    + destruct (filter _ l) as [|i [|j l']] eqn:Ef; cbn [wp]; [|done..].
      right. split; [done|]. eexists. split; [apply snoc_elem|].
      intros i Hi. destruct (hasClusterTag (c_tagging c) (i_Tags i)) eqn:Et; [|done].
      assert (i ∈ filter (λ instance, hasClusterTag (c_tagging c) (i_Tags instance) = true) l) as Hin
        by (by apply list_elem_of_filter).
      rewrite Ef in Hin. by apply not_elem_of_nil in Hin.
    + intros He. right. split; [done|]. eexists. by split; [apply snoc_elem|].
Qed.

Lemma wp_getProviderID_known t node :
  wp (getProviderID odd direct nodeInformer c node) (λ t' o,
    (∀ pid, o = Done (Ok pid) → provider_id_of node t' pid) ∧
    ∀ e, o = Done (Err e) → IsSentinel "instance not found" e = true → node_absent node t') t.
Proof.
  unfold getProviderID. destruct (String.eqb_spec (node_ProviderID node) "") as [Ep|Ep]; cbn [negb].
  2:{ split; [|done]. intros pid [= <-]. by apply pid_own. }
  rewrite wp_try. unfold InstanceID.
  destruct (String.eqb_spec (aw_nodeName (c_selfAWSInstance c)) (node_Name node)) as [Es|Es].
  { split; [|done]. intros pid [= <-]. by apply pid_self. }
  rewrite wp_bind. eapply wp_mono.
  { apply wp_and; [apply (wp_getInstanceByNodeName odd nodeInformer c direct direct_describes)|
      apply wp_getInstanceByNodeName_absent]. }
  intros t' [[i|e]|w] [[_ Hi] H]; cbn [andThen]; [| |by split].
  - rewrite wp_bind. destruct (i_AvailabilityZone i) as [zone|] eqn:Ez; cbn [no_panic wp andThen]; split; try done.
    intros pid [= <-]. apply pid_found; auto.
  - destruct (isInstanceNotFound e) eqn:E; cbn [wp]; (split; [done|]); intros e' [= <-] He; [|done].
    right. split_and!; [done..|]. by eapply H.
Qed.

(** C17: a node is reported as gone only on evidence about that node.  [InstanceExists]
    answers false without an error only when EC2, asked for the instance the provider id of
    the node names, did not know it or listed no live instance of that id, or listed no
    interface at the address of the Fargate node; or when the node has no provider id and EC2
    has no instance of the cluster for its name.  Any other failure is an error.  It answers
    true only when EC2, asked for that very instance or interface, listed one, and alive. *)
Theorem InstanceExists_evidence (node : Node) :
  wp (InstanceExists odd direct nodeInformer (registeredVariants cfg) c node) (λ t o,
    (o = Done (Ok false) → node_absent node t) ∧ (o = Done (Ok true) → node_present node t)) [].
Proof.
  unfold InstanceExists. rewrite wp_bind. eapply wp_mono; [apply wp_getProviderID_known|].
  intros t [[pid|e]|w] [Hpid H]; cbn [andThen]; [| |by split].
  - specialize (Hpid pid eq_refl). eapply wp_mono; [apply wp_existsByProviderID|].
    intros t' o [[u ->] [H0 H1]]. split; intros E.
    + destruct (H0 E) as (id & Hid & Ha). left. exists id. split; [|done]. exists pid.
      split; [by apply provider_id_of_app|done].
    + destruct (H1 E) as (id & Hid & Ha). exists id. split; [|done]. exists pid.
      split; [by apply provider_id_of_app|done].
  - destruct (IsSentinel _ e) eqn:E; [|by split]. split; [|done]. intros _. by eapply H.
Qed.
End gone.

(** ** Labels *)
Definition layerLabel (i : nat) : string := LabelNetworkNodePrefix +:+ Itoa (Z.of_nat i + 1).

Lemma layerLabel_inj i j : layerLabel i = layerLabel j → i = j.
Proof. unfold layerLabel. intros H%(inj _)%(inj _). lia. Qed.

Lemma layerLabel_zone i : LabelZoneID ≠ layerLabel i.
Proof. discriminate. Qed.

Lemma layerLabels_snoc m nodes x :
  layerLabels m (nodes ++ [x]) = <[layerLabel (length nodes) := x]> (layerLabels m nodes).
Proof.
  unfold layerLabels. rewrite imap_app, foldl_app. cbn. by rewrite Nat.add_0_r.
Qed.

Lemma layerLabels_layer m nodes i :
  layerLabels m nodes !! layerLabel i =
  match nodes !! i with Some v => Some v | None => m !! layerLabel i end.
Proof.
  induction nodes as [|x nodes IH] using rev_ind; [done|]. rewrite layerLabels_snoc.
  destruct (decide (i = length nodes)) as [->|Hne].
  - by rewrite lookup_insert_eq, list_lookup_middle.
  - rewrite lookup_insert_ne by (intros ?%layerLabel_inj; lia). rewrite IH.
    destruct (decide (i < length nodes)).
    + by rewrite lookup_app_l by done.
    + rewrite !lookup_ge_None_2; [done|rewrite length_app; simpl; lia|lia].
Qed.

Lemma layerLabels_other m nodes k :
  (∀ i, k ≠ layerLabel i) → layerLabels m nodes !! k = m !! k.
Proof.
  intros Hk. induction nodes as [|x nodes IH] using rev_ind; [done|].
  by rewrite layerLabels_snoc, lookup_insert_ne.
Qed.

Lemma layerLabels_keys m nodes k :
  is_Some (layerLabels m nodes !! k) → is_Some (m !! k) ∨ ∃ i, k = layerLabel i.
Proof.
  induction nodes as [|x nodes IH] using rev_ind; [by left|]. rewrite layerLabels_snoc.
  rewrite lookup_insert_is_Some. intros [<-|[_ H]]; [right; by eexists|by apply IH].
Qed.

(** The network nodes of the answers in a trace. *)
Definition answered_nodes (tr : list (event awsE)) : list string :=
  match omap answered_topology tr with
  | [Ok (topology :: _)] => it_NetworkNodes topology
  | _ => []
  end.

Lemma wp_getZoneID z name :
  wp (getZoneIDByZoneName z name) (λ t o, omap answered_topology t = [] ∧
    ∃ r z', o = Done (r, z') ∧ ∀ id, r = Ok id → zd_id <$> z' !! name = Some id) [].
Proof.
  unfold getZoneIDByZoneName, getZoneDetailsByNames. cbn [length Nat.eqb]. rewrite !wp_bind.
  assert (∀ (z' : zoneCache) t, omap answered_topology t = [] →
    wp (match requestedZones z' [name] !! name with
        | None => Ret (Err (Errorf "Could not get zone ID from zone name %s" [name]), z')
        | Some zoneDetail => Ret (Ok (zd_id zoneDetail), z')
        end) (λ t o, omap answered_topology t = [] ∧
      ∃ r z'', o = Done (r, z'') ∧ ∀ id, r = Ok id → zd_id <$> z'' !! name = Some id) t) as Hend.
  { intros z' t Ht. rewrite requestedZones_lookup, bool_decide_eq_true_2 by set_solver.
    destruct (z' !! name) as [d|] eqn:E; cbn [wp]; (split; [done|]); eexists _, _; (split; [done|]).
    - intros id [= <-]. by rewrite E.
    - by intros id. }
  destruct (shouldPopulateCache z [name]); cbn [wp andThen]; [|by apply Hend].
  unfold populate, ec2, call. cbn [bind wp andThen]. intros [zones|e]; cbn [wp andThen app].
  - by apply Hend.
  - split; [done|]. eexists _, _. by split.
Qed.

Lemma wp_getNodeTopology_answer now now' t ty region id :
  wp (getNodeTopology now now' t ty region id) (λ tr o, ∃ r t', o = Done (r, t') ∧
    requiresResponse t' = requiresResponse t ∧
    match r with
    | Ok (Some topology) => ∃ rest, omap answered_topology tr = [Ok (topology :: rest)]
    | _ => answered_nodes tr = []
    end) [].
Proof.
  unfold getNodeTopology. pose proof (mightSupport_pattern now t id ty region) as Hp.
  destruct (mightSupportTopology now t id ty region) as [might t1]. cbn [snd] in Hp.
  destruct might; cbn [negb wp]; [|by eexists _, _].
  unfold ec2, call. cbn [bind wp]. intros [[|topology rest]|e]; cbn [app].
  - destruct (requiresResponse t1 ty); cbn [wp]; eexists _, _; (split; [done|]); by rewrite <-Hp.
  - cbn [wp]. eexists _, _. split; [done|]. split; [by rewrite <-Hp|]. by exists rest.
  - destruct (regionUnsupported e); cbn [wp]; eexists _, _; (split; [done|]); by rewrite <-Hp.
Qed.

(** What [getAdditionalLabels] adds to a node with the labels [existing], with the zone
    cache it leaves and the calls it made. *)
Definition labels_spec (existing : gmap string string) (zone : string) (zc' : zoneCache)
    (tr : list (event awsE)) (labels : gmap string string) : Prop :=
  labels !! LabelZoneID =
    (if bool_decide (is_Some (existing !! LabelZoneID)) then None else zd_id <$> zc' !! zone) ∧
  (∀ i, labels !! layerLabel i = answered_nodes tr !! i) ∧
  (is_Some (existing !! layerLabel 0) → answered_nodes tr = []) ∧
  (∀ k, is_Some (labels !! k) → k = LabelZoneID ∨ ∃ i, k = layerLabel i).

(** The zone part of the labels. *)
Definition zone_spec (existing : gmap string string) (zone : string) (tr : list (event awsE))
    (o : outcome (result (gmap string string) * zoneCache)) : Prop :=
  omap answered_topology tr = [] ∧ ∃ r zc', o = Done (r, zc') ∧
  match r with
  | Ok labels => labels !! LabelZoneID =
      (if bool_decide (is_Some (existing !! LabelZoneID)) then None else zd_id <$> zc' !! zone) ∧
      ∀ k, k ≠ LabelZoneID → labels !! k = None
  | Err _ => existing !! LabelZoneID = None
  end.

Lemma zone_part zc zone (existing : gmap string string) :
  wp (match existing !! LabelZoneID with
      | Some _ => Ret (Ok ∅, zc)
      | None =>
         let! (r, zc) := getZoneIDByZoneName zc zone in
         match r with
         | Err err => Ret (Err err, zc)
         | Ok zoneID => Ret (Ok {[LabelZoneID := zoneID]}, zc)
         end
      end) (zone_spec existing zone) [].
Proof.
  unfold zone_spec. destruct (existing !! LabelZoneID) as [v|] eqn:Ez.
  - cbn [wp]. split; [done|]. eexists _, _. split; [done|]. by split.
  - rewrite wp_bind. eapply wp_mono; [apply wp_getZoneID|].
    intros tr o (Htr & r & zc' & -> & Hr). cbn [andThen].
    destruct r as [zid|e]; cbn [wp]; (split; [done|]); eexists _, _; (split; [done|]); [|done].
    split; [rewrite lookup_singleton_eq; by rewrite (Hr zid)|].
    intros k Hk. by rewrite lookup_singleton_ne.
Qed.

(** Adding the layers of the answered topology to the zone part. *)
Lemma labels_with_layers existing zone zc' tr tr' labels nodes :
  zone_spec existing zone tr (Done (Ok labels, zc')) →
  answered_nodes tr' = nodes →
  (is_Some (existing !! layerLabel 0) → nodes = []) →
  labels_spec existing zone zc' tr' (layerLabels labels nodes).
Proof.
  intros (_ & r & z & [= <- <-] & Hz & Hother) Hn He. unfold labels_spec. rewrite Hn. split_and!; [| |done|].
  - by rewrite layerLabels_other by apply layerLabel_zone.
  - intros i. rewrite layerLabels_layer, Hother by (by intros ?%eq_sym%layerLabel_zone). by destruct (nodes !! i).
  - intros k [[v Hv]|?]%layerLabels_keys; [left|by right].
    destruct (decide (k = LabelZoneID)); [done|]. by rewrite Hother in Hv.
Qed.

(** The labels added to a node are exactly the id of its zone, from the zone cache, and
    the network nodes EC2 listed for the instance, numbered from layer 1, each group only
    when the node does not have it yet; no other label is added, and a failure to get the
    topology is an error only for instance types that must have one. *)
Theorem getAdditionalLabels_exact now now' zc (t : instanceTopologyManager)
    (zone id ty region : string) (existing : gmap string string) :
  wp (getAdditionalLabels now now' zc t zone id ty region existing) (λ tr o,
    ∃ r zc' t', o = Done (r, (zc', t')) ∧
    match r with
    | Ok labels => labels_spec existing zone zc' tr labels
    | Err _ => existing !! LabelZoneID = None ∨
        existing !! layerLabel 0 = None ∧ requiresResponse t ty = true
    end) [].
Proof.
  unfold getAdditionalLabels. rewrite wp_bind. eapply wp_mono; [apply zone_part|].
  intros tr o Hspec. pose proof Hspec as (Htr & r & zc' & -> & Hr). cbn [andThen].
  destruct r as [labels|e]; cbn [wp]; [|eexists _, _, _; split; [done|by left] ].
  change (LabelNetworkNodePrefix +:+ "1") with (layerLabel 0).
  assert (answered_nodes tr = []) as Hnil by (unfold answered_nodes; by rewrite Htr).
  destruct (existing !! layerLabel 0) as [v|] eqn:E0.
  { cbn [wp]. eexists _, _, _. split; [done|]. by eapply (labels_with_layers _ _ _ _ _ _ []). }
  cbn [GetNodeTopology topology_manager]. apply wp_start. rewrite wp_bind.
  eapply wp_mono; [apply wp_getNodeTopology_answer|].
  intros u o (topology & t' & -> & Hp & Ht). cbn [andThen].
  assert (answered_nodes (tr ++ u) = answered_nodes u) as Happ.
  { unfold answered_nodes. by rewrite omap_app, Htr. }
  assert (¬ is_Some (existing !! layerLabel 0)) as Hno by (rewrite E0; by intros [? ?]).
  destruct topology as [[topology|]|e]; cbn [wp DoesInstanceTypeRequireResponse topology_manager].
  - destruct Ht as [rest Ht]. eexists _, _, _. split; [done|]. eapply labels_with_layers; [done| |done].
    rewrite Happ. unfold answered_nodes. by rewrite Ht.
  - eexists _, _, _. split; [done|]. eapply (labels_with_layers _ _ _ _ _ _ []); [done| |done]. by rewrite Happ.
  - rewrite Hp. destruct (requiresResponse t ty) eqn:Er; cbn [wp]; eexists _, _, _; (split; [done|]); [by right|].
    eapply (labels_with_layers _ _ _ _ _ _ []); [done| |done]. by rewrite Happ.
Qed.

(** ** Examples *)
Definition one_eni : handler awsE unit := λ R c s,
  match c in awsE R return result R * unit with
  | EC2 c =>
     match c in ec2E R return result R * unit with
     | DescribeNetworkInterfaces _ =>
        (Ok [mkNetworkInterface (Some "us-east-1a") (Some "ip-10-0-0-1.ec2.internal") (Some "10.0.0.1") []], s)
     | DescribeAvailabilityZones =>
        (Ok [mkAvailabilityZone (Some "us-east-1a") (Some "use1-az1") (Some "availability-zone")], s)
     | _ => (Err (Errorf "not expected" []), s)
     end
  | _ => (Err (Errorf "not expected" []), s)
  end.
Definition fargate_node : Node := mkNode "fargate-ip-10-0-0-1" ∅ "aws:///us-east-1a/fargate-ip-10-0-0-1".

(** A Fargate node whose interface exists is reported both as existing and as shut down. *)
Example fargate_shutdown :
  let c := dual_cloud ["ipv4"] in
  let variants := registeredVariants (c_cfg c) in
  (run one_eni (InstanceExists (λ _, true) direct None variants c fargate_node) tt []).1.1 = Done (Ok true) ∧
  (run one_eni (InstanceShutdown (λ _, true) direct None variants c fargate_node) tt []).1.1 = Done (Ok true).
Proof. by vm_compute. Qed.

(** Its metadata: no instance type, so no topology is asked for. *)
Example fargate_metadata :
  let c := dual_cloud ["ipv4"] in
  let t := mkTopologyManager ∅ (λ _, false) in
  (run one_eni (let! (r, _) := instanceMetadata (GS := insertion_sort) (λ _, true) direct None
      (registeredVariants (c_cfg c)) c 0 0 ∅ t fargate_node in Ret r) tt []).1.1 =
  Done (Ok (mkInstanceMetadata "aws:///us-east-1a/fargate-ip-10-0-0-1" ""
    [mkNodeAddress NodeInternalIP "10.0.0.1"; mkNodeAddress NodeInternalDNS "ip-10-0-0-1.ec2.internal"]
    "us-east-1a" "us-east-1" {[LabelZoneID := "use1-az1"]})).
Proof. by vm_compute. Qed.
