(* ===== verification/Md5.v ===== *)
(** * MD5 ([crypto/md5])

    The tagging controller labels a node with the MD5 digest of the tags it applied.  Words
    are 32 bits wide, little-endian. *)

From S2P Require Import Prelude GoLib Sha.
From Stdlib Require Import Ascii.

Local Open Scope Z_scope.

(** The integer part of 2^32 times the absolute value of the sine of 1 to 64. *)
Definition md5_k : list Z :=
  [3614090360; 3905402710; 606105819; 3250441966; 4118548399; 1200080426; 2821735955;
   4249261313; 1770035416; 2336552879; 4294925233; 2304563134; 1804603682; 4254626195;
   2792965006; 1236535329; 4129170786; 3225465664; 643717713; 3921069994; 3593408605;
   38016083; 3634488961; 3889429448; 568446438; 3275163606; 4107603335; 1163531501;
   2850285829; 4243563512; 1735328473; 2368359562; 4294588738; 2272392833; 1839030562;
   4259657740; 2763975236; 1272893353; 4139469664; 3200236656; 681279174; 3936430074;
   3572445317; 76029189; 3654602809; 3873151461; 530742520; 3299628645; 4096336452;
   1126891415; 2878612391; 4237533241; 1700485571; 2399980690; 4293915773; 2240044497;
   1873313359; 4264355552; 2734768916; 1309151649; 4149444226; 3174756917; 718787259;
   3951481745].

(** The rotations of the four rounds, four steps each. *)
Definition md5_shift (i : nat) : Z :=
  let row : list Z := nth (i / 16) [[7; 12; 17; 22]; [5; 9; 14; 20]; [4; 11; 16; 23]; [6; 10; 15; 21]] [] in
  nth (i mod 4) row 0.

Fixpoint words_le (l : list Z) : list Z :=
  match l with
  | a :: b :: c :: d :: l => (a + 256 * (b + 256 * (c + 256 * d))) :: words_le l
  | _ => []
  end.

(** The message, a one bit, zeros, and its length in bits, low byte first. *)
Definition pad_le (m : list Z) : list Z :=
  let n := Z.of_nat (length m) in
  m ++ [128] ++ replicate (Z.to_nat ((55 - n) mod 64)) 0 ++
  ((λ i, Z.land (Z.shiftr (8 * n) (8 * i)) 255) <$> [0; 1; 2; 3; 4; 5; 6; 7]).

Definition md5_step (block : list Z) (st : Z * Z * Z * Z) (i : nat) : Z * Z * Z * Z :=
  let '(a, b, c, d) := st in
  let '(f, g) :=
    if (i <? 16)%nat then (Z.lor (Z.land b c) (Z.land (not32 b) d), i)
    else if (i <? 32)%nat then (Z.lor (Z.land d b) (Z.land (not32 d) c), (5 * i + 1) mod 16)%nat
    else if (i <? 48)%nat then (Z.lxor (Z.lxor b c) d, (3 * i + 5) mod 16)%nat
    else (Z.lxor c (Z.lor b (not32 d)), (7 * i) mod 16)%nat in
  let sum := add32 (add32 a f) (add32 (nth0 md5_k i) (nth0 block g)) in
  (d, add32 b (rotl (md5_shift i) sum), b, c).

Definition md5_block (h : Z * Z * Z * Z) (block : list Z) : Z * Z * Z * Z :=
  let '(a, b, c, d) := foldl (md5_step block) h (seq 0 64) in
  let '(a0, b0, c0, d0) := h in
  (add32 a0 a, add32 b0 b, add32 c0 c, add32 d0 d).

(** The bytes of a word from low to high, in hexadecimal. *)
Definition hex8_le (x : Z) : string :=
  let byte i := Z.land (Z.shiftr x (8 * i)) 255 in
  hex8 (byte 3 + 256 * (byte 2 + 256 * (byte 1 + 256 * byte 0))).

(** [fmt.Sprintf("%x", md5.Sum(s))] *)
Definition md5_hex (s : string) : string :=
  let w := words_le (pad_le (bytes_of s)) in
  let '(a, b, c, d) := foldl md5_block (1732584193, 4023233417, 2562383102, 271733878)
    (blocks (length w) w) in
  hex8_le a +:+ hex8_le b +:+ hex8_le c +:+ hex8_le d.

Example md5_abc : md5_hex "abc" = "900150983cd24fb0d6963f7d28e17f72".
Proof. vm_compute. reflexivity. Qed.
Example md5_empty : md5_hex "" = "d41d8cd98f00b204e9800998ecf8427e".
Proof. vm_compute. reflexivity. Qed.
