(* ===== verification/Workqueue.v ===== *)
(** * Work queues (k8s.io/client-go/util/workqueue)

    The rate-limiting queue the tagging controller is built on.  An item is queued once
    however often it is added, is never handed to two workers at the same time, and is
    queued again when it was added while a worker had it.  Items added with a delay wait
    outside of the queue until they are due; how long they wait is left open. *)

From S2P Require Import Prelude GoLib.

Section workqueue.
Context {A : Type} `{Countable A}.

Record workqueue := mkWorkqueue {
  q_queue : list A;
  q_dirty : gset A;
  q_processing : gset A;
  q_waiting : list A;          (** the entries of the delaying queue *)
  q_failures : gmap A nat;     (** of the exponential rate limiter *)
  q_shuttingDown : bool
}.

Definition empty_queue : workqueue := mkWorkqueue [] ∅ ∅ [] ∅ false.

Definition Add (item : A) (q : workqueue) : workqueue :=
  if q_shuttingDown q then q
  else if bool_decide (item ∈ q_dirty q) then q
  else
  mkWorkqueue (if bool_decide (item ∈ q_processing q) then q_queue q else q_queue q ++ [item])
    ({[item]} ∪ q_dirty q) (q_processing q) (q_waiting q) (q_failures q) false.

(** [None]: the caller waits, or stops when the queue is shutting down. *)
Definition Get (q : workqueue) : option (A * workqueue) :=
  match q_queue q with
  | [] => None
  | item :: queue =>
     Some (item, mkWorkqueue queue (q_dirty q ∖ {[item]}) ({[item]} ∪ q_processing q) (q_waiting q)
                   (q_failures q) (q_shuttingDown q))
  end.

Definition Done_ (item : A) (q : workqueue) : workqueue :=
  mkWorkqueue (if bool_decide (item ∈ q_dirty q) then q_queue q ++ [item] else q_queue q)
    (q_dirty q) (q_processing q ∖ {[item]}) (q_waiting q) (q_failures q) (q_shuttingDown q).

Definition NumRequeues (q : workqueue) (item : A) : nat := default 0 (q_failures q !! item).

(** The delay of the rate limiter is positive, so the item waits. *)
Definition AddRateLimited (item : A) (q : workqueue) : workqueue :=
  mkWorkqueue (q_queue q) (q_dirty q) (q_processing q)
    (if q_shuttingDown q then q_waiting q else q_waiting q ++ [item])
    (<[item := S (NumRequeues q item)]> (q_failures q)) (q_shuttingDown q).

Definition Forget (item : A) (q : workqueue) : workqueue :=
  mkWorkqueue (q_queue q) (q_dirty q) (q_processing q) (q_waiting q) (delete item (q_failures q))
    (q_shuttingDown q).

Definition ShutDown (q : workqueue) : workqueue :=
  mkWorkqueue (q_queue q) (q_dirty q) (q_processing q) (q_waiting q) (q_failures q) true.

Definition with_waiting (q : workqueue) (l : list A) : workqueue :=
  mkWorkqueue (q_queue q) (q_dirty q) (q_processing q) l (q_failures q) (q_shuttingDown q).

(** What the queue promises: it lists, once each, the items that are to be processed and
    that no worker has. *)
Definition wf (q : workqueue) : Prop :=
  NoDup (q_queue q) ∧ ∀ x, x ∈ q_queue q ↔ x ∈ q_dirty q ∧ x ∉ q_processing q.

Lemma wf_empty : wf empty_queue.
Proof. split; [constructor|]. set_solver. Qed.

Lemma wf_Add x q : wf q → wf (Add x q).
Proof.
  intros [Hn Hq]. unfold Add. destruct (q_shuttingDown q); [done|].
  case_bool_decide as Hd; [done|]. split; simpl.
  - case_bool_decide; [done|]. apply NoDup_app. split; [done|]. split; [|apply NoDup_singleton].
    intros y Hy. rewrite list_elem_of_singleton. intros ->. apply Hq in Hy. by destruct Hy.
  - intros y. case_bool_decide; [|rewrite elem_of_app, list_elem_of_singleton]; specialize (Hq y); set_solver.
Qed.

Lemma wf_Get q x q' : wf q → Get q = Some (x, q') →
  wf q' ∧ x ∈ q_dirty q ∧ x ∉ q_processing q ∧ q_processing q' = {[x]} ∪ q_processing q ∧
  q_dirty q' = q_dirty q ∖ {[x]} ∧ q_waiting q' = q_waiting q ∧ q_failures q' = q_failures q.
Proof.
  unfold Get. intros [Hn Hq] E. destruct (q_queue q) as [|y queue] eqn:Eq; [done|]. injection E as <- <-.
  apply NoDup_cons in Hn as [Hy Hn]. destruct (proj1 (Hq y)) as [Hd Hp]; [set_solver|].
  split; [|done]. split; [done|]. simpl. intros z. specialize (Hq z). set_solver.
Qed.

Lemma wf_Done x q : wf q → x ∈ q_processing q → wf (Done_ x q).
Proof.
  intros [Hn Hq] Hx. split; simpl.
  - case_bool_decide; [|done]. apply NoDup_app. split; [done|]. split; [|apply NoDup_singleton].
    intros y Hy. rewrite list_elem_of_singleton. intros ->. apply Hq in Hy. by destruct Hy.
  - intros y. case_bool_decide; [rewrite elem_of_app, list_elem_of_singleton|]; specialize (Hq y);
      destruct (decide (y = x)); set_solver.
Qed.
End workqueue.
Arguments workqueue A {_ _}.
