(* ===== verification/TaggingController.v ===== *)
(** * The tagging controller (pkg/controllers/tagging)

    Node events put work items on a rate-limiting queue; workers take them and tag or untag
    the instance of the node, label the node with a checksum of the tags, and put an item
    that failed back at most [maxRequeuingCount] times.

    The calls of a worker are a program over [ctlE].  The controller as a whole is a step
    relation: informer events, the delaying queue and any number of workers interleave
    between the atomic operations of the queue. *)

From S2P Require Import Prelude GoLib Metrics Effects AwsApi Tags Config Cloud Instances Md5 Workqueue.
From Stdlib Require Import Ascii QArith.
Import Strings Errors.
Local Close Scope Q_scope.

(** ** Options (pkg/controllers/options) *)
Definition Instance_resource := "instance".
Definition SupportedResources : list string := [Instance_resource].

(** The rate limit is a float that is only compared with zero. *)
Record TaggingControllerOptions := mkTaggingControllerOptions {
  o_Tags : gmap string string;
  o_Resources : list string;
  o_RateLimit : Q;
  o_BurstLimit : Z;
  o_WorkerCount : Z;
  o_BatchingEnabled : bool
}.

Definition Validate (o : TaggingControllerOptions) : result unit :=
  if Nat.eqb (size (o_Tags o)) 0 then
    Err (Errorf "--tags must not be empty and must be a form of key=value" [])
  else if Nat.eqb (length (o_Resources o)) 0 then Err (Errorf "--resources must not be empty" [])
  else if negb (Qle_bool 0 (o_RateLimit o)) then
    Err (Errorf "--tagging-controller-rate-limit should not be less than zero" [])
  else if (o_BurstLimit o <? 0)%Z then
    Err (Errorf "--tagging-controller-burst-limit should not be less than zero" [])
  else if (o_WorkerCount o <=? 0)%Z then
    Err (Errorf "--tagging-controller-concurrent-node-syncs must be a positive number" [])
  else
  match find (λ r, existsb (λ resource, negb (String.eqb r resource)) SupportedResources) (o_Resources o) with
  | Some r => Err (Errorf "%s is not a supported resource. Current supported resources %v"
                     [r; "[" +:+ Join SupportedResources " " +:+ "]"])
  | None => Ok tt
  end.

(** ** Items and nodes *)
Record workItem := mkWorkItem { wi_name : string; wi_providerID : string; wi_action : string }.
#[export] Instance workItem_eq_dec : EqDecision workItem.
Proof. solve_decision. Defined.
#[export] Instance workItem_countable : Countable workItem.
Proof.
  refine (inj_countable' (λ w, (wi_name w, wi_providerID w, wi_action w))
    (λ '(n, p, a), mkWorkItem n p a) _). by intros [].
Defined.

Definition taggingControllerLabelKey := "k8s.io/cloud-provider-aws".
Definition maxRequeuingCount : nat := 9.
(** Five minutes, in nanoseconds. *)
Definition newNodeEventualConsistencyGracePeriod : Z := 300 * 10 ^ 9.
Definition addTag := "ADD".
Definition deleteTag := "DELETE".

(** A node with its time of creation. *)
Record ControllerNode := mkControllerNode { kn_node : Node; kn_created : Z }.

(** The calls of a worker: those of the provider, the lister of the node informer ([None]
    is the error of a node that does not exist), the labelling of a node, and the observation
    of the time since a node was created. *)
Inductive ctlE : Type → Type :=
  | CloudCall {R} (c : awsE R) : ctlE R
  | ListerGet (name : string) : ctlE (option ControllerNode)
  | AddOrUpdateLabelsOnNode (name : string) (labels : gmap string string) : ctlE unit
  | ObserveInitialNodeTaggingDelay (created : Z) : ctlE unit.

Fixpoint lift {A} (p : prog awsE A) : prog ctlE A :=
  match p with
  | Ret a => Ret a
  | Panic w => Panic w
  | Vis c k => Vis (CloudCall c) (λ r, lift (k r))
  end.

(** ** Metrics (metrics.go)

    The counter of errors, by the kind of error and the instance. *)
Definition totalErrorsWorkItemErrorMetric := "total_errors".
Definition errorsAfterRetriesExhaustedWorkItemErrorMetric := "errors_after_retries_exhausted".

Definition recordWorkItemErrorMetrics (errorType instanceID : string)
    (workItemError : gmap (string * string) nat) : gmap (string * string) nat :=
  Inc workItemError (errorType, instanceID).

Definition taggingMetricNames : list string :=
  ["cloudprovider_aws_tagging_controller_work_item_errors_total";
   "tagging_controller_inital_node_tagging_delay_seconds"].

(** As [Metrics.registerMetrics], in the same registry. *)
Definition registerTaggingMetrics (register : bool) (registered : gset string) : option (bool * gset string) :=
  if register then Some (register, registered)
  else
    registered ← foldl (λ o name, o ≫= MustRegister name) (Some registered) taggingMetricNames;
    Some (true, registered).

(** ** The controller *)
Record Controller := mkController {
  tc_tags : gmap string string;
  tc_resources : list string;
  tc_rateLimitEnabled : bool;
  tc_batchingEnabled : bool
}.

(** The parts of [NewTaggingController] that are data. *)
Definition NewTaggingController (o : TaggingControllerOptions) : Controller :=
  mkController (o_Tags o) (o_Resources o)
    (negb (Qle_bool (o_RateLimit o) 0) && (0 <? o_BurstLimit o)%Z) (o_BatchingEnabled o).

(** The queue and the counters. *)
Abbreviation controllerState := (workqueue workItem * gmap (string * string) nat)%type.

Section controller.
(** The order of maps, what the URL parser decides on odd authorities, and the batchers of
    the provider. *)
Context {GR : GoRange} (odd_authority : string → bool)
  (createTagsBatcher deleteTagsBatcher : list string → list Tag → prog awsE (result (option unit)))
  (tc : Controller).

Definition getChecksumOfTags : string :=
  md5_hex (Join (SortStrings ((λ '(key, value), key +:+ "=" +:+ value) <$> range_map (tc_tags tc))) ",").

Definition isTaggingRequired (node : Node) : bool :=
  match node_Labels node !! taggingControllerLabelKey with
  | None => true
  | Some labelValue => negb (String.eqb labelValue getChecksumOfTags)
  end.

Definition isInitialTag (node : Node) : bool :=
  bool_decide (node_Labels node !! taggingControllerLabelKey = None).

Definition isNodeWithinEventualConsistencyGracePeriod (now : Z) (node : ControllerNode) : bool :=
  (now - kn_created node <? newNodeEventualConsistencyGracePeriod)%Z.

(** The instance id of a provider id, the empty text where it has none. *)
Definition instanceIDOf (providerID : string) : string :=
  match MapToAWSInstanceID odd_authority providerID with Ok id => id | Err _ => "" end.

Definition tagEc2Instance (now : Z) (node : ControllerNode) : prog ctlE (result unit) :=
  if negb (isTaggingRequired (kn_node node)) then Ret (Ok tt) else
  let name := node_Name (kn_node node) in
  let instanceID := instanceIDOf (node_ProviderID (kn_node node)) in
  let! r := lift (if tc_batchingEnabled tc
                  then TagResourceBatch createTagsBatcher instanceID (tc_tags tc)
                  else TagResource instanceID (tc_tags tc)) in
  match r with
  | Err err =>
     if IsAWSErrorInstanceNotFound err then
       if isNodeWithinEventualConsistencyGracePeriod now node then
         Ret (Err (Errorf "EC2 instance %s for node %s does not exist, but node is within eventual consistency grace period"
                     [instanceID; name]))
       else Ret (Ok tt)
     else if IsAWSErrorInvalidInstanceID err then Ret (Ok tt)
     else Ret (Err err)
  | Ok _ =>
     let! labelled := call (AddOrUpdateLabelsOnNode name {[taggingControllerLabelKey := getChecksumOfTags]}) in
     match labelled with
     | Err _ => Ret (Err (Errorf "couldn't apply labels %s to node %s"
                            ["map[" +:+ taggingControllerLabelKey +:+ ":" +:+ getChecksumOfTags +:+ "]"; name]))
     | Ok _ =>
        if isInitialTag (kn_node node) then
          let! _ := call (ObserveInitialNodeTaggingDelay (kn_created node)) in Ret (Ok tt)
        else Ret (Ok tt)
     end
  end.

(** The loops stop early when the node is gone. *)
Fixpoint tagNodesResources (now : Z) (resources : list string) (name : string) : prog ctlE (result unit) :=
  match resources with
  | [] => Ret (Ok tt)
  | resource :: resources =>
     if String.eqb resource Instance_resource then
       let! r := call (ListerGet name) in
       match r with
       | Err err => Ret (Err err)
       | Ok None => Ret (Ok tt)
       | Ok (Some v1node) =>
          let? _ := tagEc2Instance now v1node in tagNodesResources now resources name
       end
     else tagNodesResources now resources name
  end.

Definition untagEc2Instance (providerID : string) : prog ctlE (result unit) :=
  let instanceID := instanceIDOf providerID in
  let! r := lift (if tc_batchingEnabled tc
                  then UntagResourceBatch deleteTagsBatcher instanceID (tc_tags tc)
                  else UntagResource instanceID (tc_tags tc)) in
  match r with
  | Err err => if IsAWSErrorInvalidInstanceID err then Ret (Ok tt) else Ret (Err err)
  | Ok _ => Ret (Ok tt)
  end.

Fixpoint untagNodeResources (resources : list string) (providerID : string) : prog ctlE (result unit) :=
  match resources with
  | [] => Ret (Ok tt)
  | resource :: resources =>
     if String.eqb resource Instance_resource then
       let? _ := untagEc2Instance providerID in untagNodeResources resources providerID
     else untagNodeResources resources providerID
  end.

(** ** Work items *)
Definition enqueueNode (node : Node) (action : string) (q : workqueue workItem) : workqueue workItem :=
  let item := mkWorkItem (node_Name node) (node_ProviderID node) action in
  if tc_rateLimitEnabled tc then AddRateLimited item q else Add item q.

(** The event handlers of [NewTaggingController]; the informer may deliver a tombstone
    instead of a deleted node. *)
Inductive nodeEvent :=
  | Added (node : Node)
  | Updated (node : Node)
  | Deleted (node : option Node).

(** [None] is a panic. *)
Definition handleEvent (ev : nodeEvent) (q : workqueue workItem) : option (workqueue workItem) :=
  match ev with
  | Added node => Some (enqueueNode node addTag q)
  | Updated node => if isTaggingRequired node then Some (enqueueNode node addTag q) else Some q
  | Deleted (Some node) => Some (enqueueNode node deleteTag q)
  | Deleted None => None
  end.

(** What came of an item: nothing, done with it, or an error. *)
Inductive verdict :=
  | Dropped
  | Finished
  | Failed (err : error).

(** The part of [process] between taking the item and settling it. *)
Definition processItem (now : Z) (item : workItem) : prog ctlE verdict :=
  match MapToAWSInstanceID odd_authority (wi_providerID item) with
  | Err _ => Ret Dropped
  | Ok instanceID =>
     if IsVariantNode instanceID then Ret Finished else
     let! r := (if String.eqb (wi_action item) addTag
                then tagNodesResources now (tc_resources tc) (wi_name item)
                else untagNodeResources (tc_resources tc) (wi_providerID item)) in
     match r with
     | Err err => Ret (Failed err)
     | Ok _ => Ret Finished
     end
  end.

Definition settle (item : workItem) (v : verdict) (q : workqueue workItem) : workqueue workItem :=
  match v with
  | Dropped => q
  | Finished => Forget item q
  | Failed _ =>
     if NumRequeues q item <? maxRequeuingCount then AddRateLimited item q else Forget item q
  end.

(** What settling counts: a try that is repeated, or the last one. *)
Definition settleMetrics (item : workItem) (v : verdict) (q : workqueue workItem)
    (workItemError : gmap (string * string) nat) : gmap (string * string) nat :=
  let instanceID := instanceIDOf (wi_providerID item) in
  match v with
  | Dropped | Finished => workItemError
  | Failed _ =>
     if NumRequeues q item <? maxRequeuingCount
     then recordWorkItemErrorMetrics totalErrorsWorkItemErrorMetric instanceID workItemError
     else recordWorkItemErrorMetrics errorsAfterRetriesExhaustedWorkItemErrorMetric instanceID workItemError
  end.

(** One round of a worker, with nothing between its parts; [None]: there is no item. *)
Definition process (now : Z) (s : controllerState) : prog ctlE (option controllerState) :=
  let '(q, workItemError) := s in
  match Get q with
  | None => Ret None
  | Some (item, q) =>
     let! v := processItem now item in
     Ret (Some (Done_ item (settle item v q), settleMetrics item v q workItemError))
  end.

(** [work] with a bound on its rounds. *)
Fixpoint work (fuel : nat) (now : Z) (s : controllerState) : prog ctlE controllerState :=
  match fuel with
  | 0 => Ret s
  | S fuel =>
     let! r := process now s in
     match r with
     | None => Ret s
     | Some s => work fuel now s
     end
  end.

(** ** The controller at work *)
Inductive workerState :=
  | Busy (item : workItem)     (** between [Get] and settling *)
  | Settled (item : workItem). (** before the deferred [Done] *)

Record Ctl := mkCtl {
  ctl_queue : workqueue workItem;
  ctl_workers : list (option workerState)
}.

(** The value [a] is an end of [p] for some answers to its calls. *)
Inductive ends {E A} : prog E A → A → Prop :=
  | ends_ret a : ends (Ret a) a
  | ends_vis R (c : E R) k r a : ends (k r) a → ends (Vis c k) a.

(** [true] marks the steps that come from outside: informer events and the shutdown. *)
Inductive step : Ctl → bool → Ctl → Prop :=
  | step_event ev q q' ws : handleEvent ev q = Some q' → step (mkCtl q ws) true (mkCtl q' ws)
  | step_shutdown q ws : step (mkCtl q ws) true (mkCtl (ShutDown q) ws)
  | step_ready q l l' x ws : q_waiting q = l ++ x :: l' →
      step (mkCtl q ws) false (mkCtl (Add x (with_waiting q (l ++ l'))) ws)
  | step_merge q l l' x ws : q_waiting q = l ++ x :: l' → x ∈ l ++ l' →
      step (mkCtl q ws) false (mkCtl (with_waiting q (l ++ l')) ws)
  | step_get q q' x ws ws' : Get q = Some (x, q') →
      step (mkCtl q (ws ++ None :: ws')) false (mkCtl q' (ws ++ Some (Busy x) :: ws'))
  | step_settle now q x v ws ws' : ends (processItem now x) v →
      step (mkCtl q (ws ++ Some (Busy x) :: ws')) false
           (mkCtl (settle x v q) (ws ++ Some (Settled x) :: ws'))
  | step_done q x ws ws' :
      step (mkCtl q (ws ++ Some (Settled x) :: ws')) false (mkCtl (Done_ x q) (ws ++ None :: ws')).

Inductive reachable (workerCount : nat) : Ctl → Prop :=
  | reach_init : reachable workerCount (mkCtl empty_queue (replicate workerCount None))
  | reach_step s b s' : reachable workerCount s → step s b s' → reachable workerCount s'.

End controller.
