(* ===== verification/TaggingFacts.v ===== *)
(** * Properties of the tagging controller

    No two workers have the same item, an item that changes while it is processed is
    processed again, failures are retried a bounded number of times and the controller comes
    to rest; a node is labelled only after its instance was tagged. *)

From S2P Require Import Prelude GoLib Metrics Effects AwsApi Tags Config Cloud Instances Md5 Workqueue TaggingController.
From Stdlib Require Import Ascii.
Import Strings Errors.

(** ** The queue and the workers *)
#[export] Instance workerState_eq_dec : EqDecision workerState.
Proof. solve_decision. Defined.

Definition item_of (o : option workerState) : option workItem :=
  match o with
  | Some (Busy x) | Some (Settled x) => Some x
  | None => None
  end.
Definition items_of (ws : list (option workerState)) : list workItem := omap item_of ws.

Lemma items_of_app ws ws' : items_of (ws ++ ws') = items_of ws ++ items_of ws'.
Proof. apply omap_app. Qed.

Section controller.
Context {GR : GoRange} (odd : string → bool)
  (createTagsBatcher deleteTagsBatcher : list string → list Tag → prog awsE (result (option unit)))
  (tc : Controller).

Abbreviation step := (step odd createTagsBatcher deleteTagsBatcher tc).
Abbreviation reachable := (reachable odd createTagsBatcher deleteTagsBatcher tc).

(** The queue is well formed, and the items being processed are those the workers have,
    one worker each. *)
Definition inv (s : Ctl) : Prop :=
  wf (ctl_queue s) ∧ NoDup (items_of (ctl_workers s)) ∧
  ∀ x, x ∈ q_processing (ctl_queue s) ↔ x ∈ items_of (ctl_workers s).

(** Operations that touch neither the queue nor what is processed. *)
Definition same_work (q q' : workqueue workItem) : Prop :=
  q_queue q' = q_queue q ∧ q_dirty q' = q_dirty q ∧ q_processing q' = q_processing q.

Lemma same_work_wf q q' : same_work q q' → wf q → wf q'.
Proof. intros (E1 & E2 & E3). unfold wf. by rewrite E1, E2, E3. Qed.

Lemma settle_same x v q : same_work q (settle x v q).
Proof. destruct v; [done..|]. simpl. by destruct (_ <? _). Qed.

Lemma Add_processing x (q : workqueue workItem) : q_processing (Add x q) = q_processing q.
Proof. unfold Add. by repeat case_match. Qed.

Lemma handleEvent_wf ev q q' :
  handleEvent tc ev q = Some q' → wf q → wf q' ∧ q_processing q' = q_processing q.
Proof.
  assert (∀ node action, wf q → wf (enqueueNode tc node action q) ∧
    q_processing (enqueueNode tc node action q) = q_processing q) as He.
  { intros node action Hq. unfold enqueueNode. destruct (tc_rateLimitEnabled tc).
    - split; [|done]. by eapply same_work_wf.
    - split; [by apply wf_Add|apply Add_processing]. }
  destruct ev as [node|node|[node|]]; simpl; try done; intros E Hq.
  - injection E as <-. auto.
  - destruct (isTaggingRequired tc node); injection E as <-; auto.
  - injection E as <-. auto.
Qed.

Lemma items_middle ws o ws' :
  items_of (ws ++ o :: ws') ≡ₚ (match item_of o with Some x => [x] | None => [] end) ++ items_of (ws ++ ws').
Proof.
  rewrite !items_of_app. unfold items_of at 2. simpl.
  destruct (item_of o); simpl; [|done]. by rewrite <-Permutation_middle.
Qed.

Lemma queue_inv_step s b s' : step s b s' → inv s → inv s'.
Proof.
  intros Hs (Hq & Hn & Hp). unfold inv.
  destruct Hs as [ev q q' ws He|q ws|q l l' x ws Hw|q l l' x ws Hw Hx|q q' x ws ws' Hg|now q x v ws ws' He|q x ws ws'];
    cbn [ctl_queue ctl_workers] in *.
  - destruct (handleEvent_wf _ _ _ He Hq) as [Hq' ->]. done.
  - split; [by eapply same_work_wf|]. done.
  - split; [apply wf_Add; by eapply same_work_wf|]. by rewrite Add_processing.
  - split; [by eapply same_work_wf|]. done.
  - destruct (wf_Get _ _ _ Hq Hg) as (Hq' & _ & Hx & Hp' & _). split; [done|].
    rewrite items_middle in Hn |- *. simpl in Hn |- *. split.
    + apply NoDup_cons. split; [|done]. intros Hin. apply Hx, Hp. by rewrite items_middle.
    + intros y. rewrite Hp', items_middle. specialize (Hp y). rewrite items_middle in Hp. simpl in *. set_solver.
  - split; [eapply same_work_wf; [apply settle_same|done]|].
    destruct (settle_same x v q) as (_ & _ & ->).
    rewrite items_middle in Hn |- *. split; [done|]. intros y. rewrite items_middle. rewrite Hp. by rewrite items_middle.
  - rewrite items_middle in Hn. simpl in Hn. apply NoDup_cons in Hn as [Hx Hn].
    split; [apply wf_Done; [done|]; apply Hp; rewrite items_middle; set_solver|].
    rewrite items_middle. simpl. split; [done|]. intros y. rewrite items_middle. simpl.
    specialize (Hp y). rewrite items_middle in Hp. simpl in Hp. set_solver.
Qed.

Lemma inv_reachable n s : reachable n s → inv s.
Proof.
  induction 1 as [|s b s' _ IH Hs]; [|by eapply queue_inv_step].
  split; [apply wf_empty|]. cbn [ctl_queue ctl_workers].
  assert (items_of (replicate n None) = []) as -> by (by induction n). split; [constructor|]. set_solver.
Qed.

(** C14: however events, retries and workers interleave, no two workers have the same item at
    the same time, the queue lists no item twice and none that a worker has, and an item
    that was added while a worker had it is in the queue again once the worker is done. *)
Theorem tagging_exclusive n s :
  reachable n s →
  NoDup (items_of (ctl_workers s)) ∧
  NoDup (q_queue (ctl_queue s)) ∧
  (∀ x, x ∈ q_queue (ctl_queue s) → x ∉ items_of (ctl_workers s)) ∧
  (∀ x, x ∈ q_dirty (ctl_queue s) →
     x ∈ q_queue (ctl_queue s) ∨
     x ∈ items_of (ctl_workers s) ∧ x ∈ q_queue (Done_ x (ctl_queue s))).
Proof.
  intros (Hq & Hn & Hp)%inv_reachable. destruct Hq as [Hqn Hq]. split_and!; [done|done| |].
  - intros x Hx. rewrite <-Hp. by apply Hq.
  - intros x Hx. destruct (decide (x ∈ q_processing (ctl_queue s))) as [Hin|Hout].
    + right. split; [by apply Hp|]. simpl. rewrite bool_decide_eq_true_2 by done. set_solver.
    + left. by apply Hq.
Qed.

(** ** Coming to rest *)

(** How often [x] waits, whether it is marked, and how many workers are busy with it or
    have settled it. *)
Definition count {A} `{EqDecision A} (x : A) (l : list A) : Z := Z.of_nat (length (filter (λ y, y = x) l)).
Definition waits (x : workItem) (s : Ctl) : Z := count x (q_waiting (ctl_queue s)).
Definition marked (x : workItem) (s : Ctl) : Z := if bool_decide (x ∈ q_dirty (ctl_queue s)) then 1 else 0.
Definition busy (x : workItem) (s : Ctl) : Z := count (Some (Busy x)) (ctl_workers s).
Definition settled (x : workItem) (s : Ctl) : Z := count (Some (Settled x)) (ctl_workers s).
Definition retries (x : workItem) (s : Ctl) : Z := Z.of_nat (NumRequeues (ctl_queue s) x `min` maxRequeuingCount).

(** The work on [x] that is pending: a failed try moves it from busy to waiting and uses up
    a retry; being done with it uses up the try. *)
Definition pending (x : workItem) (s : Ctl) : Z :=
  (48 * waits x s + 47 * marked x s + 46 * busy x s + settled x s)%Z.
Definition weight (x : workItem) (s : Ctl) : Z := (pending x s - 4 * retries x s)%Z.

Definition sumZ {A} (f : A → Z) (l : list A) : Z := foldr (λ x acc, (f x + acc)%Z) 0%Z l.

Lemma sumZ_ext {A} (f g : A → Z) l : (∀ x, x ∈ l → f x = g x) → sumZ f l = sumZ g l.
Proof.
  induction l as [|x l IH]; intros H; [done|]. simpl. rewrite IH by set_solver. by rewrite H by set_solver.
Qed.

Lemma sumZ_change {A} (f g : A → Z) l x :
  NoDup l → x ∈ l → (∀ y, y ≠ x → g y = f y) → (sumZ g l = sumZ f l + (g x - f x))%Z.
Proof.
  intros Hn Hx Hne. induction l as [|y l IH]; [by apply not_elem_of_nil in Hx|].
  apply NoDup_cons in Hn as [Hy Hn]. simpl. apply elem_of_cons in Hx as [->|Hx].
  - rewrite (sumZ_ext g f l); [lia|]. intros z Hz. apply Hne. by intros ->.
  - rewrite (Hne y) by (by intros ->). rewrite IH by done. lia.
Qed.

Lemma count_app {A} `{EqDecision A} (x : A) l l' : (count x (l ++ l') = count x l + count x l')%Z.
Proof. unfold count. rewrite filter_app, length_app. lia. Qed.

Lemma count_cons {A} `{EqDecision A} (x y : A) l :
  count x (y :: l) = ((if decide (y = x) then 1 else 0) + count x l)%Z.
Proof. unfold count. rewrite filter_cons. case_decide; simpl; lia. Qed.

Lemma count_middle {A} `{EqDecision A} (x y : A) l l' :
  count x (l ++ y :: l') = ((if decide (y = x) then 1 else 0) + count x (l ++ l'))%Z.
Proof. rewrite !count_app, count_cons. lia. Qed.

(** Every item of the state is in [U]. *)
Definition covers (U : list workItem) (s : Ctl) : Prop :=
  ∀ x, x ∈ q_waiting (ctl_queue s) ∨ x ∈ q_dirty (ctl_queue s) ∨ x ∈ items_of (ctl_workers s) → x ∈ U.

Lemma weight_lower x s : (-36 ≤ weight x s)%Z.
Proof.
  unfold weight, pending, waits, busy, settled, retries, marked, count, maxRequeuingCount.
  case_bool_decide; lia.
Qed.

(** The parts of the weight that a step changes. *)
Lemma weight_eq y s s' :
  waits y s' = waits y s → marked y s' = marked y s → busy y s' = busy y s →
  settled y s' = settled y s → retries y s' = retries y s → weight y s' = weight y s.
Proof. unfold weight, pending. congruence. Qed.

Lemma marked_other y x q ws q' ws' :
  y ≠ x → q_dirty q' ⊆ {[x]} ∪ q_dirty q → q_dirty q ⊆ {[x]} ∪ q_dirty q' →
  marked y (mkCtl q' ws') = marked y (mkCtl q ws).
Proof.
  intros Hne H1 H2. unfold marked. cbn [ctl_queue].
  rewrite (bool_decide_ext (y ∈ q_dirty q') (y ∈ q_dirty q)); [done|].
  specialize (H1 y). specialize (H2 y). set_solver.
Qed.

Lemma worker_other y x ws ws' (o o' : option workerState) q q' :
  y ≠ x → item_of o ∈ [None; Some x] → item_of o' ∈ [None; Some x] →
  busy y (mkCtl q' (ws ++ o' :: ws')) = busy y (mkCtl q (ws ++ o :: ws')) ∧
  settled y (mkCtl q' (ws ++ o' :: ws')) = settled y (mkCtl q (ws ++ o :: ws')).
Proof.
  intros Hne Ho Ho'. unfold busy, settled. cbn [ctl_workers]. rewrite !count_middle.
  assert (∀ o, item_of o ∈ [None; Some x] → o ≠ Some (Busy y) ∧ o ≠ Some (Settled y)) as H.
  { intros o'' Hin. split; intros ->; simpl in Hin;
      repeat (apply elem_of_cons in Hin as [Hin|Hin]; [congruence|]); by apply not_elem_of_nil in Hin. }
  destruct (H o Ho), (H o' Ho'). by rewrite !decide_False.
Qed.

(** Settling an item: a retry uses one of the nine, anything else forgets them. *)
Lemma settle_weight x v q :
  (48 * count x (q_waiting (settle x v q)) -
     4 * Z.of_nat (NumRequeues (settle x v q) x `min` maxRequeuingCount) <
   48 * count x (q_waiting q) - 4 * Z.of_nat (NumRequeues q x `min` maxRequeuingCount) + 45)%Z ∧
  ∀ y, y ≠ x → count y (q_waiting (settle x v q)) = count y (q_waiting q) ∧
    NumRequeues (settle x v q) y = NumRequeues q y.
Proof.
  assert (∀ y, y ≠ x → NumRequeues (Forget x q) y = NumRequeues q y) as Hf.
  { intros y Hy. unfold NumRequeues. cbn. by rewrite lookup_delete_ne. }
  destruct v as [| |err]; simpl settle.
  - split; [lia|done].
  - split; [unfold maxRequeuingCount; cbn [Forget q_waiting]; lia|]. auto.
  - destruct (Nat.ltb_spec (NumRequeues q x) maxRequeuingCount) as [Hlt|Hge].
    + split.
      * assert (NumRequeues (AddRateLimited x q) x = S (NumRequeues q x)) as ->.
        { unfold NumRequeues at 1. cbn [AddRateLimited q_failures]. by rewrite lookup_insert_eq. }
        cbn [AddRateLimited q_waiting]. unfold maxRequeuingCount in *.
        destruct (q_shuttingDown q); [lia|]. rewrite count_app, count_cons, decide_True by done.
        change (count x []) with 0%Z. lia.
      * intros y Hy. split.
        -- cbn [AddRateLimited q_waiting]. destruct (q_shuttingDown q); [done|].
           rewrite count_app, count_cons, decide_False by done. change (count y []) with 0%Z. lia.
        -- unfold NumRequeues at 1. cbn [AddRateLimited q_failures]. by rewrite lookup_insert_ne.
    + split; [unfold maxRequeuingCount in *; cbn [Forget q_waiting]; lia|]. auto.
Qed.

(** A step from inside makes the weight of one item smaller and leaves the others alone. *)
Lemma silent_weight s s' :
  step s false s' → inv s → ∃ x,
    (x ∈ q_waiting (ctl_queue s) ∨ x ∈ q_dirty (ctl_queue s) ∨ x ∈ items_of (ctl_workers s)) ∧
    (weight x s' < weight x s)%Z ∧ ∀ y, y ≠ x → weight y s' = weight y s.
Proof.
  intros Hs (Hq & Hn & Hp). remember false as b eqn:Hb.
  destruct Hs as [ev q q' ws He|q ws|q l l' x ws Hw|q l l' x ws Hw Hx|q q' x ws ws' Hg|now q x v ws ws' He|q x ws ws'];
    try done; cbn [ctl_queue ctl_workers] in *; exists x.
  - split; [left; rewrite Hw; set_solver|].
    set (q1 := with_waiting q (l ++ l')).
    assert (q_waiting (Add x q1) = l ++ l' ∧ q_failures (Add x q1) = q_failures q ∧
      (q_dirty (Add x q1) = q_dirty q ∨ q_dirty (Add x q1) = {[x]} ∪ q_dirty q)) as (E1 & E2 & E3).
    { unfold Add. destruct (q_shuttingDown q1); [by auto|]. case_bool_decide; by auto. }
    split.
    + unfold weight, pending, waits, marked, busy, settled, retries, NumRequeues. cbn [ctl_queue ctl_workers].
      rewrite E1, E2, Hw, count_middle, decide_True by done.
      destruct E3 as [-> | ->]; repeat case_bool_decide; lia.
    + intros y Hy. apply weight_eq; try done.
      * unfold waits. cbn [ctl_queue]. by rewrite E1, Hw, count_middle, decide_False by done.
      * apply (marked_other y x); [done|destruct E3 as [-> | ->]; set_solver..].
      * unfold retries, NumRequeues. cbn [ctl_queue]. by rewrite E2.
  - split; [left; rewrite Hw; set_solver|]. split.
    + unfold weight, pending, waits, marked, busy, settled, retries, NumRequeues.
      cbn [ctl_queue ctl_workers with_waiting q_waiting q_dirty q_failures].
      rewrite Hw, count_middle, decide_True by done. lia.
    + intros y Hy. apply weight_eq; try done. unfold waits. cbn [ctl_queue with_waiting q_waiting].
      by rewrite Hw, count_middle, decide_False by done.
  - destruct (wf_Get _ _ _ Hq Hg) as (_ & Hd & _ & _ & Ed & Ew & Ef). split; [by right; left|]. split.
    + unfold weight, pending, waits, marked, busy, settled, retries, NumRequeues. cbn [ctl_queue ctl_workers].
      rewrite Ed, Ew, Ef, !count_middle. rewrite bool_decide_eq_false_2 by set_solver.
      rewrite bool_decide_eq_true_2 by done. rewrite decide_True, !decide_False by done. lia.
    + intros y Hy. destruct (worker_other y x ws ws' None (Some (Busy x)) q q') as [Hb1 Hs1]; [done|set_solver..|].
      apply weight_eq; try done.
      * unfold waits. cbn [ctl_queue]. by rewrite Ew.
      * apply (marked_other y x); [done|rewrite Ed; set_solver|]. rewrite Ed. intros z Hz.
        destruct (decide (z = x)); set_solver.
      * unfold retries, NumRequeues. cbn [ctl_queue]. by rewrite Ef.
  - split; [right; right; rewrite items_middle; set_solver|].
    destruct (settle_weight x v q) as (H1 & H2). destruct (settle_same x v q) as (_ & Ed & _). split.
    + unfold weight, pending, marked, busy, settled. cbn [ctl_queue ctl_workers].
      rewrite Ed, !count_middle.
      unfold waits, retries in *. cbn [ctl_queue] in *. repeat case_decide; simplify_eq; lia.
    + intros y Hy. destruct (worker_other y x ws ws' (Some (Busy x)) (Some (Settled x)) q (settle x v q))
        as [Hb1 Hs1]; [done|set_solver..|]. destruct (H2 y Hy) as [Ew Ef].
      apply weight_eq; try done.
      * unfold marked. cbn [ctl_queue]. by rewrite Ed.
      * unfold retries. cbn [ctl_queue]. by rewrite Ef.
  - split; [right; right; rewrite items_middle; set_solver|]. split.
    + unfold weight, pending, waits, marked, busy, settled, retries, NumRequeues. cbn [ctl_queue ctl_workers Done_ q_waiting q_dirty q_failures].
      rewrite !count_middle, !decide_False by done. rewrite decide_True by done. lia.
    + intros y Hy. destruct (worker_other y x ws ws' (Some (Settled x)) None q (Done_ x q)) as [Hb1 Hs1];
        [done|set_solver..|]. by apply weight_eq.
Qed.

Inductive silent_steps : nat → Ctl → Ctl → Prop :=
  | silent_here s : silent_steps 0 s s
  | silent_more k s s' s'' : step s false s' → silent_steps k s' s'' → silent_steps (S k) s s''.

Lemma covers_step U s s' : step s false s' → inv s → covers U s → covers U s'.
Proof.
  intros Hs (Hq & _ & _) HU y Hy. apply HU. remember false as b eqn:Hb.
  destruct Hs as [ev q q' ws He|q ws|q l l' x ws Hw|q l l' x ws Hw Hx|q q' x ws ws' Hg|now q x v ws ws' He|q x ws ws'];
    try done; cbn [ctl_queue ctl_workers] in *.
  - rewrite Hw. assert (q_waiting (Add x (with_waiting q (l ++ l'))) = l ++ l' ∧
      q_dirty (Add x (with_waiting q (l ++ l'))) ⊆ {[x]} ∪ q_dirty q) as [E1 E2].
    { unfold Add. destruct (q_shuttingDown _); [split; [done|set_solver]|].
      case_bool_decide; (split; [done|set_solver]). }
    rewrite E1 in Hy. specialize (E2 y). set_solver.
  - rewrite Hw. set_solver.
  - destruct (wf_Get _ _ _ Hq Hg) as (_ & Hd & _ & _ & Ed & Ew & _). rewrite Ed, Ew in Hy.
    rewrite items_middle in Hy |- *. simpl in *. set_solver.
  - destruct (settle_same x v q) as (_ & Ed & _). rewrite Ed in Hy. rewrite items_middle in Hy |- *.
    assert (∀ z, z ∈ q_waiting (settle x v q) → z ∈ q_waiting q ∨ z = x) as Hz.
    { intros z. destruct v; simpl; [by left..|]. destruct (_ <? _); [|by left]. simpl.
      destruct (q_shuttingDown q); [by left|]. set_solver. }
    specialize (Hz y). simpl in *. set_solver.
  - rewrite items_middle in Hy |- *. simpl in *. set_solver.
Qed.

Lemma silent_bound U k s s' :
  NoDup U → silent_steps k s s' → inv s → covers U s →
  (Z.of_nat k + sumZ (λ x, weight x s') U ≤ sumZ (λ x, weight x s) U)%Z.
Proof.
  intros Hn. induction 1 as [s|k s s1 s2 Hs _ IH]; intros Hi HU; [lia|].
  destruct (silent_weight s s1 Hs Hi) as (x & Hx & Hlt & Hne).
  specialize (IH (queue_inv_step _ _ _ Hs Hi) (covers_step U _ _ Hs Hi HU)).
  pose proof (sumZ_change (λ x, weight x s) (λ x, weight x s1) U x Hn (HU x Hx) Hne). simpl in *. lia.
Qed.

(** C15: the controller comes to rest: without informer events, at most the given number of
    steps follow a reachable state, whatever EC2 and the API server answer and however the
    workers interleave: retries are bounded, also for items that always fail. *)
Theorem tagging_comes_to_rest n s U k s' :
  reachable n s → NoDup U → covers U s → silent_steps k s s' →
  (Z.of_nat k ≤ sumZ (λ x, pending x s + 36) U)%Z.
Proof.
  intros Hr Hn HU Hk. pose proof (silent_bound U k s s' Hn Hk (inv_reachable _ _ Hr) HU) as Hb.
  assert (-36 * Z.of_nat (length U) ≤ sumZ (λ x, weight x s') U)%Z as Hlow.
  { clear. induction U as [|x U IH]; simpl; [lia|]. pose proof (weight_lower x s'). lia. }
  assert (sumZ (λ x, weight x s) U + 36 * Z.of_nat (length U) ≤ sumZ (λ x, pending x s + 36) U)%Z as Hup.
  { clear. induction U as [|x U IH]; simpl; [lia|]. unfold weight at 1, retries. lia. }
  lia.
Qed.
End controller.

(** ** Labels *)

(** The nodes and labels of the calls that label a node. *)
Definition labels_call (ev : event ctlE) : option (string * gmap string string) :=
  match ev_call ev with
  | AddOrUpdateLabelsOnNode name labels => Some (name, labels)
  | _ => None
  end.

(** What EC2 answered to [CreateTags], with its resources and tags. *)
Definition tags_answer (ev : event ctlE) : option (list string * list Tag * result unit) :=
  match ev with
  | Ev c r =>
     match c in ctlE R return result R → option (list string * list Tag * result unit) with
     | CloudCall c =>
        match c in awsE R return result R → option (list string * list Tag * result unit) with
        | EC2 c =>
           match c in ec2E R return result R → option (list string * list Tag * result unit) with
           | CreateTags ids tags => λ r, Some (ids, tags, r)
           | _ => λ _, None
           end
        | _ => λ _, None
        end
     | _ => λ _, None
     end r
  end.

Lemma lift_no_labels {A} (p : prog awsE A) : all_calls (λ ev, labels_call ev = None) (lift p).
Proof. induction p as [a|w|R c k IH]; simpl; [done..|]. intros r. split; [done|apply IH]. Qed.

Section labels.
Context {GR : GoRange} (odd : string → bool)
  (createTagsBatcher : list string → list Tag → prog awsE (result (option unit))) (tc : Controller).

(** The promise of the batcher: an answer without an error means that EC2 accepted the
    tags for the resources, an error that EC2 answered it to a call with these tags. *)
Definition answered (r : result unit) (ids : list string) (tags : list Tag) (t : list (event ctlE)) : Prop :=
  ∃ ev ids', ev ∈ t ∧ tags_answer ev = Some (ids', tags, r) ∧ ids ⊆ ids'.

Definition applies : Prop := ∀ ids tags t,
  wp (lift (createTagsBatcher ids tags)) (λ t' o,
    (∀ out, o = Done (Ok out) → answered (Ok tt) ids tags t') ∧
    ∀ err, o = Done (Err err) → answered (Err err) ids tags t') t.

(** EC2 accepted the tags of the controller for the instance. *)
Definition tagged (id : string) (t : list (event ctlE)) : Prop :=
  ∃ ev ids, ev ∈ t ∧ tags_answer ev = Some (ids, buildAwsTags (tc_tags tc), Ok tt) ∧ id ∈ ids.

Definition tag_calls (id : string) : prog awsE (result unit) :=
  if tc_batchingEnabled tc then TagResourceBatch createTagsBatcher id (tc_tags tc)
  else TagResource id (tc_tags tc).

Lemma wp_lift_bind {A B} (p : prog awsE A) (f : A → prog awsE B) Q t :
  wp (lift (bind p f)) Q t ↔
  wp (lift p) (λ t' o, match o with
                       | Done a => wp (lift (f a)) Q t'
                       | Panicked w => Q t' (Panicked w)
                       end) t.
Proof.
  revert t. induction p as [a|w|R c k IH]; intros t; simpl; [done..|]. by setoid_rewrite IH.
Qed.

Lemma wp_tag_calls id :
  applies → wp (lift (tag_calls id)) (λ t o,
    Forall (λ ev, labels_call ev = None) t ∧
    (o = Done (Ok tt) → tagged id t) ∧
    ∀ err, o = Done (Err err) → answered (Err err) [id] (buildAwsTags (tc_tags tc)) t) [].
Proof.
  intros Hb. apply wp_and.
  { eapply wp_mono; [apply all_calls_wp, lift_no_labels|]. by intros t _ (u & -> & Hu). }
  unfold tag_calls. destruct (tc_batchingEnabled tc).
  - unfold TagResourceBatch, try. rewrite wp_lift_bind. eapply wp_mono; [apply Hb|].
    intros t' [[out|e]|w] [H He]; simpl; [|split; [done|]; intros err [= <-]; by apply He|done].
    destruct (H out eq_refl) as (ev & ids' & Hev & Ha & Hsub). rewrite wp_lift_bind. destruct out as [u|]; simpl; [|done]. split; [|done]. intros _. exists ev, ids'.
    split_and!; [done|done|]. apply Hsub. set_solver.
  - unfold TagResource, ec2, call. simpl. intros [[]|e]; simpl; (split; [|intros err]); try done.
    + intros _. eexists _, _. split; [apply (snoc_elem [])|]. split; [done|]. set_solver.
    + intros [= <-]. eexists _, _. split; [apply (snoc_elem [])|]. by split.
Qed.

(** The label of the controller on the node, which entitles to by the calls before it. *)
Definition may_label (node : ControllerNode) (t : list (event ctlE)) (ev : event ctlE) : Prop :=
  ∀ name labels, labels_call ev = Some (name, labels) →
    name = node_Name (kn_node node) ∧ labels = {[taggingControllerLabelKey := getChecksumOfTags tc]} ∧
    tagged (instanceIDOf odd (node_ProviderID (kn_node node))) t.

Lemma may_label_mono node t u ev : may_label node t ev → may_label node (t ++ u) ev.
Proof.
  intros H name labels Hl. destruct (H name labels Hl) as (? & ? & e & ids & ? & ?). split_and!; [done|done|].
  exists e, ids. set_solver.
Qed.

(** EC2 answered to the tags of the controller for the instance that tagging will never
    succeed: it does not know the instance of a node older than five minutes, or finds its
    id invalid. *)
Definition hopeless (now : Z) (node : ControllerNode) (t : list (event ctlE)) : Prop :=
  ∃ err, answered (Err err) [instanceIDOf odd (node_ProviderID (kn_node node))] (buildAwsTags (tc_tags tc)) t ∧
    (IsAWSErrorInstanceNotFound err = true ∧
       (newNodeEventualConsistencyGracePeriod ≤ now - kn_created node)%Z ∨
     IsAWSErrorInvalidInstanceID err = true).

(** C20: a node gets the label of the controller only after EC2 accepted the tags for its
    instance, with the checksum of these tags; a node that has the label already causes no
    call; and tagging, with and without batching, ends without an error only when the node
    has the label, or when EC2 answered to the tags that it does not know the instance of a
    node older than five minutes, or that its id is invalid. *)
Theorem tagEc2Instance_labels (now : Z) (node : ControllerNode) :
  applies →
  wp (tagEc2Instance odd createTagsBatcher tc now node) (λ t o,
    justified (may_label node) t ∧
    (isTaggingRequired tc (kn_node node) = false → t = [] ∧ o = Done (Ok tt)) ∧
    (o = Done (Ok tt) →
       isTaggingRequired tc (kn_node node) = false ∨
       (∃ ev, ev ∈ t ∧ is_Some (labels_call ev) ∧ is_ok (ev_answer ev) = true) ∨
       hopeless now node t)) [].
Proof.
  intros Hb. unfold tagEc2Instance. destruct (isTaggingRequired tc (kn_node node)) eqn:Er; cbn [negb].
  2:{ cbn [wp]. split; [apply justified_nil|]. auto. }
  set (id := instanceIDOf odd (node_ProviderID (kn_node node))). rewrite wp_bind.
  change (if tc_batchingEnabled tc then _ else _) with (tag_calls id).
  eapply wp_mono; [apply (wp_tag_calls id Hb)|]. intros t o (Hno & Hok & Herr).
  assert (justified (may_label node) t) as Ht.
  { intros pre ev post -> name labels Hl. apply Forall_app in Hno as [_ Hno].
    apply Forall_cons in Hno as [Hno _]. congruence. }
  destruct o as [[[]|err]|w]; cbn [andThen].
  - rewrite wp_bind. unfold call. cbn [wp andThen]. intros r.
    assert (justified (may_label node)
      (t ++ [Ev (AddOrUpdateLabelsOnNode (node_Name (kn_node node))
               {[taggingControllerLabelKey := getChecksumOfTags tc]}) r])) as Hj.
    { apply justified_snoc; [done|]. intros name labels [= <- <-]. auto. }
    destruct r as [[]|e]; cbn [wp]; [|by split; [|split]].
    assert (∀ u, Forall (λ ev, labels_call ev = None) u → let tr := (t ++ [Ev (AddOrUpdateLabelsOnNode (node_Name (kn_node node))
        {[taggingControllerLabelKey := getChecksumOfTags tc]}) (Ok tt)]) ++ u in
      justified (may_label node) tr ∧ ∃ ev, ev ∈ tr ∧ is_Some (labels_call ev) ∧ is_ok (ev_answer ev) = true) as Hend.
    { intros u Hu. split.
      { apply justified_app; [apply may_label_mono|exact Hj|]. eapply Forall_impl; [exact Hu|].
        intros ev E name labels Hl. cbv beta in E. congruence. }
      eexists. split; [apply elem_of_app; left; apply snoc_elem|]. by split; [eexists|]. }
    destruct (isInitialTag (kn_node node)); [rewrite wp_bind; unfold call; cbn [wp andThen]; intros r|];
      cbn [wp]; (split; [|split; [done|intros _; right; left]]).
    1,2: apply (Hend [Ev (ObserveInitialNodeTaggingDelay (kn_created node)) r]); by repeat constructor.
    1,2: destruct (Hend []) as [H1 H2]; [constructor|]; rewrite app_nil_r in H1, H2; done.
  - assert (IsAWSErrorInstanceNotFound err = true ∧ isNodeWithinEventualConsistencyGracePeriod now node = false ∨
      IsAWSErrorInvalidInstanceID err = true → hopeless now node t) as Hh.
    { intros Hc. exists err. split; [by apply Herr|].
      destruct Hc as [[? Hg]|?]; [left|by right]. split; [done|]. by apply Z.ltb_ge in Hg. }
    destruct (IsAWSErrorInstanceNotFound err) eqn:En;
      [destruct (isNodeWithinEventualConsistencyGracePeriod now node) eqn:Eg|
       destruct (IsAWSErrorInvalidInstanceID err) eqn:Ei]; cbn [wp]; (split; [done|]); (split; [done|]);
      try done; intros _; right; right; auto.
  - done.
Qed.
End labels.

(** ** Checksums *)
Lemma SortStrings_perm l l' : l ≡ₚ l' → SortStrings l = SortStrings l'.
Proof.
  intros Hl. unfold SortStrings. apply (Sorted_unique String.le).
  - apply (Sorted_merge_sort String.le).
  - apply (Sorted_merge_sort String.le).
  - by rewrite !merge_sort_Permutation.
Qed.

(** Tagging converges: a node that was labelled is not tagged again while the tags stay
    the same, in whatever order the maps of tags are iterated when the label is written and
    when it is checked. *)
Theorem tagging_converges (GR GR' : GoRange) (tc tc' : Controller) (node : Node) :
  tc_tags tc = tc_tags tc' →
  node_Labels node !! taggingControllerLabelKey = Some (getChecksumOfTags (GR := GR) tc) →
  isTaggingRequired (GR := GR') tc' node = false.
Proof.
  intros Ht Hl. unfold isTaggingRequired. rewrite Hl. apply negb_false_iff, String.eqb_eq.
  unfold getChecksumOfTags. do 2 f_equal. apply SortStrings_perm. rewrite Ht.
  apply fmap_Permutation. by rewrite !range_map_perm.
Qed.

(** ** Examples *)
Definition web_node : Node := mkNode "node-1" ∅ "aws:///us-east-1a/i-1".
Definition web_item : workItem := mkWorkItem "node-1" "aws:///us-east-1a/i-1" addTag.
Definition owner_tags (rateLimit : bool) : Controller :=
  mkController {["owner" := "team"]} [Instance_resource] rateLimit false.
Definition forward (ids : list string) (tags : list Tag) : prog awsE (result (option unit)) :=
  let? _ := ec2 (CreateTags ids tags) in Ret (Ok (Some tt)).

Abbreviation step_ := (step (GR := trie_order) (λ _, true) forward forward (owner_tags false)).
Abbreviation reachable_ := (reachable (GR := trie_order) (λ _, true) forward forward (owner_tags false)).

(** The node was added, then a worker has taken its item. *)
Definition queued_ctl : Ctl :=
  mkCtl (mkWorkqueue [web_item] ({[web_item]} ∪ ∅) ∅ [] ∅ false) [None; None].
Definition busy_ctl : Ctl :=
  mkCtl (mkWorkqueue [] (({[web_item]} ∪ ∅) ∖ {[web_item]}) ({[web_item]} ∪ ∅) [] ∅ false)
    [Some (Busy web_item); None].

Lemma busy_step : step_ queued_ctl false busy_ctl.
Proof. by apply (step_get _ _ _ _ _ _ web_item [] [None]). Qed.

Lemma queued_reachable : reachable_ 2 queued_ctl.
Proof.
  eapply reach_step; [apply reach_init|]. apply (step_event _ _ _ _ (Added web_node)).
  cbn [handleEvent]. unfold enqueueNode, owner_tags, Add. cbn [tc_rateLimitEnabled empty_queue q_shuttingDown].
  by rewrite !bool_decide_eq_false_2 by apply not_elem_of_empty.
Qed.

Lemma tagging_exclusive_witness :
  reachable_ 2 busy_ctl ∧ NoDup (items_of (ctl_workers busy_ctl)).
Proof.
  assert (reachable_ 2 busy_ctl) as H by (eapply reach_step; [apply queued_reachable|apply busy_step]).
  split; [exact H|]. exact (proj1 (tagging_exclusive _ _ _ _ _ _ H)).
Defined.

Lemma tagging_comes_to_rest_witness :
  covers [web_item] queued_ctl ∧
  silent_steps (GR := trie_order) (λ _, true) forward forward (owner_tags false) 1 queued_ctl busy_ctl ∧
  (Z.of_nat 1 ≤ sumZ (λ x, pending x queued_ctl + 36) [web_item])%Z.
Proof.
  assert (covers [web_item] queued_ctl) as HU.
  { intros x [Hx|[Hx|Hx]]; [by apply not_elem_of_nil in Hx| |by apply not_elem_of_nil in Hx].
    change (x ∈ ({[web_item]} ∪ ∅ : gset workItem)) in Hx. set_solver. }
  assert (silent_steps (GR := trie_order) (λ _, true) forward forward (owner_tags false) 1 queued_ctl busy_ctl) as Hk.
  { eapply silent_more; [apply busy_step|constructor]. }
  split; [exact HU|]. split; [exact Hk|].
  eapply (tagging_comes_to_rest (GR := trie_order) _ _ _ _ 2 queued_ctl [web_item] 1 busy_ctl);
    [exact queued_reachable|apply NoDup_singleton|exact HU|exact Hk].
Defined.

Lemma forward_applies : applies forward.
Proof.
  intros ids tags t. unfold forward, ec2, call. simpl. intros [[]|e]; simpl; (split; [intros out Eo|intros err Ee]); try done.
  - clear Eo. eexists _, _. split; [apply snoc_elem|]. by split.
  - injection Ee as <-. eexists _, _. split; [apply snoc_elem|]. by split.
Qed.

(** With batching, for a node whose instance id EC2 finds invalid. *)
Definition refuses : handler ctlE unit := λ R c s, (Err (APIError "InvalidID" "not an id"), s).

Lemma tagEc2Instance_labels_witness :
  let tc := mkController {["owner" := "team"]} [Instance_resource] false true in
  let node := mkControllerNode web_node 0 in
  let '(o, _, t) := run refuses (tagEc2Instance (GR := trie_order) (λ _, true) forward tc 10 node) tt [] in
  o = Done (Ok tt) ∧ hopeless (GR := trie_order) (λ _, true) tc 10 node t.
Proof.
  intros tc node.
  pose proof (wp_run refuses _ _ tt []
    (tagEc2Instance_labels (GR := trie_order) (λ _, true) forward tc 10 node forward_applies)) as H.
  revert H. vm_compute run. intros (_ & _ & H). split; [done|].
  destruct (H eq_refl) as [Hf|[(ev & Hev & [x Hl] & _)|Hh]]; [by vm_compute in Hf| |exact Hh].
  apply list_elem_of_singleton in Hev as ->. by vm_compute in Hl.
Defined.

Lemma tagging_converges_witness :
  let tc := mkController {["owner" := "team"; "env" := "prod"]} [Instance_resource] false false in
  isTaggingRequired (GR := reverse_order) tc
    (mkNode "node-1" {[taggingControllerLabelKey := getChecksumOfTags (GR := trie_order) tc]} "") = false.
Proof. intros tc. by apply (tagging_converges trie_order reverse_order tc tc). Defined.

(** With rate limiting every event counts as a requeue: after nine events the first failure
    is final. *)
Example events_use_up_retries :
  let q := Nat.iter 9 (enqueueNode (owner_tags true) web_node addTag) empty_queue in
  NumRequeues q web_item = 9 ∧
  q_waiting (settle web_item (Failed InstanceNotFound) (with_waiting q [])) = [].
Proof. by vm_compute. Qed.

(** Without it a failing item is tried ten times. *)
Definition unavailable : handler ctlE nat := λ R c n,
  match c in ctlE R return result R * nat with
  | CloudCall c => (Err (APIError "Unavailable" "try again"), S n)
  | ListerGet _ => (Ok (Some (mkControllerNode web_node 0)), n)
  | AddOrUpdateLabelsOnNode _ _ | ObserveInitialNodeTaggingDelay _ => (Ok tt, n)
  end.
Fixpoint rounds (k : nat) (s : controllerState) : prog ctlE controllerState :=
  match k with
  | 0 => Ret s
  | S k =>
     let! (q, m) := work (GR := trie_order) (λ _, true) forward forward (owner_tags false) 3 0 s in
     rounds k (foldl (λ q x, Add x q) (with_waiting q []) (q_waiting q), m)
  end.
Example ten_tries :
  (run unavailable (rounds 20 (Add web_item empty_queue, ∅)) 0 []).1.2 = 10.
Proof. vm_compute. reflexivity. Qed.

(** Nine of them count as errors of an item that succeeds, though this one never does. *)
Example ten_errors :
  match (run unavailable (rounds 20 (Add web_item empty_queue, ∅)) 0 []).1.1 with
  | Done (_, m) => value m (totalErrorsWorkItemErrorMetric, "i-1") = 9 ∧
      value m (errorsAfterRetriesExhaustedWorkItemErrorMetric, "i-1") = 1
  | Panicked _ => False
  end.
Proof. vm_compute. split; reflexivity. Qed.

(** The metrics of the provider and of the controller have names of their own. *)
Example registers_all :
  is_Some ('(once, names) ← registerMetrics false ∅; registerTaggingMetrics false names).
Proof. by eexists. Qed.

(** The checksum does not separate the tags from their values. *)
Example checksum_shared :
  let sum tags := getChecksumOfTags (GR := trie_order) (mkController tags [] false false) in
  sum {["a" := "1,b=2"]} = sum {["a" := "1"; "b" := "2"]}.
Proof. vm_compute. reflexivity. Qed.

(** A tombstone of a missed deletion stops the controller. *)
Example tombstone_panics :
  handleEvent (GR := trie_order) (owner_tags false) (Deleted None) empty_queue = None.
Proof. reflexivity. Qed.
