(* ===== verification/Ecr.v ===== *)
(** * The ECR credential provider (cmd/ecr-credential-provider)

    A plugin of the kubelet: it reads a request for an image, asks ECR for an authorization
    token, with the role of a service account where one is given, and answers with the user
    and the password for the registry of the image.  The clients it creates are its state;
    the calls to the SDK are a signature of programs. *)

From S2P Require Import Prelude GoLib Effects Regex Instances.
From Stdlib Require Import Ascii.
Import Strings Errors.

(** ** Host of an image reference ([net/url]) *)

Definition is_alpha (c : ascii) : bool := is_upper c || is_lower c.

(** [getScheme]: the scheme and the rest; [None] is the error of a missing scheme. *)
Fixpoint getScheme (first : bool) (seen : string) (rawURL s : string) : option (string * string) :=
  match s with
  | EmptyString => Some ("", rawURL)
  | String c t =>
     if is_alpha c then getScheme false (seen +:+ String c "") rawURL t
     else if is_digit c || existsb (Ascii.eqb c) ["+"; "-"; "."]%char then
       if first then Some ("", rawURL) else getScheme false (seen +:+ String c "") rawURL t
     else if Ascii.eqb c ":" then if first then None else Some (seen, t)
     else Some ("", rawURL)
  end.

Section host.
(** The host of an authority with a user part or an IP literal; [None] is a parse error. *)
Context (odd_host : string → option string).

Definition parseHost (authority : string) : option string :=
  if Contains authority "@" || Contains authority "[" then odd_host authority
  else if authority_ok (λ _, true) authority then unescape authority
  else None.

(** The host of the parsed URL; [None] is a parse error. *)
Definition urlHost (rawURL : string) : option string :=
  let (u, frag) := cut rawURL "#" in
  if negb (all_bytes (λ c, negb (is_ctl c)) u) then None else
  parts ← getScheme true "" u u;
  let '(scheme, rest) := parts in
  let (rest, _) := cut rest "?" in
  let finish (host path : string) := _ ← unescape path; _ ← unescape frag; Some host in
  if negb (HasPrefix rest "/") then
    if negb (String.eqb scheme "") then _ ← unescape frag; Some ""
    else if Contains (cut rest "/").1 ":" then None else finish "" rest
  else if (negb (String.eqb scheme "") || negb (HasPrefix rest "///")) && HasPrefix rest "//" then
    let rest := drop 2 rest in
    let '(authority, path) :=
      match IndexByte rest "/" with
      | Some i => (take i rest, drop i rest)
      | None => (rest, "")
      end in
    host ← parseHost authority; finish host path
  else finish "" rest.

(** [URL.Hostname] *)
Definition Hostname (host : string) : string :=
  match IndexByte host ":" with
  | None => host
  | Some colon =>
     match IndexByte host "]" with
     | Some i => TrimPrefix (take i host) "["
     | None => take colon host
     end
  end.

Definition parseHostFromImageReference (image : string) : result string :=
  let image := if Contains image "://" then image else "https://" +:+ image in
  match urlHost image with
  | None => Err (Errorf "error parsing image reference %s: %v" [image; "parse error"])
  | Some host => Ok (Hostname host)
  end.

(** ** Region of a private registry *)
Definition ecrPublicRegion := "us-east-1".
Definition ecrPublicHosts : list string := ["public.ecr.aws"; "ecr-public.aws.com"].
Definition region_byte (c : ascii) : bool := is_alnum c || Ascii.eqb c "-" || Ascii.eqb c "_".

Definition ecrDomain : re :=
  Alt (Cat (Lit "amazonaws.") (Alt (Cat (Lit "com") (Opt (Lit ".cn"))) (Lit "eu")))
  (Alt (Cat (Lit "on.") (Alt (Lit "aws") (Lit "amazonwebservices.com.cn")))
  (Alt (Lit "sc2s.sgov.gov") (Alt (Lit "c2s.ic.gov") (Alt (Lit "cloud.adc-e.uk") (Lit "csp.hci.ic.gov"))))).

Definition ecrPrivateHostPattern : re :=
  Cat (Group 1 (Times 12 (Cls is_digit)))
  (Cat (Lit ".dkr")
  (Cat (Cls (λ c, Ascii.eqb c "." || Ascii.eqb c "-"))
  (Cat (Lit "ecr")
  (Cat (Opt (Group 2 (Lit "-fips")))
  (Cat (Lit ".")
  (Cat (Group 3 (Cat (Cls is_alnum) (Star (Cls region_byte))))
  (Cat (Lit ".") (Group 4 ecrDomain)))))))).

Definition parseRegionFromECRPrivateHost (host : string) : string :=
  match FindStringSubmatch ecrPrivateHostPattern host with
  | None => ""
  | Some groups => default "" (groups !! 3)
  end.

(** ** Tokens ([encoding/base64]) *)
Definition b64_value (c : ascii) : option nat :=
  let n := nat_of_ascii c in
  if is_upper c then Some (n - 65)
  else if is_lower c then Some (n - 71)
  else if is_digit c then Some (n + 4)
  else if Ascii.eqb c "+" then Some 62
  else if Ascii.eqb c "/" then Some 63
  else None.

(** The quanta of four characters; padding ends the text. *)
Fixpoint b64_quanta (l : list ascii) : option (list nat) :=
  match l with
  | [] => Some []
  | a :: b :: c :: d :: rest =>
     x ← b64_value a; y ← b64_value b;
     if Ascii.eqb c "=" then
       if Ascii.eqb d "=" then match rest with [] => Some [x * 4 + y / 16] | _ => None end else None
     else
     z ← b64_value c;
     if Ascii.eqb d "=" then
       match rest with [] => Some [x * 4 + y / 16; y mod 16 * 16 + z / 4] | _ => None end
     else
     w ← b64_value d; more ← b64_quanta rest;
     Some (x * 4 + y / 16 :: y mod 16 * 16 + z / 4 :: z mod 4 * 64 + w :: more)
  | _ => None
  end.

(** [base64.StdEncoding.DecodeString]: line ends are skipped. *)
Definition DecodeString (s : string) : option string :=
  let l := filter (λ c, c ≠ "010"%char ∧ c ≠ "013"%char) (String.list_ascii_of_string s) in
  bytes ← b64_quanta l;
  Some (String.string_of_list_ascii (ascii_of_nat <$> bytes)).

(** ** Requests and answers *)
Record AuthorizationData := mkAuthorizationData {
  AuthorizationToken : option string;
  ExpiresAt : option Z  (** seconds since 1970 *)
}.

Record CredentialProviderRequest := mkCredentialProviderRequest {
  rq_Image : string;
  rq_ServiceAccountToken : string;
  rq_ServiceAccountAnnotations : gmap string string
}.

Record CredentialProviderResponse := mkCredentialProviderResponse {
  rs_CacheKeyType : string;
  rs_CacheDuration : option Z;  (** nanoseconds *)
  rs_Auth : gmap string (string * string)  (** user and password *)
}.

(** The role a credentials provider assumes, with the region of its STS client. *)
Record RoleCredentials := mkRoleCredentials { rc_region : string; rc_arn : string; rc_token : string }.

(** The calls: the configuration of a client for a region (the empty one is the default),
    and the tokens, with the credentials that replace those of the configuration. *)
Inductive ecrE : Type → Type :=
  | LoadDefaultConfig (region : string) : ecrE unit
  | GetAuthorizationToken (region : string) (credentials : option RoleCredentials) :
      ecrE (option (list AuthorizationData))
  | GetPublicAuthorizationToken (region : string) (credentials : option RoleCredentials) :
      ecrE (option (option AuthorizationData))
  | AssumeRoleWithWebIdentity (region arn session token : string) :
      ecrE (option (option string * option string * option string)).

(** The clients the plugin has, by their region. *)
Record ecrPlugin := mkEcrPlugin {
  e_ecr : option string;
  e_ecrPublic : option string;
  e_sts : option string
}.

Record credsData := mkCredsData { authToken : option string; expiresAt : option Z }.

(** [defaultECRProvider], [stsProvider] and [publicECRProvider]: a client for the region. *)
Definition newClient (region : string) : prog ecrE (result string) :=
  let? _ := call (LoadDefaultConfig region) in Ret (Ok region).

Definition getPublicCredsData (e : ecrPlugin) (credentials : option RoleCredentials) :
    prog ecrE (result credsData * ecrPlugin) :=
  let! client := match e_ecrPublic e with
                 | Some region => Ret (Ok region)
                 | None => newClient ecrPublicRegion
                 end in
  match client with
  | Err err => Ret (Err err, e)
  | Ok region =>
     let e := mkEcrPlugin (e_ecr e) (Some region) (e_sts e) in
     let! output := call (GetPublicAuthorizationToken region credentials) in
     Ret (match output with
          | Err err => Err err
          | Ok None => Err (Errorf "response output from ECR was nil" [])
          | Ok (Some None) => Err (Errorf "authorization data was empty" [])
          | Ok (Some (Some data)) => Ok (mkCredsData (AuthorizationToken data) (ExpiresAt data))
          end, e)
  end.

Definition getPrivateCredsData (e : ecrPlugin) (imageHost : string) (credentials : option RoleCredentials) :
    prog ecrE (result credsData * ecrPlugin) :=
  let! client := match e_ecr e with
                 | Some region => Ret (Ok region)
                 | None => newClient (parseRegionFromECRPrivateHost imageHost)
                 end in
  match client with
  | Err err => Ret (Err err, e)
  | Ok region =>
     let e := mkEcrPlugin (Some region) (e_ecrPublic e) (e_sts e) in
     let! output := call (GetAuthorizationToken region credentials) in
     Ret (match output with
          | Err err => Err err
          | Ok None => Err (Errorf "response output from ECR was nil" [])
          | Ok (Some []) => Err (Errorf "authorization data was empty" [])
          | Ok (Some (data :: _)) => Ok (mkCredsData (AuthorizationToken data) (ExpiresAt data))
          end, e)
  end.

(** [roleARN] is the environment variable AWS_ECR_ROLE_ARN. *)
Definition buildCredentialsProvider (roleARN : string) (e : ecrPlugin)
    (request : CredentialProviderRequest) (imageHost : string) :
    prog ecrE (option RoleCredentials * ecrPlugin) :=
  if String.eqb (rq_ServiceAccountToken request) "" then Ret (None, e) else
  let arn := match rq_ServiceAccountAnnotations request !! "eks.amazonaws.com/ecr-role-arn" with
             | Some arn => arn
             | None => roleARN
             end in
  if String.eqb arn "" then Ret (None, e) else
  let! client :=
    match e_sts e with
    | Some region => Ret (Ok region)
    | None => newClient (if existsb (String.eqb imageHost) ecrPublicHosts then ""
                         else parseRegionFromECRPrivateHost imageHost)
    end in
  match client with
  | Err _ => Ret (None, e)
  | Ok region => Ret (Some (mkRoleCredentials region arn (rq_ServiceAccountToken request)),
                      mkEcrPlugin (e_ecr e) (e_ecrPublic e) (Some region))
  end.

(** The credentials provider itself, which the SDK runs to sign a request; a nil pointer of
    the answer is dereferenced. *)
Definition retrieve (role : RoleCredentials) : prog ecrE (result (string * string * string)) :=
  let? output := call (AssumeRoleWithWebIdentity (rc_region role) (rc_arn role) "ecr-credential-provider"
                         (rc_token role))
    else wrap "failed to assume role: %w" [] in
  let! credentials := no_panic output in
  let '(access, secret, session) := credentials in
  let! access := no_panic access in
  let! secret := no_panic secret in
  let! session := no_panic session in
  Ret (Ok (access, secret, session)).

(** Durations are 64 bits wide. *)
Definition to_int64 (x : Z) : Z := (x + 2 ^ 63) `mod` 2 ^ 64 - 2 ^ 63.

(** [now] in seconds. *)
Definition getCacheDuration (now : Z) (expiresAt : option Z) : option Z :=
  match expiresAt with
  | None => Some 0%Z
  | Some at_ =>
     let duration := to_int64 (10 ^ 9 * Z.quot (to_int64 (at_ - now)) 2) in
     if (0 <? duration)%Z then Some duration else None
  end.

Definition RegistryPluginCacheKeyType := "Registry".

(** What the plugin makes of the token. *)
Definition credentialsOf (now : Z) (imageHost : string) (creds : credsData) :
    result CredentialProviderResponse :=
  match authToken creds with
  | None => Err (Errorf "authorization token in response was nil" [])
  | Some token =>
     match DecodeString token with
     | None => Err (Errorf "illegal base64 data" [])
     | Some decodedToken =>
        match SplitN decodedToken ":" 2 with
        | [user; password] =>
           Ok (mkCredentialProviderResponse RegistryPluginCacheKeyType
                 (getCacheDuration now (expiresAt creds)) {[imageHost := (user, password)]})
        | _ => Err (Errorf "error parsing username and password from authorization token" [])
        end
     end
  end.

Definition GetCredentials (roleARN : string) (now : Z) (e : ecrPlugin) (request : CredentialProviderRequest) :
    prog ecrE (result CredentialProviderResponse * ecrPlugin) :=
  if String.eqb (rq_Image request) "" then
    Ret (Err (Errorf "image in plugin request was empty" []), e)
  else
  match parseHostFromImageReference (rq_Image request) with
  | Err err => Ret (Err err, e)
  | Ok imageHost =>
     let! (credentials, e) := buildCredentialsProvider roleARN e request imageHost in
     let! (creds, e) :=
       (if existsb (String.eqb imageHost) ecrPublicHosts then getPublicCredsData e credentials
        else getPrivateCredsData e imageHost credentials) in
     match creds with
     | Err err => Ret (Err err, e)
     | Ok creds => Ret (credentialsOf now imageHost creds, e)
     end
  end.

(** ** The exec plugin (plugin.go)

    What the serializers of the API machinery make of bytes: the group and version, the
    kind with its group and the request, and the text of a response. *)
Context (Interpret : string → result string)
  (Decode : string → result (string * string * option CredentialProviderRequest))
  (Encode : CredentialProviderResponse → result string).

Definition GroupName := "credentialprovider.kubelet.k8s.io".
Definition SchemeGroupVersion := GroupName +:+ "/v1".

Definition decodeRequest (data : string) : result CredentialProviderRequest :=
  match Decode data with
  | Err err => Err err
  | Ok (kind, group, obj) =>
     if negb (String.eqb kind "CredentialProviderRequest") then
       Err (Errorf "kind was %q, expected CredentialProviderRequest" [kind])
     else if negb (String.eqb group GroupName) then
       Err (Errorf "group was %q, expected %s" [group; GroupName])
     else
     match obj with
     | None => Err (Errorf "unable to convert %T to *CredentialProviderRequest" ["object"])
     | Some request => Ok request
     end
  end.

Definition encodeResponse (response : CredentialProviderResponse) : result string :=
  match Encode response with
  | Err err => Err (Errorf "failed to encode response: %v" [Error err])
  | Ok data => Ok data
  end.

(** [stdin] is what reading the input gives; the result is what is written. *)
Definition runPlugin (roleARN : string) (now : Z) (stdin : result string) : prog ecrE (result string) :=
  match stdin with
  | Err err => Ret (Err err)
  | Ok data =>
     match Interpret data with
     | Err err => Ret (Err err)
     | Ok version =>
        if negb (String.eqb version SchemeGroupVersion) then
          Ret (Err (Errorf "group version %s is not supported" [version]))
        else
        match decodeRequest data with
        | Err err => Ret (Err err)
        | Ok request =>
           let! (response, _) := GetCredentials roleARN now (mkEcrPlugin None None None) request in
           match response with
           | Err err => Ret (Err err)
           | Ok response => Ret (encodeResponse response)
           end
        end
     end
  end.
End host.
