(* ===== verification/EcrFacts.v ===== *)
(** * Properties of the ECR credential provider *)

From S2P Require Import Prelude GoLib Effects Regex Instances Ecr.
From Stdlib Require Import Ascii ZifyNat.
Import Strings Errors.

(** ** Tokens *)

(** The encoding of [base64.StdEncoding], the reference for the decoder. *)
Definition b64_char (n : nat) : ascii :=
  ascii_of_nat (if n <? 26 then n + 65 else if n <? 52 then n + 71 else if n <? 62 then n - 4
                else if n =? 62 then 43 else 47).

Fixpoint b64_encode (l : list nat) : list ascii :=
  match l with
  | [] => []
  | [a] => [b64_char (a / 4); b64_char (a mod 4 * 16); "="; "="]%char
  | [a; b] => [b64_char (a / 4); b64_char (a mod 4 * 16 + b / 16); b64_char (b mod 16 * 4); "="%char]
  | a :: b :: c :: rest =>
     b64_char (a / 4) :: b64_char (a mod 4 * 16 + b / 16) :: b64_char (b mod 16 * 4 + c / 64) ::
     b64_char (c mod 64) :: b64_encode rest
  end.

Definition EncodeToString (s : string) : string :=
  String.string_of_list_ascii (b64_encode (nat_of_ascii <$> String.list_ascii_of_string s)).

Lemma b64_char_ok n : n < 64 →
  b64_value (b64_char n) = Some n ∧ b64_char n ≠ "="%char ∧ b64_char n ≠ "010"%char ∧ b64_char n ≠ "013"%char.
Proof.
  intros Hn.
  assert (forallb (λ n, bool_decide (b64_value (b64_char n) = Some n ∧ b64_char n ≠ "="%char ∧
    b64_char n ≠ "010"%char ∧ b64_char n ≠ "013"%char)) (seq 0 64) = true) as H by (vm_compute; reflexivity).
  rewrite forallb_elem_of in H. specialize (H n). rewrite bool_decide_eq_true in H.
  apply H, elem_of_seq. lia.
Qed.

Ltac div_lia := cbv beta in *; zify; Z.to_euclidean_division_equations; lia.

Lemma b64_roundtrip l : Forall (λ b, b < 256) l → b64_quanta (b64_encode l) = Some l.
Proof.
  remember (length l) as n eqn:Hl. revert l Hl. induction (lt_wf n) as [n _ IH]. intros l -> Hb.
  destruct l as [|a [|b [|c rest]]]; [done| | |].
  - apply Forall_cons in Hb as [Hb _]. cbn [b64_encode b64_quanta].
    destruct (b64_char_ok (a / 4)) as [-> _]; [div_lia|].
    destruct (b64_char_ok (a mod 4 * 16)) as [-> _]; [div_lia|]. cbn [mbind option_bind Ascii.eqb Bool.eqb]. do 2 f_equal. div_lia.
  - apply Forall_cons in Hb as [Ha Hb]. apply Forall_cons in Hb as [Hb _]. cbn [b64_encode b64_quanta].
    destruct (b64_char_ok (a / 4)) as [-> _]; [div_lia|].
    destruct (b64_char_ok (a mod 4 * 16 + b / 16)) as [-> _]; [div_lia|].
    destruct (b64_char_ok (b mod 16 * 4)) as (-> & Hne & _); [div_lia|].
    destruct (Ascii.eqb_spec (b64_char (b mod 16 * 4)) "="); [done|]. cbn [mbind option_bind Ascii.eqb Bool.eqb]. do 2 f_equal; [div_lia|].
    f_equal. div_lia.
  - apply Forall_cons in Hb as [Ha Hb]. apply Forall_cons in Hb as [Hb Hc]. apply Forall_cons in Hc as [Hc Hr].
    cbn [b64_encode b64_quanta].
    destruct (b64_char_ok (a / 4)) as [-> _]; [div_lia|].
    destruct (b64_char_ok (a mod 4 * 16 + b / 16)) as [-> _]; [div_lia|].
    destruct (b64_char_ok (b mod 16 * 4 + c / 64)) as (-> & Hne & _); [div_lia|].
    destruct (b64_char_ok (c mod 64)) as (-> & Hne' & _); [div_lia|].
    destruct (Ascii.eqb_spec (b64_char (b mod 16 * 4 + c / 64)) "="); [done|].
    destruct (Ascii.eqb_spec (b64_char (c mod 64)) "="); [done|]. cbn [mbind option_bind].
    rewrite (IH (length rest)); [|simpl; lia|done|done]. cbn [mbind option_bind Ascii.eqb Bool.eqb]. do 2 f_equal; [div_lia|]. f_equal; [div_lia|].
    f_equal. div_lia.
Qed.

Lemma b64_encode_lines l : Forall (λ b, b < 256) l →
  Forall (λ c, c ≠ "010"%char ∧ c ≠ "013"%char) (b64_encode l).
Proof.
  remember (length l) as n eqn:Hl. revert l Hl. induction (lt_wf n) as [n _ IH]. intros l -> Hb.
  assert (∀ n, n < 64 → b64_char n ≠ "010"%char ∧ b64_char n ≠ "013"%char) as Hc.
  { intros m Hm. destruct (b64_char_ok m Hm) as (_ & _ & ? & ?). auto. }
  destruct l as [|a [|b [|c rest]]]; cbn [b64_encode]; [constructor|..];
    repeat (apply Forall_cons in Hb as [? Hb]);
    repeat (apply Forall_cons_2; [first [by apply Hc; div_lia|done]|]); try constructor.
  apply (IH (length rest)); [simpl; lia|done|done].
Qed.

Lemma DecodeString_EncodeToString s : DecodeString (EncodeToString s) = Some s.
Proof.
  assert (Forall (λ b, b < 256) (nat_of_ascii <$> String.list_ascii_of_string s)) as Hb.
  { apply Forall_fmap, Forall_forall. intros c _. apply nat_ascii_bounded. }
  unfold DecodeString, EncodeToString. rewrite String.list_ascii_of_string_of_list_ascii.
  rewrite filter_all; [|by apply b64_encode_lines]. rewrite b64_roundtrip by done. simpl. f_equal.
  rewrite <-list_fmap_compose.
  assert ((ascii_of_nat ∘ nat_of_ascii) <$> String.list_ascii_of_string s = String.list_ascii_of_string s) as ->.
  { apply list_eq_Forall2, Forall2_fmap_l, Forall2_same_length_lookup_2; [done|].
    intros i c c' Hc Hc'. simplify_eq. apply ascii_nat_embedding. }
  apply String.string_of_list_ascii_of_string.
Qed.

(** ** Cache durations *)

(** The kubelet is told to keep the credentials for at most half of the time their token
    is still valid, in whole nanoseconds that do not overflow, and not at all when less than
    two seconds are left or the expiry is unknown. *)
Theorem getCacheDuration_bounds (now at_ : Z) :
  (at_ - now < 2 ^ 63 / 10 ^ 9)%Z → (- 2 ^ 62 / 10 ^ 9 < at_ - now)%Z →
  getCacheDuration now None = Some 0%Z ∧
  match getCacheDuration now (Some at_) with
  | Some d => (0 < d ∧ 2 * d ≤ 10 ^ 9 * (at_ - now) ∧ 10 ^ 9 * (at_ - now - 2) < 2 * d)%Z
  | None => (at_ - now < 2)%Z
  end.
Proof.
  intros Hu Hl. split; [done|]. unfold getCacheDuration.
  assert (∀ x, (- 2 ^ 63 ≤ x < 2 ^ 63)%Z → to_int64 x = x) as Hid.
  { intros x Hx. unfold to_int64. rewrite Z.mod_small; lia. }
  assert (2 ^ 63 / 10 ^ 9 = 9223372036)%Z as E1 by done. assert (- 2 ^ 62 / 10 ^ 9 = -4611686019)%Z as E2 by done.
  rewrite (Hid (at_ - now)%Z) by lia.
  pose proof (Z.quot_rem' (at_ - now) 2). pose proof (Z.rem_bound_abs (at_ - now) 2).
  rewrite Hid by lia.
  destruct (Z.ltb_spec 0 (10 ^ 9 * Z.quot (at_ - now) 2)); [|lia].
  assert (0 ≤ at_ - now)%Z by lia. pose proof (Z.rem_nonneg (at_ - now) 2). lia.
Qed.

(** ** Credentials *)
Lemma IndexByte_split s c i :
  IndexByte s c = Some i → s = take i s +:+ String c (drop (S i) s) ∧ IndexByte (take i s) c = None.
Proof.
  revert i. induction s as [|d s IH]; intros i H; [done|]. cbn [IndexByte] in H.
  destruct (Ascii.eqb_spec d c) as [->|Hne].
  - injection H as <-. done.
  - destruct (IndexByte s c) as [j|] eqn:E; [|done]. injection H as <-.
    destruct (IH j eq_refl) as [Hs Hn]. split.
    + change (String d s = String d (take j s +:+ String c (drop (S j) s))). by rewrite <-Hs.
    + cbn [take IndexByte]. destruct (Ascii.eqb_spec d c); [done|]. by rewrite Hn.
Qed.

Lemma SplitN_two s u p :
  SplitN s ":" 2 = [u; p] → s = u +:+ ":" +:+ p ∧ IndexByte u ":" = None.
Proof.
  cbn [SplitN]. destruct (IndexByte s ":") as [i|] eqn:E; [|done]. intros [= <- <-].
  by apply IndexByte_split.
Qed.

Lemma SplitN_join u p : IndexByte u ":" = None → SplitN (u +:+ ":" +:+ p) ":" 2 = [u; p].
Proof.
  intros Hu. cbn [SplitN].
  assert (IndexByte (u +:+ ":" +:+ p) ":" = Some (len u)) as ->.
  { induction u as [|c u IH]; [done|]. cbn [IndexByte] in Hu.
    change (IndexByte (String c (u +:+ ":" +:+ p)) ":" = Some (S (len u))). cbn [IndexByte].
    destruct (Ascii.eqb c ":"); [done|]. destruct (IndexByte u ":"); [done|]. by rewrite IH. }
  f_equal; [|f_equal].
  - clear Hu. induction u as [|c u IH]; [done|].
    change (String c (take (len u) (u +:+ ":" +:+ p)) = String c u). by rewrite IH.
  - clear Hu. induction u as [|c u IH]; [done|].
    change (drop (S (len u)) (u +:+ ":" +:+ p) = p). exact IH.
Qed.

(** The token of an answer: whether it is one of the public registry, the region and the
    credentials it was asked with, and the data. *)
Definition token_answer (ev : event ecrE) :
    option (bool * string * option RoleCredentials * AuthorizationData) :=
  match ev with
  | Ev c r =>
     match c in ecrE R return result R → option (bool * string * option RoleCredentials * AuthorizationData) with
     | GetAuthorizationToken region role => λ r,
        match r with Ok (Some (data :: _)) => Some (false, region, role, data) | _ => None end
     | GetPublicAuthorizationToken region role => λ r,
        match r with Ok (Some (Some data)) => Some (true, region, role, data) | _ => None end
     | _ => λ _, None
     end r
  end.

Section credentials.
Context (odd_host : string → option string) (roleARN : string) (now : Z).
Implicit Types request : CredentialProviderRequest.

(** The role a request entitles to. *)
Definition requested_role request : option (string * string) :=
  let arn := default roleARN (rq_ServiceAccountAnnotations request !! "eks.amazonaws.com/ecr-role-arn") in
  if String.eqb (rq_ServiceAccountToken request) "" || String.eqb arn "" then None
  else Some (arn, rq_ServiceAccountToken request).

Definition role_ok request (role : option RoleCredentials) : Prop :=
  match role with
  | None => True
  | Some role => requested_role request = Some (rc_arn role, rc_token role)
  end.

Definition is_public (host : string) : bool := existsb (String.eqb host) ecrPublicHosts.

Lemma wp_buildCredentialsProvider e request host t :
  wp (buildCredentialsProvider roleARN e request host) (λ t' o, ∃ role region,
    o = Done (role, mkEcrPlugin (e_ecr e) (e_ecrPublic e) region) ∧ role_ok request role) t.
Proof.
  destruct e as [ecr pub sts].
  unfold buildCredentialsProvider, role_ok, requested_role.
  destruct (String.eqb (rq_ServiceAccountToken request) ""); [by eexists _, _|].
  assert ((match rq_ServiceAccountAnnotations request !! "eks.amazonaws.com/ecr-role-arn" with
           | Some arn => arn | None => roleARN end) =
    default roleARN (rq_ServiceAccountAnnotations request !! "eks.amazonaws.com/ecr-role-arn")) as -> by done.
  destruct (String.eqb (default roleARN _) ""); [by eexists _, _|]. cbn [orb].
  rewrite wp_bind. destruct sts as [region|]; cbn [e_sts wp andThen].
  - by eexists _, _.
  - unfold newClient, call, try. cbn [bind wp andThen]. intros [[]|err]; cbn [wp andThen]; by eexists _, _.
Qed.

(** The credentials data of an answer in the trace. *)
Definition creds_from request (host : string) (t : list (event ecrE)) (creds : credsData) : Prop :=
  ∃ ev role data, ev ∈ t ∧
    token_answer ev = Some (is_public host,
      if is_public host then ecrPublicRegion else parseRegionFromECRPrivateHost host, role, data) ∧
    role_ok request role ∧ creds = mkCredsData (AuthorizationToken data) (ExpiresAt data).

Lemma wp_credsData request host role sts t :
  role_ok request role →
  let e := mkEcrPlugin None None sts in
  wp (if is_public host then getPublicCredsData e role else getPrivateCredsData e host role)
    (λ t' o, ∃ r e', o = Done (r, e') ∧ ∀ creds, r = Ok creds → creds_from request host t' creds) t.
Proof.
  intros Hr e. unfold creds_from.
  destruct (is_public host); unfold getPublicCredsData, getPrivateCredsData; rewrite wp_bind;
    cbn [e_ecr e_ecrPublic e]; unfold newClient, try, call; cbn [bind wp andThen];
    (intros [[]|err]; cbn [wp andThen bind]; [|by eexists _, _]).
  - intros [[[data|]|]|err]; cbn [wp]; eexists _, _; (split; [done|]); intros creds [=<-].
    eexists _, role, data. split; [apply snoc_elem|]. by split_and!.
  - intros [[[|data l]|]|err]; cbn [wp]; eexists _, _; (split; [done|]); intros creds [=<-].
    eexists _, role, data. split; [apply snoc_elem|]. by split_and!.
Qed.

(** C19: the answer of the plugin is the user and the password of a token ECR gave for the
    registry of the image, and of nothing else: a public registry is asked in its one
    region, a private one in the region of its host name, with the role of the service
    account only when the request carries its token and names a role; the text before the
    first colon of the decoded token is the user and the rest the password. *)
Theorem GetCredentials_correct request :
  wp (GetCredentials odd_host roleARN now (mkEcrPlugin None None None) request) (λ t o, ∃ r e', o = Done (r, e') ∧
    ∀ response, r = Ok response → ∃ host ev role data token user password,
      parseHostFromImageReference odd_host (rq_Image request) = Ok host ∧ ev ∈ t ∧
      token_answer ev = Some (is_public host,
        if is_public host then ecrPublicRegion else parseRegionFromECRPrivateHost host, role, data) ∧
      role_ok request role ∧
      AuthorizationToken data = Some token ∧
      DecodeString token = Some (user +:+ ":" +:+ password) ∧ IndexByte user ":" = None ∧
      response = mkCredentialProviderResponse "Registry" (getCacheDuration now (ExpiresAt data))
                   {[host := (user, password)]}) [].
Proof.
  unfold GetCredentials. destruct (String.eqb (rq_Image request) ""); [by eexists _, _|].
  destruct (parseHostFromImageReference odd_host (rq_Image request)) as [host|err]; [|by eexists _, _].
  rewrite wp_bind. eapply wp_mono; [apply wp_buildCredentialsProvider|].
  intros t o (role & region & -> & Hr). cbn [andThen e_ecr e_ecrPublic]. rewrite wp_bind.
  change (existsb (String.eqb host) ecrPublicHosts) with (is_public host).
  eapply wp_mono; [by apply wp_credsData|]. intros t' o (r & e' & -> & Hc). cbn [andThen].
  destruct r as [creds|err]; cbn [wp]; eexists _, _; (split; [done|]); [|done].
  intros response Hresp. destruct (Hc creds eq_refl) as (ev & role' & data & Hev & Ha & Hr' & ->).
  unfold credentialsOf in Hresp. cbn [authToken expiresAt] in Hresp.
  destruct (AuthorizationToken data) as [token|] eqn:Et; [|done].
  destruct (DecodeString token) as [decoded|] eqn:Ed; [|done].
  destruct (SplitN decoded ":" 2) as [|user [|password [|]]] eqn:Es; try done. injection Hresp as <-.
  apply SplitN_two in Es as [-> Hu].
  exists host, ev, role', data, token, user, password. by split_and!.
Qed.
End credentials.

(** C40: the plugin reads back what ECR encodes: from a token that is the base64 text of a
    user name without a colon, a colon and a password, it answers with exactly this user and
    this password, whatever bytes they contain. *)
Theorem credentialsOf_roundtrip (now : Z) (host user password : string) (expires : option Z) :
  IndexByte user ":" = None →
  credentialsOf now host (mkCredsData (Some (EncodeToString (user +:+ ":" +:+ password))) expires) =
  Ok (mkCredentialProviderResponse "Registry" (getCacheDuration now expires) {[host := (user, password)]}).
Proof.
  intros Hu. unfold credentialsOf. cbn [authToken expiresAt].
  by rewrite DecodeString_EncodeToString, SplitN_join.
Qed.

(** ** Regions *)
Lemma app_inj_len (s s' t t' : string) : len s = len s' → s +:+ t = s' +:+ t' → s = s' ∧ t = t'.
Proof.
  revert s'. induction s as [|c s IH]; intros [|c' s'] Hl E; try done.
  change (String c (s +:+ t) = String c' (s' +:+ t')) in E. injection E as -> E.
  destruct (IH s') as [-> ->]; [by injection Hl|done|done].
Qed.

(** Texts without a dot before a dot are determined. *)
Lemma before_dot (s s' t t' : string) :
  IndexByte s "." = None → IndexByte s' "." = None → s +:+ "." +:+ t = s' +:+ "." +:+ t' → s = s'.
Proof.
  revert s'. induction s as [|c s IH]; intros [|c' s'] H H' E; cbn [IndexByte] in H, H'; [done|..].
  - injection E as <- _. done.
  - injection E as -> _. done.
  - change (String c (s +:+ "." +:+ t) = String c' (s' +:+ "." +:+ t')) in E. injection E as -> E.
    destruct (Ascii.eqb c' "."); [done|]. destruct (IndexByte s ".") eqn:E1; [done|].
    destruct (IndexByte s' ".") eqn:E2; [done|]. by rewrite (IH s').
Qed.

Lemma caught_Lit t s c c' : caught (Lit t) s c c' → s = t ∧ c' = c.
Proof.
  revert s c. induction t as [|b t IH]; intros s c H; cbn [Lit] in H; inversion H; subst; [done|].
  match goal with H1 : caught (Cls _) _ _ _ |- _ => inversion H1 as [|f d c0 Hd| | | | | |]; subst end.
  match goal with H2 : caught (Lit _) _ _ _ |- _ => apply IH in H2 as [-> ->] end.
  apply Ascii.eqb_eq in Hd as ->. done.
Qed.

Lemma caught_Times n f s c c' : caught (Times n (Cls f)) s c c' → len s = n ∧ all_bytes f s = true ∧ c' = c.
Proof.
  revert s c. induction n as [|n IH]; intros s c H; cbn [Times] in H; inversion H; subst; [done|].
  match goal with H1 : caught (Cls _) _ _ _ |- _ => inversion H1 as [|g d c0 Hd| | | | | |]; subst end.
  match goal with H2 : caught (Times _ _) _ _ _ |- _ => apply IH in H2 as (<- & Ha & ->) end.
  split_and!; [done| |done]. change (f d && all_bytes f t = true). by rewrite Hd, Ha.
Qed.

(** A repetition of a class. *)
Lemma caught_Star f s c c' : caught (Star (Cls f)) s c c' → all_bytes f s = true.
Proof.
  remember (Star (Cls f)) as r eqn:E. intros H. induction H as [| | | | | |a s t c c' c'' Hs _ Ht IH|]; try done.
  injection E as ->. inversion Hs as [|g d c0 Hd| | | | | |]; subst.
  change (f d && all_bytes f t = true). by rewrite Hd, IH.
Qed.

Lemma lang_Lit t : lang (Lit t) t.
Proof.
  induction t as [|c t IH]; cbn [Lit]; [constructor|]. change (String c t) with (String c "" +:+ t).
  constructor; [constructor; apply Ascii.eqb_refl|done].
Qed.

Lemma lang_Times n f s : len s = n → all_bytes f s = true → lang (Times n (Cls f)) s.
Proof.
  intros <-. induction s as [|c s IH]; cbn [Times len String.length]; [constructor|].
  change (f c && all_bytes f s = true → lang (Cat (Cls f) (Times (len s) (Cls f))) (String c "" +:+ s)).
  intros [Hc Hs]%andb_true_iff. constructor; [by constructor|auto].
Qed.

Lemma lang_Star f s : all_bytes f s = true → lang (Star (Cls f)) s.
Proof.
  induction s as [|c s IH]; [constructor|].
  change (f c && all_bytes f s = true → lang (Star (Cls f)) (String c "" +:+ s)).
  intros [Hc Hs]%andb_true_iff. constructor; [by constructor|auto].
Qed.

Lemma region_no_dot s : all_bytes region_byte s = true → IndexByte s "." = None.
Proof.
  induction s as [|c s IH]; [done|]. change (region_byte c && all_bytes region_byte s = true → IndexByte (String c s) "." = None).
  intros [Hc Hs]%andb_true_iff. cbn [IndexByte]. destruct (Ascii.eqb_spec c "."); [by subst|]. by rewrite IH.
Qed.

Definition region_name (region : string) : Prop :=
  match region with
  | EmptyString => False
  | String c s => is_alnum c = true ∧ all_bytes region_byte s = true
  end.

Lemma region_name_bytes region : region_name region → all_bytes region_byte region = true.
Proof.
  destruct region as [|c s]; [done|]. intros [Hc Hs]. change (region_byte c && all_bytes region_byte s = true).
  unfold region_byte at 1. by rewrite Hc, Hs.
Qed.

(** A pattern without groups catches nothing. *)
Fixpoint no_group (r : re) : bool :=
  match r with
  | Eps | Cls _ => true
  | Cat a b | Alt a b => no_group a && no_group b
  | Star a => no_group a
  | Group _ _ => false
  end.

Lemma caught_no_group r s c c' : caught r s c c' → no_group r = true → c' = c.
Proof.
  induction 1 as [| |? ? ? ? ? ? ? _ IHa _ IHb|? ? ? ? ? _ IH|? ? ? ? ? _ IH| |? ? ? ? ? ? _ IHa _ IHb|];
    cbn [no_group]; intros Hg; try done.
  - apply andb_true_iff in Hg as [Ha Hb]. by rewrite IHb, IHa.
  - apply andb_true_iff in Hg as [Ha Hb]. auto.
  - apply andb_true_iff in Hg as [Ha Hb]. auto.
  - by rewrite IHb, IHa.
Qed.

Lemma caught_Cat a b s c c'' :
  caught (Cat a b) s c c'' → ∃ s1 s2 c', s = s1 +:+ s2 ∧ caught a s1 c c' ∧ caught b s2 c' c''.
Proof. inversion 1; subst. by eexists _, _, _. Qed.

Lemma caught_Group n a s c c'' : caught (Group n a) s c c'' → ∃ c', c'' = <[n := s]> c' ∧ caught a s c c'.
Proof. inversion 1; subst. by eexists. Qed.

Lemma caught_Alt a b s c c' : caught (Alt a b) s c c' → caught a s c c' ∨ caught b s c c'.
Proof. inversion 1; auto. Qed.

(** What a match of the pattern caught. *)
Lemma caught_private s c :
  caught ecrPrivateHostPattern s ∅ c → ∃ account dash fips region domain,
    s = account +:+ ".dkr" +:+ String dash ("ecr" +:+ fips +:+ "." +:+ region +:+ "." +:+ domain) ∧
    len account = 12 ∧ (fips = "" ∨ fips = "-fips") ∧ all_bytes region_byte region = true ∧ c !! 3 = Some region.
Proof.
  unfold ecrPrivateHostPattern.
  intros (account & s1 & c1 & -> & (c0 & _ & (Hl & _ & _)%caught_Times)%caught_Group & H)%caught_Cat.
  apply caught_Cat in H as (? & s2 & c2 & -> & [-> _]%caught_Lit & H).
  apply caught_Cat in H as (dash & s3 & c3 & -> & Hdash & H).
  apply caught_Cat in H as (? & s4 & c4 & -> & [-> _]%caught_Lit & H).
  apply caught_Cat in H as (fips & s5 & c5 & -> & Hfips & H).
  apply caught_Cat in H as (? & s6 & c6 & -> & [-> _]%caught_Lit & H).
  apply caught_Cat in H as (region & s7 & c7 & -> & (c7' & -> & Hregion)%caught_Group & H).
  apply caught_Cat in H as (? & domain & c8 & -> & [-> ->]%caught_Lit & (c9 & -> & Hdomain)%caught_Group).
  apply caught_no_group in Hdomain as ->; [|done].
  inversion Hdash as [|f d c0' Hd| | | | | |]; subst.
  exists account, d, fips, region, domain. split_and!; [done|done| | |].
  - apply caught_Alt in Hfips as [Hf|Hf].
    + apply caught_Group in Hf as (? & _ & [-> _]%caught_Lit). by right.
    + inversion Hf. by left.
  - apply caught_Cat in Hregion as (s8 & s9 & c10 & -> & Hfirst & Hrest%caught_Star).
    inversion Hfirst as [|g b c0'' Hb| | | | | |]; subst.
    by apply (region_name_bytes (String b s9)).
  - rewrite lookup_insert_ne by done. by rewrite lookup_insert_eq.
Qed.

(** The region of a private registry is read from its host name: for every account,
    spelling, region and domain of the pattern, exactly the region part is returned. *)
Theorem parseRegionFromECRPrivateHost_exact (account dash fips region domain : string) :
  len account = 12 → all_bytes is_digit account = true → dash = "." ∨ dash = "-" →
  fips = "" ∨ fips = "-fips" → region_name region → MatchString ecrDomain domain = true →
  parseRegionFromECRPrivateHost
    (account +:+ ".dkr" +:+ dash +:+ "ecr" +:+ fips +:+ "." +:+ region +:+ "." +:+ domain) = region.
Proof.
  intros Hl Ha Hd Hf Hr Hm%MatchString_lang. unfold parseRegionFromECRPrivateHost.
  set (host := account +:+ _).
  assert (∃ d, dash = String d "" ∧ (Ascii.eqb d "." || Ascii.eqb d "-") = true) as (d & -> & Hd').
  { destruct Hd as [-> | ->]; by eexists. }
  assert (lang ecrPrivateHostPattern host) as Hlang.
  { unfold ecrPrivateHostPattern, host. constructor; [constructor; by apply lang_Times|].
    constructor; [apply lang_Lit|]. constructor; [by constructor|]. constructor; [apply lang_Lit|].
    constructor; [destruct Hf as [-> | ->]; [apply lang_right; constructor|apply lang_left; constructor; apply lang_Lit]|].
    constructor; [apply (lang_Lit ".")|].
    constructor; [|constructor; [apply (lang_Lit ".")|by constructor]].
    destruct region as [|b r]; [done|]. destruct Hr as [Hb Hr]. constructor.
    change (String b r) with (String b "" +:+ r). constructor; [by constructor|by apply lang_Star]. }
  destruct (FindStringSubmatch_lang _ _ Hlang) as [c Hc]. rewrite Hc.
  apply FindStringSubmatch_caught, caught_private in Hc
    as (account' & d' & fips' & region' & domain' & E & Hl' & Hf' & Hr' & ->).
  cbn [default]. unfold host in E. apply app_inj_len in E as [_ E]; [|congruence].
  apply app_inj_len in E as [_ E]; [|done].
  change (String d ("ecr" +:+ fips +:+ "." +:+ region +:+ "." +:+ domain) =
    String d' ("ecr" +:+ fips' +:+ "." +:+ region' +:+ "." +:+ domain')) in E. injection E as _ E.
  destruct Hf as [-> | ->], Hf' as [-> | ->]; try discriminate; injection E as E;
    symmetry; eapply before_dot; try exact E; apply region_no_dot; try done; by apply region_name_bytes.
Qed.

(** ** Examples *)
Lemma parseRegionFromECRPrivateHost_exact_witness :
  parseRegionFromECRPrivateHost "123456789012.dkr.ecr-fips.us-west-2.amazonaws.com.cn" = "us-west-2".
Proof.
  apply (parseRegionFromECRPrivateHost_exact "123456789012" "." "-fips" "us-west-2" "amazonaws.com.cn");
    [done|done|by left|by right|done|by vm_compute].
Defined.

Lemma getCacheDuration_bounds_witness :
  getCacheDuration 1000 (Some 44200%Z) = Some 21600000000000%Z ∧
  match getCacheDuration 1000 (Some 44200%Z) with
  | Some d => (0 < d ∧ 2 * d ≤ 10 ^ 9 * (44200 - 1000) ∧ 10 ^ 9 * (44200 - 1000 - 2) < 2 * d)%Z
  | None => False
  end.
Proof. split; [reflexivity|]. exact (proj2 (getCacheDuration_bounds 1000 44200 eq_refl eq_refl)). Defined.

Lemma credentialsOf_roundtrip_witness :
  credentialsOf 0 "public.ecr.aws" (mkCredsData (Some (EncodeToString "AWS:pass:word")) None) =
  Ok (mkCredentialProviderResponse "Registry" (Some 0%Z) {["public.ecr.aws" := ("AWS", "pass:word")]}).
Proof. by apply (credentialsOf_roundtrip 0 "public.ecr.aws" "AWS" "pass:word" None). Defined.

Example image_hosts :
  (λ image, match parseHostFromImageReference (λ _, None) image with Ok h => Some h | Err _ => None end) <$>
    ["123456789012.dkr.ecr.us-east-1.amazonaws.com/repo:tag"; "public.ecr.aws/x@sha256:00"; "localhost:5000/x";
     "https://host:80/x"; "foo:bar/x"]
  = [Some "123456789012.dkr.ecr.us-east-1.amazonaws.com"; Some "public.ecr.aws"; Some "localhost"; Some "host"; None].
Proof. vm_compute. reflexivity. Qed.
