(* ===== verification/Backoff.v ===== *)
(** * Delays between requests (retry_handler.go)

    A process-wide backoff: the share of recent requests that AWS refused for exceeding the
    request limit decides how long the next request waits.  The counters are float32
    numbers that decay with time. *)

From S2P Require Import Prelude GoLib Float.
Import Strings Errors.

#[local] Open Scope Z_scope.

Definition nonRetryableError := "non-retryable error".
Definition decayIntervalSeconds : Z := 20.
(** The constant 0.8 as a float64. *)
Definition decayFraction : Z := round 53 (8 * one64) 10.
Definition Second : Z := 10 ^ 9.
Definition maxDelay : Z := 60 * Second.

(** [math.Pow] on float64 numbers; a power of a fraction is a fraction. *)
Class MathPow := {
  Pow : Z → Z → Z;
  Pow_unit x y : 0 ≤ x ≤ one64 → 0 ≤ y → 0 ≤ Pow x y ≤ one64
}.

(** The counters are float32 numbers, the times are seconds. *)
Record Backoff := mkBackoff {
  bo_decayIntervalSeconds : Z;
  bo_decayFraction : Z;
  bo_maxDelay : Z;  (** nanoseconds *)
  countErrorsRequestLimit : Z;
  countRequests : Z;
  lastDecay : Z
}.

Definition with_counts (b : Backoff) (errors requests last : Z) : Backoff :=
  mkBackoff (bo_decayIntervalSeconds b) (bo_decayFraction b) (bo_maxDelay b) errors requests last.

(** [init] *)
Definition initBackoff (now interval fraction delay : Z) : Backoff :=
  mkBackoff interval fraction delay 0 (float32_of_int 4) now.

Definition NewCrossRequestRetryDelay (now : Z) : Backoff :=
  initBackoff now decayIntervalSeconds decayFraction maxDelay.

(** [time.Duration.Seconds] as a float64 *)
Definition Seconds (d : Z) : Z :=
  add64 (float64_of_int (d / Second)) (div64 (float64_of_int (d mod Second)) (float64_of_int Second)).

Section delays.
Context {MP : MathPow}.

Definition decayed (b : Backoff) (now : Z) : Backoff :=
  let timeDeltaSeconds := now - lastDecay b in
  if bo_decayIntervalSeconds b <? timeDeltaSeconds then
    let intervals := div64 (float64_of_int timeDeltaSeconds) (float64_of_int (bo_decayIntervalSeconds b)) in
    let decay := float32_of_float64 (Pow (bo_decayFraction b) intervals) in
    with_counts b (mul32 (countErrorsRequestLimit b) decay) (mul32 (countRequests b) decay) now
  else b.

Definition counted (b : Backoff) : Backoff :=
  with_counts b (countErrorsRequestLimit b) (add32 (countRequests b) (float32_of_int 1)) (lastDecay b).

Definition errorFraction (b : Backoff) : Z :=
  if round 24 (5 * one32) 10 <? countRequests b
  then div32 (countErrorsRequestLimit b) (countRequests b) else 0.

(** The product of the delay and the failure rate, in nanoseconds. *)
Definition rawDelay (b : Backoff) : Z :=
  int_of_float32 (mul32 (float32_of_int (bo_maxDelay b)) (errorFraction b)).

Definition ComputeDelayForRequest (b : Backoff) (now : Z) : Backoff * Z :=
  let b := counted (decayed b now) in
  if errorFraction b <? round 24 one32 10 then (b, 0)
  else (b, Second * int_of_float64 (Seconds (rawDelay b))).

Definition ReportError (b : Backoff) : Backoff :=
  with_counts b (add32 (countErrorsRequestLimit b) (float32_of_int 1)) (countRequests b) (lastDecay b).
End delays.

(** ** What the counters can be *)

(** The counters are float32 numbers, and the errors at most 2^24 of them. *)
Record well (b : Backoff) : Prop := mkWell {
  w_interval : bo_decayIntervalSeconds b = decayIntervalSeconds;
  w_fraction : bo_decayFraction b = decayFraction;
  w_max : bo_maxDelay b = maxDelay;
  w_errors : representable 24 (countErrorsRequestLimit b);
  w_requests : representable 24 (countRequests b);
  w_errors_range : 0 ≤ countErrorsRequestLimit b ≤ 2 ^ 24 * one32;
  w_requests_range : 0 ≤ countRequests b
}.

Section facts.
Context {MP : MathPow}.

Lemma well_new now : well (NewCrossRequestRetryDelay now).
Proof.
  pose proof one32_pos. pose proof (float32_int 4 ltac:(lia)) as H4. rewrite <-float32_of_int_exact in H4 by lia.
  split; [reflexivity..| | | |]; cbn [countErrorsRequestLimit countRequests NewCrossRequestRetryDelay initBackoff].
  - rewrite <-(Z.mul_0_l one32). apply float32_int. lia.
  - exact H4.
  - lia.
  - rewrite float32_of_int_exact by lia. lia.
Qed.

(** The factor of a decay is a fraction. *)
Lemma decay_unit (b : Backoff) t :
  well b → 0 ≤ t →
  0 ≤ float32_of_float64 (Pow (bo_decayFraction b)
        (div64 (float64_of_int t) (float64_of_int (bo_decayIntervalSeconds b)))) ≤ one32.
Proof.
  intros Hw Ht. rewrite (w_interval b Hw), (w_fraction b Hw). pose proof one64_pos.
  apply float32_of_float64_unit, Pow_unit.
  - split; [by apply round_nonneg; [|lia|]|]. rewrite <-(Z.mul_1_l one64).
    apply (representable_above 53); [done|by apply float64_int|done|lia].
  - apply round_nonneg; [done| |].
    + apply Z.mul_nonneg_nonneg; [|lia]. apply round_nonneg; [done|lia|done].
    + unfold decayIntervalSeconds. rewrite float64_of_int_exact by done. lia.
Qed.

Lemma decayed_well b now :
  well b → well (decayed b now) ∧
  countErrorsRequestLimit (decayed b now) ≤ countErrorsRequestLimit b ∧
  (countErrorsRequestLimit b ≤ countRequests b →
   countErrorsRequestLimit (decayed b now) ≤ countRequests (decayed b now)).
Proof.
  intros Hw. pose proof one32_pos. unfold decayed. destruct (Z.ltb_spec (bo_decayIntervalSeconds b) (now - lastDecay b)); [|done].
  pose proof (decay_unit b (now - lastDecay b) Hw) as Hd.
  rewrite (w_interval b Hw) in *. unfold decayIntervalSeconds in *. specialize (Hd ltac:(lia)).
  set (decay := float32_of_float64 _) in *. destruct Hw as [Hi Hf Hm He Hr Her Hrr].
  assert (mul32 (countErrorsRequestLimit b) decay ≤ countErrorsRequestLimit b) as Hle by (apply mul32_down; lia || done).
  split_and!.
  - split; [exact Hi|exact Hf|exact Hm| | | |].
    + apply round_representable; [lia|nia|lia].
    + apply round_representable; [lia|nia|lia].
    + split; [apply round_nonneg; [lia|nia|lia]|]. etrans; [exact Hle|apply Her].
    + apply round_nonneg; [lia|nia|lia].
  - exact Hle.
  - intros. apply mul32_mono; lia.
Qed.

Lemma counted_well b :
  well b → well (counted b) ∧ one32 ≤ countRequests (counted b) ∧ countRequests b ≤ countRequests (counted b).
Proof.
  intros [Hi Hf Hm He Hr Her Hrr]. pose proof one32_pos. unfold counted.
  rewrite float32_of_int_exact, Z.mul_1_l by lia.
  assert (countRequests b ≤ add32 (countRequests b) one32) by (apply add32_up; [done|lia]).
  split_and!; [| |done].
  - split; [exact Hi|exact Hf|exact Hm|exact He| |exact Her|].
    + apply round_representable; lia.
    + cbn [countRequests with_counts]. lia.
  - by apply add32_one.
Qed.

Lemma reported_well b : well b → well (ReportError b).
Proof.
  intros [Hi Hf Hm He Hr Her Hrr]. pose proof one32_pos. unfold ReportError.
  rewrite float32_of_int_exact, Z.mul_1_l by lia.
  split; [exact Hi|exact Hf|exact Hm| |exact Hr| |exact Hrr]; cbn [countErrorsRequestLimit with_counts].
  - apply round_representable; lia.
  - split; [apply round_nonneg; lia|]. rewrite <-add32_saturates. apply add32_mono. lia.
Qed.

Lemma errorFraction_range b :
  well b → one32 ≤ countRequests b →
  0 ≤ errorFraction b ≤ 2 ^ 24 * one32 ∧
  (countErrorsRequestLimit b ≤ countRequests b → errorFraction b ≤ one32).
Proof.
  intros Hw H1. pose proof one32_pos. pose proof (w_errors_range b Hw).
  unfold errorFraction. case_match; [|lia]. split_and!.
  - apply round_nonneg; [lia|apply Z.mul_nonneg_nonneg; lia|lia].
  - unfold div32. apply (representable_above 24); [lia|apply float32_int; lia|lia|apply Z.mul_le_mono_nonneg; lia].
  - intros. apply div32_unit; lia.
Qed.

(** The whole seconds of a duration are not overestimated by more than one. *)
Lemma Seconds_range d : 0 ≤ d → d / Second < 2 ^ 53 → 0 ≤ int_of_float64 (Seconds d) ≤ d / Second + 1.
Proof.
  intros Hd Hs. pose proof one64_pos. assert (0 < Second) by done.
  assert (0 ≤ d / Second) by (apply Z.div_pos; lia).
  pose proof (Z.mod_pos_bound d Second ltac:(done)).
  unfold Seconds, int_of_float64. rewrite (float64_of_int_exact (d / Second)) by lia.
  assert (Second ≤ 2 ^ 53) by done.
  rewrite (float64_of_int_exact (d mod Second)), (float64_of_int_exact Second) by lia.
  destruct (div64_unit (d mod Second * one64) (Second * one64)); [nia|nia|].
  split; [apply Z.div_pos; [|done]; apply round_nonneg; [done|nia|done]|].
  apply Z.div_le_upper_bound; [done|]. rewrite Z.mul_comm.
  apply (representable_above 53); [done|rewrite Z.mul_comm; apply float64_int; lia|done|lia].
Qed.

(** Up to the float32 number next to the maximal delay, they are at most sixty. *)
Lemma Seconds_sixty d : 0 ≤ d ≤ 60000002048 → int_of_float64 (Seconds d) ≤ 60.
Proof.
  intros Hd. destruct (Z_lt_le_dec d 60000000000) as [H|H].
  - assert (d / Second < 60) by (apply Z.div_lt_upper_bound; [done|]; unfold Second; lia).
    pose proof (Seconds_range d ltac:(lia) ltac:(lia)). lia.
  - assert (d / Second = 60 ∧ d mod Second = d - 60 * Second) as [E1 E2].
    { pose proof (Z.div_mod d Second ltac:(done)). pose proof (Z.mod_pos_bound d Second ltac:(done)).
      unfold Second in *. lia. }
    unfold Seconds. rewrite E1, E2. pose proof one64_pos.
    assert (int_of_float64 (add64 (float64_of_int 60) (div64 (float64_of_int 2048) (float64_of_int Second))) ≤ 60) as H60
      by (vm_compute; discriminate).
    etrans; [|exact H60]. apply Z.div_le_mono; [lia|]. apply round_mono; [lia..|].
    assert (0 < float64_of_int Second) by (unfold Second; rewrite float64_of_int_exact by lia; lia).
    cut (div64 (float64_of_int (d - 60 * Second)) (float64_of_int Second) ≤
         div64 (float64_of_int 2048) (float64_of_int Second)); [lia|].
    apply round_mono; [lia..|]. apply Z.mul_le_mono_nonneg_r; [lia|]. apply Z.mul_le_mono_nonneg_r; [lia|].
    apply round_mono; [lia..|]. apply Z.mul_le_mono_nonneg_r; [lia|].
    apply Z.mul_le_mono_nonneg_r; [lia|]. unfold Second. lia.
Qed.

Lemma rawDelay_range b f :
  well b → 0 ≤ errorFraction b ≤ f →
  0 ≤ rawDelay b ≤ int_of_float32 (mul32 (float32_of_int maxDelay) f).
Proof.
  intros Hw Hf. unfold rawDelay. rewrite (w_max b Hw). pose proof one32_pos.
  assert (0 ≤ float32_of_int maxDelay) by (by apply round_nonneg; [|unfold maxDelay, Second; lia|]).
  split.
  - apply Z.div_pos; [|done]. apply round_nonneg; [done|nia|done].
  - apply Z.div_le_mono; [done|]. apply mul32_mono; lia.
Qed.

(** A delay is a whole number of seconds and fits its type, whatever requests and reports
    came before; in a history in which the errors are not more than the requests it is at
    most the maximal one. *)
Lemma ComputeDelay_range b now :
  well b →
  let '(b', d) := ComputeDelayForRequest b now in
  well b' ∧ 0 ≤ d < 2 ^ 63 ∧ d mod Second = 0 ∧
  (countErrorsRequestLimit b = 0 → d = 0) ∧
  (countErrorsRequestLimit b ≤ countRequests b →
   countErrorsRequestLimit (ReportError b') ≤ countRequests b' ∧ d ≤ maxDelay).
Proof.
  intros Hw. pose proof one32_pos as H1.
  destruct (decayed_well b now Hw) as (Hw1 & Hle & Hord). destruct (counted_well _ Hw1) as (Hw2 & Hone & Hup).
  unfold ComputeDelayForRequest. set (c := counted (decayed b now)) in *.
  assert (countErrorsRequestLimit c = countErrorsRequestLimit (decayed b now)) as Ec by done.
  destruct (errorFraction_range c Hw2 Hone) as [Hf Hf'].
  assert (countErrorsRequestLimit b = 0 → errorFraction c < round 24 one32 10) as Hzero.
  { intros E. assert (countErrorsRequestLimit c = 0) as E0 by (pose proof (w_errors_range c Hw2); lia).
    unfold errorFraction, div32. rewrite E0, Z.mul_0_l. change (round 24 0 (countRequests c)) with (round 24 0 (countRequests c)).
    assert (round 24 0 (countRequests c) = 0) as ->.
    { apply Z.le_antisymm; [|apply round_nonneg; lia]. rewrite <-(Z.mul_0_l one32).
      apply (representable_above 24); [done|by apply float32_int|lia|lia]. }
    destruct (_ <? countRequests c); vm_compute; reflexivity. }
  pose proof (rawDelay_range c (2 ^ 24 * one32) Hw2 Hf) as Hraw.
  assert (int_of_float32 (mul32 (float32_of_int maxDelay) (2 ^ 24 * one32)) < 2 ^ 62) as Hbig by (vm_compute; reflexivity).
  destruct (Z.ltb_spec (errorFraction c) (round 24 one32 10)) as [Hlt|Hge].
  { split_and!; [done|lia|lia|done|done|]. intros Ho. split; [by apply add32_mono, Hord|done]. }
  assert (rawDelay c / Second < 2 ^ 33) as Hsec by (apply Z.div_lt_upper_bound; [done|]; unfold Second; lia).
  pose proof (Seconds_range (rawDelay c) ltac:(lia) ltac:(lia)).
  split_and!; [done|unfold Second in *; lia|unfold Second in *; lia| |intros E; specialize (Hzero E); lia|].
  - rewrite Z.mul_comm. by apply Z.mod_mul.
  - intros Ho. split; [by apply add32_mono, Hord|]. specialize (Hord Ho).
    pose proof (rawDelay_range c one32 Hw2 ltac:(lia)) as [Hr0 Hr1].
    assert (int_of_float32 (mul32 (float32_of_int maxDelay) one32) = 60000002048) as E by (vm_compute; reflexivity).
    rewrite E in Hr1. pose proof (Seconds_sixty (rawDelay c) ltac:(lia)). unfold maxDelay, Second in *. lia.
Qed.
End facts.

(** ** Requests and refusals in any order *)
Section interleaved.
Context {MP : MathPow}.

(** The delayer of requests and refusals in any order, as concurrent calls have them. *)
Inductive interleaved : Backoff → Prop :=
  | interleaved_new now : interleaved (NewCrossRequestRetryDelay now)
  | interleaved_request b now : interleaved b → interleaved (ComputeDelayForRequest b now).1
  | interleaved_report b : interleaved b → interleaved (ReportError b).

Lemma ComputeDelay_errors b now :
  well b → countErrorsRequestLimit b = 0 → countErrorsRequestLimit (ComputeDelayForRequest b now).1 = 0.
Proof.
  intros Hw E. destruct (decayed_well b now Hw) as ([] & Hle & _).
  unfold ComputeDelayForRequest. case_match; cbn [fst]; change (countErrorsRequestLimit (decayed b now) = 0); lia.
Qed.

Lemma interleaved_well b : interleaved b → well b.
Proof.
  induction 1 as [now|b now _ IH|b _ IH]; [apply well_new| |by apply reported_well].
  pose proof (ComputeDelay_range b now IH) as H. destruct (ComputeDelayForRequest b now). apply H.
Qed.

Lemma request_ordered b now :
  well b → countErrorsRequestLimit b ≤ countRequests b →
  let b' := (ComputeDelayForRequest b now).1 in
  countErrorsRequestLimit b' ≤ countErrorsRequestLimit (ReportError b') ≤ countRequests b'.
Proof.
  intros Hw Ho. pose proof (ComputeDelay_range b now Hw) as H.
  destruct (ComputeDelayForRequest b now) as [b' d]. cbn [fst].
  destruct H as (Hw' & _ & _ & _ & H). specialize (H Ho) as [H _]. split; [|exact H].
  exact (add32_up _ _ (w_errors b' Hw') one_nonneg).
Qed.

(** With requests and refusals in any order the delays fit their type, but they can exceed
    the maximal one (see [concurrent_delay]). *)
Lemma interleaved_delay_fits b now :
  interleaved b → let '(_, d) := ComputeDelayForRequest b now in 0 ≤ d < 2 ^ 63 ∧ d mod Second = 0.
Proof.
  intros Hi. pose proof (ComputeDelay_range b now (interleaved_well b Hi)) as H.
  destruct (ComputeDelayForRequest b now). by destruct H as (_ & H & Hm & _).
Qed.
End interleaved.

(** A power by whole exponents. *)
Fixpoint times64 (x : Z) (n : nat) : Z :=
  match n with 0%nat => one64 | S n => mul64 (times64 x n) x end.

#[program] Definition whole_powers : MathPow := {| Pow x y := times64 x (Z.to_nat (y / one64)) |}.
Next Obligation.
  intros x y Hx Hy. pose proof one64_pos. cbn beta. induction (Z.to_nat (y / one64)) as [|n IH]; cbn [times64]; [lia|].
  by apply mul64_unit.
Qed.

(** A hundred requests that are refused only after a minute and a half, when a later request has
    decayed the count of requests: the next one waits for more than two minutes. *)
Example concurrent_delay :
  let start := Nat.iter 100 (λ b, (ComputeDelayForRequest (MP := whole_powers) b 1).1) (NewCrossRequestRetryDelay 0) in
  let later := (ComputeDelayForRequest (MP := whole_powers) start 90).1 in
  let refusals := Nat.iter 100 ReportError later in
  (ComputeDelayForRequest (MP := whole_powers) refusals 91).2 = 134 * Second.
Proof. vm_compute. reflexivity. Qed.
