(* ===== verification/Middleware.v ===== *)
(** * The middleware of the clients (aws_sdk.go, log_handler.go, retry_handler.go, aws_metrics.go)

    Every client of the SDK gets middleware for its Finalize step: a log line, the delay of
    the region before a request and the report of a refused one, and the count of failed
    requests.  A request passes the middleware of the step in order; the SDK's own "Retry"
    passes it to what follows once for each attempt.  The SDK's middleware and the service
    keep their own state, [T], and do not see that of the process. *)

From S2P Require Import Prelude GoLib Float Metrics Backoff.
Import Strings Strconv Errors.

#[local] Open Scope Z_scope.

(** ** Middleware of a step (smithy-go/middleware) *)
Section step.
Context {T A : Type}.

(** What handles a request; [P] is the state of the process. *)
Definition finalizeHandler (P : Type) : Type := P → T → P * T * result A.

Record FinalizeMiddleware (P : Type) := FinalizeMiddlewareFunc {
  ID : string;
  HandleFinalize : finalizeHandler P → finalizeHandler P
}.
Arguments FinalizeMiddlewareFunc {P} _ _.
Arguments ID {P} _.
Arguments HandleFinalize {P} _ _ _ _.

(** The request passes the middleware from the front to the end, then [next]. *)
Definition decorate {P} (step : list (FinalizeMiddleware P)) (next : finalizeHandler P) : finalizeHandler P :=
  foldr HandleFinalize next step.

(** [Add m Before] *)
Definition AddBefore {P} (m : FinalizeMiddleware P) (step : list (FinalizeMiddleware P)) :
    list (FinalizeMiddleware P) := m :: step.

(** [Insert m relativeTo Before] *)
Fixpoint InsertBefore {P} (m : FinalizeMiddleware P) (relativeTo : string) (step : list (FinalizeMiddleware P)) :
    result (list (FinalizeMiddleware P)) :=
  match step with
  | [] => Err (Errorf "not found: %s" [ID m])
  | found :: rest =>
     if String.eqb (ID found) relativeTo then Ok (m :: found :: rest)
     else match InsertBefore m relativeTo rest with
          | Ok rest => Ok (found :: rest)
          | Err err => Err err
          end
  end.

(** Middleware of the SDK: it answers, or passes the request on and looks at the answer,
    as often as it likes. *)
Inductive flow :=
  | Finish (s : T) (r : result A)
  | Forward (s : T) (k : T → result A → flow).

Fixpoint follow {P} (f : flow) (next : finalizeHandler P) (p : P) : P * T * result A :=
  match f with
  | Finish s r => (p, s, r)
  | Forward s k => let '(p, s, r) := next p s in follow (k s r) next p
  end.

Definition sdkMiddleware {P} (m : string * (T → flow)) : FinalizeMiddleware P :=
  FinalizeMiddlewareFunc m.1 (λ next p s, follow (m.2 s) next p).

(** What is sent to the service. *)
Definition sending {P} (send : T → T * result A) : finalizeHandler P := λ p s, (p, (send s).1, (send s).2).
End step.
Arguments finalizeHandler T A P : clear implicits.
Arguments FinalizeMiddleware T A P : clear implicits.
Arguments FinalizeMiddlewareFunc {T A P} _ _.
Arguments ID {T A P} _.
Arguments HandleFinalize {T A P} _ _ _ _.
Arguments flow T A : clear implicits.

(** ** Errors *)

(** The text of the first API error of the chain. *)
Fixpoint apiErrorText (e : error) : option string :=
  match e with
  | APIError _ text => Some text
  | Wrapf _ _ e => apiErrorText e
  | Joined errs =>
     (fix go (l : list error) : option string :=
        match l with
        | [] => None
        | e :: l => match apiErrorText e with Some t => Some t | None => go l end
        end) errs
  | _ => None
  end.

(** [customRetryer]; [standard] is the retryer of the SDK. *)
Definition IsErrorRetryable (standard : error → bool) (err : error) : bool :=
  if Contains (Error err) nonRetryableError then false else standard err.

(** ** The state of the process and the context of a request *)
Record processState := mkProcess {
  pr_delayer : Backoff;
  pr_metrics : registry
}.

Record requestContext := mkRequest {
  rq_service : string;  (** [middleware.GetServiceID ctx] *)
  rq_operation : string;  (** [middleware.GetOperationName ctx] *)
  rq_now : Z;
  rq_sleep : Z → option error  (** [sleepWithContext ctx]: the error when the context ends first *)
}.

Definition operationName (rq : requestContext) : string :=
  if String.eqb (rq_operation rq) "" then "?" else rq_operation rq.

(** The middleware of the process; [HTTPStatusCode] is that of the first
    [awshttp.ResponseError] of a chain. *)
Section middleware.
Context {MP : MathPow} (HTTPStatusCode : error → option Z) {T A : Type}.
Implicit Types (next : finalizeHandler T A processState) (step : list (FinalizeMiddleware T A processState)).

(** [awsHandlerLoggerMiddleware] only logs. *)
Definition awsHandlerLoggerMiddleware : FinalizeMiddleware T A processState :=
  FinalizeMiddlewareFunc "k8s/logger" (λ next, next).

Definition delayPreSign (rq : requestContext) : FinalizeMiddleware T A processState :=
  FinalizeMiddlewareFunc "k8s/delay-presign" (λ next p s,
    let '(b, delay) := ComputeDelayForRequest (pr_delayer p) (rq_now rq) in
    let p := mkProcess b (pr_metrics p) in
    match (if 0 <? delay then rq_sleep rq delay else None) with
    | Some _ => (p, s, Err (Errorf nonRetryableError []))
    | None => next p s
    end).

Definition delayAfterRetry (rq : requestContext) : FinalizeMiddleware T A processState :=
  FinalizeMiddlewareFunc "k8s/delay-afterretry" (λ next p s,
    let '(p, s, finErr) := next p s in
    match finErr with
    | Ok _ => (p, s, finErr)
    | Err err =>
       match apiErrorText err with
       | Some text =>
          if Contains text "RequestLimitExceeded" then
            (mkProcess (ReportError (pr_delayer p)) (recordAWSThrottlesMetric (pr_metrics p) (operationName rq)), s, finErr)
          else (p, s, finErr)
       | None => (p, s, finErr)
       end
    end).

Definition awsAPIMetricsMiddleware (rq : requestContext) : FinalizeMiddleware T A processState :=
  FinalizeMiddlewareFunc "k8s/aws-api-metrics" (λ next p s,
    let '(p, s, r) := next p s in
    match r with
    | Ok _ => (p, s, r)
    | Err err =>
       match HTTPStatusCode err with
       | Some code =>
          if 400 <=? code then
            (mkProcess (pr_delayer p)
               (recordResponseStatus (pr_metrics p) (rq_service rq) (rq_operation rq) (Itoa code)), s, r)
          else (p, s, r)
       | None => (p, s, r)
       end
    end).

Definition addAWSAPIMetricsMiddleware (rq : requestContext) step : result (list (FinalizeMiddleware T A processState)) :=
  InsertBefore (awsAPIMetricsMiddleware rq) "Retry" step.

(** The options that [AddMiddleware] appends to the configuration of a client; the user
    agent and the logging of [addAPILoggingMiddleware] are for other steps. *)
Definition APIOptions (rq : requestContext) :
    list (list (FinalizeMiddleware T A processState) → result (list (FinalizeMiddleware T A processState))) :=
  [ (λ step, Ok (AddBefore awsHandlerLoggerMiddleware step));
    (λ step,
       let step := AddBefore (delayPreSign rq) step in
       match InsertBefore (delayAfterRetry rq) "Retry" step with
       | Ok step => Ok step
       | Err _ => Ok step
       end);
    addAWSAPIMetricsMiddleware rq ].

Definition applyOptions rq step : result (list (FinalizeMiddleware T A processState)) :=
  foldl (λ r option, match r with Ok step => option step | Err err => Err err end) (Ok step) (APIOptions rq).

(** An operation of a client: the SDK's middleware [step] with the options, around [send]. *)
Definition invokeOperation rq step (send : T → T * result A) : finalizeHandler T A processState :=
  match applyOptions rq step with
  | Ok step => decorate step (sending send)
  | Err err => λ p s, (p, s, Err err)
  end.
End middleware.

(** ** What the stack does

    The reference: without the middleware of the process the request passes [front], the
    loop of attempts [retry] and [rest], to the service. *)
Section reference.
Context {MP : MathPow} (HTTPStatusCode : error → option Z) {T A : Type}.
Implicit Types (front rest : list (string * (T → flow T A))) (retry : T → flow T A) (send : T → T * result A).

(** The answer shows that AWS refused the request. *)
Definition refused (answer : result A) : bool :=
  match answer with
  | Ok _ => false
  | Err e => match apiErrorText e with Some t => Contains t "RequestLimitExceeded" | None => false end
  end.

(** The status of a failed answer. *)
Definition failedStatus (answer : result A) : option Z :=
  match answer with
  | Ok _ => None
  | Err e => code ← HTTPStatusCode e; if 400 <=? code then Some code else None
  end.

(** What one answer of the loop of attempts adds to the state of the process. *)
Definition account (rq : requestContext) (p : processState) (answer : result A) : processState :=
  mkProcess
    (if refused answer then ReportError (pr_delayer p) else pr_delayer p)
    (let m := match failedStatus answer with
              | Some code => recordResponseStatus (pr_metrics p) (rq_service rq) (rq_operation rq) (Itoa code)
              | None => pr_metrics p
              end in
     if refused answer then recordAWSThrottlesMetric m (operationName rq) else m).

(** The loop of attempts with what follows it, on its own. *)
Definition attempts retry rest send (s : T) : T * result A :=
  let '(_, s, r) := decorate (map sdkMiddleware (("Retry", retry) :: rest)) (sending send) tt s in (s, r).

(** The whole call on its own, with the answers of the loop of attempts that [front] saw. *)
Definition sdkCall front retry rest send (s : T) : list (result A) * T * result A :=
  decorate (map sdkMiddleware front)
    (λ l s, let '(s, r) := attempts retry rest send s in (l ++ [r], s, r)) [] s.

(** *** Middleware of the SDK does not see the state of the process *)
Definition agree {P Q} (R : P → Q → Prop) (h1 : finalizeHandler T A P) (h2 : finalizeHandler T A Q) : Prop :=
  ∀ p q s, R p q → R (h1 p s).1.1 (h2 q s).1.1 ∧ (h1 p s).1.2 = (h2 q s).1.2 ∧ (h1 p s).2 = (h2 q s).2.

Lemma follow_agree {P Q} (R : P → Q → Prop) h1 h2 (f : flow T A) p q :
  agree R h1 h2 → R p q →
  R (follow f h1 p).1.1 (follow f h2 q).1.1 ∧ (follow f h1 p).1.2 = (follow f h2 q).1.2 ∧
  (follow f h1 p).2 = (follow f h2 q).2.
Proof.
  intros Hh. revert p q. induction f as [s r|s k IH]; intros p q HR; cbn [follow]; [done|].
  destruct (Hh p q s HR) as (HR' & Es & Er). destruct (h1 p s) as [ [p' s'] r'], (h2 q s) as [ [q' s''] r''].
  cbn in *; subst. by apply IH.
Qed.

Lemma decorate_agree {P Q} (R : P → Q → Prop) h1 h2 (step : list (string * (T → flow T A))) :
  agree R h1 h2 → agree R (decorate (map sdkMiddleware step) h1) (decorate (map sdkMiddleware step) h2).
Proof.
  intros Hh. induction step as [|m step IH]; [done|]. intros p q s HR. by apply follow_agree.
Qed.

(** *** The order of the step *)
Lemma InsertBefore_at {P} (m found : FinalizeMiddleware T A P) id (l l' : list (FinalizeMiddleware T A P)) :
  id ∉ map ID l → ID found = id → InsertBefore m id (l ++ found :: l') = Ok (l ++ m :: found :: l').
Proof.
  intros Hid E. induction l as [|x l IH]; cbn [InsertBefore app].
  - by rewrite (proj2 (String.eqb_eq _ _) E).
  - cbn in Hid. apply not_elem_of_cons in Hid as [Hx Hid].
    rewrite (proj2 (String.eqb_neq _ _)) by congruence. by rewrite IH.
Qed.

Lemma ID_sdk {P} front : map (ID (P := P)) (map sdkMiddleware front) = front.*1.
Proof. induction front as [|m front IH]; [done|]. cbn. f_equal. exact IH. Qed.

(** The delay comes first, the report and the count directly before the loop of attempts. *)
Lemma applyOptions_order rq front retry rest :
  "Retry" ∉ front.*1 →
  applyOptions (MP := MP) HTTPStatusCode rq (map sdkMiddleware (front ++ ("Retry", retry) :: rest)) =
  Ok (delayPreSign rq :: awsHandlerLoggerMiddleware :: map sdkMiddleware front ++
      delayAfterRetry rq :: awsAPIMetricsMiddleware HTTPStatusCode rq :: map sdkMiddleware (("Retry", retry) :: rest)).
Proof.
  intros Hid. rewrite <-(ID_sdk (P := processState)) in Hid. rewrite map_app. cbn [map].
  set (F := map sdkMiddleware front) in *.
  unfold applyOptions, APIOptions, addAWSAPIMetricsMiddleware, AddBefore. cbn [foldl].
  change (delayPreSign rq :: awsHandlerLoggerMiddleware :: F ++ ?l)
    with ((delayPreSign rq :: awsHandlerLoggerMiddleware :: F) ++ l).
  set (F' := delayPreSign rq :: awsHandlerLoggerMiddleware :: F).
  assert ("Retry" ∉ map ID F') as Hid' by (cbn; rewrite !not_elem_of_cons; done).
  rewrite InsertBefore_at by done.
  change (F' ++ delayAfterRetry rq :: ?l) with (F' ++ [delayAfterRetry rq] ++ l). rewrite (assoc_L (++)).
  rewrite InsertBefore_at; [|rewrite map_app, elem_of_app; cbn; rewrite list_elem_of_singleton; by intros [?|?]|done].
  by rewrite <-(assoc_L (++)).
Qed.

(** The three middlewares next to each other account for one answer. *)
Lemma inner_answers {P} retry rest send (p : P) s :
  decorate (map sdkMiddleware (("Retry", retry) :: rest)) (sending send) p s =
  (p, (attempts retry rest send s).1, (attempts retry rest send s).2).
Proof.
  unfold attempts.
  destruct (decorate_agree (λ p' (_ : unit), p' = p) (sending send) (sending send) (("Retry", retry) :: rest)
              ltac:(intros ????; by subst) p tt s eq_refl) as (E1 & E2 & E3).
  destruct (decorate _ (sending send) p s) as [ [p' s'] r'].
  destruct (decorate _ (sending send) tt s) as [ [u s''] r'']. cbn in *. congruence.
Qed.

Lemma accounted (rq : requestContext) retry rest send p s :
  HandleFinalize (delayAfterRetry rq)
    (HandleFinalize (awsAPIMetricsMiddleware HTTPStatusCode rq)
       (decorate (map sdkMiddleware (("Retry", retry) :: rest)) (sending send))) p s =
  (account rq p (attempts retry rest send s).2, (attempts retry rest send s).1, (attempts retry rest send s).2).
Proof.
  cbn [HandleFinalize delayAfterRetry awsAPIMetricsMiddleware]. rewrite inner_answers.
  destruct (attempts retry rest send s) as [s' r]. cbn [fst snd].
  unfold account, refused, failedStatus. destruct p as [b m]. destruct r as [a|err]; cbn [pr_delayer pr_metrics]; [done|].
  destruct (HTTPStatusCode err) as [code|]; cbn [mbind option_bind]; [destruct (400 <=? code)|];
    destruct (apiErrorText err) as [text|]; try done; by destruct (Contains text _).
Qed.

(** An operation in terms of the answers of the loop of attempts. *)
Lemma accounted_call (rq : requestContext) front retry rest send (p : processState) s :
  "Retry" ∉ front.*1 →
  invokeOperation HTTPStatusCode rq (map sdkMiddleware (front ++ ("Retry", retry) :: rest)) send p s =
  let '(b, delay) := ComputeDelayForRequest (pr_delayer p) (rq_now rq) in
  let p := mkProcess b (pr_metrics p) in
  match (if 0 <? delay then rq_sleep rq delay else None) with
  | Some _ => (p, s, Err (Errorf nonRetryableError []))
  | None => let '(answers, s, r) := sdkCall front retry rest send s in (foldl (account rq) p answers, s, r)
  end.
Proof.
  intros Hid. unfold invokeOperation. rewrite applyOptions_order by done.
  unfold decorate. cbn [foldr HandleFinalize delayPreSign awsHandlerLoggerMiddleware].
  destruct (ComputeDelayForRequest (pr_delayer p) (rq_now rq)) as [b delay].
  destruct (if 0 <? delay then rq_sleep rq delay else None); [done|].
  rewrite foldr_app. set (p0 := mkProcess b (pr_metrics p)).
  pose proof (decorate_agree (λ p' l, p' = foldl (account rq) p0 l)
    (HandleFinalize (delayAfterRetry rq) (HandleFinalize (awsAPIMetricsMiddleware HTTPStatusCode rq)
       (decorate (map sdkMiddleware (("Retry", retry) :: rest)) (sending send))))
    (λ l s, let '(s, r) := attempts retry rest send s in (l ++ [r], s, r)) front) as Ha.
  destruct (Ha ltac:(intros p' l s' ->; rewrite accounted; destruct (attempts retry rest send s');
                     cbn; by rewrite foldl_app) p0 [] s eq_refl) as (E1 & E2 & E3).
  unfold sdkCall. unfold decorate in E1, E2, E3 |- *. cbn [foldr] in E1, E2, E3 |- *.
  destruct (foldr HandleFinalize _ (map sdkMiddleware front) p0 s) as [ [p' s'] r'].
  destruct (foldr HandleFinalize _ (map sdkMiddleware front) [] s) as [ [l s''] r'']. cbn in *. congruence.
Qed.

(** C26: an operation of a client, whatever the middleware of the SDK does around it and
    however often it attempts it: the delay is computed once, before anything is sent, and
    when the context ends during it nothing is sent and nothing is counted; otherwise the
    caller gets the answer that the SDK alone gives, and every answer with which a loop of
    attempts ends, not those of single attempts, is counted once: a refused one for the
    region's delay and the throttled operations, a failed one for its status. *)
Theorem invokeOperation_accounts (rq : requestContext) front retry rest send (p : processState) s :
  "Retry" ∉ front.*1 →
  invokeOperation HTTPStatusCode rq (map sdkMiddleware (front ++ ("Retry", retry) :: rest)) send p s =
  let '(b, delay) := ComputeDelayForRequest (pr_delayer p) (rq_now rq) in
  let p := mkProcess b (pr_metrics p) in
  match (if 0 <? delay then rq_sleep rq delay else None) with
  | Some _ => (p, s, Err (Errorf nonRetryableError []))
  | None => let '(answers, s, r) := sdkCall front retry rest send s in (foldl (account rq) p answers, s, r)
  end.
Proof. apply accounted_call. Qed.

(** Middleware that passes a request on at most once, and its answer back. *)
Definition passes (m : string * (T → flow T A)) : Prop :=
  ∀ s, match m.2 s with
       | Finish _ _ => True
       | Forward _ k => ∀ s r, ∃ s', k s r = Finish s' r
       end.

Lemma sdkCall_passes front retry rest send s :
  Forall passes front →
  let '(answers, _, r) := sdkCall front retry rest send s in answers = [] ∨ answers = [r].
Proof.
  intros Hf. unfold sdkCall.
  set (base := λ l s, let '(s, r) := attempts retry rest send s in (l ++ [r], s, r)).
  cut (∀ (l : list (result A)) s, let '(l', _, r) := decorate (map sdkMiddleware front) base l s in l' = l ∨ l' = l ++ [r]).
  { intros H. exact (H [] s). }
  induction Hf as [|m front Hm Hf IH]; intros l s0.
  - cbn. unfold base. destruct (attempts retry rest send s0). by right.
  - cbn [map decorate foldr]. change (foldr HandleFinalize base ?l') with (decorate l' base).
    cbn [HandleFinalize sdkMiddleware]. specialize (Hm s0). destruct (m.2 s0) as [s1 r|s1 k]; cbn [follow]; [by left|].
    specialize (IH l s1). destruct (decorate _ base l s1) as [ [l' s2] r2]. destruct (Hm s2 r2) as [s' ->]. exact IH.
Qed.
End reference.

(** ** Calls one after another *)
Section serial.
Context {MP : MathPow} (HTTPStatusCode : error → option Z).

(** The process after calls of which each ended before the next one began, with the number
    of refused ones; the context of a call may end during its delay. *)
Inductive serial : nat → processState → Prop :=
  | serial_new now m : serial 0 (mkProcess (NewCrossRequestRetryDelay now) m)
  | serial_call {T A} n p rq front retry rest send (s : T) p' s' (r : result A) :
      serial n p → "Retry" ∉ front.*1 → Forall passes front →
      invokeOperation HTTPStatusCode rq (map sdkMiddleware (front ++ ("Retry", retry) :: rest)) send p s = (p', s', r) →
      serial (if refused r then S n else n) p'.

(** What one call does to the delayer. *)
Lemma invokeOperation_delayer {T A} rq front retry rest send p (s : T) p' s' (r : result A) :
  "Retry" ∉ front.*1 → Forall passes front →
  invokeOperation HTTPStatusCode rq (map sdkMiddleware (front ++ ("Retry", retry) :: rest)) send p s = (p', s', r) →
  let b := (ComputeDelayForRequest (pr_delayer p) (rq_now rq)).1 in
  pr_delayer p' = b ∨ refused r = true ∧ pr_delayer p' = ReportError b.
Proof.
  intros Hid Hf. rewrite accounted_call by done.
  destruct (ComputeDelayForRequest (pr_delayer p) (rq_now rq)) as [b delay]. cbn [fst].
  destruct (if 0 <? delay then rq_sleep rq delay else None); [intros [= <- <- <-]; by left|].
  pose proof (sdkCall_passes front retry rest send s Hf) as Hp.
  destruct (sdkCall front retry rest send s) as [ [answers s1] r1]. intros [= <- <- <-].
  destruct Hp as [-> | ->]; cbn [foldl]; [by left|]. unfold account. cbn [pr_delayer].
  destruct (refused r1) eqn:E; [right|left]; done.
Qed.

Lemma serial_interleaved n p : serial n p → interleaved (pr_delayer p).
Proof.
  induction 1 as [now m|T A n p rq front retry rest send s p' s' r _ IH Hid Hf Hc]; [constructor|].
  destruct (invokeOperation_delayer rq front retry rest send p s p' s' r Hid Hf Hc) as [E | [_ E] ]; rewrite E.
  - by apply interleaved_request.
  - by apply interleaved_report, interleaved_request.
Qed.

(** Calls one after another never report more errors than requests. *)
Lemma serial_ordered n p :
  serial n p →
  countErrorsRequestLimit (pr_delayer p) ≤ countRequests (pr_delayer p) ∧
  (n = 0%nat → countErrorsRequestLimit (pr_delayer p) = 0).
Proof.
  induction 1 as [now m|T A n p rq front retry rest send s p' s' r Hs [IH IH0] Hid Hf Hc].
  { split; [|done]. apply (w_requests_range _ (well_new now)). }
  pose proof (interleaved_well _ (serial_interleaved n p Hs)) as Hw.
  pose proof (request_ordered _ (rq_now rq) Hw IH) as H. pose proof (ComputeDelay_errors _ (rq_now rq) Hw) as H0.
  revert H H0. destruct (invokeOperation_delayer rq front retry rest send p s p' s' r Hid Hf Hc) as [E | [Hr E] ]; rewrite E;
    generalize (ComputeDelayForRequest (pr_delayer p) (rq_now rq)).1; intros b' [H1 H2] H0.
  - split; [lia|]. destruct (refused r); [lia|auto].
  - rewrite Hr. split; [exact H2|lia].
Qed.

(** C25: calls one after another wait at most the maximal delay, in whole seconds, whatever
    times and answers they have, and wait only when a request was refused for exceeding the
    request limit. *)
Theorem backoff_bounded n p now :
  serial n p →
  let '(_, d) := ComputeDelayForRequest (pr_delayer p) now in
  0 ≤ d ≤ maxDelay ∧ d mod Second = 0 ∧ (n = 0%nat → d = 0).
Proof.
  intros Hs. destruct (serial_ordered n p Hs) as [Ho H0].
  pose proof (ComputeDelay_range (pr_delayer p) now (interleaved_well _ (serial_interleaved n p Hs))) as H.
  destruct (ComputeDelayForRequest (pr_delayer p) now). destruct H as (_ & H & Hm & Hz & Hb).
  split_and!; [lia|by apply Hb|done|auto].
Qed.
End serial.

(** ** A client with a loop of three attempts *)
Definition limited : error := APIError "RequestLimitExceeded" "RequestLimitExceeded: slow down".
Definition unavailable : error := APIError "Unavailable" "Unavailable: try again".
Definition status_of (err : error) : option Z :=
  match err with APIError _ _ => Some 503 | _ => None end.

(** The service answers with the errors it has left, then without one. *)
Definition answer_next (s : list error) : list error * result unit :=
  match s with [] => ([], Ok tt) | err :: s => (s, Err err) end.

Fixpoint attempt (n : nat) (s : list error) : flow (list error) unit :=
  match n with
  | 0%nat => Forward s Finish
  | S n => Forward s (λ s r, match r with Ok _ => Finish s r | Err _ => attempt n s end)
  end.

Definition sign : string * (list error → flow (list error) unit) := ("GetIdentity", λ s, Forward s Finish).

Definition tag_request (now : Z) : requestContext := mkRequest "EC2" "CreateTags" now (λ _, None).

Definition client_call (p : processState) (errors : list error) : processState * list error * result unit :=
  invokeOperation (MP := whole_powers) status_of (tag_request 7)
    (map sdkMiddleware ([sign] ++ ("Retry", attempt 2) :: [sign])) answer_next p errors.

Definition fresh : processState := mkProcess (NewCrossRequestRetryDelay 0) no_metrics.

Lemma sign_passes : Forall passes [sign].
Proof. repeat constructor. intros s. cbn. eauto. Qed.

Lemma invokeOperation_accounts_witness :
  client_call fresh [limited; limited; limited] =
  (let '(b, delay) := ComputeDelayForRequest (MP := whole_powers) (pr_delayer fresh) 7 in
   let p := mkProcess b no_metrics in
   match (if 0 <? delay then rq_sleep (tag_request 7) delay else None) with
   | Some _ => (p, [limited; limited; limited], Err (Errorf nonRetryableError []))
   | None =>
      let '(answers, s, r) := sdkCall [sign] (attempt 2) [sign] answer_next [limited; limited; limited] in
      (foldl (account status_of (tag_request 7)) p answers, s, r)
   end).
Proof.
  apply (invokeOperation_accounts (MP := whole_powers) status_of (tag_request 7) [sign] (attempt 2) [sign] answer_next fresh).
  cbn. rewrite list_elem_of_singleton. discriminate.
Defined.

(** A failure that a later attempt makes good is not counted; one that exhausts the attempts is
    counted once. *)
Example attempts_counted :
  let status errors := value (awsAPIResponseStatusTotal (pr_metrics (client_call fresh errors).1.1)) ("EC2", "CreateTags", "503") in
  let throttled errors := value (awsAPIThrottlesMetric (pr_metrics (client_call fresh errors).1.1)) "CreateTags" in
  status [unavailable] = 0%nat ∧ status [unavailable; unavailable; unavailable] = 1%nat ∧
  throttled [limited] = 0%nat ∧ throttled [limited; limited; limited] = 1%nat.
Proof. vm_compute. done. Qed.

Lemma backoff_bounded_witness :
  let p := (client_call fresh [limited; limited; limited]).1.1 in
  let '(_, d) := ComputeDelayForRequest (MP := whole_powers) (pr_delayer p) 9 in
  0 ≤ d ≤ maxDelay ∧ d mod Second = 0 ∧ (1%nat = 0%nat → d = 0).
Proof.
  apply (backoff_bounded (MP := whole_powers) status_of 1 (client_call fresh [limited; limited; limited]).1.1 9).
  apply (serial_call (MP := whole_powers) status_of 0 fresh (tag_request 7) [sign] (attempt 2) [sign] answer_next [limited; limited; limited]
           _ [] (Err limited) (serial_new status_of 0 no_metrics));
    [cbn; rewrite list_elem_of_singleton; discriminate|exact sign_passes|vm_compute; reflexivity].
Defined.

(** One refused call out of two requests, and the bias of four: the next request waits. *)
Example first_refusal :
  (ComputeDelayForRequest (MP := whole_powers)
     (pr_delayer (client_call fresh [limited; limited; limited]).1.1) 9).2 = 10 * Second.
Proof. vm_compute. reflexivity. Qed.

(** The error of a call that was cancelled during its delay is not retried. *)
Example cancelled_not_retried (standard : error → bool) :
  IsErrorRetryable standard (Errorf nonRetryableError []) = false.
Proof. reflexivity. Qed.
