(* ===== verification/Sdk.v ===== *)
(** * The EC2 client (aws_ec2.go)

    [awsSdkEC2] implements the interface [iface.EC2] with the operations of the SDK: listings
    come in pages, which it asks for and joins; everything else is passed on.  A program over
    the interface becomes a program over the SDK when each call is replaced by its
    implementation ([translate]).  Some operations record how they ended. *)

From S2P Require Import Prelude GoLib Effects AwsApi Metrics.
Import Strings Errors.

(** ** Programs over an interface and its implementation *)
Fixpoint translate {E F : Type → Type} {A} (h : ∀ R, E R → prog F (result R)) (p : prog E A) : prog F A :=
  match p with
  | Ret a => Ret a
  | Panic w => Panic w
  | Vis c k => bind (h _ c) (λ r, translate h (k r))
  end.

Lemma all_calls_translate {E F : Type → Type} {A} (h : ∀ R, E R → prog F (result R)) (p : prog E A) P Q :
  (∀ R (c : E R) r, P (Ev c r) → all_calls Q (h R c)) → all_calls P p → all_calls Q (translate h p).
Proof.
  intros Hh. induction p as [a|w|R c k IH]; simpl; intros Hp; [done..|].
  apply all_calls_bind.
  - apply (Hh R c (Err InstanceNotFound)), Hp.
  - intros r. apply IH, Hp.
Qed.

(** A program runs against an implementation as it does against what the calls of the
    implementation give, as long as they keep to the states [I] and to what [J] asks of the
    traces. *)
Lemma run_translate {E F : Type → Type} {S A} (h : ∀ R, E R → prog F (result R))
    (hF : handler F S) (hE : handler E S) (I : S → Prop) (J : list (event F) → list (event E) → Prop) (p : prog E A) :
  (∀ R (c : E R) s t t0, I s → J t t0 →
     ∃ t', run hF (h R c) s t = (Done (hE R c s).1, (hE R c s).2, t') ∧ I (hE R c s).2 ∧ J t' (t0 ++ [Ev c (hE R c s).1])) →
  ∀ s t t0, I s → J t t0 →
  (run hF (translate h p) s t).1 = (run hE p s t0).1 ∧ J (run hF (translate h p) s t).2 (run hE p s t0).2.
Proof.
  intros Hh. induction p as [a|w|R c k IH]; intros s t t0 Hs HJ; simpl; [done..|].
  rewrite run_bind. destruct (Hh R c s t t0 Hs HJ) as (t' & -> & Hs' & HJ'). destruct (hE R c s) as [r s'].
  by apply IH.
Qed.

(** ** The operations of the SDK

    An answer to a listing is a page and the token of the next one; the instances come in
    reservations.  [Direct] stands for the operations that are not listed in pages.
    [RecordMetric] is no operation of the SDK but the call of [recordAWSMetric]. *)
Inductive ec2Api : Type → Type :=
  | ApiDescribeInstances (ids : list string) (filters : list Filter) (maxResults : option Z)
      (nextToken : option string) : ec2Api (list (list Instance_) * option string)
  | ApiDescribeInstanceTopology (ids : list string) (nextToken : option string) :
      ec2Api (list InstanceTopology * option string)
  | ApiDescribeSecurityGroups (ids : list string) (filters : list Filter) (nextToken : option string) :
      ec2Api (list SecurityGroup * option string)
  | ApiDescribeRouteTables (filters : list Filter) (nextToken : option string) :
      ec2Api (list RouteTable * option string)
  | Direct {R} (c : ec2E R) : ec2Api R
  | RecordMetric (actionName : string) (err : option error) : ec2Api unit.

Definition record (actionName : option string) (err : option error) : prog ec2Api unit :=
  match actionName with
  | Some actionName => let! _ := call (RecordMetric actionName err) in Ret tt
  | None => Ret tt
  end.

(** The loop over the pages: [actionName] is the name of the listing in the metrics,
    [request] the call for the page of a token, [wrapped] the error that is returned. *)
Fixpoint pages {P X} (fuel : nat) (actionName : option string) (request : option string → ec2Api (P * option string))
    (items : P → list X) (wrapped : error → error) (nextToken : option string) (results : list X) :
    prog ec2Api (result (list X)) :=
  match fuel with
  | 0 => Panic "more pages than fuel"
  | S fuel =>
     let! response := call (request nextToken) in
     match response with
     | Err err => let! _ := record actionName (Some err) in Ret (Err (wrapped err))
     | Ok (page, nextToken) =>
        let results := results ++ items page in
        if String.eqb (ToString nextToken) "" then let! _ := record actionName None in Ret (Ok results)
        else pages fuel actionName request items wrapped nextToken results
     end
  end.

Definition listing_error (what : string) (err : error) : error :=
  Errorf ("error listing AWS " +:+ what +:+ ": %q") [Error err].

Section awsSdkEC2.
Context (fuel : nat).

Definition maxResults (ids : list string) : option Z := if length ids =? 0 then Some 1000%Z else None.

Definition sdkDescribeInstances (ids : list string) (filters : list Filter) :
    prog ec2Api (result (list Instance_)) :=
  pages fuel (Some "describe_instance") (ApiDescribeInstances ids filters (maxResults ids)) (@concat _) (listing_error "instances") None [].

Definition sdkDescribeInstanceTopology (ids : list string) : prog ec2Api (result (list InstanceTopology)) :=
  pages fuel None (ApiDescribeInstanceTopology ids) (λ l, l) (λ err, err) None [].

Definition sdkDescribeSecurityGroups (ids : list string) (filters : list Filter) :
    prog ec2Api (result (list SecurityGroup)) :=
  pages fuel (Some "describe_security_groups") (ApiDescribeSecurityGroups ids filters) (λ l, l) (listing_error "security groups") None [].

Definition sdkDescribeRouteTables (filters : list Filter) : prog ec2Api (result (list RouteTable)) :=
  pages fuel (Some "describe_route_tables") (ApiDescribeRouteTables filters) (λ l, l) (listing_error "route tables") None [].

Definition sdkDescribeSubnets (ids : list string) (filters : list Filter) : prog ec2Api (result (list Subnet)) :=
  let? response := call (Direct (DescribeSubnets ids filters)) else listing_error "subnets" in
  Ret (Ok response).

Definition sdkDescribeAvailabilityZones : prog ec2Api (result (list AvailabilityZone)) :=
  let? response := call (Direct DescribeAvailabilityZones) else listing_error "availability zones" in
  Ret (Ok response).

(** An operation that is passed on and records how it ended. *)
Definition sdkMetered (actionName : string) {R} (c : ec2E R) : prog ec2Api (result R) :=
  let! resp := call (Direct c) in
  let! _ := record (Some actionName) (match resp with Ok _ => None | Err err => Some err end) in
  Ret resp.

(** The client: every operation of the interface. *)
Definition awsSdkEC2 (R : Type) (c : ec2E R) : prog ec2Api (result R) :=
  match c with
  | DescribeInstances ids filters => sdkDescribeInstances ids filters
  | DescribeInstanceTopology ids => sdkDescribeInstanceTopology ids
  | DescribeSecurityGroups ids filters => sdkDescribeSecurityGroups ids filters
  | DescribeRouteTables filters => sdkDescribeRouteTables filters
  | DescribeSubnets ids filters => sdkDescribeSubnets ids filters
  | DescribeAvailabilityZones => sdkDescribeAvailabilityZones
  | DescribeNetworkInterfaces filters => sdkMetered "describe_network_interfaces" (DescribeNetworkInterfaces filters)
  | CreateTags resources tags => sdkMetered "create_tags" (CreateTags resources tags)
  | DeleteTags resources tags => sdkMetered "delete_tags" (DeleteTags resources tags)
  | c => call (Direct c)
  end.
End awsSdkEC2.

(** ** Metrics

    What the calls of a trace record, and what is to be recorded for the operations of the
    interface: each of the metered ones once, with its outcome. *)
Definition recordEvents (m : registry) (t : list (event ec2Api)) : registry :=
  foldl (λ m ev, match ev_call ev with
                 | RecordMetric actionName err => recordAWSMetric m actionName err
                 | _ => m
                 end) m t.

Definition metered {R} (c : ec2E R) : option string :=
  match c with
  | DescribeInstances _ _ => Some "describe_instance"
  | DescribeSecurityGroups _ _ => Some "describe_security_groups"
  | DescribeRouteTables _ => Some "describe_route_tables"
  | DescribeNetworkInterfaces _ => Some "describe_network_interfaces"
  | CreateTags _ _ => Some "create_tags"
  | DeleteTags _ _ => Some "delete_tags"
  | _ => None
  end.

Definition recorded {R} (actionName : option string) (r : result R) (m : registry) : registry :=
  match actionName with
  | Some actionName => recordAWSMetric m actionName (match r with Ok _ => None | Err err => Some err end)
  | None => m
  end.

Definition measured (m : registry) (t : list (event ec2E)) : registry :=
  foldl (λ m ev, recorded (metered (ev_call ev)) (ev_answer ev) m) m t.

(** ** A service that answers in pages

    [H] answers whole listings.  The service [h] gives the same answers in pages: from no
    token on, the pages of at most [N] tokens make up the listing or end in its error, and
    asking for them changes nothing. *)
Section service.
Context {S : Type}.

Inductive lists {P X} (h : handler ec2Api S) (request : option string → ec2Api (P * option string))
    (items : P → list X) (s : S) : nat → option string → result (list X) → Prop :=
  | lists_error n token err :
      h _ (request token) s = (Err err, s) → lists h request items s (Datatypes.S n) token (Err err)
  | lists_last n token page next :
      h _ (request token) s = (Ok (page, next), s) → ToString next = "" →
      lists h request items s (Datatypes.S n) token (Ok (items page))
  | lists_more n token page next r :
      h _ (request token) s = (Ok (page, next), s) → ToString next ≠ "" →
      lists h request items s n next r →
      lists h request items s (Datatypes.S n) token
        (match r with Ok rest => Ok (items page ++ rest) | Err err => Err err end).

(** The error of the interface for an error of the service. *)
Definition interface_error {R} (c : ec2E R) (err : error) : error :=
  match c with
  | DescribeInstances _ _ => listing_error "instances" err
  | DescribeSecurityGroups _ _ => listing_error "security groups" err
  | DescribeRouteTables _ => listing_error "route tables" err
  | DescribeSubnets _ _ => listing_error "subnets" err
  | DescribeAvailabilityZones => listing_error "availability zones" err
  | _ => err
  end.

Definition as_interface (H : handler ec2E S) : handler ec2E S :=
  λ R c s, let '(r, s') := H R c s in
           (match r with Ok a => Ok a | Err err => Err (interface_error c err) end, s').

Record serves (N : nat) (I : S → Prop) (h : handler ec2Api S) (H : handler ec2E S) : Prop := {
  serves_instances s ids filters : I s →
    lists h (ApiDescribeInstances ids filters (maxResults ids)) (@concat _) s N None
      (H _ (DescribeInstances ids filters) s).1 ∧ (H _ (DescribeInstances ids filters) s).2 = s;
  serves_topology s ids : I s →
    lists h (ApiDescribeInstanceTopology ids) (λ l, l) s N None
      (H _ (DescribeInstanceTopology ids) s).1 ∧ (H _ (DescribeInstanceTopology ids) s).2 = s;
  serves_groups s ids filters : I s →
    lists h (ApiDescribeSecurityGroups ids filters) (λ l, l) s N None
      (H _ (DescribeSecurityGroups ids filters) s).1 ∧ (H _ (DescribeSecurityGroups ids filters) s).2 = s;
  serves_tables s filters : I s →
    lists h (ApiDescribeRouteTables filters) (λ l, l) s N None
      (H _ (DescribeRouteTables filters) s).1 ∧ (H _ (DescribeRouteTables filters) s).2 = s;
  serves_direct R (c : ec2E R) s : I s → h R (Direct c) s = H R c s;
  serves_record actionName err s : I s → h _ (RecordMetric actionName err) s = (Ok tt, s);
  serves_invariant R (c : ec2E R) s : I s → I (H R c s).2
}.

Lemma run_record (h : handler ec2Api S) actionName err s t :
  (∀ actionName err, h _ (RecordMetric actionName err) s = (Ok tt, s)) →
  ∃ t', run h (record actionName err) s t = (Done tt, s, t') ∧
    ∀ m, recordEvents m t' = match actionName with Some a => recordAWSMetric (recordEvents m t) a err | None => recordEvents m t end.
Proof.
  intros Hh. destruct actionName as [a|]; cbn [record]; [|by eexists].
  rewrite run_bind. cbn [call run]. rewrite Hh. eexists. split; [done|]. intros m. unfold recordEvents. by rewrite foldl_app.
Qed.

Lemma run_pages {P X} (h : handler ec2Api S) actionName (request : option string → ec2Api (P * option string))
    (items : P → list X) wrapped s N token r fuel results t :
  (∀ actionName err, h _ (RecordMetric actionName err) s = (Ok tt, s)) →
  (∀ token m t r, recordEvents m (t ++ [Ev (request token) r]) = recordEvents m t) →
  lists h request items s N token r → N ≤ fuel →
  ∃ t', run h (pages fuel actionName request items wrapped token results) s t =
        (Done (match r with Ok l => Ok (results ++ l) | Err err => Err (wrapped err) end), s, t') ∧
        ∀ m, recordEvents m t' = recorded actionName r (recordEvents m t).
Proof.
  intros Hrec Hreq Hl. revert fuel results t.
  induction Hl as [n token err Hh|n token page next Hh Hn|n token page next r Hh Hn _ IH];
    intros [|fuel] results t Hf; try lia; cbn [pages call bind run]; rewrite Hh.
  - rewrite run_bind. destruct (run_record h actionName (Some err) s (t ++ [Ev (request token) (Err err)]) Hrec)
      as (t' & -> & Ht'). exists t'. split; [done|]. intros m. by rewrite Ht', Hreq.
  - apply String.eqb_eq in Hn. rewrite Hn. change (String.eqb "" "") with true. cbv iota. rewrite run_bind.
    destruct (run_record h actionName None s (t ++ [Ev (request token) (Ok (page, next))]) Hrec)
      as (t' & -> & Ht'). exists t'. split; [done|]. intros m. by rewrite Ht', Hreq.
  - apply String.eqb_neq in Hn. rewrite Hn.
    destruct (IH fuel (results ++ items page) (t ++ [Ev (request token) (Ok (page, next))])) as (t' & -> & Ht'); [lia|].
    exists t'. split; [destruct r; [|done]; by rewrite (assoc_L (++))|]. intros m. rewrite Ht', Hreq.
    unfold recorded. destruct actionName; [|done]. by destruct r.
Qed.

Lemma run_listing {P X} (h : handler ec2Api S) (H : handler ec2E S) (c : ec2E (list X))
    (request : option string → ec2Api (P * option string)) (items : P → list X) wrapped s N fuel t :
  (∀ actionName err, h _ (RecordMetric actionName err) s = (Ok tt, s)) →
  (∀ token m t r, recordEvents m (t ++ [Ev (request token) r]) = recordEvents m t) →
  lists h request items s N None (H _ c s).1 ∧ (H _ c s).2 = s →
  (∀ err, wrapped err = interface_error c err) → N ≤ fuel →
  ∃ t', run h (pages fuel (metered c) request items wrapped None []) s t =
        (Done (as_interface H _ c s).1, (as_interface H _ c s).2, t') ∧
        ∀ m, recordEvents m t' = recorded (metered c) (as_interface H _ c s).1 (recordEvents m t).
Proof.
  intros Hrec Hreq [Hl Es] Hw Hf.
  destruct (run_pages h (metered c) request items wrapped _ _ _ _ fuel [] t Hrec Hreq Hl Hf) as (t' & -> & Ht').
  exists t'. unfold as_interface. destruct (H _ c s) as [r s']; simpl in *; subst s'.
  split; [destruct r; [done|by rewrite Hw]|]. intros m. rewrite Ht'. unfold recorded. destruct (metered c); [|done]. by destruct r.
Qed.

Lemma recordEvents_other {R} (c : ec2Api R) r m t :
  match c with RecordMetric _ _ => False | _ => True end → recordEvents m (t ++ [Ev c r]) = recordEvents m t.
Proof. intros Hc. unfold recordEvents. rewrite foldl_app. by destruct c. Qed.

Lemma run_metered (h : handler ec2Api S) (H : handler ec2E S) actionName {R} (c : ec2E R) s t :
  (∀ actionName err, h _ (RecordMetric actionName err) (H _ c s).2 = (Ok tt, (H _ c s).2)) →
  h _ (Direct c) s = H _ c s → metered c = Some actionName → (∀ err, interface_error c err = err) →
  ∃ t', run h (sdkMetered actionName c) s t = (Done (as_interface H _ c s).1, (as_interface H _ c s).2, t') ∧
        ∀ m, recordEvents m t' = recorded (metered c) (as_interface H _ c s).1 (recordEvents m t).
Proof.
  intros Hrec Hdir Hm Herr. unfold sdkMetered. cbn [call bind run]. rewrite Hdir, Hm. unfold as_interface.
  destruct (H _ c s) as [r s'].
  destruct (run_record h (Some actionName) (match r with Ok _ => None | Err err => Some err end) s'
              (t ++ [Ev (Direct c) r]) Hrec) as (t' & Hr & Ht').
  exists t'. rewrite run_bind, Hr. split; [destruct r; [done|by rewrite Herr]|].
  intros m. rewrite Ht'. unfold recordEvents. rewrite foldl_app. by destruct r.
Qed.

Lemma run_awsSdkEC2 N I h H fuel {R} (c : ec2E R) s t :
  serves N I h H → N ≤ fuel → I s →
  ∃ t', run h (awsSdkEC2 fuel R c) s t = (Done (as_interface H R c s).1, (as_interface H R c s).2, t') ∧
        ∀ m, recordEvents m t' = recorded (metered c) (as_interface H R c s).1 (recordEvents m t).
Proof.
  intros Hv Hf Hs.
  assert (∀ actionName err, h _ (RecordMetric actionName err) s = (Ok tt, s)) as Hrec by (intros; by apply Hv).
  assert (∀ t m, recordEvents m (t ++ [Ev (Direct c) (H _ c s).1]) = recordEvents m t) as Hdir
    by (intros; unfold recordEvents; by rewrite foldl_app).
  destruct c;
    try (cbn [awsSdkEC2 call run]; rewrite (serves_direct _ _ _ _ Hv _ _ _ Hs); unfold as_interface;
         destruct (H _ _ s) as [ [a|err] s']; eexists; (split; [done|]); intros m; apply Hdir);
    try (eapply run_metered;
         [intros; by eapply serves_record, (serves_invariant _ _ _ _ Hv)|by eapply serves_direct|done|done]).
  - by apply (run_listing h H (DescribeInstances ids filters) (ApiDescribeInstances ids filters (maxResults ids))
             (@concat _) (listing_error "instances") s N); try done; intros; [apply recordEvents_other|eapply serves_instances].
  - by apply (run_listing h H (DescribeInstanceTopology ids) (ApiDescribeInstanceTopology ids)
                (λ l, l) (λ err, err) s N); try done; intros; [apply recordEvents_other|eapply serves_topology].
  - by apply (run_listing h H (DescribeSecurityGroups ids filters) (ApiDescribeSecurityGroups ids filters)
                (λ l, l) (listing_error "security groups") s N); try done; intros; [apply recordEvents_other|eapply serves_groups].
  - unfold awsSdkEC2, sdkDescribeSubnets, try_with. rewrite run_bind.
    cbn [call run]; rewrite (serves_direct _ _ _ _ Hv _ _ _ Hs); unfold as_interface.
    destruct (H _ _ s) as [ [a|err] s']; eexists; (split; [done|]); intros m; apply Hdir.
  - unfold awsSdkEC2, sdkDescribeAvailabilityZones, try_with. rewrite run_bind.
    cbn [call run]; rewrite (serves_direct _ _ _ _ Hv _ _ _ Hs); unfold as_interface.
    destruct (H _ _ s) as [ [a|err] s']; eexists; (split; [done|]); intros m; apply Hdir.
  - by apply (run_listing h H (DescribeRouteTables filters) (ApiDescribeRouteTables filters)
                (λ l, l) (listing_error "route tables") s N); try done; intros; [apply recordEvents_other|eapply serves_tables].
Qed.

(** C24: against a service that answers its listings in pages, of any sizes and under any
    tokens, every program over [iface.EC2] ends with the same result and leaves the service
    in the same state as against one that answers them whole: no page is lost, repeated or
    reordered, and the loops over the pages end.  Of the operations that are metered each is
    recorded once, with its outcome, however many pages it took. *)
Theorem awsSdkEC2_refines {A} N I h H fuel (p : prog ec2E A) s m :
  serves N I h H → N ≤ fuel → I s →
  let sdk := run h (translate (awsSdkEC2 fuel) p) s [] in
  let interface := run (as_interface H) p s [] in
  sdk.1 = interface.1 ∧ recordEvents m sdk.2 = measured m interface.2.
Proof.
  intros Hv Hf Hs. apply (run_translate _ _ _ I (λ t t0, recordEvents m t = measured m t0)); [|done..].
  intros R c s' t t0 Hs' Ht. destruct (run_awsSdkEC2 N I h H fuel c s' t Hv Hf Hs') as (t' & -> & Ht').
  exists t'. split; [done|]. split.
  - pose proof (serves_invariant _ _ _ _ Hv R c s' Hs'). unfold as_interface. by destruct (H R c s').
  - rewrite Ht', Ht. unfold measured. by rewrite foldl_app.
Qed.
End service.

(** ** A service with two pages of instances *)
Definition page_instance (id : string) : Instance_ :=
  mkInstance (Some id) "" None None None None [] [] None None None [].
Definition no_answer : error := APIError "InternalError" "api error InternalError".

Definition whole_service : handler ec2E unit :=
  λ R c s,
  match c in ec2E R return result R * unit with
  | DescribeInstances _ _ => (Ok [page_instance "i-1"; page_instance "i-2"], s)
  | _ => (Err no_answer, s)
  end.

Definition paged_service : handler ec2Api unit :=
  λ R c s,
  match c in ec2Api R return result R * unit with
  | ApiDescribeInstances _ _ _ token =>
     if String.eqb (ToString token) "" then (Ok ([ [page_instance "i-1"] ], Some "more"), s)
     else (Ok ([ []; [page_instance "i-2"] ], None), s)
  | Direct c => whole_service _ c s
  | RecordMetric _ _ => (Ok tt, s)
  | _ => (Err no_answer, s)
  end.

Lemma paged_service_serves : serves 2 (λ _, True) paged_service whole_service.
Proof.
  split; try (intros; split; [by apply lists_error|done]); [|done..].
  intros s ids filters _. split; [|done].
  set (request := ApiDescribeInstances ids filters (maxResults ids)).
  assert (lists paged_service request (@concat _) s 1 (Some "more") (Ok [page_instance "i-2"])) as Hlast
    by exact (lists_last paged_service request (@concat _) s 0 (Some "more") [ []; [page_instance "i-2"] ] None eq_refl eq_refl).
  exact (lists_more paged_service request (@concat _) s 1 None [ [page_instance "i-1"] ] (Some "more")
           (Ok [page_instance "i-2"]) eq_refl ltac:(done) Hlast).
Qed.

Lemma awsSdkEC2_refines_witness :
  let sdk := run paged_service (translate (awsSdkEC2 2) (call (DescribeInstances [] []))) tt [] in
  let interface := run (as_interface whole_service) (call (DescribeInstances [] [])) tt [] in
  sdk.1 = interface.1 ∧ recordEvents no_metrics sdk.2 = measured no_metrics interface.2.
Proof.
  apply (awsSdkEC2_refines 2 (λ _, True)); [exact paged_service_serves|lia|exact I].
Defined.

(** Two pages, one record. *)
Example listing_recorded :
  value (awsAPIMetric (recordEvents no_metrics
    (run paged_service (translate (awsSdkEC2 2) (call (DescribeInstances [] []))) tt []).2)) "describe_instance" = 1.
Proof. reflexivity. Qed.

(** The text of an error of a listing is kept, its code is not. *)
Example listing_error_code :
  AsAPIError (listing_error "instances" (APIError "InvalidInstanceID.NotFound" "api error InvalidInstanceID.NotFound: gone")) = None ∧
  Contains (Error (listing_error "instances" (APIError "InvalidInstanceID.NotFound" "api error InvalidInstanceID.NotFound: gone")))
    "InvalidInstanceID.NotFound" = true.
Proof. split; reflexivity. Qed.
