(* ===== verification/Startup.v ===== *)
(** * Start of the provider (aws.go, aws_sdk.go, aws_utils.go, aws_sts.go)

    From the configuration file to the provider: the region, the clients of the SDK with
    their shared delays, the instance the process runs on and the id of the cluster.  The
    calls are those of the metadata service, the loading of the default configuration of the
    SDK and the calls of the provider. *)

From S2P Require Import Prelude GoLib Float Effects AwsApi Tags Config Cloud Regex Instances Topology InstancesV2 Sdk Backoff.
From Stdlib Require Import Ascii.
Import Strings Errors.

(** ** Amazon Resource Names (aws-sdk-go-v2/aws/arn) *)
Record ARN := mkARN {
  arn_Partition : string;
  arn_Service : string;
  arn_Region : string;
  arn_AccountID : string;
  arn_Resource : string
}.

Definition Parse (arn : string) : result ARN :=
  if negb (HasPrefix arn "arn:") then Err (Errorf "arn: invalid prefix" []) else
  match SplitN arn ":" 6 with
  | [_; partition; service; region; account; resource] => Ok (mkARN partition service region account resource)
  | _ => Err (Errorf "arn: not enough sections" [])
  end.

Definition IsARN (arn : string) : bool := HasPrefix arn "arn:" && (6 <=? length (Split arn ":")).

Definition GetSourceAccount (roleARN : string) : result string :=
  if negb (IsARN roleARN) then Err (Errorf "incorrect ARN format for role %s" [roleARN]) else
  match Parse roleARN with
  | Err err => Err err
  | Ok parsedArn => Ok (arn_AccountID parsedArn)
  end.

(** ** Regions *)
Definition is_alpha_byte (c : ascii) : bool := is_upper c || is_lower c.

(** Of the pattern after [^]: the text matched at the beginning. *)
Definition FindPrefix (r : re) (s : string) : string :=
  match backtrack r s ∅ (λ rest _, Some (take (len s - len rest) s)) with
  | Some found => found
  | None => ""
  end.

Definition azPattern : re :=
  Cat (Plus (Group 1 (Cat (Plus (Cls is_alpha_byte)) (Lit "-")))) (Plus (Cls is_digit)).

Definition azToRegion (az : string) : result string :=
  if len az <? 1 then Err (Errorf "invalid (empty) AZ" []) else
  let region := FindPrefix azPattern az in
  if String.eqb region "" then Err (Errorf "invalid AZ: %s" [az]) else Ok region.

(** ** Calls *)
Inductive startE : Type → Type :=
  | LoadDefaultConfig : startE unit
  | GetInstanceIdentityDocument : startE unit
  | ImdsGetRegion : startE string
  | ImdsGetMetadata (path : string) : startE (result string)  (** and reading the content *)
  | ProviderCall {R} (c : awsE R) : startE R.

Definition provider_calls (R : Type) (c : awsE R) : prog startE (result R) := call (ProviderCall c).

(** A copy of the configuration gets the region of the metadata service. *)
Definition getRegionFromMetadata (cfg : CloudConfig) : prog startE (result string) :=
  if negb (String.eqb (cfg_Zone cfg) "") then Ret (azToRegion (cfg_Zone cfg)) else
  if negb (String.eqb (cfg_Region cfg) "") then Ret (Ok (cfg_Region cfg)) else
  let! region := call ImdsGetRegion in Ret (GetRegion cfg region).2.

(** ** The clients of the SDK (aws_sdk.go) *)

(** What distinguishes a client; [sc_delayer] is the delayer its requests go through. *)
Record sdkClient := mkSdkClient {
  sc_service : string;
  sc_region : string;
  sc_role : option string;  (** the role it assumes *)
  sc_signing : list (string * string);  (** signing names and regions *)
  sc_delayer : nat
}.

(** The provider keeps pointers to delayers by region; a delayer is the place in
    [ap_delayers], which holds the delayers made so far. *)
Record awsSDKProvider := mkSDKProvider {
  ap_cfg : CloudConfig;
  ap_regionDelayers : gmap string nat;
  ap_delayers : list Backoff
}.

Definition newAWSSDKProvider (cfg : CloudConfig) : awsSDKProvider := mkSDKProvider cfg ∅ [].

(** The delayer of a region: a new one where there is none yet. *)
Definition getCrossRequestRetryDelay (now : Z) (p : awsSDKProvider) (regionName : string) :
    awsSDKProvider * nat :=
  match ap_regionDelayers p !! regionName with
  | Some delayer => (p, delayer)
  | None =>
     let delayer := length (ap_delayers p) in
     (mkSDKProvider (ap_cfg p) (<[regionName := delayer]> (ap_regionDelayers p))
        (ap_delayers p ++ [NewCrossRequestRetryDelay now]), delayer)
  end.

Section start.
Context {GR : GoRange} (compile : string → option (string → bool))
  (describeInstanceBatcher : list string → prog awsE (result (list Instance_))) (now : Z).

(** The delayer the middleware added to a client goes through. *)
Definition AddMiddleware (p : awsSDKProvider) (regionName : string) : awsSDKProvider * nat :=
  getCrossRequestRetryDelay now p regionName.

Definition serviceClient (serviceID : string) (endpointOpts : gmap string Override → string → list (string * string))
    (p : awsSDKProvider) (regionName : string) (role : option string) :
    prog startE (result (sdkClient * awsSDKProvider)) :=
  let? _ := call LoadDefaultConfig else (λ err, Errorf "unable to initialize AWS config: %v" [Error err]) in
  let (p, delayer) := AddMiddleware p regionName in
  Ret (Ok (mkSdkClient serviceID regionName role
             (endpointOpts (cfg_ServiceOverride (ap_cfg p)) regionName) delayer, p)).

(** [Compute] is a command of Rocq. *)
Definition Compute_ := serviceClient "EC2" GetEC2EndpointOpts.
Definition LoadBalancing := serviceClient "Elastic Load Balancing" GetELBEndpointOpts.
Definition LoadBalancingV2 := serviceClient "Elastic Load Balancing v2" GetELBV2EndpointOpts.
Definition KeyManagement := serviceClient "KMS" GetKMSEndpointOpts.

(** The endpoints set on the metadata client. *)
Definition Metadata (p : awsSDKProvider) : prog startE (result (list string)) :=
  let? _ := call LoadDefaultConfig else (λ err, Errorf "unable to initialize AWS config: %v" [Error err]) in
  let! _ := call GetInstanceIdentityDocument in
  Ret (Ok (GetIMDSEndpointOpts (cfg_ServiceOverride (ap_cfg p)))).

(** ** The instance of the process *)
Definition buildSelfAWSInstance (selfAWSInstance : option awsInstance) : prog startE (result awsInstance) :=
  match selfAWSInstance with
  | Some _ => Panic "do not call buildSelfAWSInstance directly"
  | None =>
     let? instanceIDMetadata := call (ImdsGetMetadata "instance-id")
       else (λ err, Errorf "error fetching instance-id from ec2 metadata service: %q" [Error err]) in
     match instanceIDMetadata with
     | Err err => Ret (Err (Errorf "unable to parse instance id: %q" [Error err]))
     | Ok instanceID =>
        let? instance := translate provider_calls (getInstanceByID describeInstanceBatcher instanceID)
          else (λ err, Errorf "error finding instance %s: %q" [instanceID; Error err]) in
        let! instance := no_panic instance in
        Ret (Ok (newAWSInstance instance))
     end
  end.

(** The first interface that has a VPC. *)
Fixpoint firstVPC (macPaths : list string) : prog startE (result string) :=
  match macPaths with
  | [] => Ret (Err (Errorf "could not find VPC ID in instance metadata" []))
  | macPath :: macPaths =>
     if len macPath =? 0 then firstVPC macPaths else
     let! vpcIDMetadata := call (ImdsGetMetadata ("network/interfaces/macs/" +:+ macPath +:+ "vpc-id")) in
     match vpcIDMetadata with
     | Ok (Ok vpcID) => Ret (Ok vpcID)
     | _ => firstVPC macPaths
     end
  end.

Definition findVPCID : prog startE (result string) :=
  let? macsMetadata := call (ImdsGetMetadata "network/interfaces/macs/")
    else (λ err, Errorf "could not list interfaces of the instance: %q" [Error err]) in
  match macsMetadata with
  | Err err => Ret (Err (Errorf "unable to parse macs: %q" [Error err]))
  | Ok macs => firstVPC (Split macs "010")
  end.

(** ** The provider *)
Definition with_families (cfg : CloudConfig) (families : list string) : CloudConfig :=
  mkCloudConfig (cfg_Zone cfg) (cfg_Region cfg) (cfg_VPC cfg) (cfg_SubnetID cfg) (cfg_RouteTableID cfg)
    (cfg_RoleARN cfg) (cfg_SourceARN cfg) (cfg_KubernetesClusterTag cfg) (cfg_KubernetesClusterID cfg)
    (cfg_DisableSecurityGroupIngress cfg) (cfg_ElbSecurityGroup cfg) families (cfg_HealthProbeMode cfg)
    (cfg_HealthProbePort cfg) (cfg_HealthProbePath cfg) (cfg_SupportedTopologyInstanceTypePattern cfg)
    (cfg_NLBSecurityGroupMode cfg) (cfg_ServiceOverride cfg).

Definition with_overrides (cfg : CloudConfig) (overrides : gmap string Override) : CloudConfig :=
  mkCloudConfig (cfg_Zone cfg) (cfg_Region cfg) (cfg_VPC cfg) (cfg_SubnetID cfg) (cfg_RouteTableID cfg)
    (cfg_RoleARN cfg) (cfg_SourceARN cfg) (cfg_KubernetesClusterTag cfg) (cfg_KubernetesClusterID cfg)
    (cfg_DisableSecurityGroupIngress cfg) (cfg_ElbSecurityGroup cfg) (cfg_NodeIPFamilies cfg) (cfg_HealthProbeMode cfg)
    (cfg_HealthProbePort cfg) (cfg_HealthProbePath cfg) (cfg_SupportedTopologyInstanceTypePattern cfg)
    (cfg_NLBSecurityGroupMode cfg) overrides.

(** The cluster is named in the configuration. *)
Definition tagged (cfg : CloudConfig) : bool :=
  negb (String.eqb (cfg_KubernetesClusterTag cfg) "") || negb (String.eqb (cfg_KubernetesClusterID cfg) "").

(** The process runs outside of the account of the nodes. *)
Definition elsewhere (cfg : CloudConfig) : bool :=
  negb (String.eqb (cfg_VPC cfg) "") &&
  (negb (String.eqb (cfg_SubnetID cfg) "") || negb (String.eqb (cfg_RoleARN cfg) "")) && tagged cfg.

(** The provider that was started, with its topology manager and its clients. *)
Record started := mkStarted {
  st_cloud : Cloud;
  st_topology : instanceTopologyManager;
  st_clients : list sdkClient;
  st_provider : awsSDKProvider
}.

(** [awsCloud.tagging], from the configuration or the tags of the instance. *)
Definition initTagging (cfg : CloudConfig) (self : awsInstance) : prog startE (result awsTagging) :=
  let answer (r : awsTagging * result unit) := match r with (t, Ok _) => Ok t | (_, Err err) => Err err end in
  if tagged cfg then
    Ret (answer (init (mkTagging "" false) (cfg_KubernetesClusterTag cfg) (cfg_KubernetesClusterID cfg)))
  else
    let? info := translate provider_calls (describeInstance (aw_awsID self)) in
    Ret (answer (initFromTags (mkTagging "" false) (i_Tags info))).

Definition newAWSCloud2 (cfg : CloudConfig) (p : awsSDKProvider) (credentials : option string) :
    prog startE (result started) :=
  let? _ := Metadata p else (λ err, Errorf "error creating AWS metadata client: %q" [Error err]) in
  let? regionName := getRegionFromMetadata cfg in
  let? (ec2, p) := Compute_ p regionName credentials
    else (λ err, Errorf "error creating AWS EC2 client: %v" [Error err]) in
  let? (elb, p) := LoadBalancing p regionName credentials
    else (λ err, Errorf "error creating AWS ELB client: %v" [Error err]) in
  let? (elbv2, p) := LoadBalancingV2 p regionName credentials
    else (λ err, Errorf "error creating AWS ELBV2 client: %v" [Error err]) in
  let? (kms, p) := KeyManagement p regionName credentials
    else (λ err, Errorf "error creating AWS key management client: %v" [Error err]) in
  let! topology := no_panic (NewInstanceTopologyManager compile cfg) in
  let? (self, vpcID) :=
    (if elsewhere cfg then
       Ret (Ok (mkAwsInstance "" "master-dummy" "" (cfg_VPC cfg) (cfg_SubnetID cfg) "", cfg_VPC cfg))
     else let? self := buildSelfAWSInstance None in Ret (Ok (self, aw_vpcID self))) in
  let? tagging := initTagging cfg self in
  let cfg := match cfg_NodeIPFamilies cfg with [] => with_families cfg ["ipv4"] | _ => cfg end in
  Ret (Ok (mkStarted (mkCloud cfg regionName vpcID tagging self) topology [ec2; elb; elbv2; kms] p)).

(** The instance of a node, or that of the process. *)
Definition getFullInstance (odd_authority : string → bool) (nodeInformer : informer) (c : Cloud) (nodeName : string) :
    prog awsE (result (awsInstance * option Instance_)) :=
  if String.eqb nodeName "" then
    let? instance := getInstanceByID describeInstanceBatcher (aw_awsID (c_selfAWSInstance c)) in
    Ret (Ok (c_selfAWSInstance c, instance))
  else
    let? instance := getInstanceByNodeName odd_authority describeInstanceBatcher c nodeInformer nodeName in
    Ret (Ok (newAWSInstance instance, Some instance)).

(** [CurrentNodeName] *)
Definition CurrentNodeName (c : Cloud) (hostname : string) : result string :=
  Ok (aw_nodeName (c_selfAWSInstance c)).

(** ** From the configuration file

    [ReadInto] is the parser of the file (gcfg). *)
Context (ReadInto : string → result CloudConfig).

Definition readAWSCloudConfig (cloudConfig : option string) : result CloudConfig :=
  match cloudConfig with
  | Some text => ReadInto text
  | None => Ok empty_config
  end.

(** The client of STS: its region and the headers its requests carry. *)
Record stsClient := mkStsClient { sts_region : string; sts_headers : gmap string string }.

Definition NewStsClient (region roleARN sourceARN : string) : prog startE (result stsClient) :=
  let? _ := call LoadDefaultConfig in
  match Parse roleARN with
  | Err err => Ret (Err err)
  | Ok parsedSourceArn =>
     let reqHeaders := {["x-amz-source-account" := arn_AccountID parsedSourceArn]} in
     Ret (Ok (mkStsClient region
       (if negb (String.eqb sourceARN "") then <["x-amz-source-arn" := sourceARN]> reqHeaders else reqHeaders)))
  end.

(** The function registered for the provider. *)
Definition newProvider (config : option string) : prog startE (result started) :=
  match readAWSCloudConfig config with
  | Err err => Ret (Err (Errorf "unable to read AWS cloud provider config file: %v" [Error err]))
  | Ok cfg =>
     let '(overrides, valid) := ValidateOverrides (cfg_ServiceOverride cfg) in
     let cfg := with_overrides cfg overrides in
     match valid with
     | Err err => Ret (Err (Errorf "unable to validate custom endpoint overrides: %v" [Error err]))
     | Ok _ =>
        let? _ := Metadata (newAWSSDKProvider cfg)
          else (λ err, Errorf "error creating AWS metadata client: %q" [Error err]) in
        let? regionName := getRegionFromMetadata cfg in
        let? creds :=
          (if negb (String.eqb (cfg_RoleARN cfg) "") then
             let? _ := NewStsClient regionName (cfg_RoleARN cfg) (cfg_SourceARN cfg)
               else (λ err, Errorf "unable to create sts v2 client: %v" [Error err]) in
             Ret (Ok (Some (cfg_RoleARN cfg)))
           else Ret (Ok None)) in
        newAWSCloud2 cfg (newAWSSDKProvider cfg) creds
     end
  end.
End start.
