(* ===== verification/StartupFacts.v ===== *)
(** * What a started provider is (proofs about Startup.v) *)

From S2P Require Import Prelude GoLib Float Effects AwsApi Tags Config Cloud Regex Instances InstanceFacts Lookup Topology InstancesV2 Sdk Backoff Startup.
From Stdlib Require Import Ascii.
Import Strings Errors.

(** ** The region of a zone *)

(** The class does not go on. *)
Definition stops (f : ascii → bool) (s : string) : Prop :=
  match s with EmptyString => True | String c _ => f c = false end.

Lemma len_app_string (c : ascii) s : len (String c s) = S (len s).
Proof. done. Qed.

(** A repeated class takes all its bytes. *)
Lemma backtrack_star_class {A} f u s c (k : string → captures → option A) x :
  all_bytes f u = true → stops f s → k s c = Some x →
  backtrack (Star (Cls f)) (u +:+ s) c k = Some x.
Proof.
  intros Hu Hs Hk. cbn [backtrack].
  enough (∀ n, len (u +:+ s) ≤ n → repeat_ (backtrack (Cls f)) k n (u +:+ s) c = Some x) by auto.
  induction u as [|b u IH]; intros n Hn.
  - change ("" +:+ s) with s in *. destruct n as [|n]; cbn [repeat_]; [done|].
    destruct s as [|b t]; cbn [backtrack]; [done|]. simpl in Hs. by rewrite Hs.
  - change (f b && all_bytes f u = true) in Hu. apply andb_true_iff in Hu as [Hb Hu].
    change (String b u +:+ s) with (String b (u +:+ s)) in *. rewrite len_app_string in Hn.
    destruct n as [|n]; [lia|]. cbn [repeat_ backtrack]. rewrite Hb, len_app_string.
    destruct (Nat.ltb_spec (len (u +:+ s)) (S (len (u +:+ s)))); [|lia]. rewrite IH; [done|done|lia].
Qed.

Lemma backtrack_plus_class {A} f u s c (k : string → captures → option A) x :
  u ≠ "" → all_bytes f u = true → stops f s → k s c = Some x →
  backtrack (Plus (Cls f)) (u +:+ s) c k = Some x.
Proof.
  destruct u as [|b u]; [done|]. intros _ Hu Hs Hk.
  change (f b && all_bytes f u = true) in Hu. apply andb_true_iff in Hu as [Hb Hu].
  change (String b u +:+ s) with (String b (u +:+ s)). unfold Plus.
  change (backtrack (Cat (Cls f) (Star (Cls f))) (String b (u +:+ s)) c k) with
    (if f b then backtrack (Star (Cls f)) (u +:+ s) c k else None).
  rewrite Hb. by apply backtrack_star_class.
Qed.

Abbreviation azWord := (Group 1 (Cat (Plus (Cls is_alpha_byte)) (Lit "-"))).

Lemma backtrack_word {A} w s c (k : string → captures → option A) x :
  w ≠ "" → all_bytes is_alpha_byte w = true → (∀ c, k s c = Some x) →
  backtrack azWord (w +:+ "-" +:+ s) c k = Some x.
Proof.
  intros Hw Ha Hk.
  change (backtrack (Plus (Cls is_alpha_byte)) (w +:+ "-" +:+ s) c
    (λ s0 c0, backtrack (Lit "-") s0 c0
      (λ s' c1, k s' (<[1 := take (len (w +:+ "-" +:+ s) - len s') (w +:+ "-" +:+ s)]> c1))) = Some x).
  apply backtrack_plus_class; [done|done|done|]. simpl. apply Hk.
Qed.

(** No word begins here. *)
Lemma backtrack_no_word {A} s c (k : string → captures → option A) :
  stops is_alpha_byte s → backtrack azWord s c k = None.
Proof. destruct s as [|b s]; [done|]. simpl. intros E. by rewrite E. Qed.

Definition az_words (words : list string) : string := foldr (λ w s, w +:+ "-" +:+ s) "" words.

Definition az_word (w : string) : Prop := w ≠ "" ∧ all_bytes is_alpha_byte w = true.

Lemma az_words_cons w words s : az_words (w :: words) +:+ s = w +:+ "-" +:+ (az_words words +:+ s).
Proof.
  change ((w +:+ "-" +:+ az_words words) +:+ s = w +:+ "-" +:+ (az_words words +:+ s)).
  by rewrite !app_assoc_s.
Qed.

Lemma backtrack_words {A} words s c (k : string → captures → option A) x :
  Forall az_word words → stops is_alpha_byte s → (∀ c, k s c = Some x) →
  backtrack (Star azWord) (az_words words +:+ s) c k = Some x.
Proof.
  intros Hw Hs Hk. cbn [backtrack].
  enough (∀ n c, len (az_words words +:+ s) ≤ n →
    repeat_ (backtrack azWord) k n (az_words words +:+ s) c = Some x) by auto.
  induction Hw as [|w words [Hne Ha] _ IH]; intros n c' Hn.
  - change (az_words [] +:+ s) with s in *. destruct n as [|n]; cbn [repeat_]; [done|].
    by rewrite backtrack_no_word.
  - rewrite az_words_cons in Hn |- *. rewrite !len_app in Hn. change (len "-") with 1 in Hn.
    destruct n as [|n]; [lia|]. cbn [repeat_].
    erewrite (backtrack_word w _ c' _ x); [done|done|done|].
    intros c''. rewrite !len_app. change (len "-") with 1.
    case_match eqn:E; [by apply IH; rewrite len_app; lia|]. apply Nat.ltb_ge in E. lia.
Qed.

Lemma take_app_s u s : take (len (u +:+ s) - len s) (u +:+ s) = u.
Proof. apply take_consumed. Qed.

(** The region of an availability zone, and of a local zone, is its name up to the first
    number: words of letters that each end in a dash, and digits; what follows the digits
    is dropped. *)
Theorem azToRegion_exact words digits suffix :
  words ≠ [] → Forall az_word words → digits ≠ "" → all_bytes is_digit digits = true →
  stops is_digit suffix →
  azToRegion (az_words words +:+ digits +:+ suffix) = Ok (az_words words +:+ digits).
Proof.
  intros Hne Hw Hd Hdig Hstop. destruct words as [|w words]; [done|].
  apply Forall_cons in Hw as [[Hwne Hwa] Hw]. set (az := az_words (w :: words) +:+ digits +:+ suffix).
  assert (stops is_alpha_byte (digits +:+ suffix)) as Hnum.
  { destruct digits as [|b digits]; [done|]. simpl. change (is_digit b && all_bytes is_digit digits = true) in Hdig.
    apply andb_true_iff in Hdig as [Hb _]. revert Hb. unfold is_digit, is_alpha_byte, is_upper, is_lower.
    generalize (nat_of_ascii b). intros n. rewrite !andb_true_iff, orb_false_iff, !andb_false_iff, !Nat.leb_le, !Nat.leb_gt. lia. }
  assert (FindPrefix azPattern az = az_words (w :: words) +:+ digits) as E.
  { unfold FindPrefix.
    assert (backtrack azPattern az ∅ (λ rest _, Some (take (len az - len rest) az)) =
            Some (az_words (w :: words) +:+ digits)) as ->; [|done].
    change (backtrack azWord az ∅ (λ s c, backtrack (Star azWord) s c (λ s c,
              backtrack (Plus (Cls is_digit)) s c (λ rest _, Some (take (len az - len rest) az)))) = 
            Some (az_words (w :: words) +:+ digits)).
    unfold az at 1. rewrite az_words_cons. apply backtrack_word; [done|done|]. intros c.
    apply backtrack_words; [done|done|]. intros c'.
    apply backtrack_plus_class; [done|done|done|]. f_equal. unfold az.
    rewrite <-app_assoc_s. apply take_consumed. }
  assert (az_words (w :: words) +:+ digits ≠ "") as Hnn.
  { rewrite az_words_cons. destruct w; [done|]. discriminate. }
  unfold azToRegion. rewrite E. destruct (String.eqb_spec (az_words (w :: words) +:+ digits) ""); [done|].
  destruct (Nat.ltb_spec (len az) 1) as [H|]; [|done].
  exfalso. unfold az in H. rewrite <-app_assoc_s, len_app in H.
  destruct (az_words (w :: words) +:+ digits); [done|]. rewrite len_app_string in H. lia.
Qed.

Lemma azToRegion_exact_witness :
  azToRegion (az_words ["us"; "east"] +:+ "1" +:+ "-bos-1a") = Ok (az_words ["us"; "east"] +:+ "1").
Proof. by apply azToRegion_exact; [|repeat constructor| | |]. Defined.

(** ** The started provider *)

(** The call only reads. *)
Definition readonly_start {R} (c : startE R) : bool :=
  match c with ProviderCall c => readonly c | _ => true end.

(** A region the metadata service answered. *)
Definition region_answer (ev : event startE) : option string :=
  match ev_call ev in startE R return result R → option string with
  | ImdsGetRegion => λ r, match r with Ok region => Some region | Err _ => None end
  | _ => λ _, None
  end (ev_answer ev).

(** EC2 was asked for [id], alone or among others, and listed [i] under it. *)
Definition provider_has (t : list (event startE)) (id : string) (i : Instance_) : Prop :=
  ∃ ids filters l, Ev (ProviderCall (EC2 (DescribeInstances ids filters))) (Ok l) ∈ t ∧ id ∈ ids ∧
    i ∈ l ∧ ToString (i_InstanceId i) = id.

Definition chosen_region (cfg : CloudConfig) (t : list (event startE)) (region : string) : Prop :=
  if negb (String.eqb (cfg_Zone cfg) "") then azToRegion (cfg_Zone cfg) = Ok region
  else if negb (String.eqb (cfg_Region cfg) "") then region = cfg_Region cfg
  else ∃ ev, ev ∈ t ∧ region_answer ev = Some region.

Section start.
Context {GR : GoRange} (compile : string → option (string → bool))
  (describeInstanceBatcher : list string → prog awsE (result (list Instance_))) (now : Z).

(** The place of the provider: the configured VPC, or the instance the metadata service
    named and its VPC. *)
Definition placed (cfg : CloudConfig) (t : list (event startE)) (self : awsInstance) (vpcID : string) : Prop :=
  if elsewhere cfg then vpcID = cfg_VPC cfg ∧ aw_awsID self = ""
  else vpcID = aw_vpcID self ∧ Ev (ImdsGetMetadata "instance-id") (Ok (Ok (aw_awsID self))) ∈ t.

(** The VPC and the subnet are those EC2 lists for the instance. *)
Definition listed_at (t : list (event startE)) (self : awsInstance) (vpcID : string) : Prop :=
  ∃ i, provider_has t (aw_awsID self) i ∧ vpcID = ToString (i_VpcId i) ∧
    aw_vpcID self = ToString (i_VpcId i) ∧ aw_subnetID self = ToString (i_SubnetId i).

Record ready (cfg : CloudConfig) (role : option string) (t : list (event startE)) (st : started) : Prop := {
  ready_region : chosen_region cfg t (c_region (st_cloud st));
  ready_place : placed cfg t (c_selfAWSInstance (st_cloud st)) (c_vpcID (st_cloud st));
  ready_cluster : ClusterID (c_tagging (st_cloud st)) ≠ "";
  ready_named : tagged cfg = true →
    ClusterID (c_tagging (st_cloud st)) =
    if String.eqb (cfg_KubernetesClusterTag cfg) "" then cfg_KubernetesClusterID cfg else cfg_KubernetesClusterTag cfg;
  ready_families : cfg_NodeIPFamilies (c_cfg (st_cloud st)) ≠ [];
  ready_overrides : cfg_ServiceOverride (c_cfg (st_cloud st)) = cfg_ServiceOverride cfg;
  ready_clients : sc_service <$> st_clients st =
    ["EC2"; "Elastic Load Balancing"; "Elastic Load Balancing v2"; "KMS"];
  ready_located : Forall (λ client, sc_region client = c_region (st_cloud st) ∧ sc_role client = role)
    (st_clients st);
  ready_shared : ∃ delayer, Forall (λ client, sc_delayer client = delayer) (st_clients st) ∧
    ap_regionDelayers (st_provider st) = {[c_region (st_cloud st) := delayer]} ∧
    ap_delayers (st_provider st) !! delayer = Some (NewCrossRequestRetryDelay now)
}.

Lemma chosen_mono cfg t u region : chosen_region cfg t region → chosen_region cfg (t ++ u) region.
Proof.
  unfold chosen_region. repeat case_match; [done..|]. intros (ev & Hin & Hev). exists ev. split; [set_solver|done].
Qed.

Lemma provider_has_app t u id i : provider_has t id i → provider_has (t ++ u) id i.
Proof. intros (ids & fs & l & Hin & H). exists ids, fs, l. split; [set_solver|done]. Qed.

Lemma placed_mono cfg t u self vpcID : placed cfg t self vpcID → placed cfg (t ++ u) self vpcID.
Proof. unfold placed. case_match; [done|]. intros [E Hin]. split; [done|set_solver]. Qed.

Lemma listed_at_app t u self vpcID : listed_at t self vpcID → listed_at (t ++ u) self vpcID.
Proof. intros (i & Hi & Hrest). exists i. split; [by apply provider_has_app|done]. Qed.

(** Reading calls of the provider stay reading calls. *)
Lemma provider_reads {A} (p : prog awsE A) :
  all_calls (λ ev, readonly (ev_call ev) = true) p →
  all_calls (λ ev, readonly_start (ev_call ev) = true) (translate provider_calls p).
Proof. apply all_calls_translate. intros R c r H r'. by split. Qed.

Lemma getInstanceByID_reads id :
  (∀ ids, all_calls (λ ev, readonly (ev_call ev) = true) (describeInstanceBatcher ids)) →
  all_calls (λ ev, readonly (ev_call ev) = true) (getInstanceByID describeInstanceBatcher id).
Proof.
  intros Hb. unfold getInstanceByID, getInstancesByIDs. cbn [length Nat.eqb].
  repeat first [apply Hb | calls_step].
Qed.

Lemma newAWSCloud2_reads cfg p role :
  (∀ ids, all_calls (λ ev, readonly (ev_call ev) = true) (describeInstanceBatcher ids)) →
  all_calls (λ ev, readonly_start (ev_call ev) = true) (newAWSCloud2 compile describeInstanceBatcher now cfg p role).
Proof.
  intros Hb. unfold newAWSCloud2, Metadata, getRegionFromMetadata, Compute_, LoadBalancing, LoadBalancingV2,
    KeyManagement, serviceClient, buildSelfAWSInstance, initTagging, describeInstance.
  repeat first [apply provider_reads; [apply getInstanceByID_reads, Hb] | apply provider_reads
               | apply calls_ec2 | (split; [done|]) | calls_step]; try done.
Qed.

(** The calls of the provider as calls of the start. *)
Definition provider_event (ev : event awsE) : event startE := Ev (ProviderCall (ev_call ev)) (ev_answer ev).

Lemma wp_provider {A} (p : prog awsE A) (Q : list (event awsE) → outcome A → Prop) t :
  wp p Q [] → wp (translate provider_calls p) (λ t' o, ∃ v, t' = t ++ (provider_event <$> v) ∧ Q v o) t.
Proof.
  enough (∀ u, wp p Q u → wp (translate provider_calls p)
    (λ t' o, ∃ v, t' = t ++ (provider_event <$> v) ∧ Q v o) (t ++ (provider_event <$> u))) as H.
  { intros Hp. specialize (H [] Hp). by rewrite app_nil_r in H. }
  induction p as [a|w|R c k IH]; cbn [translate provider_calls call bind wp]; intros u H; [by exists u..|].
  intros r. specialize (IH r _ (H r)). by rewrite fmap_app, (assoc_L (++)) in IH.
Qed.

Lemma ec2_has_provider v t id i : ec2_has v id i → provider_has (t ++ (provider_event <$> v)) id i.
Proof.
  intros (ids & fs & l & Hin & H). exists ids, fs, l. split; [|done]. apply elem_of_app. right.
  apply list_elem_of_fmap. exists (Ev (EC2 (DescribeInstances ids fs)) (Ok l)). by split.
Qed.

(** The instance found for an id has this id. *)
Lemma found_has_id id t :
  wp (getInstanceByID describeInstanceBatcher id)
    (λ _ o, ∀ i, o = Done (Ok (Some i)) → ToString (i_InstanceId i) = id) t.
Proof.
  unfold getInstanceByID, getInstancesByIDs. cbn [length Nat.eqb]. rewrite wp_bind, wp_try.
  apply wp_always. intros t' [ [l|e]|w]; cbn [wp andThen]; [|done..].
  destruct (size _ =? 0); [done|]. destruct (1 <? size _); [done|]. cbn [wp]. intros i [= E].
  apply byID_source in E as [E|(_ & E & _)]; [|done]. by rewrite lookup_empty in E.
Qed.

Lemma wp_impl {E A} (p : prog E A) (P : Prop) (Q : list (event E) → outcome A → Prop) t :
  (P → wp p Q t) → wp p (λ t' o, P → Q t' o) t.
Proof. revert t. induction p as [a|w|R c k IH]; cbn [wp]; intros t H; auto. Qed.

Definition self_found (t : list (event startE)) (o : outcome (result awsInstance)) : Prop :=
  match o with
  | Done (Ok self) => Ev (ImdsGetMetadata "instance-id") (Ok (Ok (aw_awsID self))) ∈ t ∧
      (describes describeInstanceBatcher → listed_at t self (aw_vpcID self))
  | _ => True
  end.

Lemma wp_buildSelf t :
  wp (buildSelfAWSInstance describeInstanceBatcher None) (λ t' o, (∃ u, t' = t ++ u) ∧ self_found t' o) t.
Proof.
  apply (wp_extends (buildSelfAWSInstance describeInstanceBatcher None)).
  unfold buildSelfAWSInstance. rewrite wp_try_with. cbn [call wp]. intros [ [id|e]|e]; [|done..].
  rewrite wp_try_with. eapply wp_mono; [apply wp_provider, wp_and; [apply found_has_id|apply wp_impl; intros Hb;
    by apply (wp_getInstanceByID describeInstanceBatcher Hb id)]|].
  intros t' [ [ [i|]|e]|w] (v & -> & Hid & Hi); try done. cbn [no_panic wp self_found bind newAWSInstance aw_awsID].
  unfold listed_at. change (aw_awsID (newAWSInstance i)) with (ToString (i_InstanceId i)).
  rewrite (Hid i eq_refl). split; [set_solver|]. intros [_ H]%Hi. exists i. split; [|done]. by apply ec2_has_provider, H.
Qed.

Lemma init_named tag id t' :
  init (mkTagging "" false) tag id = (t', Ok tt) →
  ClusterID t' ≠ "" ∧ ClusterID t' = if String.eqb tag "" then id else tag.
Proof.
  unfold init. destruct (String.eqb_spec tag "") as [->|Ht]; cbn [negb andb].
  - destruct (String.eqb_spec id ""); [done|]. by intros [= <-].
  - case_match; [done|]. destruct (String.eqb_spec tag ""); [done|]. by intros [= <-].
Qed.

Definition tagging_named (cfg : CloudConfig) (o : outcome (result awsTagging)) : Prop :=
  match o with
  | Done (Ok tagging) => ClusterID tagging ≠ "" ∧
     (tagged cfg = true → ClusterID tagging =
        if String.eqb (cfg_KubernetesClusterTag cfg) "" then cfg_KubernetesClusterID cfg else cfg_KubernetesClusterTag cfg)
  | _ => True
  end.

Lemma wp_initTagging cfg self t :
  wp (initTagging cfg self) (λ t' o, (∃ u, t' = t ++ u) ∧ tagging_named cfg o) t.
Proof.
  apply (wp_extends (initTagging cfg self) (λ _, tagging_named cfg)).
  unfold initTagging, tagging_named. destruct (tagged cfg) eqn:Et.
  - cbn [wp]. destruct (init _ _ _) as [t' [ [] |e] ] eqn:Ei; [|done]. by apply init_named in Ei as [? ?].
  - rewrite wp_try. apply wp_always. intros t' [ [i|e]|w]; [|done..]. cbn [wp].
    unfold initFromTags. destruct (findClusterIDs (i_Tags i)) as [ [legacy new]|e]; [|done].
    destruct (init _ _ _) as [t'' [ [] |e] ] eqn:Ei; [|done]. by apply init_named in Ei as [? ?].
Qed.

(** A client of a service, or an error. *)
Lemma wp_serviceClient id opts p region role (Q : list (event startE) → outcome (result (sdkClient * awsSDKProvider)) → Prop) t :
  (∀ ev client, sc_service client = id → sc_region client = region → sc_role client = role →
     sc_delayer client = (AddMiddleware now p region).2 →
     Q (t ++ [ev]) (Done (Ok (client, (AddMiddleware now p region).1)))) →
  (∀ t' e, Q t' (Done (Err e))) →
  wp (serviceClient now id opts p region role) Q t.
Proof.
  intros Hok Herr. unfold serviceClient. rewrite wp_try_with. cbn [call wp]. intros [ []|e]; [|apply Herr].
  destruct (AddMiddleware now p region) as [p' delayer]. by apply Hok.
Qed.

(** The provider has one delayer, that of the region. *)
Definition one_delayer (p : awsSDKProvider) (region : string) : Prop :=
  ap_regionDelayers p = {[region := 0]} ∧ ap_delayers p = [NewCrossRequestRetryDelay now].

Lemma AddMiddleware_first cfg region :
  one_delayer (AddMiddleware now (newAWSSDKProvider cfg) region).1 region ∧
  (AddMiddleware now (newAWSSDKProvider cfg) region).2 = 0.
Proof. unfold AddMiddleware, getCrossRequestRetryDelay. cbn [newAWSSDKProvider ap_regionDelayers]. by rewrite lookup_empty. Qed.

Lemma AddMiddleware_again p region :
  one_delayer p region →
  one_delayer (AddMiddleware now p region).1 region ∧ (AddMiddleware now p region).2 = 0.
Proof.
  intros [E1 E2]. unfold AddMiddleware, getCrossRequestRetryDelay. rewrite E1, lookup_singleton_eq. by repeat split.
Qed.

Lemma wp_getRegion cfg (Q : list (event startE) → outcome (result string) → Prop) t :
  (∀ u region, chosen_region cfg (t ++ u) region → Q (t ++ u) (Done (Ok region))) →
  (∀ t' e, Q t' (Done (Err e))) →
  wp (getRegionFromMetadata cfg) Q t.
Proof.
  unfold chosen_region, getRegionFromMetadata. intros Hok Herr.
  destruct (String.eqb (cfg_Zone cfg) ""); cbn [negb] in *.
  - destruct (String.eqb (cfg_Region cfg) "") eqn:Er; cbn [negb] in *.
    + rewrite wp_bind. cbn [call wp andThen]. unfold GetRegion. rewrite Er. cbn [negb].
      intros [region|e]; [|apply Herr]. apply Hok. eexists. split; [apply snoc_elem|done].
    + cbn [wp]. specialize (Hok [] (cfg_Region cfg) eq_refl). by rewrite app_nil_r in Hok.
  - cbn [wp]. destruct (azToRegion (cfg_Zone cfg)) as [region|e]; [|apply Herr].
    specialize (Hok [] region eq_refl). by rewrite app_nil_r in Hok.
Qed.

(** A provider on an instance is where EC2 lists this instance. *)
Definition hosted (cfg : CloudConfig) (t : list (event startE)) (st : started) : Prop :=
  describes describeInstanceBatcher → elsewhere cfg = false →
  listed_at t (c_selfAWSInstance (st_cloud st)) (c_vpcID (st_cloud st)).

Definition ready_or_error (cfg : CloudConfig) (role : option string) (t : list (event startE))
    (o : outcome (result started)) : Prop :=
  match o with Done (Ok st) => ready cfg role t st ∧ hosted cfg t st | _ => True end.

Lemma wp_Metadata p (Q : list (event startE) → outcome (result (list string)) → Prop) t :
  (∀ u endpoints, Q (t ++ u) (Done (Ok endpoints))) → (∀ t' e, Q t' (Done (Err e))) → wp (Metadata p) Q t.
Proof.
  intros Hok Herr. unfold Metadata. rewrite wp_try_with. cbn [call wp]. intros [ []|e]; [|apply Herr].
  rewrite wp_bind. cbn [call wp andThen]. intros r. rewrite <-(assoc_L (++)). apply Hok.
Qed.

(** Where the provider is, and its VPC. *)
Lemma wp_place cfg t :
  wp (if elsewhere cfg then
        Ret (Ok (mkAwsInstance "" "master-dummy" "" (cfg_VPC cfg) (cfg_SubnetID cfg) "", cfg_VPC cfg))
      else let? self := buildSelfAWSInstance describeInstanceBatcher None in Ret (Ok (self, aw_vpcID self)))
    (λ t' o, (∃ u, t' = t ++ u) ∧
       match o with Done (Ok (self, vpcID)) => placed cfg t' self vpcID ∧
         (describes describeInstanceBatcher → elsewhere cfg = false → listed_at t' self vpcID) | _ => True end) t.
Proof.
  unfold placed. destruct (elsewhere cfg).
  - cbn [wp]. split; [exists []; by rewrite app_nil_r|done].
  - rewrite wp_try. eapply wp_mono; [apply wp_buildSelf|].
    intros t' [ [self|e]|w] [Hu Hs]; [|done..]. cbn [wp]. split; [done|]. destruct Hs. by repeat split; auto.
Qed.

Lemma wp_newAWSCloud2 cfg role t :
  wp (newAWSCloud2 compile describeInstanceBatcher now cfg (newAWSSDKProvider cfg) role) (ready_or_error cfg role) t.
Proof.
  unfold newAWSCloud2. rewrite wp_try_with. apply wp_Metadata; [intros u0 _|done].
  rewrite wp_try. apply wp_getRegion; [intros u1 region Hregion|done].
  rewrite wp_try_with. apply wp_serviceClient; [intros ev1 c1 S1 R1 L1 D1|done].
  rewrite wp_try_with. apply wp_serviceClient; [intros ev2 c2 S2 R2 L2 D2|done].
  rewrite wp_try_with. apply wp_serviceClient; [intros ev3 c3 S3 R3 L3 D3|done].
  rewrite wp_try_with. apply wp_serviceClient; [intros ev4 c4 S4 R4 L4 D4|done].
  rewrite wp_bind. destruct (NewInstanceTopologyManager compile cfg) as [topology|]; cbn [no_panic wp andThen]; [|done].
  rewrite wp_try. eapply wp_mono; [apply wp_place|]. intros t' [ [ [self vpcID]|e]|w] [ [u2 ->] Hplace]; [|done..].
  rewrite wp_try. eapply wp_mono; [apply wp_initTagging|]. intros t'' [ [tagging|e]|w] [ [u3 ->] Htag]; [|done..].
  destruct Htag as [Hid Hnamed], Hplace as [Hplace Hlisted]. cbn [wp ready_or_error].
  split; [|intros Hb He; by apply listed_at_app, Hlisted]. split; cbn [st_cloud st_topology st_clients st_provider
    c_region c_selfAWSInstance c_vpcID c_tagging c_cfg].
  - repeat (exact Hregion || apply chosen_mono).
  - by apply placed_mono.
  - done.
  - exact Hnamed.
  - by destruct (cfg_NodeIPFamilies cfg) eqn:E; cbn [with_families cfg_NodeIPFamilies]; rewrite ?E.
  - by destruct (cfg_NodeIPFamilies cfg).
  - cbn [fmap list_fmap]. by rewrite S1, S2, S3, S4.
  - by repeat constructor.
  - exists 0. destruct (AddMiddleware_first cfg region) as [H1 E1].
    destruct (AddMiddleware_again _ _ H1) as [H2 E2]. destruct (AddMiddleware_again _ _ H2) as [H3 E3].
    destruct (AddMiddleware_again _ _ H3) as [[H4 H5] E4]. rewrite H4, H5.
    split_and!; [|done..]. by repeat (constructor; [congruence|]).
Qed.

(** ** From the configuration file *)
Context (ReadInto : string → result CloudConfig).

Lemma newProvider_reads config :
  (∀ ids, all_calls (λ ev, readonly (ev_call ev) = true) (describeInstanceBatcher ids)) →
  all_calls (λ ev, readonly_start (ev_call ev) = true)
    (newProvider compile describeInstanceBatcher now ReadInto config).
Proof.
  intros Hb. unfold newProvider, Metadata, getRegionFromMetadata, NewStsClient.
  repeat first [apply newAWSCloud2_reads, Hb | (split; [done|]) | calls_step]; try done.
Qed.

(** The role the clients of the provider assume. *)
Definition configured_role (cfg : CloudConfig) : option string :=
  if String.eqb (cfg_RoleARN cfg) "" then None else Some (cfg_RoleARN cfg).

Definition provider_started (config : option string) (t : list (event startE)) (o : outcome (result started)) : Prop :=
  match o with
  | Done (Ok st) => ∃ cfg overrides,
     readAWSCloudConfig ReadInto config = Ok cfg ∧
     ValidateOverrides (cfg_ServiceOverride cfg) = (overrides, Ok tt) ∧ unambiguous overrides ∧
     ready (with_overrides cfg overrides) (configured_role cfg) t st
  | _ => True
  end.

Definition provider_hosted (config : option string) (t : list (event startE)) (o : outcome (result started)) : Prop :=
  ∀ st cfg, o = Done (Ok st) → readAWSCloudConfig ReadInto config = Ok cfg → hosted cfg t st.

Lemma newProvider_started config :
  (∀ ids, all_calls (λ ev, readonly (ev_call ev) = true) (describeInstanceBatcher ids)) →
  wp (newProvider compile describeInstanceBatcher now ReadInto config)
    (λ t o, Forall (λ ev, readonly_start (ev_call ev) = true) t ∧ provider_started config t o ∧ provider_hosted config t o) [].
Proof.
  intros Hb. apply wp_and.
  { eapply wp_mono; [apply all_calls_wp, newProvider_reads, Hb|]. by intros t _ (u & -> & Hu). }
  unfold newProvider.
  destruct (readAWSCloudConfig ReadInto config) as [cfg|e] eqn:Er; [|done].
  destruct (ValidateOverrides (cfg_ServiceOverride cfg)) as [overrides [ [] |e] ] eqn:Ev; [|done].
  rewrite wp_try_with. apply wp_Metadata; [intros u0 _|done].
  rewrite wp_try. apply wp_getRegion; [intros u1 region _|done].
  rewrite wp_try. set (cfg' := with_overrides cfg overrides).
  assert (∀ t, wp (newAWSCloud2 compile describeInstanceBatcher now cfg' (newAWSSDKProvider cfg') (configured_role cfg))
    (λ t o, provider_started config t o ∧ provider_hosted config t o) t) as Hgo.
  { intros t. eapply wp_mono; [apply wp_newAWSCloud2|]. intros t' [ [st|e']|w] Hst; [|done..].
    destruct Hst as [Hst Hh]. split; [|intros st' cfg'' [= <-]; rewrite Er; intros [= <-]; exact Hh].
    exists cfg, overrides. split_and!; [done|done|by eapply ValidateOverrides_unambiguous|done]. }
  unfold configured_role in Hgo. change (cfg_RoleARN cfg') with (cfg_RoleARN cfg).
  destruct (String.eqb (cfg_RoleARN cfg) ""); cbn [negb wp].
  - apply Hgo.
  - rewrite wp_try_with. unfold NewStsClient. rewrite wp_try. cbn [call wp]. intros [ []|e']; [|done].
    destruct (Parse (cfg_RoleARN cfg)); cbn [wp]; [apply Hgo|done].
Qed.

End start.

(** ** A provider on an instance *)
Definition self_instance : Instance_ :=
  mkInstance (Some "i-1") "m5.large" (Some (Some "eu-west-1a")) None None None [] [] (Some "running")
    (Some "subnet-1") (Some "vpc-1") [mkTag (Some "KubernetesCluster") (Some "blue")].

(** The metadata service names the instance [i-1], which EC2 lists. *)
Definition on_instance : handler startE unit := λ R c s,
  (match c in startE R return result R with
   | LoadDefaultConfig | GetInstanceIdentityDocument => Ok tt
   | ImdsGetRegion => Ok "eu-west-1"
   | ImdsGetMetadata path =>
      if String.eqb path "instance-id" then Ok (Ok "i-1") else Err (Errorf "404 - not found" [])
   | ProviderCall c =>
      match c in awsE R return result R with
      | EC2 c =>
         match c in ec2E R return result R with
         | DescribeInstances _ _ => Ok [self_instance]
         | _ => Err (Errorf "no service" [])
         end
      | _ => Err (Errorf "no service" [])
      end
   end, s).

Definition start_here : prog startE (result started) :=
  newProvider (GR := trie_order) (λ _, None) direct 0 (λ _, Ok empty_config) None.

(** The VPC, the cluster, the region and the delayers of the clients. *)
Definition started_as (o : outcome (result started)) : option (string * string * string * list nat) :=
  match o with
  | Done (Ok st) => Some (c_vpcID (st_cloud st), ClusterID (c_tagging (st_cloud st)), c_region (st_cloud st),
                          sc_delayer <$> st_clients st)
  | _ => None
  end.


(** A provider outside of the account of the nodes. *)
Definition no_batcher (ids : list string) : prog awsE (result (list Instance_)) := Ret (Ok []).

Definition remote_config : CloudConfig :=
  mkCloudConfig "us-east-1a" "" "vpc-1" "subnet-1" "" "" "" "" "blue" false "" [] "" 0 "" "" "" ∅.

(** Answers of the metadata service. *)
Definition start_handler : handler startE unit :=
  λ R c s,
  match c in startE R return result R * unit with
  | LoadDefaultConfig | GetInstanceIdentityDocument => (Ok tt, s)
  | ImdsGetRegion => (Ok "eu-west-1", s)
  | ImdsGetMetadata path =>
     (if String.eqb path "network/interfaces/macs/" then Ok (Ok ("0a:01/" +:+ String "010" "0a:02/"))
      else if String.eqb path "network/interfaces/macs/0a:02/vpc-id" then Ok (Ok "vpc-2")
      else Err (Errorf "404 - not found" []), s)
  | ProviderCall c => (Err (Errorf "no service" []), s)
  end.

(** The first interface has no VPC. *)
Example vpc_of_second_interface :
  (run start_handler findVPCID tt []).1 = (Done (Ok "vpc-2"), tt).
Proof. vm_compute. reflexivity. Qed.

Example source_account :
  GetSourceAccount "arn:aws:iam::123456789012:role/controller" = Ok "123456789012".
Proof. reflexivity. Qed.
