(* ===== verification/Manager.v ===== *)
(** * The controller manager (cmd/aws-cloud-controller-manager)

    What the command puts together: the provider that is started from the configuration, the
    tables of controllers with the tagging controller added, and the start of the tagging
    controller for that provider. *)

From S2P Require Import Prelude GoLib Float Effects AwsApi Tags Config Cloud Instances InstancesV2 Sdk Backoff Startup StartupFacts Workqueue TaggingController.
From Stdlib Require Import QArith.
Import Strings Errors.
Local Close Scope Q_scope.

(** ** The interface of a provider (aws.go)

    What [cloud.LoadBalancer()] and its like give: an implementation, and whether it is to
    be used. *)
Module Provider.
Section provider.
Context (c : Cloud).
Definition Clusters : option Cloud * bool := (None, false).
Definition LoadBalancer : option Cloud * bool := (Some c, true).
Definition Instances : option Cloud * bool := (Some c, true).
Definition InstancesV2 : option Cloud * bool := (Some c, true).
Definition Zones : option Cloud * bool := (Some c, true).
Definition Routes : option Cloud * bool := (Some c, true).
End provider.
End Provider.

(** ** The registered providers (k8s.io/cloud-provider) *)
Definition Factory := option string → prog startE (result started).
Definition externalCloudProvider := "external".

(** [None]: the process ends because the name is taken. *)
Definition RegisterCloudProvider (name : string) (cloud : Factory) (providers : gmap string Factory) :
    option (gmap string Factory) :=
  match providers !! name with
  | Some _ => None
  | None => Some (<[name := cloud]> providers)
  end.

Definition GetCloudProvider (providers : gmap string Factory) (name : string) (config : option string) :
    prog startE (result (option started)) :=
  match providers !! name with
  | None => Ret (Ok None)
  | Some f => let? cloud := f config in Ret (Ok (Some cloud))
  end.

Section manager.
Context {GR : GoRange} (compile : string → option (string → bool))
  (describeInstanceBatcher : list string → prog awsE (result (list Instance_))) (now : Z)
  (ReadInto : string → result CloudConfig).
(** The content of the file at a path ([os.Open]). *)
Context (Open : string → result string).

(** [init] of aws.go, in the process where nothing is registered. *)
Definition providers : gmap string Factory :=
  default ∅ (RegisterCloudProvider ProviderName
    (newProvider compile describeInstanceBatcher now ReadInto) ∅).

Definition InitCloudProvider (name configFilePath : string) : prog startE (result (option started)) :=
  if String.eqb name "" then Ret (Ok None) else
  if String.eqb name externalCloudProvider then Ret (Ok None) else
  let get (config : option string) : prog startE (result (option started)) :=
    let? cloud := GetCloudProvider providers name config
      else (λ err, Errorf "could not init cloud provider %q: %v" [name; Error err]) in
    match cloud with
    | None => Ret (Err (Errorf "unknown cloud provider %q" [name]))
    | Some cloud => Ret (Ok (Some cloud))
    end in
  if negb (String.eqb configFilePath "") then
    match Open configFilePath with
    | Err err => Panic (Sprintf "Couldn't open cloud provider configuration %s: %#v" [configFilePath; Error err])
    | Ok config => get (Some config)
    end
  else get None.

(** The part of the configuration of the manager that the command reads. *)
Record KubeCloudShared := mkKubeCloudShared {
  CloudProviderName : string;
  CloudConfigFile : string;
  AllowUntaggedCloud : bool
}.

(** A panic is the end of the process ([klog.Fatalf]). *)
Definition cloudInitializer (config : KubeCloudShared) : prog startE started :=
  let providerName := CloudProviderName config in
  let providerName := if String.eqb providerName "" then ProviderName else providerName in
  if negb (String.eqb providerName ProviderName) then
    Panic (Sprintf "unknown cloud provider %s, only 'aws' and 'aws/v2' are supported" [providerName])
  else
  let! cloud := InitCloudProvider providerName (CloudConfigFile config) in
  match cloud with
  | Err err => Panic (Sprintf "Cloud provider could not be initialized: %v" [Error err])
  | Ok None => Panic "Cloud provider is nil"
  | Ok (Some cloud) =>
     if negb (HasClusterID (st_cloud cloud)) then
       if AllowUntaggedCloud config then Ret cloud
       else Panic "no ClusterID found.  A ClusterID is required for the cloud provider to function properly.  This check can be bypassed by setting the allow-untagged-cloud option"
     else Ret cloud
  end.
End manager.

(** ** The controllers

    [Constructor] stands for what starts a controller; the defaults are those of
    k8s.io/cloud-provider. *)
Definition TaggingControllerClientName := "tagging-controller".
Definition TaggingControllerKey := "tagging".

Record controllerTables (Constructor : Type) := mkTables {
  controllerInitializers : gmap string (string * Constructor);  (** with the name of the client *)
  ControllersDisabledByDefault : gset string;
  controllerAliases : gmap string string
}.
Arguments mkTables {_}.
Arguments controllerInitializers {_}.
Arguments ControllersDisabledByDefault {_}.
Arguments controllerAliases {_}.

(** What [main] adds. *)
Definition withTaggingController {Constructor} (start : Constructor) (t : controllerTables Constructor) :
    controllerTables Constructor :=
  mkTables (<[TaggingControllerKey := (TaggingControllerClientName, start)]> (controllerInitializers t))
    (ControllersDisabledByDefault t ∪ {[TaggingControllerKey]})
    (<[TaggingControllerKey := TaggingControllerKey]> (controllerAliases t)).

(** Of k8s.io/controller-manager, with the names given to [--controllers]. *)
Fixpoint isControllerEnabled (name : string) (disabledByDefault : gset string) (controllers : list string)
    (hasStar : bool) : bool :=
  match controllers with
  | [] => hasStar && negb (bool_decide (name ∈ disabledByDefault))
  | ctrl :: controllers =>
     if String.eqb ctrl name then true
     else if String.eqb ctrl ("-" +:+ name) then false
     else isControllerEnabled name disabledByDefault controllers (hasStar || String.eqb ctrl "*")
  end.
Definition IsControllerEnabled (name : string) (disabledByDefault : gset string) (controllers : list string) : bool :=
  isControllerEnabled name disabledByDefault controllers false.

(** The provider as the tagging controller gets it. *)
Inductive ProviderInterface :=
  | AwsProvider (cloud : Cloud)
  | OtherProvider (name : string).

Definition newTaggingController (cloud : ProviderInterface) (o : TaggingControllerOptions) : result Controller :=
  match cloud with
  | AwsProvider _ => Ok (NewTaggingController o)
  | OtherProvider name => Err (Errorf "tagging controller does not support %v provider" [name])
  end.

(** Whether a controller was started, and which one runs now.  An error of its construction
    is only logged. *)
Definition startTaggingController (o : TaggingControllerOptions) (cloud : ProviderInterface) :
    outcome (bool * option Controller) :=
  match Validate o with
  | Err err => Panicked (Sprintf "Tagging controller inputs are not properly set: %v" [Error err])
  | Ok _ =>
     match newTaggingController cloud o with
     | Err _ => Done (false, None)
     | Ok tc => Done (true, Some tc)
     end
  end.

(** The closure the manager calls once it leads. *)
Definition StartTaggingControllerWrapper (o : TaggingControllerOptions) (cloud : ProviderInterface) :
    unit → outcome (bool * option Controller) := λ _, startTaggingController o cloud.

(** ** What the manager may rely on *)
Section facts.
Context {GR : GoRange} (compile : string → option (string → bool))
  (describeInstanceBatcher : list string → prog awsE (result (list Instance_))) (now : Z)
  (ReadInto : string → result CloudConfig) (Open : string → result string).

Lemma HasClusterID_spec c : HasClusterID c = true ↔ ClusterID (c_tagging c) ≠ "".
Proof. unfold HasClusterID, clusterID. destruct (ClusterID (c_tagging c)); cbn; split; congruence. Qed.

(** The text a provider is configured with. *)
Definition configuration (config : KubeCloudShared) (text : option string) : Prop :=
  if String.eqb (CloudConfigFile config) "" then text = None
  else ∃ s, Open (CloudConfigFile config) = Ok s ∧ text = Some s.

Lemma wp_InitCloudProvider config :
  (∀ ids, all_calls (λ ev, readonly (ev_call ev) = true) (describeInstanceBatcher ids)) →
  wp (InitCloudProvider compile describeInstanceBatcher now ReadInto Open ProviderName (CloudConfigFile config))
     (λ t o, Forall (λ ev, readonly_start (ev_call ev) = true) t ∧
        match o with
        | Done (Ok None) => False
        | Done (Ok (Some st)) => ∃ text, configuration config text ∧
            provider_started now ReadInto text t (Done (Ok st))
        | _ => True
        end) [].
Proof.
  intros Hb. unfold InitCloudProvider, configuration. cbn [String.eqb].
  assert (∀ text (P : option string → Prop), P text →
    wp (let? cloud := GetCloudProvider (providers compile describeInstanceBatcher now ReadInto) ProviderName text
          else (λ err, Errorf "could not init cloud provider %q: %v" [ProviderName; Error err]) in
        match cloud with
        | None => Ret (Err (Errorf "unknown cloud provider %q" [ProviderName]))
        | Some cloud => Ret (Ok (Some cloud))
        end)
     (λ t o, Forall (λ ev, readonly_start (ev_call ev) = true) t ∧
        match o with
        | Done (Ok None) => False
        | Done (Ok (Some st)) => ∃ text, P text ∧ provider_started now ReadInto text t (Done (Ok st))
        | _ => True
        end) []) as Hget.
  { intros text P HP. rewrite wp_try_with. unfold GetCloudProvider.
    change (providers _ _ _ _ !! _) with (Some (newProvider compile describeInstanceBatcher now ReadInto)).
    rewrite wp_try. eapply wp_mono; [by apply newProvider_started|].
    intros t [[st|e]|w] (Hr & Hs & _); cbn [wp]; split; try done. by exists text. }
  change (String.eqb ProviderName "") with false. change (String.eqb ProviderName externalCloudProvider) with false.
  destruct (String.eqb (CloudConfigFile config) "") eqn:E; cbn [negb].
  - by apply Hget.
  - destruct (Open (CloudConfigFile config)) as [s|e]; [|done]. apply Hget. by exists s.
Qed.

(** C23: the manager runs only with a provider of the name [aws], started from the
    configuration file it was given, whose cluster has an id: whatever AWS answers, the
    process ends otherwise, after calls that only read.  The option to allow untagged
    clouds makes no difference. *)
Theorem cloudInitializer_admits config :
  (∀ ids, all_calls (λ ev, readonly (ev_call ev) = true) (describeInstanceBatcher ids)) →
  wp (cloudInitializer compile describeInstanceBatcher now ReadInto Open config)
     (λ t o, Forall (λ ev, readonly_start (ev_call ev) = true) t ∧
        match o with
        | Done st =>
           (CloudProviderName config = "" ∨ CloudProviderName config = ProviderName) ∧
           HasClusterID (st_cloud st) = true ∧
           ∃ text, configuration config text ∧ provider_started now ReadInto text t (Done (Ok st))
        | Panicked _ => True
        end) [].
Proof.
  intros Hb. unfold cloudInitializer.
  assert ((if String.eqb (CloudProviderName config) "" then ProviderName else CloudProviderName config) =
    ProviderName → CloudProviderName config = "" ∨ CloudProviderName config = ProviderName) as Hname.
  { destruct (String.eqb_spec (CloudProviderName config) ""); auto. }
  set (name := if String.eqb (CloudProviderName config) "" then _ else _) in *. cbv zeta.
  destruct (String.eqb_spec name ProviderName) as [E|]; cbn [negb wp]; [|done]. rewrite E, wp_bind.
  eapply wp_mono; [by apply wp_InitCloudProvider|].
  intros t [[[st|]|e]|w] [Hr Hs]; cbn [andThen wp]; try by split. destruct Hs as (text & Hc & Hst).
  assert (HasClusterID (st_cloud st) = true) as Hid.
  { apply HasClusterID_spec. destruct Hst as (cfg & overrides & _ & _ & _ & Hready). by eapply ready_cluster. }
  rewrite Hid. cbn [negb wp]. split; [done|]. split_and!; [by apply Hname|done|]. by exists text.
Qed.

(** The tagging controller is started for this provider whenever its options are valid. *)
Lemma startTaggingController_started o st :
  Validate o = Ok tt →
  startTaggingController o (AwsProvider (st_cloud st)) = Done (true, Some (NewTaggingController o)).
Proof. intros E. unfold startTaggingController. by rewrite E. Qed.
End facts.

(** ** Which controllers run *)
Lemma isControllerEnabled_spec name disabled controllers hasStar :
  isControllerEnabled name disabled controllers hasStar = true ↔
    (∃ l l', controllers = l ++ name :: l' ∧ "-" +:+ name ∉ l) ∨
    name ∉ controllers ∧ "-" +:+ name ∉ controllers ∧ (hasStar = true ∨ "*" ∈ controllers) ∧ name ∉ disabled.
Proof.
  revert hasStar. induction controllers as [|ctrl controllers IH]; intros hasStar; cbn [isControllerEnabled].
  { rewrite andb_true_iff, negb_true_iff, bool_decide_eq_false. split.
    - intros [-> Hd]. right. split_and!; [set_solver..|by left|done].
    - intros [(l & l' & H & _)|(_ & _ & [->|Hs] & Hd)]; [by destruct l|done|set_solver]. }
  assert ("-" +:+ name ≠ name) as Hne.
  { intros E. apply (f_equal String.length) in E. change (S (String.length name) = String.length name) in E. lia. }
  destruct (String.eqb_spec ctrl name) as [->|Hn].
  { split; [intros _; left; exists [], controllers; set_solver|done]. }
  destruct (String.eqb_spec ctrl ("-" +:+ name)) as [->|Hm].
  { split; [done|]. intros [(l & l' & H & Hl)|(_ & H & _)]; [|set_solver].
    destruct l as [|x l]; [by injection H as ? _|]. injection H as <- _. set_solver. }
  rewrite IH, orb_true_iff, String.eqb_eq. split.
  - intros [(l & l' & -> & Hl)|(H1 & H2 & H3 & H4)].
    + left. exists (ctrl :: l), l'. split; [done|]. set_solver.
    + right. split_and!; [set_solver..| |done]. destruct H3 as [[?|<-]|?]; [by left|right; set_solver..].
  - intros [(l & l' & H & Hl)|(H1 & H2 & H3 & H4)].
    + destruct l as [|x l]; [by injection H as ? _|]. injection H as <- ->. left. exists l, l'. set_solver.
    + right. split_and!; [set_solver..| |done]. destruct H3 as [?|Hs]; [by left; left|].
      apply elem_of_cons in Hs as [<-|?]; [by left; right|by right].
Qed.

(** The tagging controller runs only when it is named, and not after it was refused; the
    wildcard does not name it. The other controllers run as they would without it. *)
Lemma tagging_enabled {Constructor} (start : Constructor) t controllers :
  IsControllerEnabled TaggingControllerKey (ControllersDisabledByDefault (withTaggingController start t)) controllers = true ↔
    ∃ l l', controllers = l ++ TaggingControllerKey :: l' ∧ "-" +:+ TaggingControllerKey ∉ l.
Proof.
  unfold IsControllerEnabled. rewrite isControllerEnabled_spec. split; [|by left].
  intros [?|(_ & _ & _ & H)]; [done|]. cbn in H. set_solver.
Qed.

Lemma others_enabled {Constructor} (start : Constructor) t controllers name :
  name ≠ TaggingControllerKey →
  IsControllerEnabled name (ControllersDisabledByDefault (withTaggingController start t)) controllers =
    IsControllerEnabled name (ControllersDisabledByDefault t) controllers ∧
  controllerInitializers (withTaggingController start t) !! name = controllerInitializers t !! name.
Proof.
  intros Hn. split; [|by apply lookup_insert_ne].
  apply eq_true_iff_eq. unfold IsControllerEnabled. rewrite !isControllerEnabled_spec. cbn. set_solver.
Qed.

Example wildcard_leaves_tagging_out :
  let t := withTaggingController tt (mkTables ∅ ∅ ∅) in
  IsControllerEnabled TaggingControllerKey (ControllersDisabledByDefault t) ["*"] = false ∧
  IsControllerEnabled "service" (ControllersDisabledByDefault t) ["*"] = true ∧
  IsControllerEnabled TaggingControllerKey (ControllersDisabledByDefault t) ["*"; "tagging"] = true.
Proof. vm_compute. done. Qed.

(** ** A manager outside of the account of the nodes *)
Definition remote_manager (name : string) : prog startE started :=
  cloudInitializer (GR := trie_order) (λ _, None) no_batcher 0 (λ _, Ok remote_config) (λ _, Ok "[Global]")
    (mkKubeCloudShared name "/etc/aws/cloud.conf" false).

Lemma cloudInitializer_admits_witness :
  wp (remote_manager "")
     (λ t o, Forall (λ ev, readonly_start (ev_call ev) = true) t ∧
        match o with
        | Done st =>
           ("" = "" ∨ "" = ProviderName) ∧ HasClusterID (st_cloud st) = true ∧
           ∃ text, configuration (λ _, Ok "[Global]") (mkKubeCloudShared "" "/etc/aws/cloud.conf" false) text ∧
             provider_started (GR := trie_order) 0 (λ _, Ok remote_config) text t (Done (Ok st))
        | Panicked _ => True
        end) [].
Proof.
  apply (cloudInitializer_admits (GR := trie_order) (λ _, None) no_batcher 0 (λ _, Ok remote_config) (λ _, Ok "[Global]")
    (mkKubeCloudShared "" "/etc/aws/cloud.conf" false)). by intros ids.
Defined.

(** The provider is started for its cluster; a manager of another provider ends. *)
Example remote_manager_runs :
  match (run start_handler (remote_manager "") tt []).1.1 with
  | Done st => ClusterID (c_tagging (st_cloud st)) = "blue" ∧ c_region (st_cloud st) = "us-east-1"
  | Panicked _ => False
  end.
Proof. vm_compute. split; reflexivity. Qed.

Example other_manager_ends :
  (run start_handler (remote_manager "aws/v2") tt []).1.1 =
  Panicked "unknown cloud provider aws/v2, only 'aws' and 'aws/v2' are supported".
Proof. vm_compute. reflexivity. Qed.
