(* ===== verification/Transport.v ===== *)
(** * Headers and logging of requests (aws_sts.go, log_handler.go, aws_sdk.go)

    The middleware that is not for the Finalize step: the headers that the client of STS
    adds to its requests, and the log lines of requests and responses. *)

From S2P Require Import Prelude GoLib Effects AwsApi Middleware Startup StartupFacts.
From Stdlib Require Import Ascii.
Import Strings Strconv Errors.

(** ** Headers (net/http) *)
Abbreviation Header := (gmap string (list string)).

(** The bytes of a token of HTTP. *)
Definition validHeaderFieldByte (c : ascii) : bool :=
  is_upper c || is_lower c || is_digit c || existsb (Ascii.eqb c) (String.list_ascii_of_string "!#$%&'*+-.^_`|~").

Fixpoint canonicalKey (upper : bool) (a : string) : string :=
  match a with
  | EmptyString => EmptyString
  | String c a => String (if upper then upper_byte c else lower_byte c) (canonicalKey (Ascii.eqb c "-") a)
  end.

(** A name that is not a token is left as it is. *)
Definition CanonicalMIMEHeaderKey (a : string) : string :=
  if all_bytes validHeaderFieldByte a then canonicalKey true a else a.

Definition Header_Set (h : Header) (key value : string) : Header :=
  <[CanonicalMIMEHeaderKey key := [value]]> h.

(** ** The Build step *)

(** A request of the transport: one of HTTP, or of another type. *)
Inductive transportRequest :=
  | HTTPRequest (header : Header)
  | OtherRequest (type : string).

Section build.
Context {GR : GoRange} {T A : Type}.

(** [T] is what the rest of the stack changes. *)
Definition buildHandler : Type := T → transportRequest → T * result A.

Record BuildMiddleware := mkBuildMiddleware {
  bm_ID : string;
  bm_HandleBuild : buildHandler → buildHandler
}.

Definition build (step : list BuildMiddleware) (next : buildHandler) : buildHandler :=
  foldr bm_HandleBuild next step.

Definition setHeaders (headers : gmap string string) (h : Header) : Header :=
  foldl (λ h '(k, v), Header_Set h k v) h (range_map headers).

Definition HandleBuild (headers : gmap string string) (next : buildHandler) : buildHandler := λ s r,
  match r with
  | OtherRequest type => (s, Err (Errorf "unrecognized transport type %T" [type]))
  | HTTPRequest header => next s (HTTPRequest (setHeaders headers header))
  end.

Definition withStsHeadersMiddleware (headers : gmap string string) : BuildMiddleware :=
  mkBuildMiddleware "withStsHeadersMiddleware" (HandleBuild headers).

(** [Add m After] *)
Definition WithStsHeadersMiddleware (headers : gmap string string) (step : list BuildMiddleware) :
    list BuildMiddleware := step ++ [withStsHeadersMiddleware headers].

(** *** What is sent *)
Lemma build_after headers step next :
  build (WithStsHeadersMiddleware headers step) next = build step (HandleBuild headers next).
Proof. unfold build, WithStsHeadersMiddleware. by rewrite foldr_app. Qed.

Lemma set_other (l : list (string * string)) (h : Header) k :
  (∀ k' v, (k', v) ∈ l → CanonicalMIMEHeaderKey k' ≠ k) →
  foldl (λ h '(k, v), Header_Set h k v) h l !! k = h !! k.
Proof.
  revert h. induction l as [|[k' v] l IH]; intros h Hl; [done|]. cbn [foldl]. rewrite IH by set_solver.
  apply lookup_insert_ne. set_solver.
Qed.

Lemma set_one (l : list (string * string)) (h : Header) k v :
  (k, v) ∈ l → (∀ k' v', (k', v') ∈ l → CanonicalMIMEHeaderKey k' = CanonicalMIMEHeaderKey k → v' = v) →
  foldl (λ h '(k, v), Header_Set h k v) h l !! CanonicalMIMEHeaderKey k = Some [v].
Proof.
  induction l as [|[k' v'] l IH] using rev_ind; intros Hin Hv; [set_solver|]. rewrite foldl_app. cbn [foldl].
  unfold Header_Set at 1. destruct (decide (CanonicalMIMEHeaderKey k' = CanonicalMIMEHeaderKey k)) as [E|E].
  - rewrite E, lookup_insert_eq. rewrite (Hv k' v'); [done|set_solver|done].
  - rewrite lookup_insert_ne by done. apply IH; [|set_solver].
    apply elem_of_app in Hin as [?|[= <- <-]%list_elem_of_singleton]; done.
Qed.

Lemma setHeaders_set headers h k v :
  headers !! k = Some v →
  (∀ k' v', headers !! k' = Some v' → CanonicalMIMEHeaderKey k' = CanonicalMIMEHeaderKey k → v' = v) →
  setHeaders headers h !! CanonicalMIMEHeaderKey k = Some [v].
Proof.
  intros Hk Hv. apply set_one; [by apply elem_of_range_map|]. intros k' v' H%elem_of_range_map. by apply Hv.
Qed.

Lemma setHeaders_other headers h k :
  (∀ k' v, headers !! k' = Some v → CanonicalMIMEHeaderKey k' ≠ k) → setHeaders headers h !! k = h !! k.
Proof. intros Hk. apply set_other. intros k' v H%elem_of_range_map. by eapply Hk. Qed.
End build.
Arguments buildHandler : clear implicits.
Arguments BuildMiddleware : clear implicits.

(** ** Logging *)

(** What came back over the transport. *)
Inductive rawResponse :=
  | HTTPResponse (statusCode : Z)
  | OtherResponse (type : string).

Section logging.
Context {T A I : Type}.

(** Handlers of the Deserialize step answer with the raw response; those of the Serialize
    step get the parameters of the operation. *)
Definition deserializeHandler : Type := T → T * (rawResponse * result A).
Definition serializeHandler : Type := T → I → T * result A.

(** [smithy.DeserializationError] *)
Definition DeserializationError (err : error) : error := Wrapf "deserialization failed, %v" [Error err] err.

Definition awsServiceAndName (serviceID operation : string) : string * string :=
  (serviceID, if String.eqb operation "" then "?" else operation).

(** [log] adds a line to the log, which is part of [T]. *)
Context (log : string → T → T).

Definition awsValidateResponseHandlerLoggerMiddleware (rq : requestContext) (next : deserializeHandler) :
    deserializeHandler := λ s,
  let '(s, (response, err)) := next s in
  match response with
  | OtherResponse type => (s, (response, Err (DeserializationError (Errorf "unknown transport type %T" [type]))))
  | HTTPResponse statusCode =>
     let (service, name) := awsServiceAndName (rq_service rq) (rq_operation rq) in
     (log (Sprintf "AWS API ValidateResponse: %s %s %d" [service; name; Itoa statusCode]) s, (response, err))
  end.

Definition awsSendHandlerLoggerMiddleware (rq : requestContext) (format : I → string) (next : serializeHandler) :
    serializeHandler := λ s input,
  let (service, name) := awsServiceAndName (rq_service rq) (rq_operation rq) in
  next (log (Sprintf "AWS API Send: %s %s %v" [service; name; format input]) s) input.
End logging.

(** Between HTTP and the operation, both middlewares only log. *)
Lemma logging_transparent {T A I} (log : string → T → T) rq (format : I → string)
    (next : @deserializeHandler T A) (forward : @serializeHandler T A I) s input :
  (∀ s, ∃ code, (next s).2.1 = HTTPResponse code) →
  (awsValidateResponseHandlerLoggerMiddleware log rq next s).2 = (next s).2 ∧
  (∃ line, awsSendHandlerLoggerMiddleware log rq format forward s input = forward (log line s) input).
Proof.
  intros Hh. split; [|by eexists]. unfold awsValidateResponseHandlerLoggerMiddleware.
  destruct (Hh s) as [code E]. destruct (next s) as [s' [response r]]. cbn in E. by subst.
Qed.

(** ** The client of STS *)
Section sts.
Context {GR : GoRange}.
Definition sourceAccount := CanonicalMIMEHeaderKey "x-amz-source-account".
Definition sourceArn := CanonicalMIMEHeaderKey "x-amz-source-arn".

(** The headers of a request as the client sends it that had the headers [h] before. *)
Definition sts_request (role : ARN) (sourceARN : string) (h h' : Header) : Prop :=
  h' !! sourceAccount = Some [arn_AccountID role] ∧
  h' !! sourceArn = (if String.eqb sourceARN "" then h !! sourceArn else Some [sourceARN]) ∧
  ∀ k, k ≠ sourceAccount → k ≠ sourceArn → h' !! k = h !! k.

Lemma sts_request_set role sourceARN h :
  let headers : gmap string string := {["x-amz-source-account" := arn_AccountID role]} in
  sts_request role sourceARN h (setHeaders
    (if negb (String.eqb sourceARN "") then <["x-amz-source-arn" := sourceARN]> headers else headers) h).
Proof.
  intros headers. set (all := if negb _ then _ else _).
  assert (∀ k v, all !! k = Some v ↔ k = "x-amz-source-account" ∧ v = arn_AccountID role ∨
    k = "x-amz-source-arn" ∧ v = sourceARN ∧ sourceARN ≠ "") as Hall.
  { intros k v. unfold all, headers. destruct (String.eqb_spec sourceARN "") as [->|Hs]; cbn [negb].
    - rewrite lookup_singleton_Some. naive_solver.
    - rewrite lookup_insert_Some, lookup_singleton_Some. naive_solver. }
  split_and!.
  - apply setHeaders_set; [apply Hall; by left|]. intros k v [[-> ->]|[-> _]]%Hall; [done|by vm_compute].
  - destruct (String.eqb_spec sourceARN "") as [E|E].
    + apply setHeaders_other. intros k v [[-> ->]|(_ & _ & ?)]%Hall; [by vm_compute|done].
    + apply setHeaders_set; [apply Hall; by right|]. intros k v [[-> ->]|(-> & -> & _)]%Hall; [by vm_compute|done].
  - intros k H1 H2. apply setHeaders_other. intros k' v [[-> ->]|[-> _]]%Hall; intros <-; [by apply H1|by apply H2].
Qed.

(** Every request of the client carries the account of the role and, where one is
    configured, the ARN of the source; its other headers are left alone. What the SDK does
    in the Build step comes before. *)
Theorem NewStsClient_headers region roleARN sourceARN :
  wp (NewStsClient region roleARN sourceARN) (λ _ o, ∀ client, o = Done (Ok client) →
    sts_region client = region ∧ ∃ role, Parse roleARN = Ok role ∧
    ∀ {T A} (step : list (BuildMiddleware T A)) (send : buildHandler T A), ∃ send',
      build (WithStsHeadersMiddleware (sts_headers client) step) send = build step send' ∧
      ∀ s h, ∃ h', sts_request role sourceARN h h' ∧ send' s (HTTPRequest h) = send s (HTTPRequest h')) [].
Proof.
  unfold NewStsClient. rewrite wp_try. cbn [call wp]. intros [[]|e]; [|done].
  destruct (Parse roleARN) as [role|e]; cbn [wp]; [|done].
  intros client [= <-]. split; [done|]. exists role. split; [done|]. intros T A step send. cbn [sts_headers].
  eexists. split; [apply build_after|]. intros s h. eexists. split; [apply sts_request_set|done].
Qed.
End sts.

(** A client of a configured role: the names are in their canonical form. *)
Example sts_headers_sent :
  match (run start_handler (NewStsClient "us-east-1" "arn:aws:iam::123456789012:role/ccm" "arn:aws:eks:us-east-1:123456789012:cluster/blue") tt []).1.1 with
  | Done (Ok client) =>
     setHeaders (GR := trie_order) (sts_headers client) {["Host" := ["sts.us-east-1.amazonaws.com"]]} =
     {["Host" := ["sts.us-east-1.amazonaws.com"];
       "X-Amz-Source-Account" := ["123456789012"];
       "X-Amz-Source-Arn" := ["arn:aws:eks:us-east-1:123456789012:cluster/blue"]]}
  | _ => False
  end.
Proof. vm_compute. reflexivity. Qed.
