(* ===== verification/Fakes.v ===== *)
(** * The fake services (aws_fakes.go)

    The test doubles of the package as a service of the calls of the provider: each method
    answers from the state of [FakeAWSServices] and may panic, with ["Not implemented"] most
    often.  Programs over the calls run against them, so that the tests of the package can be
    stated of the model. *)

From S2P Require Import Prelude GoLib Effects AwsApi Tags Config Cloud LoadBalancer Instances Startup Workqueue TaggingController.
From Stdlib Require Import Ascii.
Import Strings Strconv Errors.

(** ** Services that may panic *)
Section service.
Context {E : Type → Type} {S : Type}.

Definition service : Type := ∀ R, E R → S → outcome (result R) * S.

Fixpoint runService {A} (h : service) (p : prog E A) (s : S) : outcome A * S :=
  match p with
  | Ret a => (Done a, s)
  | Panic w => (Panicked w, s)
  | Vis c k =>
     match h _ c s with
     | (Done r, s) => runService h (k r) s
     | (Panicked w, s) => (Panicked w, s)
     end
  end.

Lemma runService_bind {A B} (h : service) (p : prog E A) (f : A → prog E B) s :
  runService h (bind p f) s =
  match runService h p s with
  | (Done a, s) => runService h (f a) s
  | (Panicked w, s) => (Panicked w, s)
  end.
Proof.
  revert s. induction p as [a|w|R c k IH]; intros s; cbn [bind runService]; [done..|].
  destruct (h R c s) as [[r|w] s']; [apply IH|done].
Qed.

Lemma runService_try {A B} (h : service) (p : prog E (result A)) (f : A → prog E (result B)) s :
  runService h (try p f) s =
  match runService h p s with
  | (Done (Ok a), s) => runService h (f a) s
  | (Done (Err e), s) => (Done (Err e), s)
  | (Panicked w, s) => (Panicked w, s)
  end.
Proof. unfold try. rewrite runService_bind. by destruct (runService h p s) as [[[a|e]|w] s']. Qed.
End service.
Arguments service : clear implicits.

(** ** The state *)

(** The list of instances holds pointers, one of them to the instance of the process. *)
Inductive instanceRef :=
  | SelfInstance
  | OtherInstance (i : Instance_).

Record FakeAWSServices := mkFakeAWSServices {
  fs_region : string;
  fs_instances : list instanceRef;
  fs_selfInstance : Instance_;
  fs_selfPrivateIpAddress : option string;  (** of [selfInstance] *)
  fs_networkInterfacesMacs : list string;
  fs_networkInterfacesPrivateIPs : list (list string);
  fs_networkInterfacesVpcIDs : list string;
  fs_callCounts : gmap string nat;
  fs_Subnets : list Subnet;
  fs_DescribeSubnetsInput : option (list string * list Filter);
  fs_RouteTables : list RouteTable;
  fs_DescribeRouteTablesInput : option (list Filter);
  fs_IpAddressType : string
}.

Definition deref (s : FakeAWSServices) (r : instanceRef) : Instance_ :=
  match r with SelfInstance => fs_selfInstance s | OtherInstance i => i end.
Definition instances (s : FakeAWSServices) : list Instance_ := deref s <$> fs_instances s.

Definition selfInterface (index : Z) (addresses : list (option string)) : InstanceNetworkInterface :=
  mkInstanceNetworkInterface (Some (Some index)) "in-use" addresses [].

Definition NewFakeAWSServices (clusterID : string) : FakeAWSServices :=
  mkFakeAWSServices "us-west-2" [SelfInstance]
    (mkInstance (Some "i-self") "" (Some (Some "us-west-2a")) (Some "ip-172-20-0-100.ec2.internal") None
       (Some "1.2.3.4")
       [selfInterface 1 [Some "172.20.1.1"; Some "172.20.1.2"]; selfInterface 0 [Some "172.20.0.100"; Some "172.20.0.101"]]
       [] None None None [mkTag (Some TagNameKubernetesClusterLegacy) (Some clusterID)])
    (Some "192.168.0.1") ["aa:bb:cc:dd:ee:00"; "aa:bb:cc:dd:ee:01"] [] ["vpc-mac0"; "vpc-mac1"] ∅ [] None [] None "".

Definition with_self (s : FakeAWSServices) (i : Instance_) : FakeAWSServices :=
  mkFakeAWSServices (fs_region s) (fs_instances s) i (fs_selfPrivateIpAddress s) (fs_networkInterfacesMacs s)
    (fs_networkInterfacesPrivateIPs s) (fs_networkInterfacesVpcIDs s) (fs_callCounts s) (fs_Subnets s)
    (fs_DescribeSubnetsInput s) (fs_RouteTables s) (fs_DescribeRouteTablesInput s) (fs_IpAddressType s).
Definition with_callCounts (s : FakeAWSServices) (m : gmap string nat) : FakeAWSServices :=
  mkFakeAWSServices (fs_region s) (fs_instances s) (fs_selfInstance s) (fs_selfPrivateIpAddress s)
    (fs_networkInterfacesMacs s) (fs_networkInterfacesPrivateIPs s) (fs_networkInterfacesVpcIDs s) m (fs_Subnets s)
    (fs_DescribeSubnetsInput s) (fs_RouteTables s) (fs_DescribeRouteTablesInput s) (fs_IpAddressType s).
Definition with_subnets (s : FakeAWSServices) (l : list Subnet) (input : option (list string * list Filter)) :
    FakeAWSServices :=
  mkFakeAWSServices (fs_region s) (fs_instances s) (fs_selfInstance s) (fs_selfPrivateIpAddress s)
    (fs_networkInterfacesMacs s) (fs_networkInterfacesPrivateIPs s) (fs_networkInterfacesVpcIDs s) (fs_callCounts s) l
    input (fs_RouteTables s) (fs_DescribeRouteTablesInput s) (fs_IpAddressType s).
Definition with_tables (s : FakeAWSServices) (l : list RouteTable) (input : option (list Filter)) : FakeAWSServices :=
  mkFakeAWSServices (fs_region s) (fs_instances s) (fs_selfInstance s) (fs_selfPrivateIpAddress s)
    (fs_networkInterfacesMacs s) (fs_networkInterfacesPrivateIPs s) (fs_networkInterfacesVpcIDs s) (fs_callCounts s)
    (fs_Subnets s) (fs_DescribeSubnetsInput s) l input (fs_IpAddressType s).
Definition with_type (s : FakeAWSServices) (type : string) : FakeAWSServices :=
  mkFakeAWSServices (fs_region s) (fs_instances s) (fs_selfInstance s) (fs_selfPrivateIpAddress s)
    (fs_networkInterfacesMacs s) (fs_networkInterfacesPrivateIPs s) (fs_networkInterfacesVpcIDs s) (fs_callCounts s)
    (fs_Subnets s) (fs_DescribeSubnetsInput s) (fs_RouteTables s) (fs_DescribeRouteTablesInput s) type.

Definition WithAz (s : FakeAWSServices) (az : string) : FakeAWSServices :=
  let i := fs_selfInstance s in
  with_self s (mkInstance (i_InstanceId i) (i_InstanceType i) (Some (Some az)) (i_PrivateDnsName i) (i_PublicDnsName i)
    (i_PublicIpAddress i) (i_NetworkInterfaces i) (i_SecurityGroups i) (i_State i) (i_SubnetId i) (i_VpcId i) (i_Tags i)).

Definition WithRegion (s : FakeAWSServices) (region : string) : FakeAWSServices :=
  mkFakeAWSServices region (fs_instances s) (fs_selfInstance s) (fs_selfPrivateIpAddress s)
    (fs_networkInterfacesMacs s) (fs_networkInterfacesPrivateIPs s) (fs_networkInterfacesVpcIDs s) (fs_callCounts s)
    (fs_Subnets s) (fs_DescribeSubnetsInput s) (fs_RouteTables s) (fs_DescribeRouteTablesInput s) (fs_IpAddressType s).

Definition countCall (s : FakeAWSServices) (service api resourceID : string) : nat * FakeAWSServices :=
  let key := Sprintf "%s:%s:%s" [service; api; resourceID] in
  let count := S (default 0 (fs_callCounts s !! key)) in
  (count, with_callCounts s (<[key := count]> (fs_callCounts s))).

(** ** EC2 *)
Definition notImplemented {A} (s : FakeAWSServices) : outcome (result A) * FakeAWSServices :=
  (Panicked "Not implemented", s).
Definition answer {A} (r : result A) (s : FakeAWSServices) : outcome (result A) * FakeAWSServices := (Done r, s).

Definition instanceMatchesFilter (instance : Instance_) (filter : Filter) : outcome bool :=
  let name := f_Name filter in
  if String.eqb name "private-dns-name" then
    match i_PrivateDnsName instance with
    | None => Done false
    | Some dns => Done (contains (f_Values filter) dns)
    end
  else if String.eqb name "instance-state-name" then
    match i_State instance with
    | None => Panicked "nil pointer dereference"
    | Some state => Done (contains (f_Values filter) state)
    end
  else if String.eqb name "tag-key" then
    Done (existsb (λ instanceTag, contains (f_Values filter) (ToString (tag_Key instanceTag))) (i_Tags instance))
  else if HasPrefix name "tag:" then
    let tagName := drop 4 name in
    Done (existsb (λ instanceTag, String.eqb (ToString (tag_Key instanceTag)) tagName &&
                                  contains (f_Values filter) (ToString (tag_Value instanceTag))) (i_Tags instance))
  else Panicked ("Unknown filter name: " +:+ name).

(** The loop over the filters stops at the first that does not match. *)
Fixpoint allMatch (instance : Instance_) (filters : list Filter) : outcome bool :=
  match filters with
  | [] => Done true
  | filter :: filters =>
     match instanceMatchesFilter instance filter with
     | Done true => allMatch instance filters
     | other => other
     end
  end.

(** No ids stand for those of a request without any. *)
Definition requested (ids : list string) (filters : list Filter) (instance : Instance_) : outcome bool :=
  match ids, i_InstanceId instance with
  | [], _ => allMatch instance filters
  | _, None => Done false
  | _, Some id => if contains ids id then allMatch instance filters else Done false
  end.

Fixpoint matchLoop (ids : list string) (filters : list Filter) (instances : list Instance_)
    (matches : list Instance_) (matchedInstances : list string) : outcome (list Instance_ * list string) :=
  match instances with
  | [] => Done (matches, matchedInstances)
  | instance :: instances =>
     match requested ids filters instance with
     | Panicked w => Panicked w
     | Done false => matchLoop ids filters instances matches matchedInstances
     | Done true =>
        match i_InstanceId instance with
        | None => Panicked "nil pointer dereference"
        | Some id => matchLoop ids filters instances (matches ++ [instance]) (matchedInstances ++ [id])
        end
     end
  end.

Definition fakeDescribeInstances (ids : list string) (filters : list Filter) (s : FakeAWSServices) :
    outcome (result (list Instance_)) * FakeAWSServices :=
  match matchLoop ids filters (instances s) [] [] with
  | Panicked w => (Panicked w, s)
  | Done (matches, matchedInstances) =>
     answer (Ok matches) (countCall s "ec2" "DescribeInstances" (Join matchedInstances ",")).2
  end.

Definition fakeAuthorizeSecurityGroupIngress (id : option string) (perms : list IpPermission) : result unit :=
  match id, perms with
  | None, _ | _, [] => Err (Errorf "Invalid input: GroupId or IpPermissions missing" [])
  | _, _ => Ok tt
  end.

Definition fakeAvailabilityZones : list AvailabilityZone :=
  (λ '(name, type, id), mkAvailabilityZone (Some name) (Some id) (Some type)) <$>
    [("us-west-2a", "availability-zone", "az1"); ("us-west-2b", "availability-zone", "az2");
     ("us-west-2c", "availability-zone", "az3"); ("az-local", "local-zone", "lz1");
     ("az-wavelength", "wavelength", "wl1")].

Definition notFound : error := Errorf "InvalidInstanceID.NotFound: Instance not found" [].
Definition invalidID (id : string) : error := Errorf "InvalidID: The ID '%s' is not valid" [id].

(** The text of the panic does not tell a number out of range from other text. *)
Definition notFoundCount (id : string) : outcome Z :=
  match Split id "-" !! 4 with
  | None => Panicked "index out of range"
  | Some n =>
     match Atoi n with
     | None => Panicked (Sprintf "strconv.Atoi: parsing %q" [n])
     | Some n => Done n
     end
  end.

Definition tagOne (id : string) (callCount : nat) : outcome (result unit) :=
  if String.eqb id "i-error" then Done (Err (Errorf "Unable to tag" []))
  else if String.eqb id "i-not-found" then Done (Err notFound)
  else
  let next := if HasPrefix id "i-invalid-id" then Done (Err (invalidID id)) else Done (Ok tt) in
  if HasPrefix id "i-not-found-count-" then
    match notFoundCount id with
    | Panicked w => Panicked w
    | Done n => if (Z.of_nat callCount <? n)%Z then Done (Err notFound) else next
    end
  else next.

Fixpoint fakeCreateTags (resources : list string) (s : FakeAWSServices) :
    outcome (result unit) * FakeAWSServices :=
  match resources with
  | [] => answer (Ok tt) s
  | id :: resources =>
     let (callCount, s) := countCall s "ec2" "CreateTags" id in
     match tagOne id callCount with
     | Done (Ok _) => fakeCreateTags resources s
     | other => (other, s)
     end
  end.

Fixpoint fakeDeleteTags (resources : list string) : result unit :=
  match resources with
  | [] => Ok tt
  | id :: resources =>
     if String.eqb id "i-error" then Err (Errorf "Unable to remove tag" [])
     else if String.eqb id "i-not-found" then Err notFound
     else if HasPrefix id "i-invalid-id" then Err (invalidID id)
     else fakeDeleteTags resources
  end.

(** The loop over the filters, with the interface so far. *)
Fixpoint interfaceLoop (filters : list Filter) (eni : NetworkInterface) : outcome (list NetworkInterface) :=
  match filters with
  | [] => Done [eni]
  | filter :: filters =>
     match f_Values filter with
     | [] => Panicked "index out of range"
     | value :: _ =>
        if HasPrefix value "fargate-" then
          Panicked (Sprintf "invalid endpoint specified for DescribeNetworkInterface call %s" [value])
        else if HasPrefix value "not-found" then Done []
        else
        let eni := if Contains value "return.private.dns.name"
          then mkNetworkInterface (ni_AvailabilityZone eni) (Some "ip-1-2-3-4.compute.amazon.com")
                 (ni_PrivateIpAddress eni) (ni_Ipv6Addresses eni) else eni in
        let eni := if String.eqb value "return.private.dns.name.ipv6"
          then mkNetworkInterface (ni_AvailabilityZone eni) (ni_PrivateDnsName eni) (ni_PrivateIpAddress eni)
                 [Some "2001:db8:3333:4444:5555:6666:7777:8888"] else eni in
        interfaceLoop filters eni
     end
  end.

Definition fakeDescribeNetworkInterfaces (filters : list Filter) : outcome (result (list NetworkInterface)) :=
  match interfaceLoop filters (mkNetworkInterface (Some "us-west-2c") None (Some "1.2.3.4") []) with
  | Done l => Done (Ok l)
  | Panicked w => Panicked w
  end.

Definition FakeEC2Impl : service ec2E FakeAWSServices := λ R c s,
  match c in ec2E R return outcome (result R) * FakeAWSServices with
  | DescribeInstances ids filters => fakeDescribeInstances ids filters s
  | DescribeInstanceTopology _ => notImplemented s
  | DescribeSecurityGroups _ _ => notImplemented s
  | CreateSecurityGroup _ _ _ _ => answer (Ok (Some "sg-123456")) s
  | DeleteSecurityGroup _ => notImplemented s
  | AuthorizeSecurityGroupIngress id perms => answer (fakeAuthorizeSecurityGroupIngress id perms) s
  | RevokeSecurityGroupIngress _ _ => notImplemented s
  | DescribeSubnets ids filters => answer (Ok (fs_Subnets s)) (with_subnets s (fs_Subnets s) (Some (ids, filters)))
  | DescribeAvailabilityZones => answer (Ok fakeAvailabilityZones) s
  | CreateTags resources _ => fakeCreateTags resources s
  | DeleteTags resources _ => answer (fakeDeleteTags resources) s
  | DescribeRouteTables filters => answer (Ok (fs_RouteTables s)) (with_tables s (fs_RouteTables s) (Some filters))
  | CreateRoute _ _ _ => notImplemented s
  | DeleteRoute _ _ => notImplemented s
  | ModifyInstanceAttribute _ _ => notImplemented s
  | DescribeNetworkInterfaces filters => (fakeDescribeNetworkInterfaces filters, s)
  end.

(** Methods that the provider does not call. *)
Inductive volumeMethod :=
  | AttachVolume | DetachVolume | DescribeVolumes | CreateVolume | DeleteVolume
  | DescribeVolumeModifications | ModifyVolume.
Definition fakeVolumes {A} (m : volumeMethod) (s : FakeAWSServices) : outcome (result A) * FakeAWSServices :=
  notImplemented s.
(** The address blocks. *)
Definition fakeDescribeVpcs : result (list string) := Ok ["172.20.0.0/16"].

(** The fakes of autoscaling groups and of the key service have no method that is implemented. *)
Inductive groupMethod := UpdateAutoScalingGroup | DescribeAutoScalingGroups.
Definition FakeASG {A} (m : groupMethod) (s : FakeAWSServices) : outcome (result A) * FakeAWSServices := notImplemented s.
Definition FakeKMS {A} (keyID : string) (s : FakeAWSServices) : outcome (result A) * FakeAWSServices := notImplemented s.

(** What tests do to the subnets and route tables. *)
Definition fakeCreateSubnet (request : Subnet) (s : FakeAWSServices) : FakeAWSServices :=
  with_subnets s (fs_Subnets s ++ [request]) (fs_DescribeSubnetsInput s).
Definition RemoveSubnets (s : FakeAWSServices) : FakeAWSServices := with_subnets s [] (fs_DescribeSubnetsInput s).
Definition fakeCreateRouteTable (request : RouteTable) (s : FakeAWSServices) : FakeAWSServices :=
  with_tables s (fs_RouteTables s ++ [request]) (fs_DescribeRouteTablesInput s).
Definition RemoveRouteTables (s : FakeAWSServices) : FakeAWSServices := with_tables s [] (fs_DescribeRouteTablesInput s).

(** ** Load balancers *)
Definition missingInput {A} (what : string) : result A := Err (Errorf "Invalid input: %s missing" [what]).
Definition unless_empty {A} (l : list A) (what : string) : result unit :=
  match l with [] => missingInput what | _ => Ok tt end.
Definition LoadBalancerAttributeNotFoundException : error :=
  APIError "LoadBalancerAttributeNotFound" "LoadBalancerAttributeNotFound: ".
Definition PolicyNotFoundException : error := APIError "PolicyNotFound" "PolicyNotFound: ".

Definition fakeDescribeElbs (names : list string) : result (list LoadBalancerDescription) :=
  match names with
  | [] => missingInput "LoadBalancerNames"
  | name :: _ => Ok [mkLoadBalancerDescription (Some name) (Some "mock-dns-name") [] [] [] [] None []]
  end.

Definition fakeDescribePolicies (name : option string) (policies : list string) : result (list string) :=
  if String.eqb (ToString name) "" then Err LoadBalancerAttributeNotFoundException else
  match policies with
  | [] => Err PolicyNotFoundException
  | policy :: _ => if String.eqb policy "k8s-SSLNegotiationPolicy-" then Err PolicyNotFoundException else Ok []
  end.

Definition FakeELB : service elbE FakeAWSServices := λ R c s,
  match c in elbE R return outcome (result R) * FakeAWSServices with
  | ElbCreateLoadBalancer _ _ _ _ _ _ => answer (Ok tt) s
  | ElbDeleteLoadBalancer _ => answer (Ok tt) s
  | ElbDescribeLoadBalancers names => answer (fakeDescribeElbs names) s
  | ElbAddTags _ _ => notImplemented s
  | RegisterInstancesWithLoadBalancer _ instances => answer (unless_empty instances "Instances") s
  | DeregisterInstancesFromLoadBalancer _ _ => notImplemented s
  | DetachLoadBalancerFromSubnets _ _ => notImplemented s
  | AttachLoadBalancerToSubnets _ subnets => answer (unless_empty subnets "Subnets") s
  | CreateLoadBalancerListeners _ listeners => answer (unless_empty listeners "Listeners") s
  | DeleteLoadBalancerListeners _ _ => notImplemented s
  | ApplySecurityGroupsToLoadBalancer _ groups => answer (unless_empty groups "SecurityGroups") s
  | ConfigureHealthCheck _ _ => notImplemented s
  | CreateLoadBalancerPolicy _ _ _ _ => answer (Ok tt) s
  | SetLoadBalancerPoliciesForBackendServer _ _ _ => notImplemented s
  | SetLoadBalancerPoliciesOfListener _ _ _ => notImplemented s
  | DescribeLoadBalancerPolicies name policies => answer (fakeDescribePolicies name policies) s
  | ElbDescribeLoadBalancerAttributes _ => answer (Ok (mkLoadBalancerAttributes None None None None None)) s
  | ElbModifyLoadBalancerAttributes _ _ => answer (Ok tt) s
  end.

Definition fakeDescribeNlbs (names : list string) : result (list LoadBalancerV2) :=
  match names with
  | [] => missingInput "LoadBalancer names"
  | name :: _ => if String.eqb name "aid" then Ok [] else Err (Errorf "NLB 'aid' could not be found" [])
  end.

Definition FakeELBV2 : service elbv2E FakeAWSServices := λ R c s,
  match c in elbv2E R return outcome (result R) * FakeAWSServices with
  | DescribeLoadBalancers names _ => answer (fakeDescribeNlbs names) s
  | CreateLoadBalancer _ => notImplemented s
  | DeleteLoadBalancer _ => notImplemented s
  | SetSecurityGroups _ _ => notImplemented s
  | SetIpAddressType _ type => answer (Ok tt) (with_type s type)
  | DescribeListeners _ => notImplemented s
  | CreateListener _ => notImplemented s
  | ModifyListener _ => notImplemented s
  | DeleteListener _ => notImplemented s
  | DescribeTargetGroups _ _ => notImplemented s
  | CreateTargetGroup _ => notImplemented s
  | ModifyTargetGroup _ => notImplemented s
  | DeleteTargetGroup _ => notImplemented s
  | DescribeTargetHealth _ => notImplemented s
  | RegisterTargets _ targets => answer (unless_empty targets "Targets") s
  | DeregisterTargets _ _ => notImplemented s
  | DescribeLoadBalancerAttributes _ => notImplemented s
  | ModifyLoadBalancerAttributes _ _ => notImplemented s
  | DescribeTargetGroupAttributes _ => notImplemented s
  | ModifyTargetGroupAttributes _ _ => notImplemented s
  end.

(** The clients that [Compute], [LoadBalancing] and [LoadBalancingV2] give. *)
Definition fakeAWS : service awsE FakeAWSServices := λ R c s,
  match c in awsE R return outcome (result R) * FakeAWSServices with
  | EC2 c => FakeEC2Impl _ c s
  | ELB c => FakeELB _ c s
  | ELBV2 c => FakeELBV2 _ c s
  end.

(** ** The metadata service *)
Definition newline := String "010" "".

(** The first interface of the address, and what is asked of it. *)
Fixpoint indexOf (mac : string) (macs : list string) : option nat :=
  match macs with
  | [] => None
  | m :: macs => if String.eqb mac m then Some 0 else S <$> indexOf mac macs
  end.

Definition interfaceMetadata (s : FakeAWSServices) (key : string) : outcome string :=
  let keySplit := Split key "/" in
  let macParam := keySplit !!! 3 in
  let i := indexOf macParam (fs_networkInterfacesMacs s) in
  match length keySplit, keySplit !! 4, i with
  | 5, Some "vpc-id", Some i =>
     match fs_networkInterfacesVpcIDs s !! i with Some id => Done id | None => Panicked "index out of range" end
  | 5, Some "device-number", Some i =>
     (** with a gap after the first device *)
     Done (Itoa (Z.of_nat (if 0 <? i then S i else i)) +:+ newline)
  | 5, Some "local-ipv4s", Some i =>
     match fs_networkInterfacesPrivateIPs s !! i with
     | Some ips => Done (Join ips ("/" +:+ newline))
     | None => Panicked "index out of range"
     end
  | _, _, _ => Done ""
  end.

Definition networkInterfacesPrefix := "network/interfaces/macs/".

Definition pointed (o : option string) : outcome string :=
  match o with Some text => Done text | None => Panicked "nil pointer dereference" end.

Definition GetMetadata (s : FakeAWSServices) (key : string) : outcome string :=
  let i := fs_selfInstance s in
  if String.eqb key "placement/availability-zone" then
    Done (match i_AvailabilityZone i with Some az => ToString az | None => "" end)
  else if String.eqb key "instance-id" then pointed (i_InstanceId i)
  else if String.eqb key "local-hostname" then pointed (i_PrivateDnsName i)
  else if String.eqb key "public-hostname" then pointed (i_PublicDnsName i)
  else if String.eqb key "local-ipv4" then pointed (fs_selfPrivateIpAddress s)
  else if String.eqb key "public-ipv4" then pointed (i_PublicIpAddress i)
  else if HasPrefix key networkInterfacesPrefix then
    if String.eqb key networkInterfacesPrefix then
      Done (Join (SortStrings (fs_networkInterfacesMacs s)) ("/" +:+ newline) +:+ "/" +:+ newline)
    else interfaceMetadata s key
  else Done "".

(** The start of the provider with the fakes instead of the clients of the SDK; the fake
    [Metadata] does not load a configuration. *)
Definition fakeServices : service startE FakeAWSServices := λ R c s,
  match c in startE R return outcome (result R) * FakeAWSServices with
  | LoadDefaultConfig => answer (Ok tt) s
  | GetInstanceIdentityDocument => answer (Ok tt) s
  | ImdsGetRegion => answer (Ok (fs_region s)) s
  | ImdsGetMetadata path =>
     (match GetMetadata s path with Done text => Done (Ok (Ok text)) | Panicked w => Panicked w end, s)
  | ProviderCall c => fakeAWS _ c s
  end.

(** ** Listing instances *)
Definition selected (ids : list string) (filters : list Filter) (i : Instance_) : bool :=
  match requested ids filters i with Done b => b | Panicked _ => false end.

Lemma matchLoop_filter ids filters l acc names matches matchedInstances :
  matchLoop ids filters l acc names = Done (matches, matchedInstances) →
  matches = acc ++ filter (λ i, selected ids filters i = true) l ∧
  Some <$> matchedInstances = (Some <$> names) ++ (i_InstanceId <$> filter (λ i, selected ids filters i = true) l).
Proof.
  revert acc names. induction l as [|i l IH]; intros acc names; cbn [matchLoop].
  { intros [= <- <-]. by rewrite filter_nil, !app_nil_r. }
  rewrite filter_cons. destruct (requested ids filters i) as [b|w] eqn:E; [|done].
  assert (selected ids filters i = b) as -> by (unfold selected; by rewrite E). destruct b.
  - destruct (i_InstanceId i) as [id|] eqn:Ei; [|done]. intros [-> H2]%IH. rewrite decide_True by done.
    split; [by rewrite <-(assoc_L (++))|]. rewrite fmap_app in H2. rewrite fmap_cons, Ei, H2. by rewrite <-(assoc_L (++)).
  - intros [-> H2]%IH. by rewrite decide_False.
Qed.

(** The answer lists the instances that the ids and the filters select, in order, and the
    call is countedCall under their ids. *)
Lemma fakeDescribeInstances_exact ids filters s r s' :
  fakeDescribeInstances ids filters s = (Done r, s') →
  r = Ok (filter (λ i, selected ids filters i = true) (instances s)) ∧
  ∃ names, Some <$> names = i_InstanceId <$> filter (λ i, selected ids filters i = true) (instances s) ∧
    s' = (countCall s "ec2" "DescribeInstances" (Join names ",")).2.
Proof.
  unfold fakeDescribeInstances, answer. destruct (matchLoop ids filters (instances s) [] []) as [[l names]|w] eqn:E; [|done].
  apply matchLoop_filter in E as [-> Hn]. intros [= <- <-]. split; [done|]. by exists names.
Qed.

(** ** Tagging that succeeds after a while *)
Definition tagCalls (s : FakeAWSServices) (id : string) : nat :=
  default 0 (fs_callCounts s !! Sprintf "%s:%s:%s" ["ec2"; "CreateTags"; id]).

(** An id for which [CreateTags] fails below the count [n]. *)
Record eventually_found (id : string) (n : Z) : Prop := {
  ef_prefix : HasPrefix id "i-not-found-count-" = true;
  ef_count : notFoundCount id = Done n
}.

Lemma prefix_not_eq id other :
  HasPrefix id "i-not-found-count-" = true → HasPrefix other "i-not-found-count-" = false → String.eqb id other = false.
Proof. intros H1 H2. apply String.eqb_neq. intros ->. congruence. Qed.

Lemma HasPrefix_cons c s d p : HasPrefix (String c s) (String d p) = Ascii.eqb d c && HasPrefix s p.
Proof. unfold HasPrefix. cbn. destruct (ascii_dec d c) as [->|Hn]; [by rewrite Ascii.eqb_refl|by apply Ascii.eqb_neq in Hn as ->]. Qed.

Lemma prefix_invalid id : HasPrefix id "i-not-found-count-" = true → HasPrefix id "i-invalid-id" = false.
Proof.
  assert (∀ d p, HasPrefix "" (String d p) = false) as Hnil by done.
  destruct id as [|a [|b [|c id]]]; rewrite ?HasPrefix_cons, ?Hnil, ?andb_false_r; try done.
  destruct (Ascii.eqb "n" c) eqn:E; [|by rewrite !andb_false_r]. apply Ascii.eqb_eq in E as <-. intros _.
  by rewrite !andb_false_r.
Qed.

(** The call after [k] calls fails when it is one of the first [n - 1]. *)
Lemma fakeCreateTags_eventually id n s tags :
  eventually_found id n →
  FakeEC2Impl _ (CreateTags [id] tags) s =
    (Done (if (Z.of_nat (tagCalls s id) + 1 <? n)%Z then Err notFound else Ok tt),
     (countCall s "ec2" "CreateTags" id).2) ∧
  tagCalls (countCall s "ec2" "CreateTags" id).2 id = S (tagCalls s id).
Proof.
  intros [Hp Hn]. split.
  - cbn [FakeEC2Impl fakeCreateTags]. unfold countCall. fold (tagCalls s id). cbn [snd].
    unfold tagOne. rewrite (prefix_not_eq id "i-error" Hp eq_refl), (prefix_not_eq id "i-not-found" Hp eq_refl), Hp.
    rewrite (prefix_invalid id Hp), Hn.
    replace (Z.of_nat (tagCalls s id) + 1)%Z with (Z.of_nat (S (tagCalls s id))) by lia.
    by destruct (Z.of_nat (S (tagCalls s id)) <? n)%Z.
  - unfold tagCalls at 1, countCall. cbn [snd with_callCounts fs_callCounts]. by rewrite lookup_insert_eq.
Qed.

(** ** The tagging controller with the fake EC2

    A cluster of one node, which the lister knows and whose labels can be changed. *)
Record fakeCluster := mkFakeCluster { fc_aws : FakeAWSServices; fc_node : ControllerNode }.

Definition with_labels (node : ControllerNode) (labels : gmap string string) : ControllerNode :=
  let n := kn_node node in
  mkControllerNode (mkNode (node_Name n) (labels ∪ node_Labels n) (node_ProviderID n)) (kn_created node).

Definition fakeControllerCalls : service ctlE fakeCluster := λ R c w,
  match c in ctlE R return outcome (result R) * fakeCluster with
  | CloudCall c => let (r, s) := fakeAWS _ c (fc_aws w) in (r, mkFakeCluster s (fc_node w))
  | ListerGet name =>
     (Done (Ok (if String.eqb name (node_Name (kn_node (fc_node w))) then Some (fc_node w) else None)), w)
  | AddOrUpdateLabelsOnNode name labels =>
     if String.eqb name (node_Name (kn_node (fc_node w)))
     then (Done (Ok tt), mkFakeCluster (fc_aws w) (with_labels (fc_node w) labels))
     else (Done (Err (Errorf "node not found" [])), w)
  | ObserveInitialNodeTaggingDelay _ => (Done (Ok tt), w)
  end.

Section tagging.
Context {GR : GoRange} (odd_authority : string → bool)
  (createTagsBatcher deleteTagsBatcher : list string → list Tag → prog awsE (result (option unit)))
  (tc : Controller) (now : Z) (id : string) (n : Z).
Abbreviation processItem_ := (processItem odd_authority createTagsBatcher deleteTagsBatcher tc now).

(** The controller tags instances, one by one; the node was created lately, and its instance
    is found late. *)
Record tagged_late (w : fakeCluster) : Prop := {
  tl_resources : tc_resources tc = [Instance_resource];
  tl_single : tc_batchingEnabled tc = false;
  tl_id : MapToAWSInstanceID odd_authority (node_ProviderID (kn_node (fc_node w))) = Ok id;
  tl_late : eventually_found id n;
  tl_young : isNodeWithinEventualConsistencyGracePeriod now (fc_node w) = true
}.

Definition itemOf (w : fakeCluster) : workItem :=
  mkWorkItem (node_Name (kn_node (fc_node w))) (node_ProviderID (kn_node (fc_node w))) addTag.
Definition labelled (w : fakeCluster) : bool := negb (isTaggingRequired tc (kn_node (fc_node w))).
Definition calls_made (w : fakeCluster) : nat := tagCalls (fc_aws w) id.

Lemma late_not_variant : eventually_found id n → IsVariantNode id = false.
Proof.
  intros [H _]. unfold IsVariantNode, fargateNodeNamePrefix. destruct id as [|a s]; [done|].
  rewrite HasPrefix_cons in *. destruct (Ascii.eqb "i" a) eqn:E; [|done]. by apply Ascii.eqb_eq in E as <-.
Qed.

Definition countedCall (w : fakeCluster) : fakeCluster :=
  mkFakeCluster (countCall (fc_aws w) "ec2" "CreateTags" id).2 (fc_node w).
Definition checksum_label : gmap string string := {[taggingControllerLabelKey := getChecksumOfTags tc]}.

(** One try. *)
Lemma processItem_late w :
  tagged_late w →
  runService fakeControllerCalls (processItem_ (itemOf w)) w =
  if labelled w then (Done Finished, w)
  else if (Z.of_nat (calls_made w) + 1 <? n)%Z then
    (Done (Failed (Errorf "EC2 instance %s for node %s does not exist, but node is within eventual consistency grace period"
                     [id; node_Name (kn_node (fc_node w))])), countedCall w)
  else (Done Finished, mkFakeCluster (fc_aws (countedCall w)) (with_labels (fc_node w) checksum_label)).
Proof.
  intros [Hres Hs Hid Hlate Hy]. unfold processItem, itemOf. cbn [wi_providerID wi_action wi_name].
  rewrite Hid, (late_not_variant Hlate). rewrite String.eqb_refl, runService_bind, Hres.
  cbn [tagNodesResources]. rewrite String.eqb_refl, runService_bind. cbn [call runService fakeControllerCalls].
  rewrite String.eqb_refl, runService_try. unfold tagEc2Instance, labelled.
  destruct (isTaggingRequired tc (kn_node (fc_node w))); cbn [negb runService]; [|done].
  rewrite Hs. unfold instanceIDOf. rewrite Hid, runService_bind.
  destruct (fakeCreateTags_eventually id n (fc_aws w) (buildAwsTags (tc_tags tc)) Hlate) as [E _].
  unfold TagResource, ec2. cbn [call try bind lift runService fakeControllerCalls fakeAWS].
  rewrite E. cbn [fc_aws]. fold (calls_made w).
  destruct (Z.of_nat (calls_made w) + 1 <? n)%Z; cbn [bind lift runService].
  - change (IsAWSErrorInstanceNotFound notFound) with true. cbv iota. rewrite Hy. done.
  - cbn [fakeControllerCalls fc_node]. rewrite String.eqb_refl. by destruct (isInitialTag _).
Qed.

Lemma labelled_with w labels : labelled (mkFakeCluster labels (with_labels w checksum_label)) = true.
Proof.
  unfold labelled, isTaggingRequired, with_labels, checksum_label. cbn [fc_node kn_node node_Labels].
  rewrite lookup_union, lookup_singleton_eq, union_Some_l. by rewrite String.eqb_refl.
Qed.

(** The cluster after [k] tries. *)
Definition try_once (w : fakeCluster) : fakeCluster := (runService fakeControllerCalls (processItem_ (itemOf w)) w).2.

Lemma try_late w : tagged_late w → tagged_late (try_once w).
Proof.
  intros Hw. unfold try_once. rewrite (processItem_late w Hw). destruct Hw.
  destruct (labelled w); [by split|]. by destruct (_ <? n)%Z; split.
Qed.

Lemma tries_late w k : tagged_late w → tagged_late (Nat.iter k try_once w).
Proof. intros Hw. induction k as [|k IH]; [done|]. by apply try_late. Qed.

Lemma tries_counted w k :
  tagged_late w → labelled w = false → calls_made w = 0 → (Z.of_nat k < Z.max 1 n)%Z →
  let w' := Nat.iter k try_once w in fc_node w' = fc_node w ∧ calls_made w' = k.
Proof.
  intros Hw Hl H0. cbv zeta. induction k as [|k IH]; intros Hk; [done|].
  destruct IH as [IHn IHc]; [lia|]. rewrite Nat.iter_succ. set (w' := Nat.iter k try_once w) in *.
  pose proof (tries_late w k Hw : tagged_late w') as Hw'.
  unfold try_once. rewrite (processItem_late w' Hw').
  assert (labelled w' = false) as -> by (unfold labelled in *; by rewrite IHn).
  assert (Z.of_nat (calls_made w') + 1 <? n = true)%Z as -> by (apply Z.ltb_lt; lia). cbn [snd countedCall fc_node fc_aws].
  split; [done|]. unfold calls_made, countedCall. cbn [fc_aws].
  destruct (fakeCreateTags_eventually id n (fc_aws w') [] (tl_late _ Hw')) as [_ ->]. fold (calls_made w'). by rewrite IHc.
Qed.

(** C21: with the fake EC2, a node whose instance is of the kind that is found late, with the
    count [n] in its id, is labelled after [k] tries of its item exactly when there were at
    least [n] of them, and at least one: only the first [n - 1] calls fail. *)
Theorem tagged_when_found w k :
  tagged_late w → labelled w = false → calls_made w = 0 →
  labelled (Nat.iter k try_once w) = bool_decide (Z.max 1 n ≤ Z.of_nat k)%Z.
Proof.
  intros Hw Hl H0. induction k as [|k IH].
  { cbn [Nat.iter nat_rect]. rewrite Hl, bool_decide_false; [done|lia]. }
  destruct (decide (Z.of_nat k < Z.max 1 n)%Z) as [Hk|Hk].
  - destruct (tries_counted w k Hw Hl H0 Hk) as [Hn Hc]. rewrite Nat.iter_succ. set (w' := Nat.iter k try_once w) in *.
    pose proof (tries_late w k Hw : tagged_late w') as Hw'.
    unfold try_once. rewrite (processItem_late w' Hw'), Hc.
    assert (labelled w' = false) as -> by (unfold labelled in *; by rewrite Hn).
    destruct (Z.ltb_spec (Z.of_nat k + 1) n); cbn [snd].
    + rewrite bool_decide_false by lia. unfold countedCall, labelled in *. cbn [fc_node]. by rewrite Hn.
    + rewrite bool_decide_true by lia. apply labelled_with.
  - rewrite bool_decide_true in IH by lia. rewrite bool_decide_true by lia. rewrite Nat.iter_succ.
    set (w' := Nat.iter k try_once w) in *.
    unfold try_once. rewrite (processItem_late w' (tries_late w k Hw)), IH. exact IH.
Qed.
End tagging.

(** A node whose instance is found at the fourth call. *)
Definition late_id := "i-not-found-count-4-a".
Definition late_cluster : fakeCluster :=
  mkFakeCluster (NewFakeAWSServices "blue") (mkControllerNode (mkNode "node-1" ∅ ("aws:///us-west-2a/" +:+ late_id)) 0).
Definition late_controller : Controller := mkController {["owner" := "team"]} [Instance_resource] false false.
Definition no_tags_batcher (ids : list string) (tags : list Tag) : prog awsE (result (option unit)) := Ret (Ok None).

Lemma tagged_when_found_witness :
  labelled (GR := trie_order) late_controller
    (Nat.iter 4 (try_once (GR := trie_order) (λ _, false) no_tags_batcher no_tags_batcher late_controller 0) late_cluster) = true ∧
  labelled (GR := trie_order) late_controller
    (Nat.iter 3 (try_once (GR := trie_order) (λ _, false) no_tags_batcher no_tags_batcher late_controller 0) late_cluster) = false.
Proof.
  assert (tagged_late (λ _, false) late_controller 0 late_id 4 late_cluster) as H.
  { split; [reflexivity|reflexivity|vm_compute; reflexivity|split; vm_compute; reflexivity|vm_compute; reflexivity]. }
  split.
  - exact (tagged_when_found (GR := trie_order) (λ _, false) no_tags_batcher no_tags_batcher late_controller 0 late_id 4
      late_cluster 4 H eq_refl eq_refl).
  - exact (tagged_when_found (GR := trie_order) (λ _, false) no_tags_batcher no_tags_batcher late_controller 0 late_id 4
      late_cluster 3 H eq_refl eq_refl).
Defined.

(** ** The provider of the tests

    With the fake services and an empty configuration, the provider is that of the cluster
    the services were made for, found by its legacy tag. *)
Definition direct_batcher (ids : list string) : prog awsE (result (list Instance_)) := ec2 (DescribeInstances ids []).
Definition newFakeCloud (clusterID : string) : outcome (result started) * FakeAWSServices :=
  runService fakeServices
    (newAWSCloud2 (GR := trie_order) (λ _, Some (λ _, true)) direct_batcher 0 empty_config (newAWSSDKProvider empty_config) None)
    (NewFakeAWSServices clusterID).

Definition identity (st : started) : awsTagging * string * string :=
  (c_tagging (st_cloud st), c_region (st_cloud st), aw_awsID (c_selfAWSInstance (st_cloud st))).

Lemma newFakeCloud_cluster clusterID :
  clusterID ≠ "" →
  match (newFakeCloud clusterID).1 with Done (Ok st) => Some (identity st) | _ => None end =
  Some (mkTagging clusterID true, "us-west-2", "i-self").
Proof.
  intros H. destruct clusterID as [|a s]; [exfalso; exact (H eq_refl)|]. vm_compute. reflexivity.
Qed.

Example newFakeCloud_untagged :
  match (newFakeCloud "").1 with Done (Err _) => True | _ => False end.
Proof. vm_compute. exact I. Qed.

(** Metadata of the interfaces, in lexical order and with a gap. *)
Example interfaces_metadata :
  let s := NewFakeAWSServices "blue" in
  GetMetadata s "network/interfaces/macs/" =
    Done ("aa:bb:cc:dd:ee:00/" +:+ newline +:+ "aa:bb:cc:dd:ee:01/" +:+ newline) ∧
  GetMetadata s "network/interfaces/macs/aa:bb:cc:dd:ee:01/vpc-id" = Done "vpc-mac1" ∧
  GetMetadata s "network/interfaces/macs/aa:bb:cc:dd:ee:01/device-number" = Done ("2" +:+ newline) ∧
  GetMetadata s "network/interfaces/macs/aa:bb:cc:dd:ee:01/local-ipv4s" = Panicked "index out of range" ∧
  GetMetadata s "public-hostname" = Panicked "nil pointer dereference".
Proof. vm_compute. repeat split; reflexivity. Qed.

(** The instance of the process is the one in the list: a change of its zone shows there. *)
Example WithAz_shared :
  i_AvailabilityZone <$> instances (WithAz (NewFakeAWSServices "blue") "us-west-2c") = [Some (Some "us-west-2c")].
Proof. reflexivity. Qed.
